(** * smart-commit: diff preprocessing and commit-message normalization

    A shallow embedding of the text pipeline of the extension:
    - [src/preprocess.ts]: the line reconciler ([parseDiffLines]), the
      lockfile summarizer ([summarizeLockfile]) and the summary of a staged
      diff ([preprocessDiff] and the functions it calls, module [Summary]),
      whose patterns run on the matcher of module [Regex];
    - [src/webview/main.ts]: the prompt builder and the output normalizer with
      the flat 80..120 subject bound (module [Bounded]), the body lines
      (module [Body]), the sanitizer, parser and formatter of the commit line
      (module [Output]) and the choice of the model (module [Models]);
    - the second copy of the webview normalizer, whose subject minimum depends
      on the change magnitude (module [Magnitude]);
    - [src/analytics.ts], [src/git.ts] and [src/extension.ts]: the usage
      counters, the repository ids, the repository selected at start and the
      poller of the staged diff (modules [Analytics], [Git], [Extension] and
      [Poller]).

    JavaScript strings are sequences of UTF-16 code units; they are modelled
    as lists of code units, so that [length] is the JavaScript [.length]. *)

From Stdlib Require Import Strings.Ascii Strings.String.
From Stdlib Require Import List NArith ZArith Arith Bool Lia Permutation.
Import ListNotations.

(** ** Strings as lists of UTF-16 code units *)

Definition str : Type := list N.

(** An ASCII literal as a JavaScript string. *)
Definition js (s : String.string) : str :=
  map Ascii.N_of_ascii (String.list_ascii_of_string s).

Arguments js s%_string.

Definition sp : N := 32%N.
Definition slash : N := 47%N.
Definition newline : N := 10%N.
Definition emDash : N := 8212%N.        (* U+2014 *)
Definition enDash : N := 8211%N.        (* U+2013 *)
Definition fwComma : N := 65292%N.      (* U+FF0C *)
Definition fwColon : N := 65306%N.      (* U+FF1A *)
Definition fwSemicolon : N := 65307%N.  (* U+FF1B *)

Fixpoint eqb_str (a b : str) : bool :=
  match a, b with
  | [], [] => true
  | x :: a', y :: b' => N.eqb x y && eqb_str a' b'
  | _, _ => false
  end.

(** Truthiness of a JavaScript string: non-empty. *)
Definition truthy (s : str) : bool :=
  match s with [] => false | _ => true end.

(** [a || b] on strings. *)
Definition orElseStr (a b : str) : str := if truthy a then a else b.

(** [a || b] on numbers (0 is falsy). *)
Definition orElse (a b : nat) : nat := if a =? 0 then b else a.

Definition inRange (lo hi c : N) : bool := (N.leb lo c && N.leb c hi)%bool.

Definition isDigit (c : N) : bool := inRange 48 57 c.
Definition isLowerAZ (c : N) : bool := inRange 97 122 c.
Definition isUpperAZ (c : N) : bool := inRange 65 90 c.

(** The class [[a-z0-9]]. *)
Definition isAlnum (c : N) : bool := isLowerAZ c || isDigit c.

(** The class [[a-z0-9]] under the [i] flag (ASCII letters of either case:
    without the [u] flag no other code unit folds onto an ASCII letter). *)
Definition isAlnumI (c : N) : bool := isAlnum c || isUpperAZ c.

(** The class [\w]. *)
Definition isWordChar (c : N) : bool := isAlnumI c || N.eqb c 95.

(** The class [\s], which is also what [trim] strips: WhiteSpace and
    LineTerminator of ECMAScript. *)
Definition isWhite (c : N) : bool :=
  inRange 9 13 c || N.eqb c 32 || N.eqb c 160 || N.eqb c 5760
  || inRange 8192 8202 c || N.eqb c 8232 || N.eqb c 8233 || N.eqb c 8239
  || N.eqb c 8287 || N.eqb c 12288 || N.eqb c 65279.

(** What [.] does not match: the line terminators. *)
Definition isLineTerminator (c : N) : bool :=
  N.eqb c 10 || N.eqb c 13 || N.eqb c 8232 || N.eqb c 8233.

(** [toLowerCase], one code unit at a time.  ASCII letters are exact.  Two
    non-ASCII code units have a lower-case form that contains an ASCII letter
    (U+0130 gives "i" followed by U+0307, U+212A gives "k"); every other
    non-ASCII unit lower-cases to non-ASCII units and is kept as it is.
    This changes no comparison against an ASCII pattern and no normalized
    form ([normalizeForMatch] turns every unit outside [a-z0-9] into a
    space).  It does matter where lower-case forms serve as keys: two texts
    that differ in the case of a non-ASCII letter share a key in the code
    and have two keys here, so a list that the code deduplicates by such
    keys ([buildRequiredTokens], [pushUnique], [addKeyword]) can hold an
    entry more here than in the code. *)
Definition lowerUnit (c : N) : str :=
  if isUpperAZ c then [(c + 32)%N]
  else if N.eqb c 304 then [105%N; 775%N]
  else if N.eqb c 8490 then [107%N]
  else [c].

Definition toLowerCase (s : str) : str := flat_map lowerUnit s.

(** [toUpperCase] of the one-unit string [charAt(0)].  ASCII is handled
    first; for the other units the tables hold the upper-case forms of the
    default case conversion of Unicode 14.0.  A row [(first, last, step,
    upper)] of [upperRanges] stands for the units [first], [first + step],
    ... up to [last], whose upper-case forms are the single units [upper],
    [upper + step], ...; [upperSpecial] lists the units whose upper-case
    form has two or three units.  A unit in neither table, a lone surrogate
    among them, is its own upper-case form. *)
Definition upperRanges : list (N * N * N * N) :=
  [(181, 181, 1, 924); (224, 246, 1, 192); (248, 254, 1, 216);
   (255, 255, 1, 376); (257, 303, 2, 256); (305, 305, 1, 73);
   (307, 311, 2, 306); (314, 328, 2, 313); (331, 375, 2, 330);
   (378, 382, 2, 377); (383, 383, 1, 83); (384, 384, 1, 579);
   (387, 389, 2, 386); (392, 392, 1, 391); (396, 396, 1, 395);
   (402, 402, 1, 401); (405, 405, 1, 502); (409, 409, 1, 408);
   (410, 410, 1, 573); (414, 414, 1, 544); (417, 421, 2, 416);
   (424, 424, 1, 423); (429, 429, 1, 428); (432, 432, 1, 431);
   (436, 438, 2, 435); (441, 441, 1, 440); (445, 445, 1, 444);
   (447, 447, 1, 503); (453, 453, 1, 452); (454, 454, 1, 452);
   (456, 456, 1, 455); (457, 457, 1, 455); (459, 459, 1, 458);
   (460, 460, 1, 458); (462, 476, 2, 461); (477, 477, 1, 398);
   (479, 495, 2, 478); (498, 498, 1, 497); (499, 499, 1, 497);
   (501, 501, 1, 500); (505, 543, 2, 504); (547, 563, 2, 546);
   (572, 572, 1, 571); (575, 576, 1, 11390); (578, 578, 1, 577);
   (583, 591, 2, 582); (592, 592, 1, 11375); (593, 593, 1, 11373);
   (594, 594, 1, 11376); (595, 595, 1, 385); (596, 596, 1, 390);
   (598, 599, 1, 393); (601, 601, 1, 399); (603, 603, 1, 400);
   (604, 604, 1, 42923); (608, 608, 1, 403); (609, 609, 1, 42924);
   (611, 611, 1, 404); (613, 613, 1, 42893); (614, 614, 1, 42922);
   (616, 616, 1, 407); (617, 617, 1, 406); (618, 618, 1, 42926);
   (619, 619, 1, 11362); (620, 620, 1, 42925); (623, 623, 1, 412);
   (625, 625, 1, 11374); (626, 626, 1, 413); (629, 629, 1, 415);
   (637, 637, 1, 11364); (640, 640, 1, 422); (642, 642, 1, 42949);
   (643, 643, 1, 425); (647, 647, 1, 42929); (648, 648, 1, 430);
   (649, 649, 1, 580); (650, 651, 1, 433); (652, 652, 1, 581);
   (658, 658, 1, 439); (669, 669, 1, 42930); (670, 670, 1, 42928);
   (837, 837, 1, 921); (881, 883, 2, 880); (887, 887, 1, 886);
   (891, 893, 1, 1021); (940, 940, 1, 902); (941, 943, 1, 904);
   (945, 961, 1, 913); (962, 962, 1, 931); (963, 971, 1, 931);
   (972, 972, 1, 908); (973, 974, 1, 910); (976, 976, 1, 914);
   (977, 977, 1, 920); (981, 981, 1, 934); (982, 982, 1, 928);
   (983, 983, 1, 975); (985, 1007, 2, 984); (1008, 1008, 1, 922);
   (1009, 1009, 1, 929); (1010, 1010, 1, 1017); (1011, 1011, 1, 895);
   (1013, 1013, 1, 917); (1016, 1016, 1, 1015); (1019, 1019, 1, 1018);
   (1072, 1103, 1, 1040); (1104, 1119, 1, 1024); (1121, 1153, 2, 1120);
   (1163, 1215, 2, 1162); (1218, 1230, 2, 1217); (1231, 1231, 1, 1216);
   (1233, 1327, 2, 1232); (1377, 1414, 1, 1329); (4304, 4346, 1, 7312);
   (4349, 4351, 1, 7357); (5112, 5117, 1, 5104); (7296, 7296, 1, 1042);
   (7297, 7297, 1, 1044); (7298, 7298, 1, 1054); (7299, 7300, 1, 1057);
   (7301, 7301, 1, 1058); (7302, 7302, 1, 1066); (7303, 7303, 1, 1122);
   (7304, 7304, 1, 42570); (7545, 7545, 1, 42877); (7549, 7549, 1, 11363);
   (7566, 7566, 1, 42950); (7681, 7829, 2, 7680); (7835, 7835, 1, 7776);
   (7841, 7935, 2, 7840); (7936, 7943, 1, 7944); (7952, 7957, 1, 7960);
   (7968, 7975, 1, 7976); (7984, 7991, 1, 7992); (8000, 8005, 1, 8008);
   (8017, 8023, 2, 8025); (8032, 8039, 1, 8040); (8048, 8049, 1, 8122);
   (8050, 8053, 1, 8136); (8054, 8055, 1, 8154); (8056, 8057, 1, 8184);
   (8058, 8059, 1, 8170); (8060, 8061, 1, 8186); (8112, 8113, 1, 8120);
   (8126, 8126, 1, 921); (8144, 8145, 1, 8152); (8160, 8161, 1, 8168);
   (8165, 8165, 1, 8172); (8526, 8526, 1, 8498); (8560, 8575, 1, 8544);
   (8580, 8580, 1, 8579); (9424, 9449, 1, 9398); (11312, 11359, 1, 11264);
   (11361, 11361, 1, 11360); (11365, 11365, 1, 570); (11366, 11366, 1, 574);
   (11368, 11372, 2, 11367); (11379, 11379, 1, 11378);
   (11382, 11382, 1, 11381); (11393, 11491, 2, 11392);
   (11500, 11502, 2, 11499); (11507, 11507, 1, 11506);
   (11520, 11557, 1, 4256); (11559, 11559, 1, 4295); (11565, 11565, 1, 4301);
   (42561, 42605, 2, 42560); (42625, 42651, 2, 42624);
   (42787, 42799, 2, 42786); (42803, 42863, 2, 42802);
   (42874, 42876, 2, 42873); (42879, 42887, 2, 42878);
   (42892, 42892, 1, 42891); (42897, 42899, 2, 42896);
   (42900, 42900, 1, 42948); (42903, 42921, 2, 42902);
   (42933, 42947, 2, 42932); (42952, 42954, 2, 42951);
   (42961, 42961, 1, 42960); (42967, 42969, 2, 42966);
   (42998, 42998, 1, 42997); (43859, 43859, 1, 42931);
   (43888, 43967, 1, 5024); (65345, 65370, 1, 65313)]%N.

Definition upperSpecial : list (N * list N) :=
  [(223, [83; 83]); (329, [700; 78]); (496, [74; 780]);
   (912, [921; 776; 769]); (944, [933; 776; 769]); (1415, [1333; 1362]);
   (7830, [72; 817]); (7831, [84; 776]); (7832, [87; 778]);
   (7833, [89; 778]); (7834, [65; 702]); (8016, [933; 787]);
   (8018, [933; 787; 768]); (8020, [933; 787; 769]); (8022, [933; 787; 834]);
   (8064, [7944; 921]); (8065, [7945; 921]); (8066, [7946; 921]);
   (8067, [7947; 921]); (8068, [7948; 921]); (8069, [7949; 921]);
   (8070, [7950; 921]); (8071, [7951; 921]); (8072, [7944; 921]);
   (8073, [7945; 921]); (8074, [7946; 921]); (8075, [7947; 921]);
   (8076, [7948; 921]); (8077, [7949; 921]); (8078, [7950; 921]);
   (8079, [7951; 921]); (8080, [7976; 921]); (8081, [7977; 921]);
   (8082, [7978; 921]); (8083, [7979; 921]); (8084, [7980; 921]);
   (8085, [7981; 921]); (8086, [7982; 921]); (8087, [7983; 921]);
   (8088, [7976; 921]); (8089, [7977; 921]); (8090, [7978; 921]);
   (8091, [7979; 921]); (8092, [7980; 921]); (8093, [7981; 921]);
   (8094, [7982; 921]); (8095, [7983; 921]); (8096, [8040; 921]);
   (8097, [8041; 921]); (8098, [8042; 921]); (8099, [8043; 921]);
   (8100, [8044; 921]); (8101, [8045; 921]); (8102, [8046; 921]);
   (8103, [8047; 921]); (8104, [8040; 921]); (8105, [8041; 921]);
   (8106, [8042; 921]); (8107, [8043; 921]); (8108, [8044; 921]);
   (8109, [8045; 921]); (8110, [8046; 921]); (8111, [8047; 921]);
   (8114, [8122; 921]); (8115, [913; 921]); (8116, [902; 921]);
   (8118, [913; 834]); (8119, [913; 834; 921]); (8124, [913; 921]);
   (8130, [8138; 921]); (8131, [919; 921]); (8132, [905; 921]);
   (8134, [919; 834]); (8135, [919; 834; 921]); (8140, [919; 921]);
   (8146, [921; 776; 768]); (8147, [921; 776; 769]); (8150, [921; 834]);
   (8151, [921; 776; 834]); (8162, [933; 776; 768]); (8163, [933; 776; 769]);
   (8164, [929; 787]); (8166, [933; 834]); (8167, [933; 776; 834]);
   (8178, [8186; 921]); (8179, [937; 921]); (8180, [911; 921]);
   (8182, [937; 834]); (8183, [937; 834; 921]); (8188, [937; 921]);
   (64256, [70; 70]); (64257, [70; 73]); (64258, [70; 76]);
   (64259, [70; 70; 73]); (64260, [70; 70; 76]); (64261, [83; 84]);
   (64262, [83; 84]); (64275, [1348; 1350]); (64276, [1348; 1333]);
   (64277, [1348; 1339]); (64278, [1358; 1350]); (64279, [1348; 1341])]%N.

Definition inUpperRange (c : N) (row : N * N * N * N) : bool :=
  let '(first, last, step, _) := row in
  N.leb first c && N.leb c last && N.eqb ((c - first) mod step) 0.

Definition upperBeyondAscii (c : N) : str :=
  match find (fun entry => N.eqb (fst entry) c) upperSpecial with
  | Some entry => snd entry
  | None =>
      match find (inUpperRange c) upperRanges with
      | Some (first, _, _, upper) => [(upper + (c - first))%N]
      | None => [c]
      end
  end.

Definition upperUnit (c : N) : str :=
  if isLowerAZ c then [(c - 32)%N]
  else if N.ltb c 128 then [c]
  else upperBeyondAscii c.

(** Case folding of the [i] flag for an ASCII pattern unit. *)
Definition foldUnit (c : N) : N := if isUpperAZ c then (c + 32)%N else c.

Fixpoint startsWith (p s : str) : bool :=
  match p, s with
  | [], _ => true
  | x :: p', y :: s' => N.eqb x y && startsWith p' s'
  | _ :: _, [] => false
  end.

(** [startsWith] under the [i] flag. *)
Fixpoint startsWithI (p s : str) : bool :=
  match p, s with
  | [], _ => true
  | x :: p', y :: s' => N.eqb (foldUnit x) (foldUnit y) && startsWithI p' s'
  | _ :: _, [] => false
  end.

Definition endsWith (p s : str) : bool := startsWith (rev p) (rev s).

(** [s.includes(p)]. *)
Fixpoint includes (s p : str) : bool :=
  startsWith p s || match s with [] => false | _ :: t => includes t p end.

(** [/p/i.test(s)] for a literal pattern [p]. *)
Fixpoint includesI (s p : str) : bool :=
  startsWithI p s || match s with [] => false | _ :: t => includesI t p end.

(** [s.indexOf(p)]; [None] stands for -1. *)
Fixpoint indexOf (s p : str) : option nat :=
  if startsWith p s then Some 0
  else match s with
       | [] => None
       | _ :: t => option_map S (indexOf t p)
       end.

Fixpoint dropWhile (f : N -> bool) (s : str) : str :=
  match s with
  | [] => []
  | c :: t => if f c then dropWhile f t else s
  end.

(** Removes the longest suffix whose units all satisfy [f]: the replacement
    of [/[...]+$/] by the empty string. *)
Fixpoint dropEndWhile (f : N -> bool) (s : str) : str :=
  match s with
  | [] => []
  | c :: t => match dropEndWhile f t with
              | [] => if f c then [] else [c]
              | r => c :: r
              end
  end.

Definition trimStart (s : str) : str := dropWhile isWhite s.
Definition trimEnd (s : str) : str := dropEndWhile isWhite s.
Definition trim (s : str) : str := trimEnd (trimStart s).

(** [s.split(d)] for a one-unit separator; never the empty list. *)
Fixpoint split (d : N) (s : str) : list str :=
  match s with
  | [] => [[]]
  | c :: t =>
      if N.eqb c d then [] :: split d t
      else match split d t with
           | seg :: rest => (c :: seg) :: rest
           | [] => [[c]]
           end
  end.

(** [parts.join(sep)]. *)
Fixpoint join (sep : str) (parts : list str) : str :=
  match parts with
  | [] => []
  | [p] => p
  | p :: rest => p ++ sep ++ join sep rest
  end.

(** [s.split('/').pop()]. *)
Definition lastSegment (s : str) : str := last (split slash s) [].

(** Replacement of every maximal run of units satisfying [f] by one space:
    [s.replace(/[...]+/g, ' ')].  [inRun] tells that the unit before was part
    of a run that has been replaced already. *)
Fixpoint replaceRuns (f : N -> bool) (inRun : bool) (s : str) : str :=
  match s with
  | [] => []
  | c :: t =>
      if f c then (if inRun then replaceRuns f true t else sp :: replaceRuns f true t)
      else c :: replaceRuns f false t
  end.

(** [s.replace(/\s+/g, ' ')]. *)
Definition collapseSpaces (s : str) : str := replaceRuns isWhite false s.

(** [s.replace(/\s{2,}/g, ' ')]: only runs of two or more are replaced. *)
Fixpoint collapseSpaces2 (inRun : bool) (s : str) : str :=
  match s with
  | [] => []
  | c :: t =>
      if isWhite c then
        if inRun then collapseSpaces2 true t
        else match t with
             | c2 :: _ => if isWhite c2 then sp :: collapseSpaces2 true t
                          else c :: collapseSpaces2 false t
             | [] => [c]
             end
      else c :: collapseSpaces2 false t
  end.

(** Insertion into a JavaScript [Set] of strings kept in insertion order. *)
Definition setHas (seen : list str) (x : str) : bool := existsb (eqb_str x) seen.
Definition setAdd (seen : list str) (x : str) : list str :=
  if setHas seen x then seen else seen ++ [x].

(** Decimal rendering of a number inside a template literal. *)
Fixpoint decimalGo (fuel n : nat) (acc : str) : str :=
  match fuel with
  | 0 => acc
  | S fuel' =>
      let acc' := (48 + N.of_nat (n mod 10))%N :: acc in
      if n / 10 =? 0 then acc' else decimalGo fuel' (n / 10) acc'
  end.

Definition decimal (n : nat) : str := decimalGo (S n) n [].

(** ** Data model ([FileSummary], [PreprocessResult], settings) *)

Inductive ChangeType := added | deleted | modified | renamed | binary.

Record FileSummary := {
  path : str;
  changeType : ChangeType;
  additions : nat;
  deletions : nat;
  context : list str;
  highlights : list str;
  keywords : list str;
  weight : nat
}.

Record PreprocessResult := {
  repoRoot : str;
  files : list FileSummary;
  lockfileSummaries : list str;
  languageSignals : list (str * nat);
  summaryText : str;
  rawDiff : str;
  truncated : bool;
  totalAdditions : nat;
  totalDeletions : nat
}.

(** [state.lang] of the webview. *)
Inductive Lang := en | zh.

Inductive SubjectStyle := imperative | sentence.

Record PromptConfig := {
  prefix : option str;
  suffix : option str;
  subjectStyle : option SubjectStyle
}.

Definition isSentence (c : PromptConfig) : bool :=
  match subjectStyle c with Some sentence => true | _ => false end.

Definition isEn (l : Lang) : bool := match l with en => true | zh => false end.

(** The verb of a synthesized subject: "update " or its Chinese form
    (U+66F4 U+65B0 and a space). *)
Definition updateWord (l : Lang) : str :=
  match l with en => js "update " | zh => [26356%N; 26032%N; sp] end.

(** ** The functions shared by both copies of the normalizer *)

(** [(a.additions + a.deletions) || a.weight || 0]. *)
Definition score (f : FileSummary) : nat :=
  orElse (additions f + deletions f) (orElse (weight f) 0).

(** [[...files].sort((a, b) => scoreB - scoreA)]: descending by score; the
    sort of the engine is stable, so files of equal score keep their order. *)
Fixpoint insertRanked (x : FileSummary) (l : list FileSummary) : list FileSummary :=
  match l with
  | [] => [x]
  | y :: l' => if score x <? score y then y :: insertRanked x l' else x :: l
  end.

Definition rankFiles (l : list FileSummary) : list FileSummary :=
  fold_right insertRanked [] l.

(** [/updated implementation details|update logic|logic updated/i]. *)
Definition isGenericHighlight (h : str) : bool :=
  includesI h (js "updated implementation details")
  || includesI h (js "update logic")
  || includesI h (js "logic updated").

(** [s.replace(/\bw\b/gi, '')] for a word [w] of word characters.  [prevWord]
    tells whether the unit before is a word character; [skip] counts the
    units of a match still to be dropped. *)
Fixpoint removeWord (w : str) (prevWord : bool) (skip : nat) (s : str) : str :=
  match s with
  | [] => []
  | c :: t =>
      match skip with
      | S k => removeWord w (isWordChar c) k t
      | 0 =>
          if negb prevWord && startsWithI w s
             && negb (match skipn (length w) s with
                      | d :: _ => isWordChar d
                      | [] => false
                      end)
          then removeWord w (isWordChar c) (length w - 1) t
          else c :: removeWord w (isWordChar c) 0 t
      end
  end.

Definition normalizeHighlight (highlight : str) : str :=
  let cleaned :=
    trim (collapseSpaces2 false
      (removeWord (js "file") false 0
        (removeWord (js "touched") false 0
          (removeWord (js "updated") false 0 highlight)))) in
  orElseStr cleaned highlight.

Definition inferDefaultAction (filePath : str) : str :=
  let lower := toLowerCase filePath in
  if endsWith (js ".css") lower || endsWith (js ".scss") lower
     || endsWith (js ".sass") lower || endsWith (js ".less") lower
  then js "styles"
  else if includes lower (js "cmake") || includes lower (js "makefile")
          || startsWith (js "build/") lower || includes lower (js "/build/")
  then js "build config"
  else if includes lower (js "docs") || includes lower (js "readme")
          || endsWith (js ".md") lower
  then js "docs"
  else [].

(** [list[0] ?? '']. *)
Definition firstOr (l : list str) : str := hd [] l.

(** [highlights.find(item => !isGenericHighlight(item))], then
    [highlight ? normalizeHighlight(highlight) : '']. *)
Definition cleanedHighlightOf (hs : list str) : str :=
  match find (fun h => negb (isGenericHighlight h)) hs with
  | Some h => if truthy h then normalizeHighlight h else []
  | None => []
  end.

Definition fragmentDetails (file : FileSummary) : list str :=
  let keyword := trim (firstOr (keywords file)) in
  let d1 := if truthy keyword then [keyword] else [] in
  let ctx := trim (firstOr (context file)) in
  let d2 := if truthy ctx && (length d1 <? 2) then d1 ++ [ctx] else d1 in
  let cleanedHighlight := cleanedHighlightOf (highlights file) in
  let d3 := if truthy cleanedHighlight && (length d2 <? 2)
            then d2 ++ [cleanedHighlight] else d2 in
  if length d3 <? 2 then
    let fallbackAction := inferDefaultAction (path file) in
    if truthy fallbackAction then d3 ++ [fallbackAction] else d3
  else d3.

Definition buildSubjectFragment (file : FileSummary) : str :=
  let base := lastSegment (path file) in
  trim (base ++ [sp] ++ join [sp] (fragmentDetails file)).

Definition buildDetailFragments (diff : PreprocessResult) : list str :=
  filter truthy (map buildSubjectFragment (firstn 5 (rankFiles (files diff)))).

Definition pickHighlight (diff : PreprocessResult) : option str :=
  let highlight :=
    match files diff with
    | top :: _ =>
        match find (fun h => negb (isGenericHighlight h)) (highlights top) with
        | Some h => h
        | None => []
        end
    | [] => []
    end in
  if truthy highlight then Some (normalizeHighlight highlight) else None.

Definition applySubjectStyle (l : Lang) (subject : str) (promptConfig : PromptConfig) : str :=
  if isSentence promptConfig && isEn l then
    match subject with
    | [] => []
    | c :: rest => upperUnit c ++ rest
    end
  else subject.

Definition deriveDetailedSubject (l : Lang) (diff : PreprocessResult)
    (promptConfig : PromptConfig) : str :=
  let subject :=
    match files diff with
    | topFile :: _ =>
        let topHighlight := firstOr (highlights topFile) in
        if truthy topHighlight && negb (isGenericHighlight topHighlight) then
          match context topFile with
          | topContext :: _ =>
              if truthy topContext then topHighlight ++ js " in " ++ topContext
              else topHighlight
          | [] => topHighlight
          end
        else
          match context topFile with
          | topContext :: _ =>
              if truthy topContext then js "update " ++ topContext
              else js "update " ++ lastSegment (path topFile)
          | [] => js "update " ++ lastSegment (path topFile)
          end
    | [] => js "update implementation"
    end in
  applySubjectStyle l subject promptConfig.

(** *** Required tokens and their matching *)

Definition normalizeForMatch (text : str) : str :=
  trim (collapseSpaces
          (replaceRuns (fun c => negb (isAlnum c)) false (toLowerCase text))).

(** The class [[.#/]]. *)
Definition isLeadPunct (c : N) : bool := N.eqb c 46 || N.eqb c 35 || N.eqb c 47.

(** [base.replace(/\.[a-z0-9]+$/i, '')]: the leftmost dot that is followed,
    up to the end, by one or more letters or digits is cut with what follows. *)
Fixpoint stripExtension (s : str) : str :=
  match s with
  | [] => []
  | c :: t =>
      if N.eqb c 46 && truthy t && forallb isAlnumI t then []
      else c :: stripExtension t
  end.

Definition expandTokenVariants (token : str) : list str :=
  let trimmed := trim token in
  if negb (truthy trimmed) then []
  else
    let v1 := setAdd [] trimmed in
    let stripped := dropWhile isLeadPunct trimmed in
    let v2 := if truthy stripped && negb (eqb_str stripped trimmed)
              then setAdd v1 stripped else v1 in
    let base := lastSegment trimmed in
    let v3 := if truthy base && negb (eqb_str base trimmed)
              then setAdd v2 base else v2 in
    let noExt := stripExtension base in
    if truthy noExt && negb (eqb_str noExt base) then setAdd v3 noExt else v3.

(** The inner loop of [matchRequiredTokens]: [true] when it reaches the
    [break], [false] when the variants are exhausted. *)
Fixpoint matchVariants (normalizedSubject : str) (variants : list str) : bool :=
  match variants with
  | [] => false
  | variant :: rest =>
      let normalizedVariant := normalizeForMatch variant in
      if length normalizedVariant <? 3 then matchVariants normalizedSubject rest
      else if truthy normalizedVariant && includes normalizedSubject normalizedVariant
      then true
      else matchVariants normalizedSubject rest
  end.

(** The outer loop: [matched] is both [matchedTokens] and the [seen] set. *)
Fixpoint collectMatches (normalizedSubject : str) (matched tokens : list str) : list str :=
  match tokens with
  | [] => matched
  | token :: rest =>
      if matchVariants normalizedSubject (expandTokenVariants token)
      then collectMatches normalizedSubject (setAdd matched token) rest
      else collectMatches normalizedSubject matched rest
  end.

Record TokenMatch := { ok : bool; matchedTokens : list str }.

Definition matchRequiredTokens (subject : str) (tokens : list str)
    (requiredCount : nat) : TokenMatch :=
  match tokens with
  | [] => {| ok := true; matchedTokens := [] |}
  | _ =>
      let normalizedSubject := normalizeForMatch subject in
      let matched := collectMatches normalizedSubject [] tokens in
      let minCount := Nat.max 1 requiredCount in
      {| ok := minCount <=? length matched; matchedTokens := matched |}
  end.

(** The tokens pushed for one file, before deduplication. *)
Definition tokensOfFile (file : FileSummary) : list str :=
  let parts := split slash (path file) in
  let base := last parts [] in
  let topDir := if 1 <? length parts then hd [] parts else [] in
  (if truthy base then [base] else [])
  ++ filter truthy (firstn 2 (keywords file))
  ++ filter truthy (firstn 2 (context file))
  ++ (if truthy topDir && negb (eqb_str topDir base) then [topDir] else []).

(** The final [filter]: a token is dropped when its lower-case form was seen
    before, and otherwise recorded and kept when longer than one unit. *)
Fixpoint dedupTokens (seen tokens : list str) : list str :=
  match tokens with
  | [] => []
  | token :: rest =>
      let normalized := toLowerCase token in
      if setHas seen normalized then dedupTokens seen rest
      else if 1 <? length token then token :: dedupTokens (setAdd seen normalized) rest
      else dedupTokens (setAdd seen normalized) rest
  end.

Definition buildRequiredTokens (fs : list FileSummary) : list str :=
  dedupTokens [] (flat_map tokensOfFile fs).

(** *** Validation predicates *)

Definition isTooGeneric (message : str) : bool :=
  includesI message (js "updated implementation details")
  || includesI message (js "update logic")
  || includesI message (js "multiple files")
  || includesI message (js "misc")
  || includesI message (js "various")
  || (length message <? 12).

(** [\d+] at the head of [s]: what follows the digits. *)
Definition afterDigits (s : str) : option str :=
  match s with
  | c :: t => if isDigit c then Some (dropWhile isDigit t) else None
  | [] => None
  end.

(** [\+\d+\/-\d+] at the head of [s]: what follows the match. *)
Definition statAt (s : str) : option str :=
  match s with
  | c :: t =>
      if N.eqb c 43 then
        match afterDigits t with
        | Some (c1 :: c2 :: u) =>
            if N.eqb c1 47 && N.eqb c2 45 then afterDigits u else None
        | _ => None
        end
      else None
  | [] => None
  end.

(** [\(\+\d+\/-\d+\)] at the head of [s]. *)
Definition parenStatAt (s : str) : bool :=
  match s with
  | c :: t =>
      N.eqb c 40 &&
      match statAt t with
      | Some (d :: _) => N.eqb d 41
      | _ => false
      end
  | [] => false
  end.

Fixpoint anywhere (m : str -> bool) (s : str) : bool :=
  m s || match s with [] => false | _ :: t => anywhere m t end.

Definition containsDiffStats (subject : str) : bool :=
  anywhere parenStatAt subject
  || anywhere (fun s => match statAt s with Some _ => true | None => false end) subject
  || includesI subject (js "files changed")
  || includesI subject (js "lines:").

Inductive Reason := empty | missingTokens | generic | diffStats | tooShort.

Definition isTooShort (r : Reason) : bool :=
  match r with tooShort => true | _ => false end.

(** The [reasons] array of [ensureSpecificSubject] (the same in both copies). *)
Definition validationReasons (cleaned : str) (requiredTokens : list str)
    (requiredTokenCount minSubjectLength : nat) : list Reason :=
  let tokenMatch := matchRequiredTokens cleaned requiredTokens requiredTokenCount in
  (if length cleaned =? 0 then [empty] else [])
  ++ (if negb (ok tokenMatch) then [missingTokens] else [])
  ++ (if isTooGeneric cleaned then [generic] else [])
  ++ (if containsDiffStats cleaned then [diffStats] else [])
  ++ (if (0 <? minSubjectLength) && (length cleaned <? minSubjectLength)
      then [tooShort] else []).

(** *** What [generateCommitMessage] derives from the diff *)

Definition deriveScope (filePath : str) : str :=
  let parts := split slash filePath in
  if 1 <? length parts then hd [] parts else js "core".

Definition scopeHint (diff : PreprocessResult) : str :=
  match files diff with
  | f :: _ => deriveScope (path f)
  | [] => js "repo"
  end.

Definition requiredTokenCount (diff : PreprocessResult) : nat :=
  if 10 <? length (files diff) then 2 else 1.

Definition requiredTokens (diff : PreprocessResult) : list str :=
  buildRequiredTokens (firstn 3 (rankFiles (files diff))).

Record Weights := { test : nat; docs : nat; config : nat; code : nat }.

Definition isConfigPath (lower : str) : bool :=
  includes lower (js "config")
  || endsWith (js ".yml") lower || endsWith (js ".yaml") lower
  || endsWith (js ".json") lower || endsWith (js ".toml") lower
  || endsWith (js ".ini") lower
  || includes lower (js "cmake") || includes lower (js "makefile")
  || startsWith (js "dist/") lower || includes lower (js "/dist/")
  || startsWith (js "build/") lower || includes lower (js "/build/").

(** One iteration of the loop of [deriveType] over the pair
    ([weights], [total]). *)
Definition deriveTypeStep (acc : Weights * nat) (file : FileSummary) : Weights * nat :=
  let (weights, total) := acc in
  let w := orElse (additions file + deletions file) (orElse (weight file) 1) in
  let total' := total + w in
  let lower := toLowerCase (path file) in
  if includes lower (js "test") || includes lower (js "spec") then
    ({| test := test weights + w; docs := docs weights;
        config := config weights; code := code weights |}, total')
  else if includes lower (js "docs") || includes lower (js "readme")
          || endsWith (js ".md") lower then
    ({| test := test weights; docs := docs weights + w;
        config := config weights; code := code weights |}, total')
  else if isConfigPath lower then
    ({| test := test weights; docs := docs weights;
        config := config weights + w; code := code weights |}, total')
  else
    ({| test := test weights; docs := docs weights;
        config := config weights; code := code weights + w |}, total').

(** [ratio(value) > 0.5] with [ratio = total > 0 ? value / total : 0].  The
    operands are line counts, far below 2^53, where the rounded quotient
    exceeds one half exactly when twice the value exceeds the total. *)
Definition ratioAboveHalf (value total : nat) : bool :=
  (0 <? total) && (total <? 2 * value).

Definition deriveType (diff : PreprocessResult) : str :=
  let (weights, total) :=
    fold_left deriveTypeStep (files diff)
              ({| test := 0; docs := 0; config := 0; code := 0 |}, 0) in
  if ratioAboveHalf (test weights) total then js "test"
  else if ratioAboveHalf (docs weights) total then js "docs"
  else if ratioAboveHalf (config weights) total then js "chore"
  else if totalAdditions diff <? totalDeletions diff then js "refactor"
  else js "feat".

(** Localized pieces of the length expansion. *)
Definition andWord (l : Lang) : str :=
  match l with en => js " and " | zh => [sp; 19982%N; sp] end.

Definition fragmentJoiner (l : Lang) : str :=
  match l with en => js "; " | zh => [fwSemicolon] end.

(** ** The normalizer of [src/webview/main.ts]: subjects of 80 to 120 units *)

Module Bounded.

Definition minSubjectLength : nat := 80.
Definition maxSubjectLength : nat := 120.

(** [' — ', '，', ';', ',', ':'] *)
Definition separators : list str :=
  [[sp; emDash; sp]; [fwComma]; js ";"; js ","; js ":"].

(** The class of the final [replace] of [trimToMax]: full-width comma,
    comma, semicolon, colon, hyphen, en dash, em dash and white space. *)
Definition isTrailingPunct (c : N) : bool :=
  N.eqb c fwComma || N.eqb c 44 || N.eqb c 59 || N.eqb c 58 || N.eqb c 45
  || N.eqb c enDash || N.eqb c emDash || isWhite c.

(** The loop of [trimToMax] over the separators still to be tried. *)
Fixpoint cutAtSeparator (value : str) (maxLength : nat) (seps : list str) : option str :=
  match seps with
  | [] => None
  | separator :: rest =>
      match indexOf value separator with
      | Some index =>
          if (0 <? index) && (index <=? maxLength) then
            let trimmed := trim (firstn index value) in
            if 10 <=? length trimmed then Some trimmed
            else cutAtSeparator value maxLength rest
          else cutAtSeparator value maxLength rest
      | None => cutAtSeparator value maxLength rest
      end
  end.

Definition hardCut (value : str) (maxLength : nat) : str :=
  trim (dropEndWhile isTrailingPunct (firstn maxLength value)).

Definition trimToMax (value : str) (maxLength : nat) : str :=
  if (maxLength =? 0) || (length value <=? maxLength) then value
  else match cutAtSeparator value maxLength separators with
       | Some trimmed => trimmed
       | None => hardCut value maxLength
       end.

Definition expansionPrefix (l : Lang) : str :=
  match l with
  | en => [sp; emDash; sp]
  | zh => [fwComma; 28041%N; 21450%N; fwColon]
  end.

(** [' ' + requiredTokens.slice(0, 4).join(', ')], or the empty string. *)
Definition tokenSnippet (requiredTokens : list str) : str :=
  match requiredTokens with
  | [] => []
  | _ => sp :: join (js ", ") (firstn 4 requiredTokens)
  end.

(** The [for] loop of [ensureSubjectLength]: the fragments appended while
    the candidate stays within [maxLength]; it stops at the first fragment
    that does not fit. *)
Fixpoint appendFragments (l : Lang) (candidate snippet : str) (maxLength : nat)
    (appended : str) (fragments : list str) : str :=
  match fragments with
  | [] => appended
  | fragment :: rest =>
      let next := if truthy appended
                  then appended ++ fragmentJoiner l ++ fragment else fragment in
      let nextCandidate :=
        trim (collapseSpaces (candidate ++ expansionPrefix l ++ next ++ snippet)) in
      if (0 <? maxLength) && (maxLength <? length nextCandidate) then appended
      else appendFragments l candidate snippet maxLength next rest
  end.

Definition ensureSubjectLength (l : Lang) (subject : str) (diff : PreprocessResult)
    (requiredTokens : list str) (promptConfig : PromptConfig)
    (minLength maxLength : nat) : str :=
  let candidate :=
    if (0 <? maxLength) && (maxLength <? length subject)
    then trimToMax subject maxLength else subject in
  if (minLength =? 0) || (minLength <=? length candidate) then candidate
  else
    let fragments := buildDetailFragments diff in
    let snippet := tokenSnippet requiredTokens in
    let appended := appendFragments l candidate snippet maxLength [] fragments in
    let expanded :=
      if truthy appended
      then trim (collapseSpaces (candidate ++ expansionPrefix l ++ appended ++ snippet))
      else candidate in
    if (0 <? minLength) && (length expanded <? minLength) && truthy snippet
       && negb (includes expanded (trim snippet))
    then
      let padded := trim (collapseSpaces (expanded ++ snippet)) in
      if 0 <? maxLength then trimToMax padded maxLength else padded
    else expanded.

Definition buildSpecificSubject (l : Lang) (diff : PreprocessResult)
    (requiredTokens : list str) (requiredTokenCount : nat)
    (promptConfig : PromptConfig) (minSubjectLength maxSubjectLength : nat) : str :=
  let tokens := filter truthy requiredTokens in
  let rankedFiles := rankFiles (files diff) in
  let primaryFragment :=
    match rankedFiles with primary :: _ => buildSubjectFragment primary | [] => [] end in
  let secondaryFragment :=
    match rankedFiles with
    | _ :: secondary :: _ => buildSubjectFragment secondary
    | _ => []
    end in
  let fallbackHighlight := pickHighlight diff in
  let bounded (subject : str) :=
    if (0 <? minSubjectLength) || (0 <? maxSubjectLength)
    then ensureSubjectLength l subject diff requiredTokens promptConfig
           minSubjectLength maxSubjectLength
    else subject in
  if negb (truthy primaryFragment) then
    let base := deriveDetailedSubject l diff promptConfig in
    match tokens with
    | [] => base
    | preferred :: _ =>
        let subject :=
          match fallbackHighlight with
          | Some h => if truthy h then updateWord l ++ preferred ++ [sp] ++ h
                      else updateWord l ++ preferred
          | None => updateWord l ++ preferred
          end in
        applySubjectStyle l subject promptConfig
    end
  else if (1 <? requiredTokenCount)
          && (truthy secondaryFragment || (2 <=? length tokens)) then
    let secondPair := orElseStr secondaryFragment (nth 1 tokens []) in
    applySubjectStyle l
      (bounded (updateWord l ++ primaryFragment ++ andWord l ++ secondPair))
      promptConfig
  else
    applySubjectStyle l (bounded (updateWord l ++ primaryFragment)) promptConfig.

(** [reasons.some(reason => reason !== 'tooShort')] *)
Definition needsFallback (reasons : list Reason) : bool :=
  existsb (fun r => negb (isTooShort r)) reasons.

Definition ensureSpecificSubject (l : Lang) (subject : str)
    (requiredTokens : list str) (requiredTokenCount : nat)
    (minSubjectLength maxSubjectLength : nat)
    (diff : PreprocessResult) (promptConfig : PromptConfig) : str :=
  let cleaned := trim subject in
  let reasons :=
    validationReasons cleaned requiredTokens requiredTokenCount minSubjectLength in
  if needsFallback reasons then
    buildSpecificSubject l diff requiredTokens requiredTokenCount promptConfig
      minSubjectLength maxSubjectLength
  else
    let expanded :=
      if (0 <? minSubjectLength) || (0 <? maxSubjectLength)
      then ensureSubjectLength l cleaned diff requiredTokens promptConfig
             minSubjectLength maxSubjectLength
      else cleaned in
    applySubjectStyle l expanded promptConfig.

End Bounded.

(** ** The second copy of the normalizer: a minimum of 300 units for large
    changes, and no maximum *)

Module Magnitude.

(** [files.length + Math.round((totalAdditions + totalDeletions) / 200)] *)
Definition changeMagnitude (diff : PreprocessResult) : nat :=
  length (files diff) + (totalAdditions diff + totalDeletions diff + 100) / 200.

Definition minSubjectLength (diff : PreprocessResult) : nat :=
  if 10 <=? changeMagnitude diff then 300 else 0.

Definition expansionPrefix (l : Lang) : str :=
  match l with
  | en => [sp; emDash] ++ js " details: "
  | zh => [fwComma; 28041%N; 21450%N; fwColon]
  end.

(** [' ' + requiredTokens.slice(0, 6).join(', ')], or the empty string. *)
Definition tokenSnippet (requiredTokens : list str) : str :=
  match requiredTokens with
  | [] => []
  | _ => sp :: join (js ", ") (firstn 6 requiredTokens)
  end.

Definition ensureSubjectLength (l : Lang) (subject : str) (diff : PreprocessResult)
    (requiredTokens : list str) (promptConfig : PromptConfig) (minLength : nat) : str :=
  if (minLength =? 0) || (minLength <=? length subject) then subject
  else
    let fragments := buildDetailFragments diff in
    let snippet := tokenSnippet requiredTokens in
    let detailText := join (fragmentJoiner l) fragments in
    let expanded :=
      trim (collapseSpaces (subject ++ expansionPrefix l ++ detailText ++ snippet)) in
    if (length expanded <? minLength) && (2 <? length fragments) then
      let extra := join (fragmentJoiner l) (firstn 4 fragments) in
      trim (collapseSpaces (subject ++ expansionPrefix l ++ extra ++ snippet))
    else expanded.

Definition buildSpecificSubject (l : Lang) (diff : PreprocessResult)
    (requiredTokens : list str) (requiredTokenCount : nat)
    (promptConfig : PromptConfig) (minSubjectLength : nat) : str :=
  let tokens := filter truthy requiredTokens in
  let rankedFiles := rankFiles (files diff) in
  let primaryFragment :=
    match rankedFiles with primary :: _ => buildSubjectFragment primary | [] => [] end in
  let secondaryFragment :=
    match rankedFiles with
    | _ :: secondary :: _ => buildSubjectFragment secondary
    | _ => []
    end in
  let fallbackHighlight := pickHighlight diff in
  let lengthened (subject : str) :=
    if 0 <? minSubjectLength
    then ensureSubjectLength l subject diff requiredTokens promptConfig minSubjectLength
    else subject in
  if negb (truthy primaryFragment) then
    let base := deriveDetailedSubject l diff promptConfig in
    match tokens with
    | [] => base
    | preferred :: _ =>
        let subject :=
          match fallbackHighlight with
          | Some h => if truthy h then updateWord l ++ preferred ++ [sp] ++ h
                      else updateWord l ++ preferred
          | None => updateWord l ++ preferred
          end in
        applySubjectStyle l subject promptConfig
    end
  else if (1 <? requiredTokenCount)
          && (truthy secondaryFragment || (2 <=? length tokens)) then
    let secondPair := orElseStr secondaryFragment (nth 1 tokens []) in
    applySubjectStyle l
      (lengthened (updateWord l ++ primaryFragment ++ andWord l ++ secondPair))
      promptConfig
  else
    applySubjectStyle l (lengthened (updateWord l ++ primaryFragment)) promptConfig.

(** [reasons.length > 0] *)
Definition needsFallback (reasons : list Reason) : bool :=
  0 <? length reasons.

Definition ensureSpecificSubject (l : Lang) (subject : str)
    (requiredTokens : list str) (requiredTokenCount : nat)
    (minSubjectLength : nat)
    (diff : PreprocessResult) (promptConfig : PromptConfig) : str :=
  let cleaned := trim subject in
  let reasons :=
    validationReasons cleaned requiredTokens requiredTokenCount minSubjectLength in
  if needsFallback reasons then
    buildSpecificSubject l diff requiredTokens requiredTokenCount promptConfig
      minSubjectLength
  else
    let expanded :=
      if 0 <? minSubjectLength
      then ensureSubjectLength l cleaned diff requiredTokens promptConfig minSubjectLength
      else cleaned in
    applySubjectStyle l expanded promptConfig.

End Magnitude.

(** ** The control flow of [generateCommitMessage]

    Both copies run the same sequence of abort checks, engine calls and
    handlers.  The engine and the caller's [AbortController] are the
    environment: a [Run] fixes what the engine answers and the suspension
    point during which the caller aborts.  The script is single-threaded, so
    the signal can only change while the function is suspended in an
    [await]; suspension points are counted from 1, and an abort at 0 is one
    raised before the call. *)

Module Generation.

Record Prompt := { systemPrompt : str; userPrompt : str }.

Inductive EngineCall :=
| streamingCall (p : Prompt)   (* create({messages, stream: true}) *)
| plainCall (p : Prompt).      (* create({messages}) *)

Inductive StreamEnd := streamDone | streamFails.

Inductive Streaming :=
| createFails
| yields (chunks : list str) (ending : StreamEnd).

Inductive Plain := resolves (content : str) | rejects.

Record Run := {
  abortAt : option nat;
  streaming : Streaming;
  plain : Plain
}.

(** [options.signal.aborted] read after [now] suspensions. *)
Definition aborted (r : Run) (now : nat) : bool :=
  match abortAt r with
  | Some t => t <=? now
  | None => false
  end.

(** How the call ends: an exception, the normalized form of the model's
    completion, or the normalized deterministic fallback of the inner
    [catch]. *)
Inductive Outcome :=
| thrown
| fromCompletion (content : str)
| synthesized.

Record Result := {
  calls : list EngineCall;
  finishedAt : nat;
  outcome : Outcome
}.

(** [for await (const chunk of stream)]: [None] when the loop body or the
    iterator throws.  An abort seen inside the loop awaits
    [interruptGeneration] before throwing. *)
Fixpoint consume (r : Run) (now : nat) (content : str) (chunks : list str)
    (ending : StreamEnd) : nat * option str :=
  match chunks with
  | [] =>
      match ending with
      | streamDone => (S now, Some content)
      | streamFails => (S now, None)
      end
  | delta :: rest =>
      if aborted r (S now) then (S (S now), None)
      else consume r (S now) (content ++ delta) rest ending
  end.

Definition generateCommitMessage (p : Prompt) (r : Run) : Result :=
  if aborted r 0 then {| calls := []; finishedAt := 0; outcome := thrown |}
  else
    let tried :=
      match streaming r with
      | createFails => (1, None)
      | yields chunks ending => consume r 1 [] chunks ending
      end in
    match tried with
    | (now, Some content) =>
        {| calls := [streamingCall p]; finishedAt := now;
           outcome := if aborted r now then thrown else fromCompletion content |}
    | (now, None) =>
        if aborted r now then
          {| calls := [streamingCall p]; finishedAt := now; outcome := thrown |}
        else
          match plain r with
          | resolves content =>
              {| calls := [streamingCall p; plainCall p]; finishedAt := S now;
                 outcome := if aborted r (S now) then thrown
                            else fromCompletion content |}
          | rejects =>
              {| calls := [streamingCall p; plainCall p]; finishedAt := S now;
                 outcome := synthesized |}
          end
    end.

End Generation.

(** ** [src/preprocess.ts]: line reconciler and lockfile summarizer *)

Module Preprocess.

Definition normalizeLine (line : str) : str := trim (collapseSpaces line).

Fixpoint takeWhile (f : N -> bool) (s : str) : str :=
  match s with
  | [] => []
  | c :: t => if f c then c :: takeWhile f t else []
  end.

(** [Number(digits)], exact: the line numbers of a hunk header stay far
    below 2^53, from where on a JavaScript number rounds. *)
Definition numberOf (digits : str) : nat :=
  fold_left (fun acc d => 10 * acc + N.to_nat (d - 48)) digits 0.

(** [/\+([0-9]+)(?:,([0-9]+))?/.exec(line)], then [Number(match[1])]. *)
Fixpoint hunkStart (line : str) : option nat :=
  match line with
  | [] => None
  | c :: t =>
      if N.eqb c 43 && match t with d :: _ => isDigit d | [] => false end
      then Some (numberOf (takeWhile isDigit t))
      else hunkStart t
  end.

Record Scan := {
  nAdditions : nat;
  nDeletions : nat;
  removed : list str;
  added : list str;
  hunks : list nat
}.

(** One iteration of the first loop of [parseDiffLines]. *)
Definition scanLine (st : Scan) (line : str) : Scan :=
  if startsWith (js "@@") line then
    match hunkStart line with
    | Some n => {| nAdditions := nAdditions st; nDeletions := nDeletions st;
                   removed := removed st; added := added st;
                   hunks := hunks st ++ [n] |}
    | None => st
    end
  else if startsWith (js "+++") line || startsWith (js "---") line then st
  else if startsWith (js "+") line then
    {| nAdditions := nAdditions st + 1; nDeletions := nDeletions st;
       removed := removed st; added := added st ++ [tl line];
       hunks := hunks st |}
  else if startsWith (js "-") line then
    {| nAdditions := nAdditions st; nDeletions := nDeletions st + 1;
       removed := removed st ++ [tl line]; added := added st;
       hunks := hunks st |}
  else st.

(** A [Map<string, number>]: entries in insertion order. *)
Definition LineMap : Type := list (str * nat).

Fixpoint mapGet (m : LineMap) (key : str) : option nat :=
  match m with
  | [] => None
  | (k, v) :: rest => if eqb_str k key then Some v else mapGet rest key
  end.

Fixpoint mapSet (m : LineMap) (key : str) (value : nat) : LineMap :=
  match m with
  | [] => [(key, value)]
  | (k, v) :: rest =>
      if eqb_str k key then (k, value) :: rest else (k, v) :: mapSet rest key value
  end.

(** [removedSet.set(key, (removedSet.get(key) ?? 0) + 1)] for every removed line. *)
Definition countRemoved (removedLines : list str) : LineMap :=
  fold_left
    (fun m line =>
       let key := normalizeLine line in
       mapSet m key (match mapGet m key with Some c => c | None => 0 end + 1))
    removedLines [].

(** The loop over the added lines: the lines kept and the map left. *)
Fixpoint cancelAdded (removedSet : LineMap) (addedLines : list str) : list str * LineMap :=
  match addedLines with
  | [] => ([], removedSet)
  | line :: rest =>
      let key := normalizeLine line in
      match mapGet removedSet key with
      | Some (S c) => cancelAdded (mapSet removedSet key c) rest
      | _ => let (kept, m) := cancelAdded removedSet rest in (line :: kept, m)
      end
  end.

Record DiffLines := {
  additions : nat;
  deletions : nat;
  cleanedLines : list str;
  hunkStarts : list nat;
  addedLines : list str;
  removedLines : list str
}.

Definition parseDiffLines (block : str) : DiffLines :=
  let lines := split newline block in
  let st := fold_left scanLine lines
              {| nAdditions := 0; nDeletions := 0; removed := []; added := [];
                 hunks := [] |} in
  let removedSet := countRemoved (removed st) in
  let (kept, left) := cancelAdded removedSet (added st) in
  let netRemoved :=
    map (fun e => js "-" ++ fst e) (filter (fun e => 0 <? snd e) left) in
  {| additions := nAdditions st; deletions := nDeletions st;
     cleanedLines := kept ++ netRemoved; hunkStarts := hunks st;
     addedLines := added st; removedLines := removed st |}.

(** [path.basename] (POSIX flavour: the paths come from [diff --git]
    headers, which use forward slashes). *)
Definition basename (p : str) : str :=
  lastSegment (dropEndWhile (N.eqb slash) p).

Definition quote : N := 34%N.

(** ["version"\s*:] at the head of [s], under the [i] flag. *)
Definition quotedVersionAt (s : str) : bool :=
  startsWithI ([quote] ++ js "version" ++ [quote]) s
  && match dropWhile isWhite (skipn 9 s) with
     | c :: _ => N.eqb c 58
     | [] => false
     end.

(** [/version:/i.test(t) || /"version"\s*:/i.test(t)] *)
Definition hasVersionField (t : str) : bool :=
  includesI t (js "version:") || anywhere quotedVersionAt t.

(** The lazy group [(.+?)] after its first unit, up to the first [@]. *)
Fixpoint lazyUntilAt (s : str) : option str :=
  match s with
  | [] => None
  | c :: t =>
      if N.eqb c 64 then Some []
      else if isLineTerminator c then None
      else option_map (cons c) (lazyUntilAt t)
  end.

(** [/\/(.+?)@/] at the head of [s]: the captured group. *)
Definition packageAt (s : str) : option str :=
  match s with
  | c :: g :: t =>
      if N.eqb c slash && negb (isLineTerminator g)
      then option_map (cons g) (lazyUntilAt t)
      else None
  | _ => None
  end.

(** [trimmed.match(/\/(.+?)@/)?.[1]]: the leftmost match. *)
Fixpoint packageName (s : str) : option str :=
  match packageAt s with
  | Some p => Some p
  | None => match s with [] => None | _ :: t => packageName t end
  end.

Record LockScan := {
  addVersions : nat;
  removeVersions : nat;
  packages : list str
}.

Definition lockLine (st : LockScan) (line : str) : LockScan :=
  if startsWith (js "+") line || startsWith (js "-") line then
    let trimmed := tl line in
    let versioned := hasVersionField trimmed in
    let adds := if versioned && startsWith (js "+") line
                then addVersions st + 1 else addVersions st in
    let rems := if versioned && startsWith (js "-") line
                then removeVersions st + 1 else removeVersions st in
    let pkgs := match packageName trimmed with
                | Some p => if truthy p then setAdd (packages st) p else packages st
                | None => packages st
                end in
    {| addVersions := adds; removeVersions := rems; packages := pkgs |}
  else st.

Definition scanLockfile (block : str) : LockScan :=
  fold_left lockLine (split newline block)
            {| addVersions := 0; removeVersions := 0; packages := [] |}.

Definition summarizeLockfile (block filePath : str) : list str :=
  let base := basename filePath in
  let st := scanLockfile block in
  let totalUpdates :=
    Nat.max (addVersions st) (Nat.max (removeVersions st) (length (packages st))) in
  if totalUpdates =? 0 then [base ++ js ": lockfile updated"]
  else
    let pkgSnippet :=
      if 0 <? length (packages st) then
        js " (" ++ join (js ", ") (firstn 3 (packages st))
        ++ (if 3 <? length (packages st) then js ", ..." else []) ++ js ")"
      else [] in
    [base ++ js ": " ++ decimal totalUpdates ++ js " version entries updated"
     ++ pkgSnippet].

End Preprocess.

(** ** Readings of the specification and sample inputs *)

(** The claim's reading of the scope: the top-level directory of the file
    that ranks first. *)
Definition scopeOfTopRanked (diff : PreprocessResult) : str :=
  match rankFiles (files diff) with
  | f :: _ => deriveScope (path f)
  | [] => js "repo"
  end.

Definition mkFile (p : str) (adds dels : nat) : FileSummary :=
  {| path := p; changeType := modified; additions := adds; deletions := dels;
     context := []; highlights := []; keywords := []; weight := 1 |}.

Definition mkDiff (fs : list FileSummary) (adds dels : nat) : PreprocessResult :=
  {| repoRoot := []; files := fs; lockfileSummaries := []; languageSignals := [];
     summaryText := []; rawDiff := []; truncated := false;
     totalAdditions := adds; totalDeletions := dels |}.

(** A small edit in [docs/] listed before a large one in [src/]. *)
Definition twoDirsDiff : PreprocessResult :=
  mkDiff [mkFile (js "docs/notes.txt") 1 0; mkFile (js "src/parser.ts") 40 5] 41 5.

(** The four buckets of [deriveType] and the bucket a path falls into (the
    first rule that applies, in the order test, docs, config). *)
Inductive Bucket := testBucket | docsBucket | configBucket | codeBucket.

Definition sameBucket (a b : Bucket) : bool :=
  match a, b with
  | testBucket, testBucket | docsBucket, docsBucket
  | configBucket, configBucket | codeBucket, codeBucket => true
  | _, _ => false
  end.

Definition bucketOf (file : FileSummary) : Bucket :=
  let lower := toLowerCase (path file) in
  if includes lower (js "test") || includes lower (js "spec") then testBucket
  else if includes lower (js "docs") || includes lower (js "readme")
          || endsWith (js ".md") lower then docsBucket
  else if isConfigPath lower then configBucket
  else codeBucket.

(** Additions plus deletions, falling back to the weight, then to 1. *)
Definition fileWeight (file : FileSummary) : nat :=
  orElse (additions file + deletions file) (orElse (weight file) 1).

Definition bucketWeight (b : Bucket) (fs : list FileSummary) : nat :=
  list_sum (map fileWeight (filter (fun f => sameBucket (bucketOf f) b) fs)).

Definition totalWeight (fs : list FileSummary) : nat :=
  list_sum (map fileWeight fs).

(** The share of bucket [b] exceeds 50% of the total weight. *)
Definition shareAboveHalf (b : Bucket) (fs : list FileSummary) : bool :=
  totalWeight fs <? 2 * bucketWeight b fs.

(** The type as the specification words it. *)
Definition typeByShares (diff : PreprocessResult) : str :=
  if shareAboveHalf testBucket (files diff) then js "test"
  else if shareAboveHalf docsBucket (files diff) then js "docs"
  else if shareAboveHalf configBucket (files diff) then js "chore"
  else if totalAdditions diff <? totalDeletions diff then js "refactor"
  else js "feat".

(** One Markdown file whose name contains "spec", with 20 added lines. *)
Definition specMdDiff : PreprocessResult :=
  mkDiff [mkFile (js "spec.md") 20 0] 20 0.

(** One Markdown file, 20 added lines. *)
Definition readmeDiff : PreprocessResult :=
  mkDiff [mkFile (js "README.md") 20 0] 20 0.

(** The count a [LineMap] holds for a key ([0] when the key is absent). *)
Definition getCount (m : Preprocess.LineMap) (key : str) : nat :=
  match Preprocess.mapGet m key with Some c => c | None => 0 end.

(** A block whose hunk swaps two lines and re-indents one of them. *)
Definition reorderedBlock : str :=
  join [newline]
    [js "diff --git a/notes.txt b/notes.txt";
     js "--- a/notes.txt";
     js "+++ b/notes.txt";
     js "@@ -1,2 +1,2 @@";
     js "-alpha  one";
     js "-beta";
     js "+beta";
     js "+ alpha one"].








Definition samplePrompt : Generation.Prompt :=
  {| Generation.systemPrompt := js "You are a Git commit message generator.";
     Generation.userPrompt := js "Suggested type: feat" |}.

(** The streaming request fails, the caller aborts while the plain retry is
    pending (the second suspension), and the retry fails too. *)
Definition retryCancelledRun : Generation.Run :=
  {| Generation.abortAt := Some 2;
     Generation.streaming := Generation.createFails;
     Generation.plain := Generation.rejects |}.

(** The streaming attempt of a run fails without cancellation: the request
    is rejected, or the stream breaks after its last chunk, and the signal is
    still clear when the inner [catch] reads it, after one suspension for the
    request and one for every step of the stream. *)
Definition failsUncancelled (r : Generation.Run) : bool :=
  match Generation.streaming r with
  | Generation.createFails => negb (Generation.aborted r 1)
  | Generation.yields chunks Generation.streamFails =>
      negb (Generation.aborted r (2 + length chunks))
  | Generation.yields _ Generation.streamDone => false
  end.

Definition defaultConfig : PromptConfig :=
  {| prefix := None; suffix := None; subjectStyle := None |}.

(** One Rust file with 1800 added lines: the change magnitude is 10, so the
    magnitude copy asks for 300 units. *)
Definition largeParserDiff : PreprocessResult :=
  mkDiff [mkFile (js "src/parser.rs") 1800 0] 1800 0.

(** A specific, well-formed subject of 51 units. *)
Definition shortModelSubject : str :=
  js "refine parser.rs tokenizer and lexer state handling".

(** The normalized form of a text as the specification words it: the text
    lower-cased, with every run of units other than the letters a-z and the
    digits collapsed to one space.  [afterRun] tells that the unit before
    belongs to a run that has its space already. *)
Fixpoint collapseNonAlnum (afterRun : bool) (s : str) : str :=
  match s with
  | [] => []
  | c :: t =>
      if isAlnum c then c :: collapseNonAlnum false t
      else if afterRun then collapseNonAlnum true t
      else sp :: collapseNonAlnum true t
  end.

Definition normalizedAsStated (text : str) : str :=
  collapseNonAlnum false (toLowerCase text).

(** The four variants of a token as the specification lists them: the
    token, the token without leading '.', '#' and '/', its path basename
    (what follows the last '/'), and that basename without extension (the
    extension being the last '.' with the letters and digits, at least one,
    that end the name after it). *)
Fixpoint withoutLeadingMarks (token : str) : str :=
  match token with
  | [] => []
  | c :: t => if existsb (N.eqb c) (js ".#/") then withoutLeadingMarks t else token
  end.

Fixpoint pathBasename (token : str) : str :=
  match token with
  | [] => []
  | c :: t =>
      if existsb (N.eqb slash) t then pathBasename t
      else if N.eqb c slash then t else token
  end.

(** The text before and the text after the last '.'. *)
Fixpoint atLastDot (name : str) : option (str * str) :=
  match name with
  | [] => None
  | c :: t =>
      match atLastDot t with
      | Some (before, after) => Some (c :: before, after)
      | None => if N.eqb c 46 then Some ([], t) else None
      end
  end.

Definition withoutExtension (name : str) : str :=
  match atLastDot name with
  | Some (before, extension) =>
      if truthy extension && forallb isAlnumI extension then before else name
  | None => name
  end.

Definition variantsAsStated (token : str) : list str :=
  [token; withoutLeadingMarks token; pathBasename token;
   withoutExtension (pathBasename token)].

(** The candidates of [expandTokenVariants], before its tests. *)
Definition candidateVariants (trimmed : str) : list str :=
  [trimmed; dropWhile isLeadPunct trimmed; lastSegment trimmed;
   stripExtension (lastSegment trimmed)].

(** A variant counts when its normalized form has at least 3 units and
    occurs in the normalized subject. *)
Definition occursNormalized (normalized : str -> str) (subject variant : str) : bool :=
  (3 <=? length (normalized variant))
  && includes (normalized subject) (normalized variant).

(** The claim as it is stated. *)
Definition matchedAsStated (subject token : str) : bool :=
  existsb (occursNormalized normalizedAsStated subject) (variantsAsStated token).

(** The amended reading: the variants are those of the token without its
    surrounding white space, and a normalized form carries no space at
    either end. *)
Definition normalizedForm (text : str) : str := trim (normalizedAsStated text).

Definition fourVariants (token : str) : list str := variantsAsStated (trim token).

Definition variantMatches (subject variant : str) : bool :=
  occursNormalized normalizedForm subject variant.

(** A token with a space at its end, and a token of one sign and two
    letters. *)
Definition spacedToken : str := js "src/foo/bar.ts ".
Definition hashToken : str := js "#ab".

Definition barToken : str := js "src/foo/bar.ts".

(** [sep] occurs in [value] at index [i] and nowhere before. *)
Definition firstOccurrence (value sep : str) (i : nat) : Prop :=
  i <= length value
  /\ (exists rest, value = firstn i value ++ sep ++ rest)
  /\ forall j, j < i -> startsWith sep (skipn j value) = false.

(** The separator qualifies for the cut: its first occurrence lies at an
    index from 1 to [maxLength] and leaves at least 10 units once trimmed. *)
Definition qualifies (value : str) (maxLength : nat) (sep : str) (i : nat) : Prop :=
  firstOccurrence value sep i
  /\ 0 < i <= maxLength
  /\ 10 <= length (trim (firstn i value)).

(** The claim's reading of the cut: the last index up to [maxLength] at
    which one of the safe separators (em dash, full-width comma, semicolon,
    comma, colon) stands and which leaves at least 10 units. *)
Definition safeSeparators : list N := [emDash; fwComma; 59%N; 44%N; 58%N].

Definition safeCutAt (value : str) (i : nat) : bool :=
  match skipn i value with
  | c :: _ => existsb (N.eqb c) safeSeparators
  | [] => false
  end
  && (10 <=? length (trim (firstn i value))).

Definition lastSafeCut (value : str) (maxLength : nat) : option nat :=
  match rev (filter (safeCutAt value) (seq 0 (S maxLength))) with
  | i :: _ => Some i
  | [] => None
  end.

(** A subject of 134 units with commas after 13 and after 20 units. *)
Definition longSubject : str :=
  js "update parser, lexer, tokenizer and the accompanying documentation for the incremental parsing pipeline including error recovery paths".

Definition sentenceConfig : PromptConfig :=
  {| prefix := None; suffix := None; subjectStyle := Some sentence |}.

(** A subject of 120 units that starts with the ligature U+FB01, whose
    upper-case form is the two letters "FI". *)
Definition ligatureSubject : str :=
  64257%N :: js "x the recovery of the parser after lexer errors and document the state machine of the tokenizer in the handbook as well".

(** Two files whose fragments have 87 and 50 units: after a subject of 31
    units the first does not fit in 120 units, the second alone would. *)
Definition highlightDiff : PreprocessResult :=
  mkDiff [{| path := js "src/parser.ts"; changeType := modified;
             additions := 90; deletions := 0; context := [];
             highlights := [js "rewrite the incremental parsing pipeline with error recovery for large inputs"];
             keywords := []; weight := 1 |};
          {| path := js "src/lexer.ts"; changeType := modified;
             additions := 10; deletions := 0; context := [];
             highlights := [js "adjust state handling for nested comments"];
             keywords := []; weight := 1 |}] 100 0.

Definition recoverySubject : str := js "refine parser.ts error recovery".

(** One file with two long keywords, and a subject of 68 units with a comma
    after 16 units. *)
Definition keywordDiff : PreprocessResult :=
  mkDiff [{| path := js "src/parser.ts"; changeType := modified;
             additions := 90; deletions := 0; context := []; highlights := [];
             keywords := [js "incrementalParsingPipeline"; js "errorRecoveryStrategy"];
             weight := 1 |}] 90 0.

Definition commaSubject : str :=
  js "refine parser.ts, the lexer and the tokenizer state machine handling".

(** The entry that ranks first is a directory, "src/": its fragment is
    empty.  The first entry of the list carries a long highlight. *)
Definition directoryDiff : PreprocessResult :=
  mkDiff [{| path := js "src/parser.ts"; changeType := modified;
             additions := 10; deletions := 0; context := [];
             highlights := [js "rewrite the incremental parsing pipeline with error recovery and streaming tokenizer support for large inputs and nested comments"];
             keywords := []; weight := 1 |};
          {| path := js "src/"; changeType := modified;
             additions := 50; deletions := 0; context := []; highlights := [];
             keywords := []; weight := 1 |}] 60 0.

(** The fragment of the file that ranks first ([primaryFragment] of
    [buildSpecificSubject]). *)
Definition primaryFragmentOf (diff : PreprocessResult) : str :=
  match rankFiles (files diff) with
  | primary :: _ => buildSubjectFragment primary
  | [] => []
  end.

(** *** Words of a normalized text

    The normalized form of a text is the list of its maximal runs of
    [a-z0-9] after lower-casing, joined by single spaces. *)

Definition headAlnum (s : str) : bool :=
  match s with c :: _ => isAlnum c | [] => false end.

Fixpoint wordsOf (s : str) : list str :=
  match s with
  | [] => []
  | c :: t =>
      if isAlnum c then
        if headAlnum t then
          match wordsOf t with
          | w :: ws => (c :: w) :: ws
          | [] => [[c]]
          end
        else [c] :: wordsOf t
      else wordsOf t
  end.

(** The units whose lower-case form contains a letter or a digit. *)
Definition isWordUnit (c : N) : bool := isAlnumI c || N.eqb c 304 || N.eqb c 8490.

(** The units that name a separator of [trimToMax]: em dash, full-width
    comma, semicolon, comma, colon. *)
Definition isSeparatorUnit (c : N) : bool :=
  N.eqb c emDash || N.eqb c fwComma || N.eqb c 59 || N.eqb c 44 || N.eqb c 58.

(** [r] is empty or starts with a unit that belongs to no word. *)
Definition boundary (r : str) : Prop :=
  match r with [] => True | c :: _ => isWordUnit c = false end.

(** [a] starts with a unit that is not white space and ends with a unit of a
    word. *)
Definition edges (a : str) : Prop :=
  (exists c t, a = c :: t /\ isWhite c = false)
  /\ (exists t c, a = t ++ [c] /\ isWordUnit c = true).

(** [x] starts with a part [a] that carries the words [A], is delimited as
    [edges] says, satisfies [Q], and is followed by a [boundary]. *)
Definition anchored (A : list str) (Q : str -> Prop) (x : str) : Prop :=
  exists a r, x = a ++ r /\ boundary r /\ wordsOf (toLowerCase a) = A
              /\ edges a /\ Q a.

(** A file named by two letters in the repository root. *)
Definition shortNameDiff : PreprocessResult :=
  mkDiff [{| path := js "go"; changeType := modified; additions := 1; deletions := 0;
             context := []; highlights := [js "update go"]; keywords := [];
             weight := 1 |}] 1 0.

Definition loginDiff : PreprocessResult :=
  mkDiff [{| path := js "src/auth/login.ts"; changeType := modified;
             additions := 40; deletions := 5; context := [];
             highlights := [js "typescript sources updated"; js "src module updated"];
             keywords := [js "validateToken"]; weight := 1 |};
          {| path := js "src/auth/session.ts"; changeType := modified;
             additions := 3; deletions := 1; context := [];
             highlights := [js "typescript sources updated"]; keywords := [];
             weight := 1 |}] 43 6.

(** The class that [normalizeForMatch] replaces: everything but [a-z0-9]. *)
Definition notAlnum (c : N) : bool := negb (isAlnum c).

(** Two texts with the same words that both start, or both do not start,
    inside a word. *)
Definition sameWords (x y : str) : Prop :=
  headAlnum x = headAlnum y /\ wordsOf x = wordsOf y.

(** The anchored part fits the maximum and holds no separator of
    [trimToMax]. *)
Definition fits (maxLength : nat) (a : str) : Prop :=
  length a <= maxLength
  /\ forallb (fun c => negb (isSeparatorUnit c)) a = true.

(** Where sentence case applies (English), [a] starts with an ASCII unit. *)
Definition asciiHead (l : Lang) (a : str) : Prop :=
  isEn l = true -> exists c t, a = c :: t /\ (c < 128)%N.

(** The files whose basenames a synthesized subject has to carry: as many
    of the top-ranked files as tokens are required. *)
Definition namedFiles (diff : PreprocessResult) : list FileSummary :=
  firstn (requiredTokenCount diff) (rankFiles (files diff)).

Definition baseOf (file : FileSummary) : str := lastSegment (path file).

(** The start of the synthesized subject up to the last of these basenames. *)
Definition namedPart (l : Lang) (diff : PreprocessResult) : str :=
  match namedFiles diff with
  | [primary] => updateWord l ++ baseOf primary
  | [primary; secondary] =>
      updateWord l ++ buildSubjectFragment primary ++ andWord l ++ baseOf secondary
  | _ => []
  end.

(** Eight further files with one added line each. *)
Definition fillerFiles : list FileSummary :=
  map (fun p => mkFile p 1 0)
    [js "a1"; js "a2"; js "a3"; js "a4"; js "a5"; js "a6"; js "a7"; js "a8"].

(** Eleven files; the two that rank first are "main.ts" and "util.ts". *)
Definition elevenFilesDiff : PreprocessResult :=
  mkDiff ([mkFile (js "src/main.ts") 50 0; mkFile (js "src/util.ts") 40 0;
           mkFile (js "notes.md") 30 0] ++ fillerFiles) 128 0.

(** Eleven files; the second and the third are named by two letters. *)
Definition shortSecondDiff : PreprocessResult :=
  mkDiff ([mkFile (js "main.ts") 50 0; mkFile (js "go") 40 0;
           mkFile (js "io") 30 0] ++ fillerFiles) 128 0.

(** Eleven files; the three that rank first are all named "index.ts". *)
Definition sameNameDiff : PreprocessResult :=
  mkDiff ([mkFile (js "a/index.ts") 50 0; mkFile (js "b/index.ts") 40 0;
           mkFile (js "c/index.ts") 30 0] ++ fillerFiles) 128 0.

(** One file whose name has 129 units. *)
Definition longNameDiff : PreprocessResult :=
  mkDiff [mkFile (js "GeneratedBindingsForTheIncrementalParsingPipelineWithErrorRecoveryAndStreamingTokenizerSupportForVeryLargeInputsAndNestedComments") 5 0] 5 0.

(** One file with a comma in its name and a keyword of 102 units. *)
Definition commaNameDiff : PreprocessResult :=
  mkDiff [{| path := js "data,final_results.csv"; changeType := modified;
             additions := 5; deletions := 0; context := []; highlights := [];
             keywords := [js "regenerateTheQuarterlyAggregatesForEveryRegionAndRecomputeTheDerivedColumnsOfTheFinalReportSheetsAgain"];
             weight := 1 |}] 5 0.

(** Eleven files; the fragment of the first has 139 units. *)
Definition longPairDiff : PreprocessResult :=
  mkDiff ([{| path := js "main.ts"; changeType := modified;
              additions := 50; deletions := 0; context := [];
              highlights := [js "rewrite the incremental parsing pipeline with error recovery and streaming tokenizer support for very large inputs and nested comments"];
              keywords := []; weight := 1 |};
           mkFile (js "util.ts") 40 0; mkFile (js "notes.md") 30 0]
          ++ fillerFiles) 128 0.

(** Eleven files; the fragment of the first holds a comma. *)
Definition commaPairDiff : PreprocessResult :=
  mkDiff ([{| path := js "main.ts"; changeType := modified;
              additions := 50; deletions := 0; context := [];
              highlights := [js "rewrite the incremental parsing pipeline with error recovery, streaming tokenizer support and nested comments"];
              keywords := []; weight := 1 |};
           mkFile (js "secondaryModuleImplementation.ts") 40 0;
           mkFile (js "tertiaryModuleImplementation.ts") 30 0]
          ++ fillerFiles) 128 0.

(** Decidable equality of strings, for counting occurrences. *)
Definition str_eq_dec (a b : str) : {a = b} + {a <> b} := list_eq_dec N.eq_dec a b.

(** Proof automation for facts about classes of code units. *)
Ltac boolN :=
  repeat match goal with
    | H : (_ || _)%bool = true |- _ => apply orb_true_iff in H; destruct H
    | H : (_ && _)%bool = true |- _ => apply andb_true_iff in H; destruct H
    | H : (_ || _)%bool = false |- _ => apply orb_false_iff in H; destruct H
    | H : (_ && _)%bool = false |- _ => apply andb_false_iff in H; destruct H
    | H : negb _ = true |- _ => apply negb_true_iff in H
    | H : negb _ = false |- _ => apply negb_false_iff in H
    | H : N.leb _ _ = true |- _ => apply N.leb_le in H
    | H : N.leb _ _ = false |- _ => apply N.leb_gt in H
    | H : N.eqb _ _ = true |- _ => apply N.eqb_eq in H
    | H : N.eqb _ _ = false |- _ => apply N.eqb_neq in H
    end.

Ltac unfoldUnits :=
  unfold Bounded.isTrailingPunct, isSeparatorUnit, isWordUnit, isAlnumI, isAlnum,
    isLowerAZ, isUpperAZ, isDigit, isWhite, inRange,
    sp, emDash, enDash, fwComma, fwColon, fwSemicolon in *.

(** The added and the removed lines of a diff block, as a unified diff has
    them: the lines that start with '+' (with '-'), each without its sign.
    The two lines that name the files, "--- a/path" and "+++ b/path", stand
    before the first hunk header and are no such lines. *)
Definition isHunkHeader (line : str) : bool := startsWith (js "@@") line.

Definition isFileHeader (line : str) : bool :=
  startsWith (js "+++") line || startsWith (js "---") line.

(** The lines before the first hunk header, and the lines from it on. *)
Fixpoint headerLines (lines : list str) : list str :=
  match lines with
  | [] => []
  | line :: rest => if isHunkHeader line then [] else line :: headerLines rest
  end.

Fixpoint hunkLines (lines : list str) : list str :=
  match lines with
  | [] => []
  | line :: rest => if isHunkHeader line then line :: rest else hunkLines rest
  end.

Definition changeLines (block : str) : list str :=
  let lines := split newline block in
  filter (fun line => negb (isFileHeader line)) (headerLines lines) ++ hunkLines lines.

Definition addedLinesOf (block : str) : list str :=
  map (@tl N) (filter (startsWith (js "+")) (changeLines block)).

Definition removedLinesOf (block : str) : list str :=
  map (@tl N) (filter (startsWith (js "-")) (changeLines block)).

(** A line as the specification normalizes it: every run of white space
    collapsed to one space, and no white space at either end.  [afterSpace]
    tells that the unit before belongs to a run that has its space. *)
Fixpoint collapseWhite (afterSpace : bool) (line : str) : str :=
  match line with
  | [] => []
  | c :: t =>
      if isWhite c then
        if afterSpace then collapseWhite true t else sp :: collapseWhite true t
      else c :: collapseWhite false t
  end.

Definition collapsedAndTrimmed (line : str) : str := trim (collapseWhite false line).

(** No line of a hunk starts with "+++" or "---": no added line has a text
    that starts with "++" and no removed line one that starts with "--". *)
Definition plainHunks (block : str) : bool :=
  forallb (fun line => negb (isFileHeader line)) (hunkLines (split newline block)).

(** A comment of an SQL file moved one line down: a removed and an added
    line with the text "-- old comment". *)
Definition movedCommentBlock : str :=
  join [newline]
    [js "diff --git a/query.sql b/query.sql";
     js "index 83db48f..bf12a59 100644";
     js "--- a/query.sql";
     js "+++ b/query.sql";
     js "@@ -1,2 +1,2 @@";
     js "--- old comment";
     js " select 1;";
     js "+-- old comment"].

(** What the first loop of [parseDiffLines] collects: it passes over hunk
    headers and over every line that starts with "+++" or "---". *)
Definition isAddedLine (line : str) : bool :=
  negb (startsWith (js "@@") line) && negb (isFileHeader line)
  && startsWith (js "+") line.

Definition isRemovedLine (line : str) : bool :=
  negb (startsWith (js "@@") line) && negb (isFileHeader line)
  && negb (startsWith (js "+") line) && startsWith (js "-") line.

(** The caller aborted before the call. *)
Definition abortedBeforeRun : Generation.Run :=
  {| Generation.abortAt := Some 0;
     Generation.streaming := Generation.createFails;
     Generation.plain := Generation.rejects |}.

(** ** The body lines of [src/webview/main.ts] *)

Module Body.

(** The verbs of the English pattern of [hasActionVerb]. *)
Definition enVerbs : list str :=
  [js "add"; js "create"; js "update"; js "adjust"; js "fix"; js "resolve";
   js "refine"; js "improve"; js "optimize"; js "remove"; js "rename";
   js "support"; js "align"; js "document"; js "refactor"; js "handle";
   js "guard"; js "normalize"; js "extend"; js "clean"].

(** The verbs of the Chinese pattern, as UTF-16 code units, in the order of
    the source. *)
Definition zhVerbs : list str :=
  [[26032; 22686]; [28155; 21152]; [26356; 26032]; [35843; 25972];
   [20462; 22797]; [20248; 21270]; [23436; 21892]; [34917; 20805];
   [25903; 25345]; [20860; 23481]; [37325; 26500]; [36991; 20813];
   [22788; 29702]; [35268; 33539]; [22686; 24378]; [31227; 38500];
   [21024; 38500]; [37325; 21629; 21517]]%N.

(** The next unit, if there is one, is a word character. *)
Definition headIsWord (s : str) : bool :=
  match s with c :: _ => isWordChar c | [] => false end.

(** [\b(v1|...|vn)\b] under the [i] flag at the head of [s]; [prevWord]
    tells whether the unit before is a word character.  Every verb starts
    and ends with a letter, so the first [\b] asks for no word character
    before and the second for none after. *)
Definition verbAt (verbs : list str) (prevWord : bool) (s : str) : bool :=
  negb prevWord
  && existsb (fun v => startsWithI v s && negb (headIsWord (skipn (length v) s))) verbs.

(** The search of the pattern from left to right. *)
Fixpoint verbFrom (verbs : list str) (prevWord : bool) (s : str) : bool :=
  verbAt verbs prevWord s
  || match s with
     | [] => false
     | c :: t => verbFrom verbs (isWordChar c) t
     end.

Definition hasActionVerb (l : Lang) (line : str) : bool :=
  match l with
  | zh => existsb (includes line) zhVerbs
  | en => verbFrom enVerbs false line
  end.

(** [state.lang === 'zh' ? z : e]. *)
Definition localized (l : Lang) (z e : str) : str :=
  match l with zh => z | en => e end.

(** [pickActionVerb(file, hint)]; every call of the source passes a hint. *)
Definition pickActionVerb (l : Lang) (file : option FileSummary) (hint : str) : str :=
  let text :=
    toLowerCase (hint ++ [sp] ++ match file with
                                 | Some f => join [sp] (highlights f)
                                 | None => []
                                 end) in
  if includes text (js "bug") || includes text (js "fix")
     || includes text (js "crash") || includes text (js "issue")
  then localized l [20462; 22797]%N (js "fix")
  else if includes text (js "perf") || includes text (js "optimise")
          || includes text (js "optimize") || includes text (js "latency")
          || includes text (js "cache")
  then localized l [20248; 21270]%N (js "optimize")
  else if includes text (js "doc") || includes text (js "readme")
          || includes text (js "docs")
  then localized l [34917; 20805]%N (js "document")
  else if includes text (js "test") || includes text (js "spec")
  then localized l [26356; 26032]%N (js "update")
  else
    match option_map changeType file with
    | Some added => localized l [26032; 22686]%N (js "add")
    | Some deleted => localized l [21024; 38500]%N (js "remove")
    | Some renamed => localized l [37325; 21629; 21517]%N (js "rename")
    | _ => localized l [26356; 26032]%N (js "update")
    end.

Definition colon : N := 58%N.

Definition ensureActionVerb (l : Lang) (line : str) (file : option FileSummary) : str :=
  if hasActionVerb l line then line
  else
    let action := pickActionVerb l file line in
    if negb (truthy action) then line
    else
      let plain := match l with
                   | zh => action ++ line
                   | en => action ++ [sp] ++ line
                   end in
      match indexOf line [colon] with
      | Some colonIndex =>
          if colonIndex <? length line - 1 then
            let head := firstn (colonIndex + 1) line in
            let tail := trim (skipn (colonIndex + 1) line) in
            match l with
            | zh => trim (head ++ [sp] ++ action ++ tail)
            | en => trim (head ++ [sp] ++ action ++ [sp] ++ tail)
            end
          else plain
      | None => plain
      end.

Definition findFileForLine (line : str) (fs : list FileSummary) : option FileSummary :=
  let head := trim (hd [] (split colon line)) in
  if negb (truthy head) then None
  else
    let lowerHead := toLowerCase head in
    find (fun file =>
            let base := toLowerCase (lastSegment (path file)) in
            truthy base && includes lowerHead base) fs.

(** The closure [addDetail] of [collectFileDetails], on the array it fills. *)
Definition addDetail (details : list str) (value : str) : list str :=
  let trimmed := trim value in
  if negb (truthy value) then details
  else if negb (truthy trimmed) then details
  else if existsb (eqb_str trimmed) details then details
  else details ++ [trimmed].

Definition collectFileDetails (file : FileSummary) : list str :=
  let d1 := fold_left addDetail (firstn 3 (keywords file)) [] in
  let d2 := if length d1 <? 3
            then match context file with
                 | c :: _ => addDetail d1 c
                 | [] => d1
                 end
            else d1 in
  let d3 := if length d2 <? 3
            then addDetail d2 (cleanedHighlightOf (highlights file))
            else d2 in
  let d4 := if length d3 <? 3
            then addDetail d3 (inferDefaultAction (path file))
            else d3 in
  firstn 3 d4.

(** The ideographic comma U+3001. *)
Definition zhJoiner : str := [12289%N].

Definition formatBodyLine (l : Lang) (base : str) (details : list str)
    (file : FileSummary) : str :=
  let action := pickActionVerb l (Some file) (join [sp] details) in
  let joiner := localized l zhJoiner (js ", ") in
  let detailText := join joiner (filter truthy details) in
  match l with
  | zh => trim (base ++ js ": " ++ action ++ detailText)
  | en => trim (base ++ js ": " ++ action ++ [sp] ++ detailText)
  end.

(** The array [lines] and the set [seen] of [buildBodyLines].  The keys of
    [seen] are lower-case forms, which [toLowerCase] gives exactly for ASCII
    text; the properties of the lines proved below use only that equal
    lines have equal keys. *)
Record Lines := { lines : list str; seen : list str }.

Definition pushUnique (st : Lines) (line : str) : Lines :=
  let trimmed := trim line in
  if negb (truthy trimmed) then st
  else
    let key := toLowerCase trimmed in
    if setHas (seen st) key then st
    else {| lines := lines st ++ [trimmed]; seen := setAdd (seen st) key |}.

Record Bundle := { file : FileSummary; base : str; details : list str }.

Definition bundleOf (f : FileSummary) : Bundle :=
  {| file := f; base := lastSegment (path f); details := collectFileDetails f |}.

(** The first loop of [buildBodyLines]: one line per file with details, up
    to [maxLines]. *)
Fixpoint firstPass (l : Lang) (maxLines : nat) (bundles : list Bundle) (st : Lines) : Lines :=
  match bundles with
  | [] => st
  | b :: rest =>
      if length (details b) =? 0 then firstPass l maxLines rest st
      else
        let st' := pushUnique st (formatBodyLine l (base b) (details b) (file b)) in
        if maxLines <=? length (lines st') then st'
        else firstPass l maxLines rest st'
  end.

(** The inner loop of the second pass: one line per detail of a file. *)
Fixpoint perDetail (l : Lang) (minLines : nat) (b : Bundle) (ds : list str)
    (st : Lines) : Lines :=
  match ds with
  | [] => st
  | detail :: rest =>
      if minLines <=? length (lines st) then st
      else perDetail l minLines b rest
             (pushUnique st (formatBodyLine l (base b) [detail] (file b)))
  end.

Fixpoint secondPass (l : Lang) (minLines : nat) (bundles : list Bundle) (st : Lines) : Lines :=
  match bundles with
  | [] => st
  | b :: rest =>
      let st' := perDetail l minLines b (details b) st in
      if minLines <=? length (lines st') then st'
      else secondPass l minLines rest st'
  end.

(** The third loop: "Update <fragment>" lines. *)
Fixpoint thirdPass (l : Lang) (minLines : nat) (fragments : list str) (st : Lines) : Lines :=
  match fragments with
  | [] => st
  | fragment :: rest =>
      if minLines <=? length (lines st) then st
      else thirdPass l minLines rest
             (pushUnique st (localized l ([26356; 26032; sp]%N ++ fragment)
                                         (js "Update " ++ fragment)))
  end.

Definition buildBodyLines (l : Lang) (diff : PreprocessResult)
    (minLines maxLines : nat) : list str :=
  let bundles := map bundleOf (rankFiles (files diff)) in
  let st1 := firstPass l maxLines bundles {| lines := []; seen := [] |} in
  let st2 := if length (lines st1) <? minLines
             then secondPass l minLines bundles st1 else st1 in
  let st3 := if length (lines st2) <? minLines
             then thirdPass l minLines (buildDetailFragments diff) st2 else st2 in
  map (fun line => ensureActionVerb l line None) (firstn maxLines (lines st3)).

(** The loop of [normalizeBodyLines] that keeps the first line of each
    lower-case form. *)
Fixpoint uniqueLines (seen : list str) (cleaned : list str) : list str :=
  match cleaned with
  | [] => []
  | line :: rest =>
      let key := toLowerCase line in
      if setHas seen key then uniqueLines seen rest
      else line :: uniqueLines (setAdd seen key) rest
  end.

Definition normalizeBodyLines (l : Lang) (bodyLines : list str)
    (diff : PreprocessResult) : list str :=
  let cleaned :=
    filter (fun line => negb (isTooGeneric line))
      (filter (fun line => negb (containsDiffStats line))
         (filter truthy (map (fun line => trim (collapseSpaces line)) bodyLines))) in
  let unique := uniqueLines [] cleaned in
  let enriched :=
    map (fun line => ensureActionVerb l line (findFileForLine line (files diff))) unique in
  if 8 <=? length enriched then firstn 12 enriched
  else buildBodyLines l diff 8 12.

(** [buildFallbackOutput]: the subject line and the body lines. *)
Definition buildFallbackOutput (l : Lang) (diff : PreprocessResult)
    (promptConfig : PromptConfig) : str * list str :=
  (deriveDetailedSubject l diff promptConfig, buildBodyLines l diff 8 12).

End Body.

(** What every pass keeps: the lines are pairwise different, each is
    recorded in [seen] by its key, carries a verb, and is trimmed and not
    empty. *)
Definition linesInvariant (l : Lang) (st : Body.Lines) : Prop :=
  NoDup (Body.lines st)
  /\ (forall x, In x (Body.lines st) -> In (toLowerCase x) (Body.seen st))
  /\ Forall (fun x => Body.hasActionVerb l x = true /\ trim x = x /\ x <> [])
            (Body.lines st).

(** What [addDetail] keeps: the details are pairwise different, trimmed and
    not empty. *)
Definition detailsInvariant (details : list str) : Prop :=
  NoDup details /\ Forall (fun d => d <> [] /\ trim d = d) details.

(** ** Sanitizing, parsing and formatting the commit line *)

Module Output.

(** [s.replace(/p/g, '')] for a literal [p]: the matches are taken from left
    to right and do not overlap; [skip] counts the units of a match still to
    be dropped. *)
Fixpoint removeAll (p : str) (skip : nat) (s : str) : str :=
  match s with
  | [] => []
  | c :: t =>
      match skip with
      | S k => removeAll p k t
      | 0 => if startsWith p s then removeAll p (length p - 1) t
             else c :: removeAll p 0 t
      end
  end.

Definition carriageReturn : N := 13%N.

(** [raw.replace(/```/g, '').replace(/\r/g, '')]. *)
Definition stripFences (raw : str) : str :=
  filter (fun c => negb (N.eqb c carriageReturn)) (removeAll (js "```") 0 raw).

(** The class of the quotes: double quote, apostrophe and backtick. *)
Definition isQuote (c : N) : bool := N.eqb c 34 || N.eqb c 39 || N.eqb c 96.

(** The classes [[-*]] and [[-*•]] (the bullet is U+2022). *)
Definition isDashStar (c : N) : bool := N.eqb c 45 || N.eqb c 42.
Definition isBullet (c : N) : bool := isDashStar c || N.eqb c 8226.

(** [s.replace(/^[...]\s+/, '')]: one unit of the class and the white space
    after it, when there is some. *)
Definition stripBullet (bullet : N -> bool) (s : str) : str :=
  match s with
  | c :: (d :: _) as t => if bullet c && isWhite d then dropWhile isWhite t else s
  | _ => s
  end.

(** [line.trim().length === 0]. *)
Definition isBlank (line : str) : bool := length (trim line) =? 0.

(** [while (lines.length && lines[0].trim().length === 0) lines.shift()]. *)
Fixpoint dropBlank (ls : list str) : list str :=
  match ls with
  | [] => []
  | line :: rest => if isBlank line then dropBlank rest else ls
  end.

Record Sanitized := {
  subjectLine : str;
  bodyLines : list str;
  rawFirstLine : str
}.

Definition sanitizeCommitOutput (raw : str) : Sanitized :=
  let output := stripFences raw in
  let lines0 := dropBlank (map trimEnd (split newline output)) in
  let subject :=
    trim (dropEndWhile isQuote (dropWhile isQuote (stripBullet isDashStar (hd [] lines0)))) in
  let lines1 := dropBlank (tl lines0) in
  let body :=
    filter truthy
      (map (fun line => trim (stripBullet isBullet line))
         (filter truthy (map trim lines1))) in
  {| subjectLine := subject; bodyLines := body; rawFirstLine := hd [] lines0 |}.

(** [sanitizeStreamingContent]. *)
Definition sanitizeStreamingContent (raw : str) : str :=
  if negb (truthy raw) then [] else trimStart (stripFences raw).

(** The result of [parseCommitMessage]; [None] stands for the empty object
    and an absent [scope] for the unmatched group. *)
Record Parsed := { type : str; scope : option str; subject : str }.

(** The classes [[a-zA-Z]] and [[\w-]]. *)
Definition isLetter (c : N) : bool := isLowerAZ c || isUpperAZ c.
Definition isTypeUnit (c : N) : bool := isWordChar c || N.eqb c 45.

Definition notClosing (c : N) : bool := negb (N.eqb c 41).

(** [(?:\(([^)]+)\))?] at the head of [rest], where [rest] follows the
    longest run of [[\w-]]: the group and what follows it.  When [rest]
    starts with an opening parenthesis and the group does not match, the
    whole pattern fails, since a colon is asked for next. *)
Definition scopeGroup (rest : str) : option (option str * str) :=
  match rest with
  | c :: r =>
      if N.eqb c 40 then
        match dropWhile notClosing r with
        | _ :: after =>
            if truthy (Preprocess.takeWhile notClosing r)
            then Some (Some (Preprocess.takeWhile notClosing r), after)
            else None
        | [] => None
        end
      else Some (None, rest)
  | [] => Some (None, rest)
  end.

(** [parseCommitMessage]: the pattern is applied to [message.trim()] and
    reads, from the start to the end of the text, a type (a letter, then any
    number of [[\w-]]), an optional scope in parentheses, a colon, any white
    space and a subject of one unit or more, none a line terminator.  The
    classes of adjacent parts are disjoint, so that every greedy run is the
    longest one; the text is trimmed, so that what follows the white space
    after the colon is empty or starts with a unit that is not white
    space. *)
Definition parseCommitMessage (message : str) : option Parsed :=
  match trim message with
  | c :: t =>
      if isLetter c then
        match scopeGroup (dropWhile isTypeUnit t) with
        | Some (sc, d :: r) =>
            let subj := dropWhile isWhite r in
            if N.eqb d Body.colon && truthy subj
               && forallb (fun u => negb (isLineTerminator u)) subj
            then Some {| type := c :: Preprocess.takeWhile isTypeUnit t;
                         scope := sc; subject := subj |}
            else None
        | _ => None
        end
      else None
  | [] => None
  end.

(** [formatCommitLine] of the copy in [src/preprocess.ts]; the head of
    [formatCommitMessage]. *)
Definition formatCommitLine (typ scp subj : str) : str :=
  typ ++ js "(" ++ scp ++ js "): " ++ trim (collapseSpaces subj).

Definition formatCommitMessage (typ scp subj : str) (body : list str) : str :=
  let head := formatCommitLine typ scp subj in
  match body with
  | [] => head
  | _ => head ++ [newline; newline] ++ join [newline] (map (fun line => js "- " ++ line) body)
  end.

(** [stripSubjectNoise]: [withLabel] tells the copy of [src/webview/main.ts],
    which first removes a leading "subject:" label. *)
Fixpoint removeStats (paren : bool) (skip : nat) (s : str) : str :=
  match s with
  | [] => []
  | c :: t =>
      match skip with
      | S k => removeStats paren k t
      | 0 =>
          let matched :=
            if paren
            then (if parenStatAt s
                  then match statAt t with
                       | Some after => Some (length s - length after + 1)
                       | None => None
                       end
                  else None)
            else match statAt s with
                 | Some after => Some (length s - length after)
                 | None => None
                 end in
          match matched with
          | Some (S k) => removeStats paren k t
          | _ => c :: removeStats paren 0 t
          end
      end
  end.

Definition stripLabel (s : str) : str :=
  if startsWithI (js "subject:") s then dropWhile isWhite (skipn 8 s) else s.

Definition stripSubjectNoise (withLabel : bool) (subj : str) : str :=
  trim (collapseSpaces2 false
          (removeStats false 0
             (removeStats true 0 (if withLabel then stripLabel subj else subj)))).

(** [generateFallbackMessage] of the copy in [src/preprocess.ts]. *)
Definition generateFallbackMessage (l : Lang) (diff : PreprocessResult)
    (promptConfig : PromptConfig) : str :=
  let scp := match files diff with
             | topFile :: _ => deriveScope (path topFile)
             | [] => js "repo"
             end in
  deriveType diff ++ js "(" ++ scp ++ js "): " ++ deriveDetailedSubject l diff promptConfig.

End Output.

(** A commit type as the pattern of [parseCommitMessage] reads it: a letter
    followed by word characters and hyphens. *)
Definition wellFormedType (typ : str) : Prop :=
  exists c t, typ = c :: t /\ Output.isLetter c = true
              /\ forallb Output.isTypeUnit t = true.

(** A line as [sanitizeCommitOutput] returns it: no line feed and no
    carriage return. *)
Definition singleLine (line : str) : Prop :=
  ~ In newline line /\ ~ In Output.carriageReturn line.

(** ** The usage counters of [src/analytics.ts] *)

Module Analytics.

Section Samples.

(** The samples are JavaScript numbers and the table of renderers is an
    object; the functions below only move them around. *)
Variables (Number Renderers : Type).

Record AnalyticsState := {
  totalGenerated : nat;
  commitAccepted : nat;
  modelLatencyMs : list Number;
  downloadTimesMs : list Number;
  renderers : Renderers
}.

(** [xs.slice(-n)]: the last [n] elements, or all of them. *)
Definition sliceLast {A : Type} (n : nat) (xs : list A) : list A :=
  skipn (length xs - n) xs.

Definition recordGeneration (state : AnalyticsState) : AnalyticsState :=
  {| totalGenerated := totalGenerated state + 1;
     commitAccepted := commitAccepted state;
     modelLatencyMs := modelLatencyMs state;
     downloadTimesMs := downloadTimesMs state;
     renderers := renderers state |}.

Definition recordAccepted (state : AnalyticsState) : AnalyticsState :=
  {| totalGenerated := totalGenerated state;
     commitAccepted := commitAccepted state + 1;
     modelLatencyMs := modelLatencyMs state;
     downloadTimesMs := downloadTimesMs state;
     renderers := renderers state |}.

Definition recordLatency (state : AnalyticsState) (ms : Number) : AnalyticsState :=
  {| totalGenerated := totalGenerated state;
     commitAccepted := commitAccepted state;
     modelLatencyMs := sliceLast 100 (modelLatencyMs state ++ [ms]);
     downloadTimesMs := downloadTimesMs state;
     renderers := renderers state |}.

Definition recordDownloadTime (state : AnalyticsState) (ms : Number) : AnalyticsState :=
  {| totalGenerated := totalGenerated state;
     commitAccepted := commitAccepted state;
     modelLatencyMs := modelLatencyMs state;
     downloadTimesMs := sliceLast 100 (downloadTimesMs state ++ [ms]);
     renderers := renderers state |}.

End Samples.

Arguments totalGenerated {Number Renderers} _.
Arguments commitAccepted {Number Renderers} _.
Arguments modelLatencyMs {Number Renderers} _.
Arguments downloadTimesMs {Number Renderers} _.
Arguments renderers {Number Renderers} _.
Arguments recordGeneration {Number Renderers} state.
Arguments recordAccepted {Number Renderers} state.
Arguments recordLatency {Number Renderers} state ms.
Arguments recordDownloadTime {Number Renderers} state ms.

End Analytics.

(** ** The choice of the model in [src/webview/main.ts] *)

Module Models.

Inductive Kind := default | large | tiny.

(** [MODEL_IDS]. *)
Definition modelIdOf (kind : Kind) : str :=
  match kind with
  | default => js "Qwen2.5-3B-Instruct-q4f16_1-MLC"
  | large => js "Qwen2.5-7B-Instruct-q4f16_1-MLC"
  | tiny => js "Qwen2.5-0.5B-Instruct-q4f16_1-MLC"
  end.

(** [Object.values(MODEL_IDS)]. *)
Definition knownIds : list str := [modelIdOf default; modelIdOf large; modelIdOf tiny].

(** The two fields of a model record that the code reads; either may be
    missing at run time. *)
Record ModelRecord := { model_id : option str; modelId : option str }.

(** [webllm.prebuiltAppConfig?.model_list ?? []] is the argument
    [model_list] of the functions below. *)
Definition getModelIds (model_list : list ModelRecord) : list str :=
  filter truthy
    (map (fun model =>
            match model_id model with
            | Some i => i
            | None => match modelId model with Some i => i | None => [] end
            end) model_list).

(** [None] stands for the exception thrown when no model is available. *)
Definition pickModelId (model_list : list ModelRecord) (kind : Kind) : option str :=
  let modelIds := getModelIds model_list in
  match modelIds with
  | [] => None
  | first :: _ =>
      let desired := modelIdOf kind in
      if setHas modelIds desired then Some desired
      else match find (fun i => setHas knownIds i) modelIds with
           | Some fallback => Some fallback
           | None => Some first
           end
  end.

(** The [model_list] of [buildAppConfig]. *)
Definition buildAppConfig (model_list : list ModelRecord) : list ModelRecord :=
  filter (fun model =>
            match model_id model with
            | Some i => setHas knownIds i
            | None => false
            end) model_list.

End Models.

(** ** Repositories ([src/git.ts]) and their selection ([src/extension.ts]) *)

Module Git.

(** The surrogate code units U+D800..U+DBFF and U+DC00..U+DFFF. *)
Definition isHighSurrogate (c : N) : bool := inRange 55296 56319 c.
Definition isLowSurrogate (c : N) : bool := inRange 56320 57343 c.

(** The UTF-8 bytes of a code point. *)
Definition utf8Point (cp : N) : list N :=
  if (cp <? 128)%N then [cp]
  else if (cp <? 2048)%N then [192 + cp / 64; 128 + cp mod 64]%N
  else if (cp <? 65536)%N
  then [224 + cp / 4096; 128 + (cp / 64) mod 64; 128 + cp mod 64]%N
  else [240 + cp / 262144; 128 + (cp / 4096) mod 64; 128 + (cp / 64) mod 64;
        128 + cp mod 64]%N.

(** [Buffer.from(root)]: the UTF-8 encoding of a JavaScript string.  A high
    surrogate followed by a low one encodes their code point; a surrogate
    without its partner is replaced by U+FFFD. *)
Fixpoint utf8 (s : str) : list N :=
  match s with
  | [] => []
  | c :: t =>
      if isHighSurrogate c then
        match t with
        | d :: t' =>
            if isLowSurrogate d
            then utf8Point (65536 + (c - 55296) * 1024 + (d - 56320))%N ++ utf8 t'
            else utf8Point 65533 ++ utf8 t
        | [] => utf8Point 65533
        end
      else if isLowSurrogate c then utf8Point 65533 ++ utf8 t
      else utf8Point c ++ utf8 t
  end.

(** The alphabet of base64url: A-Z, a-z, 0-9, hyphen, underscore. *)
Definition base64urlChar (sextet : N) : N :=
  if (sextet <? 26)%N then (65 + sextet)%N
  else if (sextet <? 52)%N then (97 + (sextet - 26))%N
  else if (sextet <? 62)%N then (48 + (sextet - 52))%N
  else if (sextet =? 62)%N then 45%N
  else 95%N.

(** [buffer.toString('base64url')]: three bytes give four units; one or two
    bytes left give two or three units, without padding. *)
Fixpoint base64url (bytes : list N) : str :=
  match bytes with
  | a :: b :: c :: rest =>
      map base64urlChar
          [a / 4; (a mod 4) * 16 + b / 16; (b mod 16) * 4 + c / 64; c mod 64]%N
      ++ base64url rest
  | [a; b] => map base64urlChar [a / 4; (a mod 4) * 16 + b / 16; (b mod 16) * 4]%N
  | [a] => map base64urlChar [a / 4; (a mod 4) * 16]%N
  | [] => []
  end.

Definition toRepoId (root : str) : str := base64url (utf8 root).

Record RepoInfo := { id : str; name : str; root : str; hasStaged : bool }.

(** [discoverRepos], given the roots of the workspace (the elements of a
    [Set], in insertion order) and what [hasStagedChanges] answers. *)
Definition discoverRepos (roots : list str) (staged : str -> bool) : list RepoInfo :=
  map (fun r => {| id := toRepoId r; name := lastSegment r; root := r;
                   hasStaged := staged r |}) roots.

End Git.

Module Extension.

(** The repository that [selectRepo] makes current: the one with the given
    id, or, without an id, the first with staged changes. *)
Definition selectRepo (repoId : option str) (repos : list Git.RepoInfo) : option Git.RepoInfo :=
  match repoId with
  | Some i =>
      if truthy i then find (fun item => eqb_str (Git.id item) i) repos
      else find Git.hasStaged repos
  | None => find Git.hasStaged repos
  end.

(** [sendInitialState]: the default repository is the first with staged
    changes, or else the first one; its id is handed to [selectRepo]. *)
Definition sendInitialState (repos : list Git.RepoInfo) : option Git.RepoInfo :=
  let defaultRepo :=
    match find Git.hasStaged repos with
    | Some r => Some r
    | None => hd_error repos
    end in
  selectRepo (option_map Git.id defaultRepo) repos.

End Extension.

(** A JavaScript string without lone surrogates: every high surrogate is
    followed by a low one and every low one follows a high one; every unit
    is a 16-bit code unit. *)
Fixpoint wellFormed (s : str) : bool :=
  match s with
  | [] => true
  | c :: t =>
      if Git.isHighSurrogate c then
        match t with
        | d :: t' => Git.isLowSurrogate d && wellFormed t'
        | [] => false
        end
      else negb (Git.isLowSurrogate c) && (c <? 65536)%N && wellFormed t
  end.

(** The inverse of [Git.base64urlChar] on the alphabet. *)
Definition sextetOf (c : N) : N :=
  if inRange 65 90 c then (c - 65)%N
  else if inRange 97 122 c then (c - 97 + 26)%N
  else if inRange 48 57 c then (c - 48 + 52)%N
  else if (c =? 45)%N then 62%N
  else 63%N.

(** The inverse of [Git.base64url]. *)
Fixpoint fromBase64url (s : str) : list N :=
  match s with
  | w :: x :: y :: z :: rest =>
      [sextetOf w * 4 + sextetOf x / 16;
       (sextetOf x mod 16) * 16 + sextetOf y / 4;
       (sextetOf y mod 4) * 64 + sextetOf z]%N
      ++ fromBase64url rest
  | [w; x; y] =>
      [sextetOf w * 4 + sextetOf x / 16; (sextetOf x mod 16) * 16 + sextetOf y / 4]%N
  | [w; x] => [sextetOf w * 4 + sextetOf x / 16]%N
  | _ => []
  end.

(** The UTF-16 code units of a code point. *)
Definition unitsOf (cp : N) : str :=
  if (cp <? 65536)%N then [cp]
  else [55296 + (cp - 65536) / 1024; 56320 + (cp - 65536) mod 1024]%N.

(** The inverse of [Git.utf8] on the encodings of well-formed strings. *)
Fixpoint fromUtf8 (bytes : list N) : str :=
  match bytes with
  | [] => []
  | b0 :: r0 =>
      if (b0 <? 128)%N then b0 :: fromUtf8 r0
      else
        match r0 with
        | [] => []
        | b1 :: r1 =>
            if (b0 <? 224)%N
            then ((b0 - 192) * 64 + (b1 - 128))%N :: fromUtf8 r1
            else
              match r1 with
              | [] => []
              | b2 :: r2 =>
                  if (b0 <? 240)%N
                  then ((b0 - 224) * 4096 + (b1 - 128) * 64 + (b2 - 128))%N :: fromUtf8 r2
                  else
                    match r2 with
                    | [] => []
                    | b3 :: r3 =>
                        unitsOf ((b0 - 240) * 262144 + (b1 - 128) * 4096
                                 + (b2 - 128) * 64 + (b3 - 128))%N
                        ++ fromUtf8 r3
                    end
              end
        end
  end.

(** Euclidean division by constants, for [lia]. *)
Ltac divlia := zify; Z.to_euclidean_division_equations; lia.

(** Case analysis on the comparisons of the goal. *)
Ltac compareN :=
  repeat match goal with
    | |- context [N.ltb ?a ?b] => destruct (N.ltb_spec a b)
    | |- context [N.leb ?a ?b] => destruct (N.leb_spec a b)
    | |- context [N.eqb ?a ?b] => destruct (N.eqb_spec a b)
    end.

(** ** Regular expressions

    The patterns of [src/preprocess.ts] are written as terms of [Regex.re]
    and run by a backtracking matcher that follows the matcher of
    ECMAScript: alternatives are tried from left to right, a quantifier is
    greedy and gives back one iteration at a time, and an iteration of a
    star that consumes nothing is refused.  No pattern of the source puts a
    capturing group under a quantifier, so the captures are not reset
    between the iterations of a star. *)

Module Regex.

Inductive re : Type :=
| Empty
| Class (f : N -> bool)      (* one unit of a class; a literal unit is a class *)
| NotClass (f : N -> bool)   (* one unit outside a class *)
| Seq (a b : re)
| Alt (a b : re)
| Star (a : re)
| Group (i : nat) (a : re)   (* the capturing group number [i] *)
| Bol                        (* ^ *)
| Eol                        (* $ *)
| WordBoundary.              (* \b *)

(** The flags [i] and [m]; the flag [g] is a matter of the function that
    uses the pattern ([matchAll] below). *)
Record Flags := { ignoreCase : bool; multiline : bool }.

Definition noFlags : Flags := {| ignoreCase := false; multiline := false |}.
Definition flagI : Flags := {| ignoreCase := true; multiline := false |}.
Definition flagM : Flags := {| ignoreCase := false; multiline := true |}.

(** The other case of an ASCII letter.  Without the [u] flag no unit outside
    ASCII is canonicalized to an ASCII letter, and the classes of the
    patterns below hold no letter outside ASCII. *)
Definition swapCase (c : N) : N :=
  if isUpperAZ c then (c + 32)%N else if isLowerAZ c then (c - 32)%N else c.

Definition inClass (fl : Flags) (f : N -> bool) (c : N) : bool :=
  f c || (ignoreCase fl && f (swapCase c)).

(** A position in the text: the unit before it, if any, and what is left. *)
Record Pos := { before : option N; rest : str }.

(** The captures, by group number. *)
Definition Captures : Type := list (nat * str).

Fixpoint capture (cs : Captures) (i : nat) : option str :=
  match cs with
  | [] => None
  | (j, s) :: more => if i =? j then Some s else capture more i
  end.

Definition isWordBefore (p : Pos) : bool :=
  match before p with Some c => isWordChar c | None => false end.

Definition isWordAfter (p : Pos) : bool :=
  match rest p with c :: _ => isWordChar c | [] => false end.

Definition atLineStart (fl : Flags) (p : Pos) : bool :=
  match before p with
  | None => true
  | Some c => multiline fl && isLineTerminator c
  end.

Definition atLineEnd (fl : Flags) (p : Pos) : bool :=
  match rest p with
  | [] => true
  | c :: _ => multiline fl && isLineTerminator c
  end.

Definition Outcome : Type := option (Pos * Captures).

(** The matcher of [r] at [p] with the continuation [k]. *)
Fixpoint run (fl : Flags) (r : re) (p : Pos) (cs : Captures)
    (k : Pos -> Captures -> Outcome) {struct r} : Outcome :=
  match r with
  | Empty => k p cs
  | Class f =>
      match rest p with
      | c :: t => if inClass fl f c then k {| before := Some c; rest := t |} cs else None
      | [] => None
      end
  | NotClass f =>
      match rest p with
      | c :: t => if inClass fl f c then None else k {| before := Some c; rest := t |} cs
      | [] => None
      end
  | Seq a b => run fl a p cs (fun p' cs' => run fl b p' cs' k)
  | Alt a b =>
      match run fl a p cs k with
      | Some result => Some result
      | None => run fl b p cs k
      end
  | Star a =>
      (fix loop (fuel : nat) (p : Pos) (cs : Captures) {struct fuel} : Outcome :=
         match fuel with
         | 0 => k p cs
         | S fuel' =>
             match run fl a p cs
                     (fun p' cs' =>
                        if length (rest p') <? length (rest p) then loop fuel' p' cs'
                        else None) with
             | Some result => Some result
             | None => k p cs
             end
         end) (S (length (rest p))) p cs
  | Group i a =>
      run fl a p cs
          (fun p' cs' =>
             k p' ((i, firstn (length (rest p) - length (rest p')) (rest p)) :: cs'))
  | Bol => if atLineStart fl p then k p cs else None
  | Eol => if atLineEnd fl p then k p cs else None
  | WordBoundary => if xorb (isWordBefore p) (isWordAfter p) then k p cs else None
  end.

(** Abbreviations. *)
Definition Plus (a : re) : re := Seq a (Star a).
Definition Opt (a : re) : re := Alt a Empty.
Definition AtLeast2 (a : re) : re := Seq a (Seq a (Star a)).
Definition Unit (c : N) : re := Class (N.eqb c).
Definition Any : re := NotClass isLineTerminator.
Definition Word : re := Class isWordChar.
Definition Space : re := Class isWhite.

Fixpoint seq (parts : list re) : re :=
  match parts with
  | [] => Empty
  | [a] => a
  | a :: more => Seq a (seq more)
  end.

Fixpoint alt (parts : list re) : re :=
  match parts with
  | [] => Empty
  | [a] => a
  | a :: more => Alt a (alt more)
  end.

(** A literal text. *)
Definition lit (s : str) : re := seq (map Unit s).

Record Match := { index : nat; text : str; groups : Captures }.

(** The match of [r] that starts at this position, if there is one. *)
Definition matchAt (fl : Flags) (r : re) (prev : option N) (s : str) (i : nat) : option Match :=
  match run fl r {| before := prev; rest := s |} [] (fun p cs => Some (p, cs)) with
  | Some (p', cs) =>
      Some {| index := i; text := firstn (length s - length (rest p')) s; groups := cs |}
  | None => None
  end.

(** [r.exec(s)] for a pattern without the [g] flag: the leftmost match. *)
Fixpoint search (fl : Flags) (r : re) (prev : option N) (s : str) (i : nat) : option Match :=
  match matchAt fl r prev s i with
  | Some m => Some m
  | None =>
      match s with
      | [] => None
      | c :: t => search fl r (Some c) t (S i)
      end
  end.

Definition exec (fl : Flags) (r : re) (s : str) : option Match := search fl r None s 0.

Definition test (fl : Flags) (r : re) (s : str) : bool :=
  match exec fl r s with Some _ => true | None => false end.

(** [match[i]]: absent when there is no match or the group took no part. *)
Definition group (m : option Match) (i : nat) : option str :=
  match m with
  | Some found => capture (groups found) i
  | None => None
  end.

(** All the matches of a pattern with the [g] flag, from left to right and
    without overlap ([s.match(r)], [s.matchAll(r)]); [skip] counts the units
    of the last match still to pass.  After an empty match the search goes
    on one unit further. *)
Fixpoint scan (fl : Flags) (r : re) (prev : option N) (s : str) (i skip : nat) : list Match :=
  let here := match skip with
              | 0 => matchAt fl r prev s i
              | S _ => None
              end in
  match here with
  | Some m =>
      m :: match s with
           | [] => []
           | c :: t => scan fl r (Some c) t (S i) (length (text m) - 1)
           end
  | None =>
      match s with
      | [] => []
      | c :: t => scan fl r (Some c) t (S i) (skip - 1)
      end
  end.

Definition matchAll (fl : Flags) (r : re) (s : str) : list Match := scan fl r None s 0 0.

(** The pieces between the matches: [s.split(r)] for a pattern that matches
    no empty text and has no capturing group. *)
Fixpoint pieces (s : str) (from : nat) (ms : list Match) : list str :=
  match ms with
  | [] => [skipn from s]
  | m :: more =>
      firstn (index m - from) (skipn from s)
      :: pieces s (index m + length (text m)) more
  end.

Definition splitBy (fl : Flags) (r : re) (s : str) : list str :=
  pieces s 0 (matchAll fl r s).

End Regex.

(** ** The summary of a staged diff ([preprocessDiff] of [src/preprocess.ts]) *)

Module Summary.

Import Regex.

(** *** Paths

    [path.basename] and [path.extname] in their POSIX flavour: the paths come
    from the headers of [git diff], which use forward slashes. *)

(** [path.extname(p)]: the last component from its last dot on; empty when
    there is no dot, when the last dot opens the component, and for the
    component "..". *)
Definition extname (p : str) : str :=
  let base := Preprocess.basename p in
  match indexOf (rev base) [46%N] with
  | None => []
  | Some k =>
      let i := length base - 1 - k in
      if (i =? 0) || eqb_str base (js "..") then [] else skipn i base
  end.

(** The loop of [path.basename(p, suffix)] for a suffix that is not empty
    and not longer than [p], one step per unit from the last one to the
    first; [None] stands for -1. *)
Record BaseScan := {
  bsStart : nat;
  bsEnd : option nat;
  matchedSlash : bool;
  extIdx : option nat;
  firstNonSlashEnd : option nat;
  stopped : bool
}.

Definition baseStep (suffix : str) (st : BaseScan) (unit : nat * N) : BaseScan :=
  let (i, code) := unit in
  if stopped st then st
  else if N.eqb code slash then
    if negb (matchedSlash st)
    then {| bsStart := i + 1; bsEnd := bsEnd st; matchedSlash := matchedSlash st;
            extIdx := extIdx st; firstNonSlashEnd := firstNonSlashEnd st;
            stopped := true |}
    else st
  else
    let seenEnd := match firstNonSlashEnd st with
                   | None => Some (i + 1)
                   | Some e => Some e
                   end in
    let slashState := match firstNonSlashEnd st with
                      | None => false
                      | Some _ => matchedSlash st
                      end in
    match extIdx st with
    | Some x =>
        if N.eqb code (nth x suffix 0%N) then
          match x with
          | 0 => {| bsStart := bsStart st; bsEnd := Some i; matchedSlash := slashState;
                    extIdx := None; firstNonSlashEnd := seenEnd; stopped := false |}
          | S x' => {| bsStart := bsStart st; bsEnd := bsEnd st; matchedSlash := slashState;
                       extIdx := Some x'; firstNonSlashEnd := seenEnd; stopped := false |}
          end
        else {| bsStart := bsStart st; bsEnd := seenEnd; matchedSlash := slashState;
                extIdx := None; firstNonSlashEnd := seenEnd; stopped := false |}
    | None => {| bsStart := bsStart st; bsEnd := bsEnd st; matchedSlash := slashState;
                 extIdx := None; firstNonSlashEnd := seenEnd; stopped := false |}
    end.

(** The units of [p] with their indexes, from the last one to the first. *)
Definition backwards (p : str) : list (nat * N) := rev (combine (List.seq 0 (length p)) p).

(** [path.basename(p, suffix)]. *)
Definition basenameExt (p suffix : str) : str :=
  if truthy suffix && (length suffix <=? length p) then
    if eqb_str suffix p then []
    else
      let st := fold_left (baseStep suffix) (backwards p)
                  {| bsStart := 0; bsEnd := None; matchedSlash := true;
                     extIdx := Some (length suffix - 1); firstNonSlashEnd := None;
                     stopped := false |} in
      let stop :=
        match bsEnd st with
        | Some e =>
            if bsStart st =? e
            then match firstNonSlashEnd st with Some f => f | None => 0 end
            else e
        | None => length p
        end in
      firstn (stop - bsStart st) (skipn (bsStart st) p)
  else Preprocess.basename p.

(** [LOCKFILES.has(name)]. *)
Definition isLockfile (name : str) : bool :=
  eqb_str name (js "pnpm-lock.yaml") || eqb_str name (js "package-lock.json").

(** *** Languages *)

Inductive SourceLang := langTs | langJs | langPy | langRs | langCpp | langC | langCmake.

Definition langName (l : SourceLang) : str :=
  match l with
  | langTs => js "ts"
  | langJs => js "js"
  | langPy => js "py"
  | langRs => js "rs"
  | langCpp => js "cpp"
  | langC => js "c"
  | langCmake => js "cmake"
  end.

Definition detectLang (filePath : str) : option SourceLang :=
  let lower := toLowerCase filePath in
  if endsWith (js ".ts") lower || endsWith (js ".tsx") lower then Some langTs
  else if endsWith (js ".js") lower || endsWith (js ".jsx") lower then Some langJs
  else if endsWith (js ".py") lower then Some langPy
  else if endsWith (js ".rs") lower then Some langRs
  else if endsWith (js ".cpp") lower || endsWith (js ".cc") lower
          || endsWith (js ".cxx") lower || endsWith (js ".hpp") lower
          || endsWith (js ".hxx") lower then Some langCpp
  else if endsWith (js ".c") lower || endsWith (js ".h") lower then Some langC
  else if endsWith (js "cmakelists.txt") lower || endsWith (js ".cmake") lower
  then Some langCmake
  else None.

(** *** The patterns *)

Definition star : N := 42%N.
Definition openParen : N := 40%N.
Definition closeParen : N := 41%N.
Definition equalSign : N := 61%N.
Definition dot : N := 46%N.

(** [\bword\s+\w+], [\bword\s+\w+\s*\(] and [\bword\s*\(]. *)
Definition declared (word : str) : re :=
  seq [WordBoundary; lit word; Plus Space; Plus Word].
Definition declaredCall (word : str) : re :=
  seq [WordBoundary; lit word; Plus Space; Plus Word; Star Space; Unit openParen].
Definition called (word : str) : re :=
  seq [WordBoundary; lit word; Star Space; Unit openParen].

(** The classes [[\w:<>~*&]] and [[\w_*]]. *)
Definition isCppUnit (c : N) : bool :=
  isWordChar c || N.eqb c 58 || N.eqb c 60 || N.eqb c 62 || N.eqb c 126
  || N.eqb c star || N.eqb c 38.
Definition isCUnit (c : N) : bool := isWordChar c || N.eqb c 95 || N.eqb c star.

(** [^\s*(?:[...]+\s+)+name\s*\(] for a class of units and a pattern [name]. *)
Definition signature (unit : N -> bool) (name : re) : re :=
  seq [Bol; Star Space; Plus (Seq (Plus (Class unit)) (Plus Space)); name;
       Star Space; Unit openParen].

(** [LANGUAGE_WEIGHT]: the flags besides [g], the pattern and the weight of
    each entry (the labels are not read by the code). *)
Definition weightPatterns (l : SourceLang) : list (Flags * re * nat) :=
  match l with
  | langTs =>
      [(noFlags, declared (js "interface"), 3);
       (noFlags, seq [WordBoundary; lit (js "type"); Plus Space; Plus Word; Star Space;
                      Unit equalSign], 2);
       (noFlags, declared (js "class"), 2);
       (noFlags, declaredCall (js "function"), 1);
       (noFlags, seq [WordBoundary; lit (js "const"); Plus Space; Plus Word; Star Space;
                      Unit equalSign; Star Space; Unit openParen], 1)]
  | langJs =>
      [(noFlags, declared (js "class"), 2);
       (noFlags, declaredCall (js "function"), 1);
       (noFlags, seq [WordBoundary; lit (js "const"); Plus Space; Plus Word; Star Space;
                      Unit equalSign; Star Space; Unit openParen], 1);
       (noFlags, seq [WordBoundary; lit (js "export"); Plus Space;
                      alt [lit (js "function"); lit (js "const"); lit (js "class")];
                      Plus Space; Plus Word], 1)]
  | langPy =>
      [(noFlags, declared (js "class"), 3);
       (noFlags, declaredCall (js "def"), 2)]
  | langRs =>
      [(noFlags, declared (js "trait"), 3);
       (noFlags, declared (js "struct"), 2);
       (noFlags, declared (js "enum"), 2);
       (noFlags, declared (js "impl"), 1);
       (noFlags, declaredCall (js "fn"), 1)]
  | langCpp =>
      [(noFlags, declared (js "class"), 2);
       (noFlags, declared (js "struct"), 2);
       (noFlags, declared (js "enum"), 2);
       (noFlags, declared (js "namespace"), 1);
       (flagM, signature isCppUnit (Plus Word), 1)]
  | langC =>
      [(noFlags, declared (js "struct"), 2);
       (noFlags, declared (js "enum"), 2);
       (flagM, signature isCUnit (Plus Word), 1)]
  | langCmake =>
      [(noFlags, called (js "add_library"), 2);
       (noFlags, called (js "add_executable"), 2);
       (noFlags, called (js "target_link_libraries"), 1);
       (noFlags, called (js "set"), 1)]
  end.

(** [\bword\s+(\w+)\b] and [^\s*word\s+(\w+)\b]. *)
Definition named (word : str) : re :=
  seq [WordBoundary; lit word; Plus Space; Group 1 (Plus Word); WordBoundary].
Definition namedAtStart (word : str) : re :=
  seq [Bol; Star Space; lit word; Plus Space; Group 1 (Plus Word); WordBoundary].

(** The class [[^)\s]], as the class it excludes. *)
Definition isCloseOrWhite (c : N) : bool := N.eqb c closeParen || isWhite c.

(** [^\s*word\(([^)\s]+)]. *)
Definition cmakeCall (word : str) : re :=
  seq [Bol; Star Space; lit word; Unit openParen; Group 1 (Plus (NotClass isCloseOrWhite))].

(** [CONTEXT_PATTERNS]. *)
Definition contextPatterns (l : SourceLang) : list (Flags * re) :=
  match l with
  | langTs =>
      [(noFlags, seq [WordBoundary; lit (js "export"); Plus Space; lit (js "const");
                      Plus Space; Group 1 (Plus Word); WordBoundary]);
       (noFlags, seq [WordBoundary; lit (js "const"); Plus Space; Group 1 (Plus Word);
                      Star Space; Unit equalSign; Star Space; Unit openParen]);
       (noFlags, named (js "function"));
       (noFlags, named (js "class"));
       (noFlags, named (js "interface"));
       (noFlags, named (js "type"))]
  | langJs =>
      [(noFlags, seq [WordBoundary; lit (js "export"); Plus Space; lit (js "const");
                      Plus Space; Group 1 (Plus Word); WordBoundary]);
       (noFlags, seq [WordBoundary; lit (js "const"); Plus Space; Group 1 (Plus Word);
                      Star Space; Unit equalSign; Star Space; Unit openParen]);
       (noFlags, named (js "function"));
       (noFlags, named (js "class"))]
  | langPy =>
      [(noFlags, namedAtStart (js "def"));
       (noFlags, namedAtStart (js "class"))]
  | langRs =>
      [(noFlags, namedAtStart (js "fn"));
       (noFlags, namedAtStart (js "struct"));
       (noFlags, namedAtStart (js "enum"));
       (noFlags, namedAtStart (js "trait"));
       (noFlags, namedAtStart (js "impl"))]
  | langCpp =>
      [(noFlags, namedAtStart (js "class"));
       (noFlags, namedAtStart (js "struct"));
       (noFlags, namedAtStart (js "enum"));
       (noFlags, namedAtStart (js "namespace"));
       (noFlags, signature isCppUnit (Group 1 (Plus Word)))]
  | langC =>
      [(noFlags, namedAtStart (js "struct"));
       (noFlags, namedAtStart (js "enum"));
       (noFlags, signature isCUnit (Group 1 (Plus Word)))]
  | langCmake =>
      [(flagI, cmakeCall (js "project"));
       (flagI, cmakeCall (js "add_library"));
       (flagI, cmakeCall (js "add_executable"));
       (flagI, cmakeCall (js "set"))]
  end.

(** *** Weight *)

Definition computeWeight (filePath : str) (cleanedLines : list str) : nat :=
  match detectLang filePath with
  | None => 1
  | Some l =>
      let weight :=
        fold_left
          (fun w line =>
             fold_left
               (fun w' (pattern : Flags * re * nat) =>
                  let '(fl, r, patternWeight) := pattern in
                  w' + length (matchAll fl r line) * patternWeight)
               (weightPatterns l) w)
          cleanedLines 0 in
      Nat.max weight 1
  end.

(** *** Context labels *)

(** The inner loop of [findNearestLabel]: the first pattern whose group
    matched a text that is not empty. *)
Fixpoint firstLabel (patterns : list (Flags * re)) (line : str) : option str :=
  match patterns with
  | [] => None
  | (fl, r) :: more =>
      match group (exec fl r line) 1 with
      | Some label => if truthy label then Some label else firstLabel more line
      | None => firstLabel more line
      end
  end.

(** [findNearestLabel(lines, index, patterns)] with [count = index + 1]: the
    lines from [lines[index]] back to [lines[0]].  Past the end of the array
    [lines[i]] is [undefined], which [exec] reads as the text "undefined". *)
Fixpoint findNearestLabel (lines : list str) (count : nat) (patterns : list (Flags * re))
    : option str :=
  match count with
  | 0 => None
  | S i =>
      match firstLabel patterns (nth i lines (js "undefined")) with
      | Some label => Some label
      | None => findNearestLabel lines i patterns
      end
  end.

(** [content.split(/\r?\n/)]. *)
Definition splitLines (content : str) : list str :=
  splitBy noFlags (Seq (Opt (Unit Output.carriageReturn)) (Unit newline)) content.

(** [findContextLabels]; [readFile repoRoot filePath] is what reading the
    file at [path.join(repoRoot, filePath)] gives, [None] when it throws. *)
Definition findContextLabels (readFile : str -> str -> option str)
    (repoRoot filePath : str) (hunkStarts : list nat) : list str :=
  match detectLang filePath with
  | None => []
  | Some l =>
      match readFile repoRoot filePath with
      | None => []
      | Some content =>
          let lines := splitLines content in
          firstn 4
            (fold_left
               (fun labels start =>
                  match findNearestLabel lines start (contextPatterns l) with
                  | Some label => setAdd labels label
                  | None => labels
                  end)
               hunkStarts [])
      end
  end.

(** *** Keywords *)

(** The array [keywords] and the set [seen] of [extractKeywords].  The keys
    of [seen] are lower-case forms, which [toLowerCase] gives exactly for
    ASCII text (every keyword but an argument of a CMake command is ASCII);
    the properties of the keywords proved below use only that equal
    keywords have equal keys. *)
Record Keywords := { found : list str; seenKeys : list str }.

Definition addKeyword (st : Keywords) (value : option str) : Keywords :=
  match value with
  | None => st
  | Some v =>
      if negb (truthy v) then st
      else
        let trimmed := trim v in
        if negb (truthy trimmed) then st
        else
          let normalized := toLowerCase trimmed in
          if setHas (seenKeys st) normalized then st
          else {| found := found st ++ [trimmed];
                  seenKeys := setAdd (seenKeys st) normalized |}
  end.

(** A loop that adds keywords and returns from [extractKeywords] as soon as
    there are three: the state, and whether the function has returned. *)
Fixpoint addUntilThree (values : list (option str)) (st : Keywords) : Keywords * bool :=
  match values with
  | [] => (st, false)
  | v :: more =>
      let st' := addKeyword st v in
      if 3 <=? length (found st') then (st', true) else addUntilThree more st'
  end.

(** The loop over the patterns, each with [joined.matchAll(pattern)]. *)
Fixpoint overPatterns (patterns : list (Flags * re)) (joined : str) (st : Keywords)
    : Keywords * bool :=
  match patterns with
  | [] => (st, false)
  | (fl, r) :: more =>
      let (st', returned) :=
        addUntilThree (map (fun m => capture (groups m) 1) (matchAll fl r joined)) st in
      if returned then (st', true) else overPatterns more joined st'
  end.

(** [[A-Za-z_]\w*]. *)
Definition identifier : re :=
  Seq (Class (fun c => Output.isLetter c || N.eqb c 95)) (Star Word).

Definition namedIdentifier (word : str) : re :=
  seq [WordBoundary; lit word; Plus Space; Group 1 identifier].

Definition assigned (word : str) : re :=
  seq [WordBoundary; lit word; Plus Space; Group 1 identifier; Star Space; Unit equalSign].

Definition scriptPatterns : list (Flags * re) :=
  [(noFlags, seq [WordBoundary; lit (js "export"); Plus Space;
                  alt [lit (js "const"); lit (js "function"); lit (js "class");
                       lit (js "interface"); lit (js "type"); lit (js "enum")];
                  Plus Space; Group 1 identifier]);
   (noFlags, namedIdentifier (js "class"));
   (noFlags, namedIdentifier (js "function"));
   (noFlags, assigned (js "const"));
   (noFlags, assigned (js "type"));
   (noFlags, seq [WordBoundary; lit (js "interface"); Plus Space; Group 1 identifier;
                  WordBoundary])].

Definition nativePatterns : list (Flags * re) :=
  [(noFlags, namedIdentifier (js "namespace"));
   (noFlags, namedIdentifier (js "class"));
   (noFlags, namedIdentifier (js "struct"));
   (noFlags, namedIdentifier (js "enum"));
   (flagM, signature isCppUnit (Group 1 identifier))].

(** [\bword\s*\(\s*([^\s\)]+)] under the [i] flag. *)
Definition cmakeArgument (word : str) : Flags * re :=
  (flagI, seq [WordBoundary; lit word; Star Space; Unit openParen; Star Space;
               Group 1 (Plus (NotClass isCloseOrWhite))]).

Definition cmakePatterns : list (Flags * re) :=
  [cmakeArgument (js "add_library"); cmakeArgument (js "add_executable");
   cmakeArgument (js "target_link_libraries"); cmakeArgument (js "set")].

(** [[.#][a-zA-Z0-9_-]{2,}]. *)
Definition selector : re :=
  Seq (Class (fun c => N.eqb c dot || N.eqb c 35))
      (AtLeast2 (Class (fun c => isAlnumI c || N.eqb c 95 || N.eqb c 45))).

Definition cssHints : list str :=
  [js "grid"; js "flex"; js "font"; js "color"; js "layout"; js "gap"; js "spacing";
   js "padding"; js "margin"; js "background"; js "shadow"; js "border"; js "radius";
   js "animation"; js "transform"; js "transition"].

Definition isStylesheet (lowerPath : str) : bool :=
  endsWith (js ".css") lowerPath || endsWith (js ".scss") lowerPath
  || endsWith (js ".sass") lowerPath || endsWith (js ".less") lowerPath.

Definition extractKeywords (filePath : str) (addedLines removedLines : list str) : list str :=
  let lines := filter truthy (map trim (addedLines ++ removedLines)) in
  match lines with
  | [] => []
  | _ =>
      let joined := join [newline] (firstn 200 lines) in
      let lower := toLowerCase joined in
      let lang := detectLang filePath in
      let (st1, returned1) :=
        if isStylesheet (toLowerCase filePath) then
          let (st, returned) :=
            addUntilThree (map (fun m => Some (text m)) (matchAll noFlags selector joined))
                          {| found := []; seenKeys := [] |} in
          if returned then (st, true)
          else addUntilThree (map Some (filter (includes lower) cssHints)) st
        else ({| found := []; seenKeys := [] |}, false) in
      if returned1 then found st1
      else
        let (st2, returned2) :=
          match lang with
          | Some langTs | Some langJs => overPatterns scriptPatterns joined st1
          | _ => (st1, false)
          end in
        if returned2 then found st2
        else
          let (st3, returned3) :=
            match lang with
            | Some langCpp | Some langC => overPatterns nativePatterns joined st2
            | _ => (st2, false)
            end in
          if returned3 then found st3
          else
            let (st4, returned4) :=
              match lang with
              | Some langCmake => overPatterns cmakePatterns joined st3
              | _ => (st3, false)
              end in
            if returned4 then found st4 else firstn 3 (found st4)
  end.

(** *** Highlights *)

Definition when (condition : bool) (hint : str) : list str :=
  if condition then [hint] else [].

Definition inferPathHighlights (filePath : str) : list str :=
  let lower := toLowerCase filePath in
  let base := Preprocess.basename lower in
  let ext := extname lower in
  let topDir := hd [] (split slash filePath) in
  let baseName := basenameExt filePath ext in
  when (eqb_str base (js ".gitignore")) (js "gitignore rules updated")
  ++ when (eqb_str base (js "cmakelists.txt") || eqb_str ext (js ".cmake"))
          (js "cmake config updated")
  ++ when (includes lower (js "/dist/") || startsWith (js "dist/") lower)
          (js "distribution bundle updated")
  ++ when (includes lower (js "/build/") || startsWith (js "build/") lower)
          (js "build output updated")
  ++ when (eqb_str base (js "package.json")) (js "package metadata updated")
  ++ when (includes lower (js "webpack") || includes lower (js "rollup")
           || includes lower (js "vite") || includes lower (js "esbuild"))
          (js "build config updated")
  ++ when (includes lower (js "eslint") || includes lower (js "prettier"))
          (js "linting config updated")
  ++ when (includes lower (js "test") || includes lower (js "spec")) (js "tests updated")
  ++ when (eqb_str ext (js ".md") || includes lower (js "readme")) (js "docs updated")
  ++ when (eqb_str ext (js ".json") || eqb_str ext (js ".yml") || eqb_str ext (js ".yaml")
           || eqb_str ext (js ".toml")) (js "config updated")
  ++ when (eqb_str ext (js ".cpp") || eqb_str ext (js ".cc") || eqb_str ext (js ".cxx")
           || eqb_str ext (js ".hpp") || eqb_str ext (js ".hxx") || eqb_str ext (js ".c")
           || eqb_str ext (js ".h")) (js "c/c++ sources updated")
  ++ when (eqb_str ext (js ".js") || eqb_str ext (js ".jsx")) (js "javascript sources updated")
  ++ when (eqb_str ext (js ".ts") || eqb_str ext (js ".tsx")) (js "typescript sources updated")
  ++ when (truthy topDir && negb (eqb_str topDir baseName) && negb (eqb_str topDir base))
          (topDir ++ js " module updated").

Definition inferContentHighlights (cleanedLines : list str) : list str :=
  match cleanedLines with
  | [] => []
  | _ =>
      let joined := join [newline] cleanedLines in
      let lower := toLowerCase joined in
      when (includes lower (js "add_library") || includes lower (js "add_executable")
            || includes lower (js "target_link_libraries")) (js "build targets updated")
      ++ when (includes lower (js "#include")) (js "includes updated")
      ++ when (test flagI (declared (js "namespace")) joined) (js "namespace updated")
      ++ when (test flagI (declared (js "class")) joined
               || test flagI (declared (js "struct")) joined)
              (js "type definitions updated")
      ++ when (test flagI
                 (seq [WordBoundary; lit (js "export"); Plus Space;
                       alt [lit (js "function"); lit (js "const"); lit (js "class")];
                       Plus Space]) joined
               || test flagI
                    (seq [WordBoundary; lit (js "module"); Unit dot; lit (js "exports");
                          WordBoundary]) joined)
              (js "exports updated")
      ++ when (test flagI
                 (alt [Seq WordBoundary (lit (js "fix")); lit (js "bug"); lit (js "issue");
                       lit (js "crash"); lit (js "null pointer")]) lower)
              (js "bug fix")
      ++ when (test flagI
                 (alt [Seq WordBoundary (lit (js "perf"));
                       seq [lit (js "optimi");
                            Class (fun c => N.eqb c 115 || N.eqb c 122);
                            lit (js "e")];
                       lit (js "latency"); lit (js "cache")]) lower)
              (js "performance update")
  end.

(** The closure [addHighlight]: the array [highlights] and the set [seen]
    receive the same values in the same order and are one list here. *)
Definition addHighlight (hs : list str) (value : option str) : list str :=
  match value with
  | None => hs
  | Some v => if negb (truthy v) || setHas hs v then hs else hs ++ [v]
  end.

Definition changeHint (changeType : ChangeType) : option str :=
  match changeType with
  | added => Some (js "new file added")
  | deleted => Some (js "file removed")
  | renamed => Some (js "file renamed")
  | _ => None
  end.

Definition computeHighlights (filePath : str) (cleanedLines : list str)
    (changeType : ChangeType) : list str :=
  let hs1 := fold_left addHighlight (map Some (inferPathHighlights filePath)) [] in
  let hs2 := fold_left addHighlight (map Some (inferContentHighlights cleanedLines)) hs1 in
  let hs3 := addHighlight hs2 (changeHint changeType) in
  let hs4 :=
    if (length hs3 =? 0) && (0 <? length cleanedLines) then
      let base := Preprocess.basename filePath in
      addHighlight hs3 (Some (if truthy base then js "update " ++ base
                              else js "update file"))
    else hs3 in
  firstn 3 hs4.

(** *** One block of the diff *)

(** [^text] under the [m] flag. *)
Definition lineStarting (text : str) : re := Seq Bol (lit text).

Definition detectChangeType (block : str) : ChangeType :=
  if test flagM (lineStarting (js "new file mode")) block then added
  else if test flagM (lineStarting (js "deleted file mode")) block then deleted
  else if test flagM (lineStarting (js "rename from")) block then renamed
  else if test flagM (lineStarting (js "Binary files")) block then binary
  else modified.

(** [^text(.+)$] under the [m] flag. *)
Definition lineWithRest (text : str) : re :=
  seq [Bol; lit text; Group 1 (Plus Any); Eol].

(** [a ?? b] on the results of [match]. *)
Definition orMatch (a b : option Match) : option Match :=
  match a with Some _ => a | None => b end.

(** The path of the block: [filePath] after the first statements of
    [summarizeFileBlock]. *)
Definition blockPath (block : str) : str :=
  let pathLine := orMatch (exec flagM (lineWithRest (js "+++ b/")) block)
                          (exec flagM (lineStarting (js "+++ /dev/null")) block) in
  let removedLine := orMatch (exec flagM (lineWithRest (js "--- a/")) block)
                             (exec flagM (lineStarting (js "--- /dev/null")) block) in
  match group pathLine 1 with
  | Some p => if truthy p then trim p
              else match group removedLine 1 with
                   | Some q => if truthy q then trim q else []
                   | None => []
                   end
  | None => match group removedLine 1 with
            | Some q => if truthy q then trim q else []
            | None => []
            end
  end.

(** [None] stands for [null]. *)
Definition summarizeFileBlock (readFile : str -> str -> option str)
    (root block : str) : option FileSummary :=
  let filePath := blockPath block in
  if negb (truthy filePath) then None
  else
    let changeType := detectChangeType block in
    match changeType with
    | binary =>
        Some {| path := filePath; changeType := changeType; additions := 0; deletions := 0;
                context := []; highlights := [js "binary file updated"]; keywords := [];
                weight := 1 |}
    | _ =>
        let parsed := Preprocess.parseDiffLines block in
        Some {| path := filePath;
                changeType := changeType;
                additions := Preprocess.additions parsed;
                deletions := Preprocess.deletions parsed;
                context := findContextLabels readFile root filePath
                             (Preprocess.hunkStarts parsed);
                highlights := computeHighlights filePath (Preprocess.cleanedLines parsed)
                                changeType;
                keywords := extractKeywords filePath (Preprocess.addedLines parsed)
                              (Preprocess.removedLines parsed);
                weight := computeWeight filePath (Preprocess.cleanedLines parsed) |}
    end.

(** *** The summary text *)

Definition changeTypeName (t : ChangeType) : str :=
  match t with
  | added => js "added"
  | deleted => js "deleted"
  | modified => js "modified"
  | renamed => js "renamed"
  | binary => js "binary"
  end.

Definition fileLine (file : FileSummary) : str :=
  let changeTag := match changeType file with
                   | modified => []
                   | t => js " (" ++ changeTypeName t ++ js ")"
                   end in
  let contextText := if 0 <? length (context file)
                     then js " in " ++ join (js ", ") (context file) else [] in
  let highlightText := if 0 <? length (highlights file)
                       then js " - " ++ join (js ", ") (highlights file) else [] in
  path file ++ changeTag ++ contextText
  ++ js " (+" ++ decimal (additions file) ++ js "/-" ++ decimal (deletions file) ++ js ")"
  ++ highlightText.

Definition formatSummaryText (fs : list FileSummary) (locks : list str)
    (totalAdded totalDeleted : nat) : str :=
  join [newline]
    ([js "Files changed: " ++ decimal (length fs)
      ++ (if 0 <? length locks
          then js " (+" ++ decimal (length locks) ++ js " lockfile)" else []);
      js "Lines: +" ++ decimal totalAdded ++ js " / -" ++ decimal totalDeleted]
     ++ map fileLine (firstn 6 fs)
     ++ locks
     ++ (if 6 <? length fs
         then [js "...and " ++ decimal (length fs - 6) ++ js " more files"] else [])).

(** *** The whole diff *)

(** [diff.split(/^diff --git /m).filter(Boolean).map(block => 'diff --git ' + block)]. *)
Definition fileBlocks (diff : str) : list str :=
  map (fun block => js "diff --git " ++ block)
      (filter truthy (splitBy flagM (lineStarting (js "diff --git ")) diff)).

(** The variables that the loop of [preprocessDiff] updates. *)
Record Totals := {
  summaries : list FileSummary;
  locks : list str;
  signals : list (str * nat);
  added : nat;
  removed : nat
}.

Definition addBlock (readFile : str -> str -> option str) (root : str)
    (acc : Totals) (block : str) : Totals :=
  match summarizeFileBlock readFile root block with
  | None => acc
  | Some fileSummary =>
      if isLockfile (Preprocess.basename (path fileSummary)) then
        {| summaries := summaries acc;
           locks := locks acc ++ Preprocess.summarizeLockfile block (path fileSummary);
           signals := signals acc; added := added acc; removed := removed acc |}
      else
        {| summaries := summaries acc ++ [fileSummary];
           locks := locks acc;
           signals :=
             match detectLang (path fileSummary) with
             | Some l =>
                 Preprocess.mapSet (signals acc) (langName l)
                   (match Preprocess.mapGet (signals acc) (langName l) with
                    | Some w => w
                    | None => 0
                    end + weight fileSummary)
             | None => signals acc
             end;
           added := added acc + additions fileSummary;
           removed := removed acc + deletions fileSummary |}
  end.

Definition truncationMark : str := newline :: js "...diff truncated...".

Definition preprocessDiff (readFile : str -> str -> option str)
    (root diff : str) (maxChars : nat) : PreprocessResult :=
  let acc := fold_left (addBlock readFile root) (fileBlocks diff)
               {| summaries := []; locks := []; signals := []; added := 0; removed := 0 |} in
  let cut := maxChars <? length diff in
  {| repoRoot := root;
     files := summaries acc;
     lockfileSummaries := locks acc;
     languageSignals := signals acc;
     summaryText := formatSummaryText (summaries acc) (locks acc) (added acc) (removed acc);
     rawDiff := if cut then firstn maxChars diff ++ truncationMark else diff;
     truncated := cut;
     totalAdditions := added acc;
     totalDeletions := removed acc |}.

(** The default of [maxChars]. *)
Definition defaultMaxChars : nat := 28 * 1000.

End Summary.

(** What the loops of [extractKeywords] keep: the keywords are pairwise
    different, recorded in [seen] by their key, trimmed and not empty. *)
Definition keywordsInvariant (st : Summary.Keywords) : Prop :=
  NoDup (Summary.found st)
  /\ (forall x, In x (Summary.found st) -> In (toLowerCase x) (Summary.seenKeys st))
  /\ Forall (fun k => k <> [] /\ trim k = k) (Summary.found st).

(** A stage of [extractKeywords]: the invariant, and at most three keywords
    when the function has returned, fewer while it goes on. *)
Definition staged (stage : Summary.Keywords * bool) : Prop :=
  keywordsInvariant (fst stage)
  /\ if snd stage then length (Summary.found (fst stage)) <= 3
     else length (Summary.found (fst stage)) < 3.

(** The files of a language. *)
Definition sameLang (a b : Summary.SourceLang) : bool :=
  eqb_str (Summary.langName a) (Summary.langName b).

Definition filesOf (l : Summary.SourceLang) (fs : list FileSummary) : list FileSummary :=
  filter (fun f => match Summary.detectLang (path f) with
                   | Some l' => sameLang l l'
                   | None => false
                   end) fs.

(** What [preprocessDiff] promises about each file of its result. *)
Definition wellSummarized (f : FileSummary) : Prop :=
  path f <> [] /\ trim (path f) = path f
  /\ Summary.isLockfile (Preprocess.basename (path f)) = false
  /\ 1 <= weight f
  /\ length (highlights f) <= 3 /\ NoDup (highlights f)
  /\ length (keywords f) <= 3 /\ NoDup (keywords f)
  /\ length (context f) <= 4 /\ NoDup (context f).

(** What the loop of [preprocessDiff] keeps. *)
Definition totalsInvariant (acc : Summary.Totals) : Prop :=
  Summary.added acc = list_sum (map additions (Summary.summaries acc))
  /\ Summary.removed acc = list_sum (map deletions (Summary.summaries acc))
  /\ Forall wellSummarized (Summary.summaries acc)
  /\ NoDup (map fst (Summary.signals acc))
  /\ (forall l, getCount (Summary.signals acc) (Summary.langName l)
                = list_sum (map weight (filesOf l (Summary.summaries acc))))
  /\ (forall key, In key (map fst (Summary.signals acc)) ->
                  exists f, In f (Summary.summaries acc)
                            /\ option_map Summary.langName (Summary.detectLang (path f))
                               = Some key).

(** The texts at which a line of [s] starts under the [m] flag: [s] itself
    and what follows each line terminator. *)
Fixpoint afterTerminators (s : str) : list str :=
  match s with
  | [] => []
  | c :: t => (if isLineTerminator c then [t] else []) ++ afterTerminators t
  end.

Definition lineStarts (s : str) : list str := s :: afterTerminators s.

(** A line of [s] starts with [text]. *)
Definition hasLine (text s : str) : bool := existsb (startsWith text) (lineStarts s).

(** The block that git prints for a binary file. *)
Definition binaryBlock : str :=
  join [newline]
    [js "diff --git a/logo.png b/logo.png";
     js "index 3f2a1b0..9c8d7e6 100644";
     js "Binary files a/logo.png and b/logo.png differ";
     []].

(** A pattern that asks for [text] at the start of a line. *)
Definition anchoredLine (fl : Regex.Flags) (r : Regex.re) (text : str) : Prop :=
  forall p cs k res,
    Regex.run fl r p cs k = Some res ->
    Regex.atLineStart fl p = true /\ startsWith text (Regex.rest p) = true.

(** The line that starts [s]: its units up to the first line terminator. *)
Definition notTerminator (c : N) : bool := negb (isLineTerminator c).

Definition lineOf (s : str) : str := Preprocess.takeWhile notTerminator s.

(** [start] opens a line that begins with [text] and goes on after it. *)
Definition goesOn (text start : str) : bool :=
  startsWith text start && truthy (lineOf (skipn (length text) start)).

(** What follows [text] on the first line of [s] that starts with [text]
    and goes on after it. *)
Definition firstLineAfter (text s : str) : option str :=
  match find (goesOn text) (lineStarts s) with
  | Some start => Some (lineOf (skipn (length text) start))
  | None => None
  end.

(** The last unit of [s], or [b] when [s] is empty. *)
Fixpoint lastOr (b : option N) (s : str) : option N :=
  match s with
  | [] => b
  | c :: t => lastOr (Some c) t
  end.

(** A staged diff of two files. *)
Definition twoFileDiff : str :=
  join [newline]
    [js "diff --git a/src/app.ts b/src/app.ts";
     js "index 1a2b3c4..5d6e7f8 100644";
     js "--- a/src/app.ts";
     js "+++ b/src/app.ts";
     js "@@ -1,2 +1,3 @@";
     js " import { run } from './run';";
     js "+export function start() { run(); }";
     js "diff --git a/README.md b/README.md";
     js "index 0f0f0f0..a1a1a1a 100644";
     js "--- a/README.md";
     js "+++ b/README.md";
     js "@@ -3,1 +3,1 @@";
     js "-old text";
     js "+new text";
     []].

(** ** The poller of [src/extension.ts] *)

Module Poller.

Section Panel.

(** [hashContent]: the SHA-256 digest of the text, in hexadecimal.  The
    digest is not computed here; what follows holds for every function of
    the text. *)
Variable hashContent : str -> str.

(** The files that [findContextLabels] reads. *)
Variable readFile : str -> str -> option str.

(** The two fields of the panel that the poller uses; [None] is [null]. *)
Record Panel := { repoRoot : option str; diffHash : option str }.

(** The messages posted to the webview, by their [type] and their [diff];
    the other fields of a message (analytics, settings, git context,
    language) are read from elsewhere and play no part in what is posted
    when. *)
Inductive Posted :=
| init (diff : option PreprocessResult)
| diffEmpty
| diffUpdated (diff : PreprocessResult).

(** [hash !== this.diffHash]. *)
Definition differs (hash : str) (stored : option str) : bool :=
  match stored with
  | Some h => negb (eqb_str hash h)
  | None => true
  end.

(** The part of [refreshDiff] that reads the staged diff; [diff] is what
    [getStagedDiff] answers. *)
Definition refreshDiff (panel : Panel) (diff : str) : Panel * Posted :=
  match repoRoot panel with
  | Some root =>
      if truthy root then
        if 0 <? length (trim diff) then
          let diffResult := Summary.preprocessDiff readFile root diff Summary.defaultMaxChars in
          ({| repoRoot := repoRoot panel;
              diffHash := Some (hashContent (rawDiff diffResult)) |},
           init (Some diffResult))
        else ({| repoRoot := repoRoot panel; diffHash := None |}, init None)
      else (panel, init None)
  | None => (panel, init None)
  end.

(** One run of the callback of [startRepoPoller]; [hasStaged] and [diff]
    are what [hasStagedChanges] and [getStagedDiff] answer.  The runs are
    taken one after the other: a run that lasts longer than the interval of
    two seconds and overlaps the next one is not modelled, nor is a git
    command that fails. *)
Definition tick (panel : Panel) (hasStaged : bool) (diff : str) : Panel * option Posted :=
  match repoRoot panel with
  | Some root =>
      if negb (truthy root) then (panel, None)
      else if negb hasStaged then
        ({| repoRoot := repoRoot panel; diffHash := None |}, Some diffEmpty)
      else
        let hash := hashContent diff in
        if differs hash (diffHash panel) then
          let diffResult := Summary.preprocessDiff readFile root diff Summary.defaultMaxChars in
          ({| repoRoot := repoRoot panel;
              diffHash := Some (hashContent (rawDiff diffResult)) |},
           Some (diffUpdated diffResult))
        else (panel, None)
  | None => (panel, None)
  end.

End Panel.

End Poller.

(** A staged diff of more than [maxChars] units. *)
Definition longDiff : str := repeat 97%N (S Summary.defaultMaxChars).

(** * Properties *)

(** ** Strings *)

Lemma eqb_str_eq (a b : str) : eqb_str a b = true <-> a = b.
Proof.
  revert b; induction a as [|x a IH]; intros [|y b]; simpl; split;
    try congruence; try reflexivity.
  - intros H. apply andb_true_iff in H as [Hx Hab].
    apply N.eqb_eq in Hx. apply IH in Hab. congruence.
  - intros H. injection H as -> ->. rewrite N.eqb_refl. simpl. now apply IH.
Qed.

Lemma eqb_str_refl (a : str) : eqb_str a a = true.
Proof. now apply eqb_str_eq. Qed.

Lemma eqb_str_neq (a b : str) : eqb_str a b = false <-> a <> b.
Proof.
  split.
  - intros H E. apply eqb_str_eq in E. congruence.
  - intros H. destruct (eqb_str a b) eqn:E; [|reflexivity].
    apply eqb_str_eq in E. contradiction.
Qed.

Lemma setHas_In (seen : list str) (x : str) : setHas seen x = true <-> In x seen.
Proof.
  unfold setHas. rewrite existsb_exists. split.
  - intros [y [Hy E]]. apply eqb_str_eq in E. now subst.
  - intros H. exists x. split; [assumption | apply eqb_str_refl].
Qed.

Lemma setAdd_In (seen : list str) (x y : str) :
  In y (setAdd seen x) <-> In y seen \/ y = x.
Proof.
  unfold setAdd. destruct (setHas seen x) eqn:E.
  - apply setHas_In in E. split; [tauto | intros [H | ->]; assumption].
  - rewrite in_app_iff. simpl. intuition congruence.
Qed.

Lemma split_no_sep (d : N) (s : str) : ~ In d s -> split d s = [s].
Proof.
  induction s as [|c s IH]; simpl; intros H; [reflexivity|].
  destruct (N.eqb c d) eqn:E.
  - apply N.eqb_eq in E. exfalso. apply H. now left.
  - rewrite IH; [reflexivity | intros Hin; apply H; now right].
Qed.

Lemma split_at_first (d : N) (a b : str) :
  ~ In d a -> split d (a ++ d :: b) = a :: split d b.
Proof.
  induction a as [|c a IH]; simpl; intros H.
  - now rewrite N.eqb_refl.
  - destruct (N.eqb c d) eqn:E.
    + apply N.eqb_eq in E. exfalso. apply H. now left.
    + rewrite IH; [reflexivity | intros Hin; apply H; now right].
Qed.

Lemma split_nonempty (d : N) (s : str) : split d s <> [].
Proof.
  destruct s as [|c s]; simpl; [discriminate|].
  destruct (N.eqb c d); [discriminate|].
  destruct (split d s); discriminate.
Qed.

(** ** Token matching with no tokens (C10) *)

(** C10.  With an empty required-token list [matchRequiredTokens] succeeds
    for every subject and every required count, with no matched token, and
    the [missingTokens] reason is absent from the validation reasons whatever
    the minimum length: an empty token list never rejects a subject. *)
Theorem matchRequiredTokens_no_tokens :
  forall (subject : str) (requiredCount minLength : nat),
    ok (matchRequiredTokens subject [] requiredCount) = true
    /\ matchedTokens (matchRequiredTokens subject [] requiredCount) = []
    /\ ~ In missingTokens (validationReasons subject [] requiredCount minLength).
Proof.
  intros subject requiredCount minLength. repeat split.
  unfold validationReasons. simpl.
  rewrite !in_app_iff.
  intros [H | [H | [H | H]]].
  - destruct (length subject =? 0); simpl in H; intuition discriminate.
  - destruct (isTooGeneric subject); simpl in H; intuition discriminate.
  - destruct (containsDiffStats subject); simpl in H; intuition discriminate.
  - destruct ((0 <? minLength) && (length subject <? minLength)); simpl in H;
      intuition discriminate.
Qed.

(** ** The scope hint (C6) *)

(** C6, counterexample.  The hint is taken from the first file of the diff,
    not from the file that ranks first: here the hint is "docs" although
    [src/parser.ts] has the highest score. *)
Lemma scopeHint_not_top_ranked :
  scopeHint twoDirsDiff = js "docs"
  /\ scopeOfTopRanked twoDirsDiff = js "src"
  /\ scopeHint twoDirsDiff <> scopeOfTopRanked twoDirsDiff.
Proof. repeat split. vm_compute. discriminate. Qed.

(** C6, amended.  The scope hint is "repo" when no file changed; otherwise
    it is decided by the path of the first file in diff order: "core" when
    that path has no slash, and the text before its first slash otherwise. *)
Theorem scopeHint_first_file :
  forall diff : PreprocessResult,
    match files diff with
    | [] => scopeHint diff = js "repo"
    | f :: _ =>
        (~ In slash (path f) -> scopeHint diff = js "core")
        /\ (forall dir rest : str,
               path f = dir ++ slash :: rest -> ~ In slash dir ->
               scopeHint diff = dir)
    end.
Proof.
  intros diff. unfold scopeHint. destruct (files diff) as [|f fs]; [reflexivity|].
  unfold deriveScope. split.
  - intros H. now rewrite (split_no_sep _ _ H).
  - intros dir rest E H. rewrite E, (split_at_first _ _ _ H). simpl.
    pose proof (split_nonempty slash rest) as Hne.
    destruct (split slash rest); [contradiction | reflexivity].
Qed.

(** ** The derived type (C7) *)

Lemma fileWeight_pos (f : FileSummary) : 1 <= fileWeight f.
Proof.
  unfold fileWeight, orElse.
  destruct (additions f + deletions f =? 0) eqn:E1.
  - destruct (weight f =? 0) eqn:E2; [lia|]. apply Nat.eqb_neq in E2. lia.
  - apply Nat.eqb_neq in E1. lia.
Qed.

Lemma bucketWeight_cons (b : Bucket) (f : FileSummary) (fs : list FileSummary) :
  bucketWeight b (f :: fs) =
  (if sameBucket (bucketOf f) b then fileWeight f else 0) + bucketWeight b fs.
Proof.
  unfold bucketWeight. simpl. destruct (sameBucket (bucketOf f) b); reflexivity.
Qed.

(** The loop of [deriveType] adds to each accumulator the weight of its
    bucket, and to [total] the weight of all files. *)
Lemma deriveType_loop (fs : list FileSummary) (w : Weights) (t : nat) :
  let (w', t') := fold_left deriveTypeStep fs (w, t) in
  test w' = test w + bucketWeight testBucket fs
  /\ docs w' = docs w + bucketWeight docsBucket fs
  /\ config w' = config w + bucketWeight configBucket fs
  /\ code w' = code w + bucketWeight codeBucket fs
  /\ t' = t + totalWeight fs.
Proof.
  revert w t. induction fs as [|f fs IH]; intros w t.
  - simpl. unfold bucketWeight, totalWeight. simpl. lia.
  - cbn [fold_left].
    assert (Hstep : exists w1,
               deriveTypeStep (w, t) f = (w1, t + fileWeight f)
               /\ test w1 = test w + (if sameBucket (bucketOf f) testBucket then fileWeight f else 0)
               /\ docs w1 = docs w + (if sameBucket (bucketOf f) docsBucket then fileWeight f else 0)
               /\ config w1 = config w + (if sameBucket (bucketOf f) configBucket then fileWeight f else 0)
               /\ code w1 = code w + (if sameBucket (bucketOf f) codeBucket then fileWeight f else 0)).
    { unfold deriveTypeStep, bucketOf, fileWeight.
      set (lower := toLowerCase (path f)).
      destruct (includes lower (js "test") || includes lower (js "spec"));
        [eexists; split; [reflexivity|]; cbn; lia|].
      destruct (includes lower (js "docs") || includes lower (js "readme")
                || endsWith (js ".md") lower);
        [eexists; split; [reflexivity|]; cbn; lia|].
      destruct (isConfigPath lower);
        eexists; (split; [reflexivity|]); cbn; lia. }
    destruct Hstep as [w1 [E [H1 [H2 [H3 H4]]]]]. rewrite E.
    specialize (IH w1 (t + fileWeight f)).
    destruct (fold_left deriveTypeStep fs (w1, t + fileWeight f)) as [w' t'].
    rewrite !bucketWeight_cons. unfold totalWeight in *. simpl. lia.
Qed.

Lemma deriveType_by_shares (diff : PreprocessResult) :
  deriveType diff = typeByShares diff.
Proof.
  unfold deriveType, typeByShares, shareAboveHalf.
  pose proof (deriveType_loop (files diff)
                {| test := 0; docs := 0; config := 0; code := 0 |} 0) as H.
  destruct (fold_left deriveTypeStep (files diff) _) as [w t].
  simpl in H. destruct H as [H1 [H2 [H3 [_ Ht]]]].
  rewrite H1, H2, H3, Ht. unfold ratioAboveHalf.
  assert (G' : forall v T, v <= T -> (0 <? T) && (T <? 2 * v) = (T <? 2 * v)).
  { intros v T Hv. destruct (0 <? T) eqn:E; [reflexivity|].
    apply Nat.ltb_ge in E. simpl. symmetry. apply Nat.ltb_ge. lia. }
  assert (B : forall b fs, bucketWeight b fs <= totalWeight fs).
  { intros b fs. induction fs as [|f fs IH].
    - unfold bucketWeight, totalWeight. simpl. lia.
    - rewrite bucketWeight_cons. unfold totalWeight in *. simpl.
      destruct (sameBucket (bucketOf f) b); lia. }
  rewrite !G' by apply B. reflexivity.
Qed.

(** C7, counterexample.  A diff that touches only a [.md] file is typed
    "test", not "docs", when the path contains "spec": the test rule is tried
    before the docs rule. *)
Lemma deriveType_md_not_docs :
  (forall f, In f (files specMdDiff) -> endsWith (js ".md") (path f) = true)
  /\ deriveType specMdDiff = js "test"
  /\ deriveType specMdDiff <> js "docs".
Proof.
  split; [|split].
  - intros f [<- | []]. reflexivity.
  - reflexivity.
  - vm_compute. discriminate.
Qed.

(** C7, amended.  [deriveType] weighs each file by additions plus deletions
    (falling back to its weight, then to 1), puts it into the first of the
    buckets test, docs, config whose path rule applies (code otherwise), and
    answers "test", "docs" or "chore" for the first of these buckets whose
    share exceeds half of the total weight, otherwise "refactor" when the
    deletions exceed the additions and "feat" when they do not.  In
    particular a non-empty diff of files whose lower-cased paths end in
    ".md" and contain neither "test" nor "spec" is typed "docs". *)
Theorem deriveType_shares :
  forall diff : PreprocessResult,
    deriveType diff = typeByShares diff
    /\ (files diff <> [] ->
        (forall f, In f (files diff) ->
           endsWith (js ".md") (toLowerCase (path f)) = true
           /\ includes (toLowerCase (path f)) (js "test") = false
           /\ includes (toLowerCase (path f)) (js "spec") = false) ->
        deriveType diff = js "docs").
Proof.
  intros diff. split; [apply deriveType_by_shares|].
  intros Hne Hmd. rewrite deriveType_by_shares.
  unfold typeByShares, shareAboveHalf.
  assert (Hb : forall fs, (forall f, In f fs -> bucketOf f = docsBucket) ->
                          bucketWeight testBucket fs = 0
                          /\ bucketWeight docsBucket fs = totalWeight fs).
  { induction fs as [|f fs IH]; intros Hall.
    - unfold bucketWeight, totalWeight. simpl. lia.
    - rewrite !bucketWeight_cons. rewrite (Hall f (or_introl eq_refl)). simpl.
      destruct IH as [I1 I2]; [intros g Hg; apply Hall; now right|].
      unfold totalWeight in *. simpl. lia. }
  destruct (Hb (files diff)) as [Ht Hd].
  { intros f Hf. destruct (Hmd f Hf) as [E1 [E2 E3]].
    unfold bucketOf. rewrite E2, E3, E1. simpl.
    now rewrite !orb_true_r. }
  rewrite Ht, Hd.
  assert (Hpos : 1 <= totalWeight (files diff)).
  { destruct (files diff) as [|f fs]; [contradiction|].
    unfold totalWeight. simpl. pose proof (fileWeight_pos f). lia. }
  replace (totalWeight (files diff) <? 2 * 0) with false
    by (symmetry; apply Nat.ltb_ge; lia).
  replace (totalWeight (files diff) <? 2 * totalWeight (files diff)) with true
    by (symmetry; apply Nat.ltb_lt; lia).
  reflexivity.
Qed.

Lemma deriveType_shares_witness : deriveType readmeDiff = js "docs".
Proof.
  apply (proj2 (deriveType_shares readmeDiff)).
  - discriminate.
  - intros f [<- | []]. repeat split.
Defined.

(** ** The line reconciler (C9) *)

Lemma mapGet_mapSet_same (m : Preprocess.LineMap) (k : str) (v : nat) :
  Preprocess.mapGet (Preprocess.mapSet m k v) k = Some v.
Proof.
  induction m as [|[k0 v0] m IH]; simpl.
  - now rewrite eqb_str_refl.
  - destruct (eqb_str k0 k) eqn:E; simpl; rewrite E; [reflexivity | apply IH].
Qed.

Lemma mapGet_mapSet_other (m : Preprocess.LineMap) (k k' : str) (v : nat) :
  k <> k' ->
  Preprocess.mapGet (Preprocess.mapSet m k v) k' = Preprocess.mapGet m k'.
Proof.
  intros Hne. induction m as [|[k0 v0] m IH]; simpl.
  - apply eqb_str_neq in Hne. now rewrite Hne.
  - destruct (eqb_str k0 k) eqn:E; simpl.
    + apply eqb_str_eq in E. subst k0.
      apply eqb_str_neq in Hne. now rewrite Hne.
    + now rewrite IH.
Qed.

Lemma getCount_mapSet (m : Preprocess.LineMap) (k k' : str) (v : nat) :
  getCount (Preprocess.mapSet m k v) k' = if str_eq_dec k k' then v else getCount m k'.
Proof.
  unfold getCount. destruct (str_eq_dec k k') as [<- | Hne].
  - now rewrite mapGet_mapSet_same.
  - now rewrite mapGet_mapSet_other.
Qed.

Lemma mapSet_keys (m : Preprocess.LineMap) (k : str) (v : nat) :
  NoDup (map fst m) -> NoDup (map fst (Preprocess.mapSet m k v)).
Proof.
  assert (Hin : forall m' x, In x (map fst (Preprocess.mapSet m' k v)) ->
                             In x (map fst m') \/ x = k).
  { induction m' as [|[k0 v0] m' IH]; simpl; intros x Hx.
    - destruct Hx as [<- | []]. now right.
    - destruct (eqb_str k0 k) eqn:E; simpl in Hx.
      + tauto.
      + destruct Hx as [<- | Hx]; [tauto|]. apply IH in Hx. tauto. }
  induction m as [|[k0 v0] m IH]; simpl; intros Hnd.
  - constructor; [intros [] | constructor].
  - inversion Hnd as [|? ? Hnot Hnd']; subst.
    destruct (eqb_str k0 k) eqn:E; simpl.
    + now constructor.
    + constructor; [|now apply IH].
      intros Hx. apply Hin in Hx as [Hx | ->]; [contradiction|].
      rewrite eqb_str_refl in E. discriminate.
Qed.

Lemma countRemoved_counts (removedLines : list str) :
  NoDup (map fst (Preprocess.countRemoved removedLines))
  /\ forall key,
       getCount (Preprocess.countRemoved removedLines) key =
       count_occ str_eq_dec (map Preprocess.normalizeLine removedLines) key.
Proof.
  unfold Preprocess.countRemoved.
  assert (H : forall l m,
             NoDup (map fst m) ->
             let m' := fold_left
                         (fun m line =>
                            let key := Preprocess.normalizeLine line in
                            Preprocess.mapSet m key
                              (match Preprocess.mapGet m key with
                               | Some c => c | None => 0 end + 1)) l m in
             NoDup (map fst m')
             /\ forall key, getCount m' key =
                            getCount m key
                            + count_occ str_eq_dec (map Preprocess.normalizeLine l) key).
  { induction l as [|line l IH]; intros m Hnd; cbn [fold_left map count_occ].
    - split; [assumption | intros; lia].
    - set (k := Preprocess.normalizeLine line).
      destruct (IH (Preprocess.mapSet m k
                      (match Preprocess.mapGet m k with Some c => c | None => 0 end + 1))
                   (mapSet_keys _ _ _ Hnd)) as [I1 I2].
      split; [exact I1|]. intros key. rewrite I2, getCount_mapSet.
      fold (getCount m k).
      destruct (str_eq_dec k key) as [<- | Hne]; lia. }
  destruct (H removedLines [] (NoDup_nil _)) as [H1 H2].
  split; [exact H1|]. intros key. rewrite H2. reflexivity.
Qed.

(** When the map holds exactly the counts of the added lines, every added
    line is dropped and every count ends at zero. *)
Lemma cancelAdded_balanced (addedLines : list str) :
  forall m : Preprocess.LineMap,
    NoDup (map fst m) ->
    (forall key, getCount m key =
                 count_occ str_eq_dec (map Preprocess.normalizeLine addedLines) key) ->
    exists m', Preprocess.cancelAdded m addedLines = ([], m')
               /\ NoDup (map fst m')
               /\ forall key, getCount m' key = 0.
Proof.
  induction addedLines as [|line rest IH]; intros m Hnd Hcount.
  - exists m. simpl. repeat split; [assumption | intros; apply Hcount].
  - cbn [Preprocess.cancelAdded].
    set (k := Preprocess.normalizeLine line).
    pose proof (Hcount k) as Hk. cbn [map count_occ] in Hk. fold k in Hk.
    destruct (str_eq_dec k k) as [_ | Hne]; [|contradiction].
    unfold getCount in Hk.
    destruct (Preprocess.mapGet m k) as [[|c]|] eqn:E; try discriminate.
    apply IH.
    + now apply mapSet_keys.
    + intros key. rewrite getCount_mapSet.
      pose proof (Hcount key) as Hkey. cbn [map count_occ] in Hkey. fold k in Hkey.
      destruct (str_eq_dec k key) as [<- | Hne].
      * unfold getCount in Hkey. rewrite E in Hkey. lia.
      * exact Hkey.
Qed.

Lemma no_positive_entry (m : Preprocess.LineMap) :
  NoDup (map fst m) -> (forall key, getCount m key = 0) ->
  filter (fun e => 0 <? snd e) m = [].
Proof.
  induction m as [|[k v] m IH]; intros Hnd Hz; [reflexivity|].
  inversion Hnd as [|? ? Hnot Hnd']; subst.
  pose proof (Hz k) as Hk. unfold getCount in Hk. simpl in Hk.
  rewrite eqb_str_refl in Hk. subst v. simpl. apply IH; [assumption|].
  intros key. pose proof (Hz key) as Hkey. unfold getCount in *. simpl in Hkey.
  destruct (eqb_str k key) eqn:E; [|exact Hkey].
  apply eqb_str_eq in E. subst key.
  destruct (Preprocess.mapGet m k) as [c|] eqn:G; [|reflexivity].
  exfalso. apply Hnot. clear - G.
  induction m as [|[k0 v0] m IH]; simpl in *; [discriminate|].
  destruct (eqb_str k0 k) eqn:E.
  - apply eqb_str_eq in E. now left.
  - right. now apply IH.
Qed.

(** The first loop of [parseDiffLines] collects exactly these lines. *)
Lemma scan_collects (lines : list str) (st : Preprocess.Scan) :
  Preprocess.added (fold_left Preprocess.scanLine lines st)
  = Preprocess.added st ++ map (@tl N) (filter isAddedLine lines)
  /\ Preprocess.removed (fold_left Preprocess.scanLine lines st)
  = Preprocess.removed st ++ map (@tl N) (filter isRemovedLine lines).
Proof.
  revert st. induction lines as [|line lines IH]; intros st.
  - cbn. now rewrite !app_nil_r.
  - cbn [fold_left filter]. destruct (IH (Preprocess.scanLine st line)) as [I1 I2].
    rewrite I1, I2. clear I1 I2 IH.
    unfold Preprocess.scanLine, isAddedLine, isRemovedLine, isFileHeader.
    destruct (startsWith (js "@@") line).
    + cbn [negb andb]. destruct (Preprocess.hunkStart line); split; reflexivity.
    + cbn [negb andb].
      destruct (startsWith (js "+++") line || startsWith (js "---") line);
        cbn [negb andb]; [split; reflexivity|].
      destruct (startsWith (js "+") line); cbn [negb andb].
      * cbn [Preprocess.added Preprocess.removed map].
        rewrite <- app_assoc. split; reflexivity.
      * destruct (startsWith (js "-") line);
          cbn [Preprocess.added Preprocess.removed map];
          rewrite <- ?app_assoc; split; reflexivity.
Qed.

Lemma hunkHeader_no_sign (line : str) :
  isHunkHeader line = true ->
  startsWith (js "+") line = false /\ startsWith (js "-") line = false.
Proof.
  unfold isHunkHeader. destruct line as [|c t]; [discriminate|].
  change (startsWith (js "@@") (c :: t)) with (N.eqb 64 c && startsWith [64%N] t).
  change (startsWith (js "+") (c :: t)) with (N.eqb 43 c && true).
  change (startsWith (js "-") (c :: t)) with (N.eqb 45 c && true).
  destruct (N.eqb 64 c) eqn:E; [|discriminate]. apply N.eqb_eq in E. subst c.
  intros _. split; reflexivity.
Qed.

Lemma plus_no_minus (line : str) :
  startsWith (js "+") line = true -> startsWith (js "-") line = false.
Proof.
  destruct line as [|c t]; [discriminate|].
  change (startsWith (js "+") (c :: t)) with (N.eqb 43 c && true).
  change (startsWith (js "-") (c :: t)) with (N.eqb 45 c && true).
  destruct (N.eqb 43 c) eqn:E; [|discriminate]. apply N.eqb_eq in E. subst c.
  reflexivity.
Qed.

(** Where no line of a hunk starts with "+++" or "---", the loop collects
    the added and the removed lines of the block. *)
Lemma collected_changeLines (lines : list str) :
  forallb (fun line => negb (isFileHeader line)) (hunkLines lines) = true ->
  filter isAddedLine lines
  = filter (startsWith (js "+"))
      (filter (fun line => negb (isFileHeader line)) (headerLines lines) ++ hunkLines lines)
  /\ filter isRemovedLine lines
     = filter (startsWith (js "-"))
         (filter (fun line => negb (isFileHeader line)) (headerLines lines)
          ++ hunkLines lines).
Proof.
  assert (Hline : forall line,
             isFileHeader line = false ->
             isAddedLine line = startsWith (js "+") line
             /\ isRemovedLine line = startsWith (js "-") line).
  { intros line Hf. unfold isAddedLine, isRemovedLine. rewrite Hf.
    fold (isHunkHeader line). destruct (isHunkHeader line) eqn:Eh.
    - destruct (hunkHeader_no_sign line Eh) as [-> ->]. now split.
    - cbn [negb andb]. destruct (startsWith (js "+") line) eqn:Ep; cbn [negb andb].
      + now rewrite (plus_no_minus line Ep).
      + now split. }
  assert (Hin : forall ls,
             forallb (fun line => negb (isFileHeader line)) ls = true ->
             filter isAddedLine ls = filter (startsWith (js "+")) ls
             /\ filter isRemovedLine ls = filter (startsWith (js "-")) ls).
  { induction ls as [|line ls IH]; [now split|]. cbn [forallb filter].
    intros H. apply andb_true_iff in H as [Hl Hls]. destruct (IH Hls) as [I1 I2].
    apply negb_true_iff in Hl. destruct (Hline line Hl) as [-> ->].
    now rewrite I1, I2. }
  induction lines as [|line lines IH]; [now split|].
  cbn [headerLines hunkLines]. destruct (isHunkHeader line) eqn:Eh.
  - cbn [filter app]. apply Hin.
  - intros H. destruct (IH H) as [I1 I2]. cbn [filter]. rewrite I1, I2.
    destruct (isFileHeader line) eqn:Ef; cbn [negb app filter].
    + unfold isAddedLine, isRemovedLine. rewrite Ef, !andb_false_r. now split.
    + destruct (Hline line Ef) as [-> ->]. now split.
Qed.

Lemma parseDiffLines_collects (block : str) :
  plainHunks block = true ->
  Preprocess.addedLines (Preprocess.parseDiffLines block) = addedLinesOf block
  /\ Preprocess.removedLines (Preprocess.parseDiffLines block) = removedLinesOf block.
Proof.
  intros Hplain. unfold Preprocess.parseDiffLines, addedLinesOf, removedLinesOf, changeLines.
  set (st0 := {| Preprocess.nAdditions := 0; Preprocess.nDeletions := 0;
                 Preprocess.removed := []; Preprocess.added := [];
                 Preprocess.hunks := [] |}).
  destruct (scan_collects (split newline block) st0) as [H1 H2].
  destruct (collected_changeLines (split newline block) Hplain) as [C1 C2].
  destruct (Preprocess.cancelAdded _ _). cbn [Preprocess.addedLines Preprocess.removedLines].
  cbv zeta. rewrite H1, H2, C1, C2. split; reflexivity.
Qed.

Lemma collapsedAndTrimmed_code (line : str) :
  collapsedAndTrimmed line = Preprocess.normalizeLine line.
Proof.
  unfold collapsedAndTrimmed, Preprocess.normalizeLine, collapseSpaces. f_equal.
  generalize false. induction line as [|c t IH]; intros b; [reflexivity|].
  cbn [collapseWhite replaceRuns]. destruct (isWhite c); [destruct b|]; now rewrite IH.
Qed.

Lemma collapsedAndTrimmed_map (lines : list str) :
  map collapsedAndTrimmed lines = map Preprocess.normalizeLine lines.
Proof. apply map_ext, collapsedAndTrimmed_code. Qed.

(** C9, the counterexample.  The block moves the line "-- old comment" one
    line down: its one added line and its one removed line have the same
    text.  The removed line reads "--- old comment" in the diff and the
    loop passes over it as a file header, so the added line survives as a
    net line. *)
Lemma parseDiffLines_moved_comment_kept :
  addedLinesOf movedCommentBlock = [js "-- old comment"]
  /\ removedLinesOf movedCommentBlock = [js "-- old comment"]
  /\ Permutation (map collapsedAndTrimmed (addedLinesOf movedCommentBlock))
                 (map collapsedAndTrimmed (removedLinesOf movedCommentBlock))
  /\ Preprocess.cleanedLines (Preprocess.parseDiffLines movedCommentBlock)
     = [js "-- old comment"].
Proof.
  split; [vm_compute; reflexivity|]. split; [vm_compute; reflexivity|].
  split; [|vm_compute; reflexivity].
  vm_compute. apply Permutation_refl.
Qed.

(** C9, amended.  In a diff block where no line of a hunk starts with "+++"
    or "---", when the normalized added lines are a permutation of the
    normalized removed lines (the same lines with the same multiplicities),
    the reconciler keeps no net line at all: no added line survives and no
    removed line is left over. *)
Theorem parseDiffLines_pure_relocation :
  forall block : str,
    plainHunks block = true ->
    Permutation (map collapsedAndTrimmed (addedLinesOf block))
                (map collapsedAndTrimmed (removedLinesOf block)) ->
    Preprocess.cleanedLines (Preprocess.parseDiffLines block) = [].
Proof.
  intros block Hplain. rewrite !collapsedAndTrimmed_map.
  destruct (parseDiffLines_collects block Hplain) as [Ha Hr].
  rewrite <- Ha, <- Hr. clear Ha Hr. unfold Preprocess.parseDiffLines.
  set (st := fold_left Preprocess.scanLine (split newline block) _).
  destruct (countRemoved_counts (Preprocess.removed st)) as [Hnd Hcount].
  destruct (Preprocess.cancelAdded (Preprocess.countRemoved (Preprocess.removed st))
              (Preprocess.added st)) as [kept left] eqn:E.
  cbn [Preprocess.addedLines Preprocess.removedLines Preprocess.cleanedLines].
  intros Hperm.
  destruct (cancelAdded_balanced (Preprocess.added st) _ Hnd) as [m' [E' [Hnd' Hz]]].
  { intros key. rewrite Hcount. symmetry.
    now apply (proj1 (Permutation_count_occ str_eq_dec _ _)). }
  rewrite E in E'. injection E' as -> ->.
  now rewrite (no_positive_entry _ Hnd' Hz).
Qed.

Lemma parseDiffLines_pure_relocation_witness :
  addedLinesOf reorderedBlock = [js "beta"; js " alpha one"]
  /\ removedLinesOf reorderedBlock = [js "alpha  one"; js "beta"]
  /\ Preprocess.cleanedLines (Preprocess.parseDiffLines reorderedBlock) = [].
Proof.
  split; [reflexivity | split; [reflexivity|]].
  apply (parseDiffLines_pure_relocation reorderedBlock); [reflexivity|].
  vm_compute. apply perm_swap.
Defined.

(** ** The lockfile summarizer (C8) *)







(** ** Cancellation and failure of the generation (C3) *)

(** An exception leaves [generateCommitMessage] only when the signal is
    aborted at that moment. *)
Lemma generateCommitMessage_throws_only_aborted (p : Generation.Prompt) (r : Generation.Run) :
  Generation.outcome (Generation.generateCommitMessage p r) = Generation.thrown ->
  Generation.aborted r (Generation.finishedAt (Generation.generateCommitMessage p r)) = true.
Proof.
  unfold Generation.generateCommitMessage.
  destruct (Generation.aborted r 0) eqn:E0; [intros _; exact E0|].
  destruct (match Generation.streaming r with
            | Generation.createFails => (1, None)
            | Generation.yields chunks ending => Generation.consume r 1 [] chunks ending
            end) as [now [content|]].
  - cbn. destruct (Generation.aborted r now); [reflexivity | discriminate].
  - destruct (Generation.aborted r now) eqn:E1; [intros _; exact E1|].
    destruct (Generation.plain r); cbn.
    + destruct (Generation.aborted r (S now)); [reflexivity | discriminate].
    + discriminate.
Qed.

Lemma generateCommitMessage_throws_only_aborted_witness :
  Generation.aborted abortedBeforeRun
    (Generation.finishedAt (Generation.generateCommitMessage samplePrompt abortedBeforeRun))
  = true.
Proof.
  apply (generateCommitMessage_throws_only_aborted samplePrompt abortedBeforeRun).
  reflexivity.
Defined.

(** A run that is aborted when the call ends throws, except on one path:
    the plain retry was started and rejected. *)
Lemma generateCommitMessage_aborted_outcomes (p : Generation.Prompt) (r : Generation.Run) :
  Generation.aborted r (Generation.finishedAt (Generation.generateCommitMessage p r)) = true ->
  Generation.outcome (Generation.generateCommitMessage p r) = Generation.thrown
  \/ (Generation.outcome (Generation.generateCommitMessage p r) = Generation.synthesized
      /\ Generation.plain r = Generation.rejects
      /\ Generation.calls (Generation.generateCommitMessage p r)
         = [Generation.streamingCall p; Generation.plainCall p]).
Proof.
  unfold Generation.generateCommitMessage.
  destruct (Generation.aborted r 0) eqn:E0; [now left|].
  destruct (match Generation.streaming r with
            | Generation.createFails => (1, None)
            | Generation.yields chunks ending => Generation.consume r 1 [] chunks ending
            end) as [now [content|]].
  - cbn. intros ->. now left.
  - destruct (Generation.aborted r now) eqn:E1; [now left|].
    destruct (Generation.plain r); cbn.
    + intros ->. now left.
    + intros _. right. repeat split.
Qed.

Lemma aborted_mono (r : Generation.Run) (a b : nat) :
  a <= b -> Generation.aborted r a = true -> Generation.aborted r b = true.
Proof.
  unfold Generation.aborted. destruct (Generation.abortAt r) as [t|]; [|discriminate].
  intros Hab H. apply Nat.leb_le in H. apply Nat.leb_le. lia.
Qed.

(** The loop over the stream: with a signal that stays clear it takes one
    suspension per chunk and one for the end of the stream; otherwise the
    signal is set when it ends. *)
Lemma consume_end (r : Generation.Run) (chunks : list str) (ending : Generation.StreamEnd) :
  forall (now : nat) (content : str),
    let done := S now + length chunks in
    (Generation.aborted r done = false ->
     Generation.consume r now content chunks ending
     = (done, match ending with
              | Generation.streamDone => Some (content ++ concat chunks)
              | Generation.streamFails => None
              end))
    /\ (Generation.aborted r done = true ->
        Generation.aborted r (fst (Generation.consume r now content chunks ending)) = true).
Proof.
  induction chunks as [|delta rest IH]; intros now content done.
  - unfold done. cbn [Generation.consume length concat]. rewrite Nat.add_0_r, app_nil_r.
    split; [intros _; now destruct ending | now destruct ending].
  - cbn [Generation.consume]. unfold done. cbn [length concat].
    replace (S now + S (length rest)) with (S (S now) + length rest) by lia.
    destruct (Generation.aborted r (S now)) eqn:E.
    + split.
      * intros H. rewrite (aborted_mono r (S now) (S (S now) + length rest)) in H
          by (lia || exact E). discriminate.
      * intros _. cbn [fst]. apply (aborted_mono r (S now)); [lia | exact E].
    + destruct (IH (S now) (content ++ delta)) as [H1 H2]. split.
      * intros H. rewrite (H1 H), <- app_assoc. reflexivity.
      * exact H2.
Qed.

(** The engine is called at most twice, each time with the prompt built
    once.  No call is made exactly when the signal is set at entry; the
    plain retry is made exactly when the streaming attempt fails without
    cancellation. *)
Lemma generateCommitMessage_calls (p : Generation.Prompt) (r : Generation.Run) :
  let c := Generation.calls (Generation.generateCommitMessage p r) in
  (c = [] \/ c = [Generation.streamingCall p]
   \/ c = [Generation.streamingCall p; Generation.plainCall p])
  /\ (c = [] <-> Generation.aborted r 0 = true)
  /\ (c = [Generation.streamingCall p; Generation.plainCall p]
      <-> failsUncancelled r = true).
Proof.
  unfold Generation.generateCommitMessage, failsUncancelled.
  destruct (Generation.aborted r 0) eqn:E0.
  - cbn [Generation.calls]. split; [now left | split; [tauto|]].
    split; [discriminate|].
    destruct (Generation.streaming r) as [|chunks [|]]; [| discriminate |];
      intros H; apply negb_true_iff in H;
      [rewrite (aborted_mono r 0 1) in H | rewrite (aborted_mono r 0 (2 + length chunks)) in H];
      (lia || exact E0 || discriminate).
  - destruct (Generation.streaming r) as [|chunks ending].
    + destruct (Generation.aborted r 1); cbn [Generation.calls negb].
      * split; [tauto | split; split; discriminate].
      * destruct (Generation.plain r); cbn [Generation.calls];
          (split; [tauto | split; [split; discriminate | tauto]]).
    + destruct (consume_end r chunks ending 1 []) as [Hclear Hset].
      cbn [app] in Hclear. change (1 + 1 + length chunks) with (2 + length chunks) in *.
      change (S 1 + length chunks) with (2 + length chunks) in *.
      destruct (Generation.aborted r (2 + length chunks)) eqn:E.
      * specialize (Hset eq_refl).
        destruct (Generation.consume r 1 [] chunks ending) as [now [content|]];
          cbn [fst] in Hset; [|rewrite Hset]; cbn [Generation.calls];
          (split; [tauto|]); (split; [split; discriminate|]);
          (split; [discriminate | destruct ending; discriminate]).
      * rewrite (Hclear eq_refl). destruct ending.
        -- cbn [Generation.calls]. split; [tauto | split; split; discriminate].
        -- rewrite E. destruct (Generation.plain r); cbn [Generation.calls negb];
             (split; [tauto | split; [split; discriminate | tauto]]).
Qed.

(** C3, the failing run.  The streaming request fails while the signal is
    clear, the caller aborts during the plain retry, and the retry rejects:
    the call is aborted when it ends, yet it returns the synthesized
    fallback instead of throwing.  The inner [catch] lacks the abort check
    that the outer [catch] and the code after the [try] perform. *)
Theorem generateCommitMessage_cancelled_during_retry :
  let result := Generation.generateCommitMessage samplePrompt retryCancelledRun in
  Generation.aborted retryCancelledRun (Generation.finishedAt result) = true
  /\ Generation.outcome result = Generation.synthesized
  /\ Generation.calls result
     = [Generation.streamingCall samplePrompt; Generation.plainCall samplePrompt].
Proof. repeat split. Qed.

(** ** Subjects that are only too short (C5) *)

(** In the copy with the flat bound, a subject whose only reason is
    [tooShort] (or that has none) is kept and handed to the length control. *)
Lemma Bounded_keeps_short_subject
    (l : Lang) (subject : str) (tokens : list str) (count minLength maxLength : nat)
    (diff : PreprocessResult) (promptConfig : PromptConfig) :
  (forall r, In r (validationReasons (trim subject) tokens count minLength) -> r = tooShort) ->
  Bounded.ensureSpecificSubject l subject tokens count minLength maxLength diff promptConfig
  = applySubjectStyle l
      (if (0 <? minLength) || (0 <? maxLength)
       then Bounded.ensureSubjectLength l (trim subject) diff tokens promptConfig
              minLength maxLength
       else trim subject)
      promptConfig.
Proof.
  intros H. unfold Bounded.ensureSpecificSubject.
  replace (Bounded.needsFallback (validationReasons (trim subject) tokens count minLength))
    with false; [reflexivity|].
  symmetry. unfold Bounded.needsFallback.
  apply not_true_is_false. intros E. apply existsb_exists in E as [r [Hr Hn]].
  rewrite (H r Hr) in Hn. discriminate.
Qed.

Lemma Bounded_keeps_short_subject_witness :
  Bounded.ensureSpecificSubject en shortModelSubject (requiredTokens largeParserDiff) 1
    Bounded.minSubjectLength Bounded.maxSubjectLength largeParserDiff defaultConfig
  = applySubjectStyle en
      (if (0 <? Bounded.minSubjectLength) || (0 <? Bounded.maxSubjectLength)
       then Bounded.ensureSubjectLength en (trim shortModelSubject) largeParserDiff
              (requiredTokens largeParserDiff) defaultConfig
              Bounded.minSubjectLength Bounded.maxSubjectLength
       else trim shortModelSubject)
      defaultConfig.
Proof.
  apply (Bounded_keeps_short_subject en shortModelSubject (requiredTokens largeParserDiff)
           1 Bounded.minSubjectLength Bounded.maxSubjectLength largeParserDiff
           defaultConfig).
  intros r H. vm_compute in H. destruct H as [<- | []]. reflexivity.
Defined.

(** C5, the failing input.  In the copy whose minimum depends on the change
    magnitude, a subject that names a required token, is not generic and
    holds no diff statistics, but is shorter than the 300 units asked for,
    has [tooShort] as its only reason and is nevertheless replaced by the
    synthesized subject: any reason triggers the fallback there. *)
Theorem Magnitude_discards_short_subject :
  let tokens := requiredTokens largeParserDiff in
  let count := requiredTokenCount largeParserDiff in
  let minLength := Magnitude.minSubjectLength largeParserDiff in
  minLength = 300
  /\ validationReasons (trim shortModelSubject) tokens count minLength = [tooShort]
  /\ Magnitude.ensureSpecificSubject en shortModelSubject tokens count minLength
       largeParserDiff defaultConfig
     = Magnitude.buildSpecificSubject en largeParserDiff tokens count defaultConfig minLength
  /\ includes
       (Magnitude.ensureSpecificSubject en shortModelSubject tokens count minLength
          largeParserDiff defaultConfig)
       (js "refine") = false
  /\ includes
       (Bounded.ensureSpecificSubject en shortModelSubject tokens count
          Bounded.minSubjectLength Bounded.maxSubjectLength largeParserDiff defaultConfig)
       shortModelSubject = true.
Proof. repeat split; vm_compute; reflexivity. Qed.

(** ** Substrings *)

Lemma startsWith_iff (p s : str) : startsWith p s = true <-> exists r, s = p ++ r.
Proof.
  revert s. induction p as [|x p IH]; intros s; simpl.
  - split; [intros _; now exists s | reflexivity].
  - destruct s as [|y s]; [split; [discriminate | intros [r Hr]; discriminate]|].
    rewrite andb_true_iff, N.eqb_eq, IH. split.
    + intros [-> [r ->]]. now exists r.
    + intros [r Hr]. injection Hr as -> ->. split; [reflexivity | now exists r].
Qed.

Lemma includes_iff (s p : str) : includes s p = true <-> exists a b, s = a ++ p ++ b.
Proof.
  induction s as [|c s IH]; simpl.
  - rewrite orb_false_r, startsWith_iff. split.
    + intros [r Hr]. now exists [], r.
    + intros [a [b H]]. destruct a; [now exists b | discriminate].
  - rewrite orb_true_iff, startsWith_iff, IH. split.
    + intros [[r Hr] | [a [b H]]].
      * now exists [], r.
      * exists (c :: a), b. now rewrite H.
    + intros [[|x a] [b H]].
      * left. now exists b.
      * right. injection H as -> ->. now exists a, b.
Qed.

Lemma isAlnum_lowerUnit (c : N) : isAlnum c = true -> lowerUnit c = [c].
Proof.
  unfold isAlnum, isLowerAZ, isDigit, lowerUnit, isUpperAZ, inRange.
  intros H.
  destruct (N.leb 65 c && N.leb c 90) eqn:E1.
  - apply andb_true_iff in E1 as [A B]. apply N.leb_le in A, B.
    apply orb_true_iff in H as [H | H]; apply andb_true_iff in H as [C D];
      apply N.leb_le in C, D; lia.
  - destruct (N.eqb c 304) eqn:E2.
    + apply N.eqb_eq in E2. subst c. discriminate.
    + destruct (N.eqb c 8490) eqn:E3; [|reflexivity].
      apply N.eqb_eq in E3. subst c. discriminate.
Qed.

Lemma toLowerCase_app (a b : str) : toLowerCase (a ++ b) = toLowerCase a ++ toLowerCase b.
Proof. unfold toLowerCase. apply flat_map_app. Qed.

Lemma toLowerCase_alnum (w : str) : forallb isAlnum w = true -> toLowerCase w = w.
Proof.
  induction w as [|c w IH]; simpl; [reflexivity|].
  intros H. apply andb_true_iff in H as [Hc Hw].
  rewrite (isAlnum_lowerUnit _ Hc), IH by assumption. reflexivity.
Qed.

Lemma isAlnum_not_white (c : N) : isAlnum c = true -> isWhite c = false.
Proof.
  unfold isAlnum, isLowerAZ, isDigit, isWhite, inRange. intros H.
  assert (Hc : (48 <= c <= 122)%N).
  { apply orb_true_iff in H as [H | H]; apply andb_true_iff in H as [A B];
      apply N.leb_le in A, B; lia. }
  repeat match goal with
         | |- (_ || _)%bool = false => apply orb_false_iff; split
         | |- (_ && _)%bool = false => apply andb_false_iff
         end;
    try (apply N.eqb_neq; lia).
  - right. apply N.leb_gt. lia.
  - left. apply N.leb_gt. lia.
Qed.

(** A non-empty word whose units are outside the replaced class survives
    the replacement of runs. *)
Lemma replaceRuns_keeps (f : N -> bool) (w b : str) :
  w <> [] -> forallb (fun c => negb (f c)) w = true ->
  forall (a : str) (inRun : bool),
    exists a', replaceRuns f inRun (a ++ w ++ b) = a' ++ w ++ replaceRuns f false b.
Proof.
  intros Hne Hw.
  assert (Hword : forall w' inRun, w' <> [] ->
                    forallb (fun c => negb (f c)) w' = true ->
                    replaceRuns f inRun (w' ++ b) = w' ++ replaceRuns f false b).
  { induction w' as [|c w' IH]; intros inRun Hn Hall; [contradiction|].
    simpl in Hall. apply andb_true_iff in Hall as [Hc Hall].
    apply negb_true_iff in Hc. simpl. rewrite Hc.
    destruct w' as [|c' w''].
    - reflexivity.
    - rewrite IH; [reflexivity | discriminate | assumption]. }
  induction a as [|c a IH]; intros inRun.
  - exists []. simpl. now apply Hword.
  - simpl. destruct (f c).
    + destruct inRun.
      * destruct (IH true) as [a' E]. exists a'. exact E.
      * destruct (IH true) as [a' E]. exists (sp :: a'). simpl. now rewrite E.
    + destruct (IH false) as [a' E]. exists (c :: a'). simpl. now rewrite E.
Qed.

Lemma dropWhile_keeps (f : N -> bool) (w b : str) :
  w <> [] -> forallb (fun c => negb (f c)) w = true ->
  forall a : str, exists a', dropWhile f (a ++ w ++ b) = a' ++ w ++ b.
Proof.
  intros Hne Hw. induction a as [|c a IH].
  - exists []. destruct w as [|c w]; [contradiction|].
    simpl in Hw. apply andb_true_iff in Hw as [Hc _].
    apply negb_true_iff in Hc. simpl. now rewrite Hc.
  - simpl. destruct (f c).
    + exact IH.
    + exists (c :: a). reflexivity.
Qed.

Lemma dropEndWhile_cons_keep (f : N -> bool) (c : N) (s : str) :
  f c = false -> dropEndWhile f (c :: s) = c :: dropEndWhile f s.
Proof. intros H. simpl. destruct (dropEndWhile f s); [now rewrite H | reflexivity]. Qed.

Lemma dropEndWhile_app_keep (f : N -> bool) (a : str) (c : N) (s : str) :
  f c = false -> dropEndWhile f (a ++ c :: s) = a ++ c :: dropEndWhile f s.
Proof.
  intros H. induction a as [|x a IH]; simpl.
  - destruct (dropEndWhile f s); [now rewrite H | reflexivity].
  - cbn [app] in IH. rewrite IH. destruct a; reflexivity.
Qed.

Lemma dropEndWhile_keeps (f : N -> bool) (w b : str) :
  w <> [] -> forallb (fun c => negb (f c)) w = true ->
  forall a : str, exists b', dropEndWhile f (a ++ w ++ b) = a ++ w ++ b'.
Proof.
  intros Hne Hw a.
  destruct (exists_last Hne) as [w' [c E]]. subst w.
  rewrite forallb_app in Hw. apply andb_true_iff in Hw as [_ Hc].
  simpl in Hc. rewrite andb_true_r in Hc. apply negb_true_iff in Hc.
  exists (dropEndWhile f b).
  replace (a ++ (w' ++ [c]) ++ b) with ((a ++ w') ++ c :: b)
    by (rewrite <- !app_assoc; reflexivity).
  rewrite dropEndWhile_app_keep by assumption.
  rewrite <- !app_assoc. reflexivity.
Qed.

(** A lower-case alphanumeric word contained in a subject is contained in
    its normalized form. *)
Lemma normalizeForMatch_keeps_word (s w : str) :
  w <> [] -> forallb isAlnum w = true ->
  includes s w = true -> includes (normalizeForMatch s) w = true.
Proof.
  intros Hne Hw Hin. apply includes_iff in Hin as [a [b E]]. subst s.
  unfold normalizeForMatch. rewrite !toLowerCase_app, (toLowerCase_alnum _ Hw).
  assert (Hw1 : forallb (fun c => negb (negb (isAlnum c))) w = true).
  { rewrite forallb_forall in *. intros c Hc. now rewrite negb_involutive, Hw. }
  assert (Hw2 : forallb (fun c => negb (isWhite c)) w = true).
  { rewrite forallb_forall in *. intros c Hc.
    now rewrite (isAlnum_not_white _ (Hw c Hc)). }
  destruct (replaceRuns_keeps (fun c => negb (isAlnum c)) w (toLowerCase b) Hne Hw1
              (toLowerCase a) false) as [a1 E1].
  rewrite E1. unfold collapseSpaces.
  destruct (replaceRuns_keeps isWhite w
              (replaceRuns (fun c => negb (isAlnum c)) false (toLowerCase b))
              Hne Hw2 a1 false) as [a2 E2].
  rewrite E2. unfold trim, trimStart, trimEnd.
  destruct (dropWhile_keeps isWhite w
              (replaceRuns isWhite false
                 (replaceRuns (fun c => negb (isAlnum c)) false (toLowerCase b)))
              Hne Hw2 a2) as [a3 E3].
  rewrite E3.
  destruct (dropEndWhile_keeps isWhite w
              (replaceRuns isWhite false
                 (replaceRuns (fun c => negb (isAlnum c)) false (toLowerCase b)))
              Hne Hw2 a3) as [b3 E4].
  rewrite E4. apply includes_iff. now exists a3, b3.
Qed.

(** ** The loops of [matchRequiredTokens] *)

Lemma normalizeForMatch_nil : normalizeForMatch [] = [].
Proof. reflexivity. Qed.

Lemma variantMatches_truthy (subject v : str) :
  occursNormalized normalizeForMatch subject v = true -> truthy v = true.
Proof.
  destruct v; [|reflexivity]. unfold occursNormalized.
  rewrite normalizeForMatch_nil. discriminate.
Qed.

Lemma condAdd_mono (c : bool) (s : list str) (y x : str) :
  In x s -> In x (if c then setAdd s y else s).
Proof. intros H. destruct c; [apply setAdd_In; now left | exact H]. Qed.

Lemma condAdd_self (s : list str) (y z : str) :
  truthy y = true ->
  y = z \/ In y (if truthy y && negb (eqb_str y z) then setAdd s y else s).
Proof.
  intros H. rewrite H. cbn [andb]. destruct (eqb_str y z) eqn:E; cbn [negb].
  - left. now apply eqb_str_eq.
  - right. apply setAdd_In. now right.
Qed.

Lemma expandTokenVariants_In (token v : str) :
  In v (expandTokenVariants token)
  <-> truthy v = true /\ In v (candidateVariants (trim token)).
Proof.
  unfold expandTokenVariants, candidateVariants.
  set (t := trim token).
  set (stripped := dropWhile isLeadPunct t).
  set (base := lastSegment t).
  set (noExt := stripExtension base).
  destruct (truthy t) eqn:Et; cbn [negb].
  2:{ destruct t; [|discriminate]. subst stripped base noExt. cbn.
      split; [intros [] | intros [Hv H]].
      destruct H as [<- | [<- | [<- | [<- | []]]]]; discriminate. }
  assert (Hs : forall x y : str, In v (if truthy x && negb (eqb_str x y)
                                       then setAdd [] x else []) ->
                                 truthy v = true /\ v = x).
  { intros x y. destruct (truthy x) eqn:Ex; cbn [andb]; [|intros []].
    destruct (eqb_str x y); cbn [negb]; [intros []|].
    rewrite setAdd_In. intros [[] | ->]. now split. }
  split.
  - intros H.
    destruct (truthy noExt && negb (eqb_str noExt base)) eqn:C4;
      [apply setAdd_In in H as [H | ->];
       [|apply andb_true_iff in C4 as [C4 _]; split; [exact C4 | simpl; tauto]]|];
      (destruct (truthy base && negb (eqb_str base t)) eqn:C3;
       [apply setAdd_In in H as [H | ->];
        [|apply andb_true_iff in C3 as [C3 _]; split; [exact C3 | simpl; tauto]]|]);
      (destruct (truthy stripped && negb (eqb_str stripped t)) eqn:C2;
       [apply setAdd_In in H as [H | ->];
        [|apply andb_true_iff in C2 as [C2 _]; split; [exact C2 | simpl; tauto]]|]);
      apply setAdd_In in H as [[] | ->]; (split; [exact Et | simpl; tauto]).
  - intros [Hv H].
    assert (H1 : In t (setAdd [] t)) by (apply setAdd_In; now right).
    destruct H as [<- | [<- | [<- | [<- | []]]]].
    + now repeat apply condAdd_mono.
    + apply condAdd_mono, condAdd_mono.
      destruct (condAdd_self (setAdd [] t) stripped t Hv) as [E | Hin];
        [rewrite E; now apply condAdd_mono | exact Hin].
    + apply condAdd_mono.
      destruct (condAdd_self
                  (if truthy stripped && negb (eqb_str stripped t)
                   then setAdd (setAdd [] t) stripped else setAdd [] t)
                  base t Hv) as [E | Hin];
        [rewrite E; now repeat apply condAdd_mono | exact Hin].
    + destruct (condAdd_self
                  (if truthy base && negb (eqb_str base t)
                   then setAdd (if truthy stripped && negb (eqb_str stripped t)
                                then setAdd (setAdd [] t) stripped else setAdd [] t) base
                   else (if truthy stripped && negb (eqb_str stripped t)
                         then setAdd (setAdd [] t) stripped else setAdd [] t))
                  noExt base Hv) as [E | Hin]; [|exact Hin].
      apply condAdd_mono. rewrite E in Hv.
      destruct (condAdd_self
                  (if truthy stripped && negb (eqb_str stripped t)
                   then setAdd (setAdd [] t) stripped else setAdd [] t)
                  base t Hv) as [E' | Hin];
        [rewrite E, E'; now repeat apply condAdd_mono | rewrite E; exact Hin].
Qed.

Lemma matchVariants_iff (ns : str) (variants : list str) :
  matchVariants ns variants = true <->
  exists v, In v variants
            /\ (3 <=? length (normalizeForMatch v)) = true
            /\ includes ns (normalizeForMatch v) = true.
Proof.
  induction variants as [|v vs IH]; cbn [matchVariants].
  - split; [discriminate | intros [v [[] _]]].
  - destruct (length (normalizeForMatch v) <? 3) eqn:E.
    + rewrite IH. split.
      * intros [x [Hx H]]. exists x. split; [now right | exact H].
      * intros [x [[<- | Hx] [H1 H2]]].
        -- apply Nat.ltb_lt in E. apply Nat.leb_le in H1. lia.
        -- exists x. tauto.
    + assert (Ht : truthy (normalizeForMatch v) = true).
      { apply Nat.ltb_ge in E.
        destruct (normalizeForMatch v); [simpl in E; lia | reflexivity]. }
      rewrite Ht. cbn [andb].
      destruct (includes ns (normalizeForMatch v)) eqn:Ei.
      * split; [intros _ | reflexivity].
        exists v. split; [now left | split; [|exact Ei]].
        apply Nat.leb_le. apply Nat.ltb_ge in E. exact E.
      * rewrite IH. split.
        -- intros [x [Hx H]]. exists x. split; [now right | exact H].
        -- intros [x [[<- | Hx] [H1 H2]]]; [congruence | exists x; tauto].
Qed.

Lemma token_matched_iff (subject token : str) :
  matchVariants (normalizeForMatch subject) (expandTokenVariants token) = true <->
  exists v, In v (candidateVariants (trim token))
            /\ occursNormalized normalizeForMatch subject v = true.
Proof.
  rewrite matchVariants_iff. unfold occursNormalized. split.
  - intros [v [Hv [H1 H2]]]. apply expandTokenVariants_In in Hv as [_ Hv].
    exists v. split; [exact Hv | now rewrite H1, H2].
  - intros [v [Hv H]]. pose proof (variantMatches_truthy subject v H) as Ht.
    unfold occursNormalized in H. apply andb_true_iff in H as [H1 H2].
    exists v. split; [apply expandTokenVariants_In; tauto | tauto].
Qed.

Lemma collectMatches_In (ns : str) (tokens matched : list str) (token : str) :
  In token (collectMatches ns matched tokens) <->
  In token matched
  \/ (In token tokens /\ matchVariants ns (expandTokenVariants token) = true).
Proof.
  revert matched. induction tokens as [|t tokens IH]; intros matched; simpl.
  - tauto.
  - destruct (matchVariants ns (expandTokenVariants t)) eqn:E; rewrite IH.
    + rewrite setAdd_In. split.
      * intros [[H | ->] | [H1 H2]]; [tauto | right; tauto | tauto].
      * intros [H | [[<- | H1] H2]]; tauto.
    + split.
      * intros [H | [H1 H2]]; tauto.
      * intros [H | [[<- | H1] H2]]; [tauto | congruence | tauto].
Qed.

Lemma setAdd_NoDup (seen : list str) (x : str) : NoDup seen -> NoDup (setAdd seen x).
Proof.
  intros H. unfold setAdd. destruct (setHas seen x) eqn:E; [exact H|].
  apply NoDup_app; [exact H | constructor; [intros [] | constructor] |].
  intros y Hy [<- | []]. apply setHas_In in Hy. congruence.
Qed.

Lemma collectMatches_NoDup (ns : str) (tokens matched : list str) :
  NoDup matched -> NoDup (collectMatches ns matched tokens).
Proof.
  revert matched. induction tokens as [|t tokens IH]; intros matched H; simpl.
  - exact H.
  - destruct (matchVariants ns (expandTokenVariants t)); apply IH;
      [now apply setAdd_NoDup | exact H].
Qed.

(** ** Length control of the bounded copy (C4) *)

Lemma dropWhile_length (f : N -> bool) (s : str) : length (dropWhile f s) <= length s.
Proof.
  induction s as [|c s IH]; simpl; [lia|]. destruct (f c); simpl; lia.
Qed.

Lemma dropEndWhile_length (f : N -> bool) (s : str) : length (dropEndWhile f s) <= length s.
Proof.
  induction s as [|c s IH]; simpl; [lia|].
  destruct (dropEndWhile f s); [destruct (f c); simpl; lia | simpl in *; lia].
Qed.

Lemma trim_length (s : str) : length (trim s) <= length s.
Proof.
  unfold trim, trimEnd, trimStart.
  pose proof (dropEndWhile_length isWhite (dropWhile isWhite s)).
  pose proof (dropWhile_length isWhite s). lia.
Qed.

Lemma indexOf_first (s p : str) (i : nat) :
  indexOf s p = Some i <-> firstOccurrence s p i.
Proof.
  revert i. induction s as [|c s IH]; intros i.
  - cbn [indexOf]. destruct (startsWith p []) eqn:E.
    + split.
      * intros H. injection H as <-. repeat split; [simpl; lia | | intros j Hj; lia].
        apply startsWith_iff in E as [r Hr]. exists r. exact Hr.
      * intros [Hi _]. simpl in Hi. f_equal. lia.
    + split; [discriminate|].
      intros [Hi [[rest Hr] _]]. simpl in Hi. assert (i = 0) by lia. subst i.
      simpl in Hr. exfalso.
      assert (startsWith p [] = true) by (apply startsWith_iff; now exists rest).
      congruence.
  - cbn [indexOf]. destruct (startsWith p (c :: s)) eqn:E.
    + split.
      * intros H. injection H as <-. repeat split; [simpl; lia | | intros j Hj; lia].
        apply startsWith_iff in E as [r Hr]. exists r. exact Hr.
      * intros [_ [_ Hj]]. destruct i as [|i]; [reflexivity|].
        specialize (Hj 0 ltac:(lia)). simpl in Hj. congruence.
    + destruct (indexOf s p) as [k|] eqn:Ek; cbn [option_map].
      * split.
        -- intros H. injection H as <-.
           destruct (proj1 (IH k) eq_refl) as [Hk [[rest Hr] Hj]].
           repeat split.
           ++ simpl. lia.
           ++ exists rest. simpl. now rewrite <- Hr.
           ++ intros [|j] Hlt; [exact E | simpl; apply Hj; lia].
        -- intros [Hi [[rest Hr] Hj]]. destruct i as [|i].
           ++ simpl in Hr. exfalso.
              assert (startsWith p (c :: s) = true)
                by (apply startsWith_iff; now exists rest).
              congruence.
           ++ f_equal. f_equal.
              assert (Hf : firstOccurrence s p i).
              { repeat split.
                - simpl in Hi. lia.
                - exists rest. simpl in Hr. injection Hr as Hr. exact Hr.
                - intros j Hlt. apply (Hj (S j)). lia. }
              apply IH in Hf. congruence.
      * split; [discriminate|].
        intros [Hi [[rest Hr] Hj]]. destruct i as [|i].
        -- simpl in Hr. exfalso.
           assert (startsWith p (c :: s) = true)
             by (apply startsWith_iff; now exists rest).
           congruence.
        -- assert (Hf : firstOccurrence s p i).
           { repeat split.
             - simpl in Hi. lia.
             - exists rest. simpl in Hr. injection Hr as Hr. exact Hr.
             - intros j Hlt. apply (Hj (S j)). lia. }
           apply IH in Hf. discriminate.
Qed.

Lemma cutAtSeparator_Some (value : str) (maxLength : nat) (seps : list str) (t : str) :
  Bounded.cutAtSeparator value maxLength seps = Some t ->
  exists before sep after i,
    seps = before ++ sep :: after
    /\ qualifies value maxLength sep i
    /\ (forall s j, In s before -> ~ qualifies value maxLength s j)
    /\ t = trim (firstn i value).
Proof.
  induction seps as [|sep seps IH]; cbn [Bounded.cutAtSeparator]; [discriminate|].
  intros H.
  assert (Hskip : (forall j, ~ qualifies value maxLength sep j) ->
                  Bounded.cutAtSeparator value maxLength seps = Some t ->
                  exists before sep0 after i,
                    sep :: seps = before ++ sep0 :: after
                    /\ qualifies value maxLength sep0 i
                    /\ (forall s j, In s before -> ~ qualifies value maxLength s j)
                    /\ t = trim (firstn i value)).
  { intros Hno Hrest. destruct (IH Hrest) as [before [sep0 [after [i [E [Hq [Hb Ht]]]]]]].
    exists (sep :: before), sep0, after, i.
    split; [now rewrite E | split; [exact Hq | split; [|exact Ht]]].
    intros s j [<- | Hs]; [apply Hno | now apply Hb]. }
  destruct (indexOf value sep) as [index|] eqn:Ei.
  - destruct ((0 <? index) && (index <=? maxLength)) eqn:Eb.
    + destruct (10 <=? length (trim (firstn index value))) eqn:El.
      * injection H as <-. exists [], sep, seps, index.
        apply andb_true_iff in Eb as [B1 B2].
        apply Nat.ltb_lt in B1. apply Nat.leb_le in B2, El.
        apply indexOf_first in Ei.
        split; [reflexivity | split; [|split; [intros s j [] | reflexivity]]].
        split; [exact Ei | split; [lia | exact El]].
      * apply Hskip; [|exact H]. intros j [Hf [_ Hl]].
        apply indexOf_first in Hf. rewrite Ei in Hf. injection Hf as <-.
        apply Nat.leb_gt in El. lia.
    + apply Hskip; [|exact H]. intros j [Hf [Hr _]].
      apply indexOf_first in Hf. rewrite Ei in Hf. injection Hf as <-.
      apply andb_false_iff in Eb as [B | B];
        [apply Nat.ltb_ge in B | apply Nat.leb_gt in B]; lia.
  - apply Hskip; [|exact H]. intros j [Hf _].
    apply indexOf_first in Hf. congruence.
Qed.

Lemma cutAtSeparator_None (value : str) (maxLength : nat) (seps : list str) :
  Bounded.cutAtSeparator value maxLength seps = None ->
  forall s j, In s seps -> ~ qualifies value maxLength s j.
Proof.
  induction seps as [|sep seps IH]; cbn [Bounded.cutAtSeparator]; intros H s j [];
    [subst s | apply IH; [|assumption]].
  - intros [Hf [Hr Hl]]. apply indexOf_first in Hf. rewrite Hf in H.
    replace ((0 <? j) && (j <=? maxLength)) with true in H.
    + replace (10 <=? length (trim (firstn j value))) with true in H; [discriminate|].
      symmetry. now apply Nat.leb_le.
    + symmetry. apply andb_true_iff. split; [apply Nat.ltb_lt | apply Nat.leb_le]; lia.
  - destruct (indexOf value sep) as [index|]; [|exact H].
    destruct ((0 <? index) && (index <=? maxLength)); [|exact H].
    destruct (10 <=? length (trim (firstn index value))); [discriminate | exact H].
Qed.

Lemma trimToMax_length (value : str) (maxLength : nat) :
  0 < maxLength -> length (Bounded.trimToMax value maxLength) <= maxLength.
Proof.
  intros Hm. unfold Bounded.trimToMax.
  destruct (maxLength =? 0) eqn:E0; [apply Nat.eqb_eq in E0; lia|].
  cbn [orb]. destruct (length value <=? maxLength) eqn:El.
  - now apply Nat.leb_le.
  - destruct (Bounded.cutAtSeparator value maxLength Bounded.separators) as [t|] eqn:Ec.
    + apply cutAtSeparator_Some in Ec as [_ [sep [_ [i [_ [[_ [Hr _]] [_ ->]]]]]]].
      pose proof (trim_length (firstn i value)).
      pose proof (firstn_le_length i value). lia.
    + unfold Bounded.hardCut.
      pose proof (trim_length (dropEndWhile Bounded.isTrailingPunct (firstn maxLength value))).
      pose proof (dropEndWhile_length Bounded.isTrailingPunct (firstn maxLength value)).
      pose proof (firstn_le_length maxLength value). lia.
Qed.

(** The fragments appended by the loop keep the candidate within the
    maximum. *)
Lemma appendFragments_fits (l : Lang) (candidate snippet : str) (maxLength : nat)
    (fragments : list str) :
  0 < maxLength ->
  forall appended : str,
    (truthy appended = true ->
     length (trim (collapseSpaces
                     (candidate ++ Bounded.expansionPrefix l ++ appended ++ snippet)))
     <= maxLength) ->
    let result := Bounded.appendFragments l candidate snippet maxLength appended fragments in
    truthy result = true ->
    length (trim (collapseSpaces
                    (candidate ++ Bounded.expansionPrefix l ++ result ++ snippet)))
    <= maxLength.
Proof.
  intros Hm. induction fragments as [|fragment rest IH]; intros appended Hacc;
    cbn [Bounded.appendFragments].
  - exact Hacc.
  - set (next := if truthy appended
                 then appended ++ fragmentJoiner l ++ fragment else fragment).
    destruct ((0 <? maxLength)
              && (maxLength <? length (trim (collapseSpaces
                     (candidate ++ Bounded.expansionPrefix l ++ next ++ snippet)))))
      eqn:E.
    + exact Hacc.
    + apply IH. intros _.
      apply andb_false_iff in E as [E | E].
      * apply Nat.ltb_ge in E. lia.
      * now apply Nat.ltb_ge in E.
Qed.

Lemma ensureSubjectLength_length (l : Lang) (subject : str) (diff : PreprocessResult)
    (tokens : list str) (promptConfig : PromptConfig) (minLength maxLength : nat) :
  0 < maxLength ->
  length (Bounded.ensureSubjectLength l subject diff tokens promptConfig minLength maxLength)
  <= maxLength.
Proof.
  intros Hm. unfold Bounded.ensureSubjectLength.
  assert (H0 : (0 <? maxLength) = true) by now apply Nat.ltb_lt.
  rewrite H0. cbn [andb].
  set (candidate := if maxLength <? length subject
                    then Bounded.trimToMax subject maxLength else subject).
  assert (Hc : length candidate <= maxLength).
  { unfold candidate. destruct (maxLength <? length subject) eqn:E.
    - now apply trimToMax_length.
    - now apply Nat.ltb_ge in E. }
  destruct ((minLength =? 0) || (minLength <=? length candidate)); [exact Hc|].
  set (appended := Bounded.appendFragments l candidate (Bounded.tokenSnippet tokens)
                     maxLength [] (buildDetailFragments diff)).
  set (expanded := if truthy appended
                   then trim (collapseSpaces
                                (candidate ++ Bounded.expansionPrefix l ++ appended
                                 ++ Bounded.tokenSnippet tokens))
                   else candidate).
  assert (He : length expanded <= maxLength).
  { unfold expanded. destruct (truthy appended) eqn:Ea; [|exact Hc].
    apply (appendFragments_fits l candidate (Bounded.tokenSnippet tokens) maxLength
             (buildDetailFragments diff) Hm []); [discriminate | exact Ea]. }
  destruct ((0 <? minLength) && (length expanded <? minLength)
            && truthy (Bounded.tokenSnippet tokens)
            && negb (includes expanded (trim (Bounded.tokenSnippet tokens))));
    [now apply trimToMax_length | exact He].
Qed.

(** The upper-case form of a unit has one to three units. *)
Lemma upperBeyondAscii_length (c : N) : 1 <= length (upperBeyondAscii c) <= 3.
Proof.
  unfold upperBeyondAscii.
  destruct (find (fun entry => N.eqb (fst entry) c) upperSpecial) as [entry|] eqn:E.
  - apply find_some in E as [Hin _].
    assert (H : forallb (fun e => (1 <=? length (snd e)) && (length (snd e) <=? 3))
                  upperSpecial = true) by (vm_compute; reflexivity).
    rewrite forallb_forall in H. specialize (H _ Hin).
    apply andb_true_iff in H as [H1 H2].
    apply Nat.leb_le in H1, H2. lia.
  - destruct (find (inUpperRange c) upperRanges) as [[[[first last] step] upper]|];
      simpl; lia.
Qed.

Lemma upperUnit_length (c : N) : 1 <= length (upperUnit c) <= 3.
Proof.
  unfold upperUnit. destruct (isLowerAZ c); [simpl; lia|].
  destruct (N.ltb c 128); [simpl; lia | apply upperBeyondAscii_length].
Qed.

Lemma upperUnit_ascii (c : N) : (c < 128)%N -> length (upperUnit c) = 1.
Proof.
  intros Hc. apply N.ltb_lt in Hc. unfold upperUnit. rewrite Hc.
  now destruct (isLowerAZ c).
Qed.

Lemma applySubjectStyle_length (l : Lang) (s : str) (promptConfig : PromptConfig) :
  length s <= length (applySubjectStyle l s promptConfig) <= length s + 2.
Proof.
  unfold applySubjectStyle. destruct (isSentence promptConfig && isEn l); [|lia].
  destruct s as [|c rest]; [simpl; lia|].
  rewrite length_app. pose proof (upperUnit_length c). simpl. lia.
Qed.

Lemma applySubjectStyle_same_length (l : Lang) (s : str) (promptConfig : PromptConfig) :
  isSentence promptConfig && isEn l = false
  \/ (exists c rest, s = c :: rest /\ (c < 128)%N) ->
  length (applySubjectStyle l s promptConfig) = length s.
Proof.
  unfold applySubjectStyle. intros [-> | [c [rest [-> Hc]]]]; [reflexivity|].
  destruct (isSentence promptConfig && isEn l); [|reflexivity].
  rewrite length_app, (upperUnit_ascii c Hc). reflexivity.
Qed.

(** A styled subject is longer than its source only under the sentence
    style of English, when its first unit lies outside ASCII. *)
Lemma applySubjectStyle_longer (l : Lang) (s : str) (promptConfig : PromptConfig) :
  length s < length (applySubjectStyle l s promptConfig) ->
  isSentence promptConfig && isEn l = true
  /\ exists c rest, s = c :: rest /\ (128 <= c)%N
                    /\ applySubjectStyle l s promptConfig = upperUnit c ++ rest.
Proof.
  unfold applySubjectStyle. destruct (isSentence promptConfig && isEn l); [|lia].
  destruct s as [|c rest]; [simpl; lia|].
  intros H. split; [reflexivity|]. exists c, rest.
  split; [reflexivity | split; [|reflexivity]].
  destruct (N.ltb c 128) eqn:Hc; [|apply N.ltb_ge in Hc; exact Hc].
  apply N.ltb_lt in Hc. rewrite length_app, (upperUnit_ascii c Hc) in H.
  simpl in H. lia.
Qed.

Lemma join_snoc (sep : str) (parts : list str) (p : str) :
  parts <> [] -> join sep (parts ++ [p]) = join sep parts ++ sep ++ p.
Proof.
  induction parts as [|q parts IH]; [congruence|]. intros _.
  destruct parts as [|q' parts].
  - reflexivity.
  - change (join sep ((q :: q' :: parts) ++ [p]))
      with (q ++ sep ++ join sep ((q' :: parts) ++ [p])).
    rewrite IH by discriminate.
    change (join sep (q :: q' :: parts)) with (q ++ sep ++ join sep (q' :: parts)).
    now rewrite <- !app_assoc.
Qed.

Lemma join_truthy (sep : str) (parts : list str) :
  Forall (fun p => truthy p = true) parts ->
  truthy (join sep parts) = negb (length parts =? 0).
Proof.
  intros H. destruct parts as [|p parts]; [reflexivity|].
  inversion H as [|? ? Hp _]. subst.
  destruct p as [|c p]; [discriminate|]. now destruct parts.
Qed.

(** The loop of [ensureSubjectLength] appends the fragments in their order
    and stops at the first one with which the candidate would exceed the
    maximum. *)
Lemma appendFragments_greedy (l : Lang) (candidate snippet : str) (maxLength : nat) :
  0 < maxLength ->
  forall rest done : list str,
    Forall (fun p => truthy p = true) (done ++ rest) ->
    exists k,
      k <= length rest
      /\ Bounded.appendFragments l candidate snippet maxLength
           (join (fragmentJoiner l) done) rest
         = join (fragmentJoiner l) (done ++ firstn k rest)
      /\ (forall j, 1 <= j <= k ->
            length (trim (collapseSpaces
                      (candidate ++ Bounded.expansionPrefix l
                       ++ join (fragmentJoiner l) (done ++ firstn j rest) ++ snippet)))
            <= maxLength)
      /\ (k < length rest ->
            maxLength
            < length (trim (collapseSpaces
                        (candidate ++ Bounded.expansionPrefix l
                         ++ join (fragmentJoiner l) (done ++ firstn (S k) rest)
                         ++ snippet)))).
Proof.
  intros Hm. induction rest as [|fragment rest IH]; intros done Hall.
  - exists 0. cbn [Bounded.appendFragments firstn length]. rewrite app_nil_r.
    repeat split; [lia | intros j Hj; lia | lia].
  - cbn [Bounded.appendFragments].
    assert (Hnext : (if truthy (join (fragmentJoiner l) done)
                     then join (fragmentJoiner l) done ++ fragmentJoiner l ++ fragment
                     else fragment)
                    = join (fragmentJoiner l) (done ++ [fragment])).
    { rewrite join_truthy
        by (apply Forall_app in Hall; tauto).
      destruct done as [|d done]; [reflexivity|].
      cbn [length Nat.eqb negb]. symmetry. apply join_snoc. discriminate. }
    rewrite Hnext.
    replace (0 <? maxLength) with true by (symmetry; now apply Nat.ltb_lt).
    cbn [andb].
    destruct (maxLength <? length (trim (collapseSpaces
                (candidate ++ Bounded.expansionPrefix l
                 ++ join (fragmentJoiner l) (done ++ [fragment]) ++ snippet)))) eqn:E.
    + exists 0. cbn [firstn length]. rewrite app_nil_r.
      split; [lia | split; [reflexivity | split; [intros j Hj; lia|]]].
      intros _. now apply Nat.ltb_lt in E.
    + destruct (IH (done ++ [fragment])) as [k [Hk [Heq [Hfit Hstop]]]].
      { now rewrite <- app_assoc. }
      apply Nat.ltb_ge in E.
      assert (Hsplit : forall n, done ++ firstn (S n) (fragment :: rest)
                                 = (done ++ [fragment]) ++ firstn n rest).
      { intros n. rewrite firstn_cons, <- app_assoc. reflexivity. }
      exists (S k). cbn [length]. rewrite !Hsplit.
      split; [lia | split; [exact Heq | split]].
      * intros [|j] Hj; [lia|]. rewrite Hsplit.
        destruct j as [|j]; [cbn [firstn]; now rewrite app_nil_r | apply Hfit; lia].
      * intros Hlt. apply Hstop. lia.
Qed.

Lemma buildDetailFragments_truthy (diff : PreprocessResult) :
  Forall (fun p => truthy p = true) (buildDetailFragments diff).
Proof.
  apply Forall_forall. intros p Hp. unfold buildDetailFragments in Hp.
  now apply filter_In in Hp.
Qed.

(** The extension of a subject that is shorter than the minimum. *)
Lemma ensureSubjectLength_short (l : Lang) (s : str) (diff : PreprocessResult)
    (tokens : list str) (promptConfig : PromptConfig) (minLength maxLength : nat) :
  0 < minLength -> length s < minLength -> minLength <= maxLength ->
  let fragments := buildDetailFragments diff in
  let snippet := Bounded.tokenSnippet tokens in
  let extended := fun k : nat =>
    trim (collapseSpaces (s ++ Bounded.expansionPrefix l
                            ++ join (fragmentJoiner l) (firstn k fragments) ++ snippet)) in
  exists k,
    k <= length fragments
    /\ (forall j, 1 <= j <= k -> length (extended j) <= maxLength)
    /\ (k < length fragments -> maxLength < length (extended (S k)))
    /\ Bounded.ensureSubjectLength l s diff tokens promptConfig minLength maxLength
       = let expanded := if 0 <? k then extended k else s in
         if (length expanded <? minLength) && truthy snippet
            && negb (includes expanded (trim snippet))
         then Bounded.trimToMax (trim (collapseSpaces (expanded ++ snippet))) maxLength
         else expanded.
Proof.
  intros Hmin Hs Hmax fragments snippet extended.
  destruct (appendFragments_greedy l s snippet maxLength ltac:(lia) fragments [])
    as [k [Hk [Heq [Hfit Hstop]]]]; [apply buildDetailFragments_truthy|].
  cbn [app join] in Heq, Hfit, Hstop.
  exists k. split; [exact Hk | split; [exact Hfit | split; [exact Hstop|]]].
  unfold Bounded.ensureSubjectLength.
  replace (maxLength <? length s) with false by (symmetry; apply Nat.ltb_ge; lia).
  rewrite andb_false_r.
  replace (minLength =? 0) with false by (symmetry; apply Nat.eqb_neq; lia).
  replace (minLength <=? length s) with false by (symmetry; apply Nat.leb_gt; lia).
  cbn [orb]. fold fragments. fold snippet. rewrite Heq.
  replace (0 <? minLength) with true by (symmetry; now apply Nat.ltb_lt).
  replace (0 <? maxLength) with true by (symmetry; apply Nat.ltb_lt; lia).
  rewrite join_truthy.
  2:{ apply Forall_forall. intros p Hp.
      pose proof (buildDetailFragments_truthy diff) as Hall.
      rewrite Forall_forall in Hall. apply Hall.
      rewrite <- (firstn_skipn k (buildDetailFragments diff)).
      apply in_or_app. now left. }
  rewrite length_firstn, Nat.min_l by exact Hk.
  destruct k as [|k]; reflexivity.
Qed.

(** A subject longer than the maximum enters the rest of
    [ensureSubjectLength] as [trimToMax] leaves it. *)
Lemma ensureSubjectLength_long (l : Lang) (s : str) (diff : PreprocessResult)
    (tokens : list str) (promptConfig : PromptConfig) (minLength maxLength : nat) :
  0 < maxLength -> maxLength < length s ->
  Bounded.ensureSubjectLength l s diff tokens promptConfig minLength maxLength
  = Bounded.ensureSubjectLength l (Bounded.trimToMax s maxLength) diff tokens
      promptConfig minLength maxLength.
Proof.
  intros Hm Hs. unfold Bounded.ensureSubjectLength at 1 2.
  pose proof (trimToMax_length s maxLength Hm) as Ht.
  replace (maxLength <? length s) with true by (symmetry; now apply Nat.ltb_lt).
  replace (maxLength <? length (Bounded.trimToMax s maxLength)) with false
    by (symmetry; apply Nat.ltb_ge; lia).
  rewrite andb_false_r.
  replace (0 <? maxLength) with true by (symmetry; now apply Nat.ltb_lt).
  reflexivity.
Qed.

Lemma trimToMax_cut (s : str) (maxLength : nat) :
  0 < maxLength -> maxLength < length s ->
  (exists before sep after i,
      Bounded.separators = before ++ sep :: after
      /\ qualifies s maxLength sep i
      /\ (forall s' j, In s' before -> ~ qualifies s maxLength s' j)
      /\ Bounded.trimToMax s maxLength = trim (firstn i s))
  \/ ((forall s' j, In s' Bounded.separators -> ~ qualifies s maxLength s' j)
      /\ Bounded.trimToMax s maxLength = Bounded.hardCut s maxLength).
Proof.
  intros Hm Hlong. unfold Bounded.trimToMax.
  replace (length s <=? maxLength) with false by (symmetry; apply Nat.leb_gt; lia).
  replace (maxLength =? 0) with false by (symmetry; apply Nat.eqb_neq; lia).
  cbn [orb].
  destruct (Bounded.cutAtSeparator s maxLength Bounded.separators) as [t|] eqn:E.
  - left. apply cutAtSeparator_Some in E as [before [sep [after [i [E1 [E2 [E3 E4]]]]]]].
    exists before, sep, after, i. tauto.
  - right. split; [|reflexivity]. now apply cutAtSeparator_None.
Qed.

(** Which subject [ensureSpecificSubject] hands to the length control. *)
Lemma ensureSpecificSubject_controlled (l : Lang) (subject : str) (tokens : list str)
    (count : nat) (diff : PreprocessResult) (promptConfig : PromptConfig) :
  let control := fun s : str =>
    Bounded.ensureSubjectLength l s diff tokens promptConfig
      Bounded.minSubjectLength Bounded.maxSubjectLength in
  let normalized :=
    Bounded.ensureSpecificSubject l subject tokens count
      Bounded.minSubjectLength Bounded.maxSubjectLength diff promptConfig in
  (Bounded.needsFallback
     (validationReasons (trim subject) tokens count Bounded.minSubjectLength) = false ->
   normalized = applySubjectStyle l (control (trim subject)) promptConfig)
  /\ (Bounded.needsFallback
        (validationReasons (trim subject) tokens count Bounded.minSubjectLength) = true ->
      truthy (primaryFragmentOf diff) = true ->
      exists rest,
        normalized
        = applySubjectStyle l
            (control (updateWord l ++ primaryFragmentOf diff ++ rest)) promptConfig).
Proof.
  intros control normalized. unfold normalized, Bounded.ensureSpecificSubject. split.
  - intros ->. reflexivity.
  - intros -> Hp. unfold Bounded.buildSpecificSubject, primaryFragmentOf in *.
    cbv zeta. destruct (rankFiles (files diff)) as [|primary others];
      [discriminate|].
    rewrite Hp. cbn [negb].
    match goal with
    | |- context [if ?b then _ else _] => destruct b
    end.
    + eexists. reflexivity.
    + exists []. now rewrite app_nil_r.
Qed.

(** C4, counterexample.  (1) The cut is not made at the last separator
    before the limit: the subject has commas after 13 and after 20 units,
    the last safe cut is at 20, [trimToMax] cuts at the first comma, and the
    normalized subject continues from there.  (2) A subject of 120 units
    that starts with the ligature U+FB01 has 121 units once styled.  (3) A
    subject of 31 units stays at 56 units because the first fragment does
    not fit, although the second fragment alone would give 109 units.  (4) A
    subject of 68 units comes back with 16 units.  (5) Where the entry that
    ranks first has an empty fragment the synthesized subject is not
    length-controlled and has 140 units. *)
Lemma bounded_subject_not_as_stated :
  (length longSubject = 134
   /\ lastSafeCut longSubject 120 = Some 20
   /\ Bounded.trimToMax longSubject 120 = js "update parser"
   /\ Bounded.trimToMax longSubject 120 <> trim (firstn 20 longSubject)
   /\ Bounded.ensureSpecificSubject en longSubject (requiredTokens largeParserDiff)
        (requiredTokenCount largeParserDiff)
        Bounded.minSubjectLength Bounded.maxSubjectLength largeParserDiff defaultConfig
      = js "update parser" ++ [sp; emDash; sp] ++ js "parser.rs parser.rs, src")
  /\ (length ligatureSubject = 120
      /\ length (Bounded.ensureSpecificSubject en ligatureSubject [] 1
                   Bounded.minSubjectLength Bounded.maxSubjectLength
                   (mkDiff [] 0 0) sentenceConfig) = 121)
  /\ (length (Bounded.ensureSpecificSubject en recoverySubject
                (requiredTokens highlightDiff) (requiredTokenCount highlightDiff)
                Bounded.minSubjectLength Bounded.maxSubjectLength
                highlightDiff defaultConfig) = 56
      /\ exists fragment,
           In fragment (buildDetailFragments highlightDiff)
           /\ length (trim (collapseSpaces
                        (recoverySubject ++ Bounded.expansionPrefix en ++ fragment
                         ++ Bounded.tokenSnippet (requiredTokens highlightDiff))))
              = 109)
  /\ (length commaSubject = 68
      /\ Bounded.ensureSpecificSubject en commaSubject
           (requiredTokens keywordDiff) (requiredTokenCount keywordDiff)
           Bounded.minSubjectLength Bounded.maxSubjectLength keywordDiff defaultConfig
         = js "refine parser.ts")
  /\ (primaryFragmentOf directoryDiff = []
      /\ length (Bounded.ensureSpecificSubject en []
                   (requiredTokens directoryDiff) (requiredTokenCount directoryDiff)
                   Bounded.minSubjectLength Bounded.maxSubjectLength
                   directoryDiff defaultConfig) = 140).
Proof.
  split; [|split; [|split; [|split]]].
  - split; [reflexivity | split; [reflexivity | split; [reflexivity | split]]].
    + vm_compute. discriminate.
    + vm_compute. reflexivity.
  - split; vm_compute; reflexivity.
  - split; [vm_compute; reflexivity|].
    exists (nth 1 (buildDetailFragments highlightDiff) []).
    split; [vm_compute; right; left; reflexivity | vm_compute; reflexivity].
  - split; vm_compute; reflexivity.
  - split; vm_compute; reflexivity.
Qed.

(** C4, amended.  With the bounds 80 and 120, a model output that passes
    validation (apart from being too short) goes through
    [ensureSubjectLength], and so does a synthesized subject when the file
    that ranks first has a non-empty fragment.  The normalized subject then
    has at most 122 units, and more than 120 only under the sentence style
    of English, when the first unit lies outside ASCII and its upper-case
    form is longer than one unit.  Inside [ensureSubjectLength] the result
    has at most 120 units; a subject of 80 to 120 units is returned
    unchanged; a shorter one is extended by the leading fragments, as many
    as fit in 120 units, stopping at the first that does not fit, then
    padded with the token snippet when it is still short and lacks it, and
    cut by [trimToMax]; a subject longer than 120 units is first cut by
    [trimToMax], at the first occurrence of the first separator, in the
    order of the list, whose first occurrence lies at an index from 1 to 120
    and leaves a trimmed prefix of at least 10 units, or after 120 units
    with trailing punctuation and white space stripped when no separator
    qualifies, and then treated like any other subject. *)
Theorem ensureSubjectLength_bounded :
  forall (l : Lang) (subject : str) (tokens : list str) (count : nat)
         (diff : PreprocessResult) (promptConfig : PromptConfig),
    let control := fun s : str =>
      Bounded.ensureSubjectLength l s diff tokens promptConfig
        Bounded.minSubjectLength Bounded.maxSubjectLength in
    let normalized :=
      Bounded.ensureSpecificSubject l subject tokens count
        Bounded.minSubjectLength Bounded.maxSubjectLength diff promptConfig in
    let fragments := buildDetailFragments diff in
    let snippet := Bounded.tokenSnippet tokens in
    let extended := fun (s : str) (k : nat) =>
      trim (collapseSpaces (s ++ Bounded.expansionPrefix l
                              ++ join (fragmentJoiner l) (firstn k fragments)
                              ++ snippet)) in
    ((Bounded.needsFallback (validationReasons (trim subject) tokens count 80) = false ->
      normalized = applySubjectStyle l (control (trim subject)) promptConfig)
     /\ (Bounded.needsFallback (validationReasons (trim subject) tokens count 80) = true ->
         truthy (primaryFragmentOf diff) = true ->
         exists rest,
           normalized
           = applySubjectStyle l
               (control (updateWord l ++ primaryFragmentOf diff ++ rest)) promptConfig)
     /\ (Bounded.needsFallback (validationReasons (trim subject) tokens count 80) = false
         \/ truthy (primaryFragmentOf diff) = true ->
         length normalized <= 122
         /\ (120 < length normalized ->
             isSentence promptConfig && isEn l = true
             /\ exists c rest,
                  normalized = upperUnit c ++ rest
                  /\ (128 <= c)%N /\ length (c :: rest) <= 120)))
    /\ forall s : str,
        length (control s) <= 120
        /\ (80 <= length s <= 120 -> control s = s)
        /\ (length s < 80 ->
            exists k,
              k <= length fragments
              /\ (forall j, 1 <= j <= k -> length (extended s j) <= 120)
              /\ (k < length fragments -> 120 < length (extended s (S k)))
              /\ control s
                 = let expanded := if 0 <? k then extended s k else s in
                   if (length expanded <? 80) && truthy snippet
                      && negb (includes expanded (trim snippet))
                   then Bounded.trimToMax (trim (collapseSpaces (expanded ++ snippet))) 120
                   else expanded)
        /\ (120 < length s ->
            control s = control (Bounded.trimToMax s 120)
            /\ ((exists before sep after i,
                    Bounded.separators = before ++ sep :: after
                    /\ qualifies s 120 sep i
                    /\ (forall s' j, In s' before -> ~ qualifies s 120 s' j)
                    /\ Bounded.trimToMax s 120 = trim (firstn i s))
                \/ ((forall s' j, In s' Bounded.separators -> ~ qualifies s 120 s' j)
                    /\ Bounded.trimToMax s 120 = Bounded.hardCut s 120))).
Proof.
  intros l subject tokens count diff promptConfig control normalized fragments
    snippet extended.
  assert (Hbound : forall s, length (control s) <= 120).
  { intros s. apply ensureSubjectLength_length. unfold Bounded.maxSubjectLength. lia. }
  destruct (ensureSpecificSubject_controlled l subject tokens count diff promptConfig)
    as [Hkept Hsynth].
  fold control in Hkept, Hsynth. fold normalized in Hkept, Hsynth.
  change Bounded.minSubjectLength with 80 in Hkept, Hsynth.
  assert (Hstyled : forall s,
             normalized = applySubjectStyle l (control s) promptConfig ->
             length normalized <= 122
             /\ (120 < length normalized ->
                 isSentence promptConfig && isEn l = true
                 /\ exists c rest,
                      normalized = upperUnit c ++ rest
                      /\ (128 <= c)%N /\ length (c :: rest) <= 120)).
  { intros s Hs. specialize (Hbound s).
    pose proof (applySubjectStyle_length l (control s) promptConfig) as Hlen.
    rewrite <- Hs in Hlen. split; [lia|]. intros Hlong.
    destruct (applySubjectStyle_longer l (control s) promptConfig)
      as [Hstyle [c [rest [Hc [Hout Heq]]]]]; [rewrite <- Hs; lia|].
    split; [exact Hstyle|]. exists c, rest. rewrite Hs, Heq, <- Hc. tauto. }
  split; [split; [exact Hkept | split; [exact Hsynth|]]|].
  - destruct (Bounded.needsFallback (validationReasons (trim subject) tokens count 80))
      eqn:E.
    + intros [Hno | Hp]; [discriminate|].
      destruct (Hsynth eq_refl Hp) as [rest Hrest]. now apply (Hstyled _ Hrest).
    + intros _. now apply (Hstyled _ (Hkept eq_refl)).
  - intros s. split; [apply Hbound | split; [|split]].
    + intros [H1 H2]. unfold control, Bounded.ensureSubjectLength,
        Bounded.maxSubjectLength, Bounded.minSubjectLength.
      replace (120 <? length s) with false by (symmetry; apply Nat.ltb_ge; lia).
      rewrite andb_false_r.
      replace (80 <=? length s) with true by (symmetry; apply Nat.leb_le; lia).
      rewrite orb_true_r. reflexivity.
    + intros Hshort.
      apply (ensureSubjectLength_short l s diff tokens promptConfig 80 120); lia.
    + intros Hlong. split.
      * apply (ensureSubjectLength_long l s diff tokens promptConfig 80 120); lia.
      * apply trimToMax_cut; lia.
Qed.

Lemma ensureSubjectLength_bounded_witness :
  Bounded.ensureSubjectLength en
    (js "refactor parser.rs tokenizer state machine and document the recovery of lexer errors")
    largeParserDiff [js "parser.rs"] defaultConfig
    Bounded.minSubjectLength Bounded.maxSubjectLength
  = js "refactor parser.rs tokenizer state machine and document the recovery of lexer errors".
Proof.
  apply (proj1 (proj2 (proj2 (ensureSubjectLength_bounded en [] [js "parser.rs"] 1
           largeParserDiff defaultConfig)
           (js "refactor parser.rs tokenizer state machine and document the recovery of lexer errors")))).
  vm_compute. split; apply Nat.leb_le; reflexivity.
Defined.

(** ** The normalized form as a list of words *)

Lemma isWhite_sp : isWhite sp = true.
Proof. reflexivity. Qed.

Lemma isAlnum_sp : isAlnum sp = false.
Proof. reflexivity. Qed.

Lemma normalizeForMatch_unfold (s : str) :
  normalizeForMatch s = trim (collapseSpaces (replaceRuns notAlnum false (toLowerCase s))).
Proof. reflexivity. Qed.

(** The second replacement of [normalizeForMatch] changes nothing: after the
    first one the only white space left is single spaces. *)
Lemma notAlnum_true (c : N) : isAlnum c = false -> notAlnum c = true.
Proof. unfold notAlnum. now intros ->. Qed.

Lemma notAlnum_false (c : N) : isAlnum c = true -> notAlnum c = false.
Proof. unfold notAlnum. now intros ->. Qed.

Lemma collapse_after_replace (x : str) :
  replaceRuns isWhite false (replaceRuns notAlnum false x) = replaceRuns notAlnum false x
  /\ replaceRuns isWhite true (replaceRuns notAlnum true x) = replaceRuns notAlnum true x.
Proof.
  induction x as [|c x [IH1 IH2]]; [split; reflexivity|].
  cbn [replaceRuns]. destruct (isAlnum c) eqn:E.
  - rewrite (notAlnum_false _ E). cbn [replaceRuns].
    rewrite (isAlnum_not_white _ E), IH1. split; reflexivity.
  - rewrite (notAlnum_true _ E). split; [|exact IH2].
    cbn [replaceRuns]. rewrite isWhite_sp, IH2. reflexivity.
Qed.

Lemma replace_inRun_no_lead (x : str) :
  dropWhile isWhite (replaceRuns notAlnum true x) = replaceRuns notAlnum true x.
Proof.
  induction x as [|c x IH]; [reflexivity|].
  cbn [replaceRuns]. destruct (isAlnum c) eqn:E.
  - rewrite (notAlnum_false _ E). cbn [dropWhile].
    now rewrite (isAlnum_not_white _ E).
  - rewrite (notAlnum_true _ E). exact IH.
Qed.

Lemma replace_trimStart (x : str) :
  trimStart (replaceRuns notAlnum false x) = replaceRuns notAlnum true x.
Proof.
  unfold trimStart. destruct x as [|c x]; [reflexivity|].
  cbn [replaceRuns]. destruct (isAlnum c) eqn:E.
  - rewrite (notAlnum_false _ E). cbn [dropWhile].
    now rewrite (isAlnum_not_white _ E).
  - rewrite (notAlnum_true _ E). cbn [dropWhile]. rewrite isWhite_sp.
    apply replace_inRun_no_lead.
Qed.

Lemma wordsOf_nonempty_words (s : str) : Forall (fun w => w <> []) (wordsOf s).
Proof.
  induction s as [|c s IH]; cbn [wordsOf]; [constructor|].
  destruct (isAlnum c); [|exact IH].
  destruct (headAlnum s).
  - destruct (wordsOf s) as [|w ws].
    + constructor; [discriminate | constructor].
    + inversion IH; subst. constructor; [discriminate | assumption].
  - constructor; [discriminate | exact IH].
Qed.

Lemma join_nonempty (ws : list str) :
  ws <> [] -> Forall (fun w => w <> []) ws -> join [sp] ws <> [].
Proof.
  destruct ws as [|w ws]; [contradiction|]. intros _ H. inversion H; subst.
  destruct ws; cbn [join]; destruct w; try contradiction; discriminate.
Qed.

Lemma join_cons_head (c : N) (w : str) (ws : list str) :
  join [sp] ((c :: w) :: ws) = c :: join [sp] (w :: ws).
Proof. destruct ws; reflexivity. Qed.

Lemma headAlnum_wordsOf (s : str) : headAlnum s = true -> wordsOf s <> [].
Proof.
  destruct s as [|c s]; [discriminate|]. cbn [headAlnum wordsOf]. intros ->.
  destruct (headAlnum s); [destruct (wordsOf s)|]; discriminate.
Qed.

Lemma replace_trimEnd_words (x : str) :
  trimEnd (replaceRuns notAlnum true x) = join [sp] (wordsOf x).
Proof.
  unfold trimEnd. induction x as [|c x IH]; [reflexivity|].
  cbn [replaceRuns wordsOf]. destruct (isAlnum c) eqn:E.
  2:{ rewrite (notAlnum_true _ E). exact IH. }
  rewrite (notAlnum_false _ E).
  rewrite dropEndWhile_cons_keep by (now apply isAlnum_not_white).
  destruct x as [|c2 x2].
  - reflexivity.
  - cbn [headAlnum]. destruct (isAlnum c2) eqn:E2.
    + assert (Hsame : replaceRuns notAlnum false (c2 :: x2)
                      = replaceRuns notAlnum true (c2 :: x2)).
      { cbn [replaceRuns]. now rewrite (notAlnum_false _ E2). }
      rewrite Hsame, IH.
      pose proof (headAlnum_wordsOf (c2 :: x2) E2) as Hne.
      destruct (wordsOf (c2 :: x2)) as [|w ws]; [contradiction|].
      now rewrite join_cons_head.
    + assert (Hsp : replaceRuns notAlnum false (c2 :: x2)
                    = sp :: replaceRuns notAlnum true (c2 :: x2)).
      { cbn [replaceRuns]. now rewrite (notAlnum_true _ E2). }
      rewrite Hsp. cbn [dropEndWhile]. rewrite IH, isWhite_sp.
      destruct (wordsOf (c2 :: x2)) as [|w ws] eqn:Ew.
      * reflexivity.
      * pose proof (wordsOf_nonempty_words (c2 :: x2)) as Hall. rewrite Ew in Hall.
        pose proof (join_nonempty (w :: ws) ltac:(discriminate) Hall) as Hj.
        change (join [sp] ([c] :: w :: ws)) with ([c] ++ [sp] ++ join [sp] (w :: ws)).
        destruct (join [sp] (w :: ws)) eqn:Ej; [contradiction|]. reflexivity.
Qed.

(** The normalized form is the words of the lower-cased text joined by
    single spaces. *)
Lemma normalizeForMatch_words (s : str) :
  normalizeForMatch s = join [sp] (wordsOf (toLowerCase s)).
Proof.
  rewrite normalizeForMatch_unfold. unfold collapseSpaces.
  rewrite (proj1 (collapse_after_replace _)). unfold trim.
  rewrite replace_trimStart. apply replace_trimEnd_words.
Qed.

Lemma nonword_lowerUnit (c : N) : isWordUnit c = false -> lowerUnit c = [c].
Proof.
  intros H. unfold lowerUnit.
  destruct (isUpperAZ c) eqn:E1; [exfalso; unfoldUnits; boolN; lia|].
  destruct (N.eqb c 304) eqn:E2; [exfalso; unfoldUnits; boolN; lia|].
  destruct (N.eqb c 8490) eqn:E3; [exfalso; unfoldUnits; boolN; lia|].
  reflexivity.
Qed.

Lemma nonword_not_alnum (c : N) : isWordUnit c = false -> isAlnum c = false.
Proof.
  intros H. destruct (isAlnum c) eqn:E; [|reflexivity].
  exfalso. unfoldUnits. boolN; lia.
Qed.

Lemma white_nonword (c : N) : isWhite c = true -> isWordUnit c = false.
Proof.
  intros H. destruct (isWordUnit c) eqn:E; [|reflexivity].
  exfalso. unfoldUnits. boolN; lia.
Qed.

Lemma word_not_white (c : N) : isWordUnit c = true -> isWhite c = false.
Proof.
  intros H. destruct (isWhite c) eqn:E; [|reflexivity].
  apply white_nonword in E. congruence.
Qed.

Lemma punct_nonword (c : N) : Bounded.isTrailingPunct c = true -> isWordUnit c = false.
Proof.
  intros H. destruct (isWordUnit c) eqn:E; [|reflexivity].
  exfalso. unfoldUnits. boolN; lia.
Qed.

Lemma separator_nonword (c : N) : isSeparatorUnit c = true -> isWordUnit c = false.
Proof.
  intros H. destruct (isWordUnit c) eqn:E; [|reflexivity].
  exfalso. unfoldUnits. boolN; lia.
Qed.

Lemma lower_upperUnit (c : N) :
  (c < 128)%N -> toLowerCase (upperUnit c) = lowerUnit c.
Proof.
  intros Hc. unfold upperUnit. apply N.ltb_lt in Hc. rewrite Hc.
  destruct (isLowerAZ c) eqn:E; unfold toLowerCase; cbn [flat_map];
    rewrite app_nil_r; [|reflexivity].
  unfold lowerUnit.
  assert (H1 : isUpperAZ (c - 32) = true) by (unfoldUnits; boolN;
    apply andb_true_iff; split; apply N.leb_le; lia).
  assert (H2 : isUpperAZ c = false) by (unfoldUnits; boolN;
    apply andb_false_iff; right; apply N.leb_gt; lia).
  assert (H3 : N.eqb c 304 = false) by (unfoldUnits; boolN; apply N.eqb_neq; lia).
  assert (H4 : N.eqb c 8490 = false) by (unfoldUnits; boolN; apply N.eqb_neq; lia).
  rewrite H1, H2, H3, H4. f_equal. clear H1 H2 H3 H4. unfoldUnits. boolN. lia.
Qed.

Lemma toLowerCase_style (l : Lang) (x : str) (promptConfig : PromptConfig) :
  asciiHead l x ->
  toLowerCase (applySubjectStyle l x promptConfig) = toLowerCase x.
Proof.
  intros Hx. unfold applySubjectStyle.
  destruct (isSentence promptConfig); [|reflexivity].
  destruct (isEn l) eqn:El; [|reflexivity]. cbn [andb].
  destruct (Hx El) as [c [t [-> Hc]]].
  rewrite toLowerCase_app, (lower_upperUnit c Hc). reflexivity.
Qed.

(** *** Words of concatenations *)

Lemma wordsOf_skip (c : N) (x : str) : isAlnum c = false -> wordsOf (c :: x) = wordsOf x.
Proof. intros H. cbn [wordsOf]. now rewrite H. Qed.

Lemma sameWords_cons (c : N) (x y : str) : sameWords x y -> sameWords (c :: x) (c :: y).
Proof.
  intros [Hh Hw]. split; [reflexivity|]. cbn [wordsOf]. now rewrite Hh, Hw.
Qed.

Lemma sameWords_app (p x y : str) : sameWords x y -> sameWords (p ++ x) (p ++ y).
Proof.
  intros H. induction p as [|c p IH]; [exact H|]. cbn [app]. now apply sameWords_cons.
Qed.

Lemma sameWords_skip (c d : N) (x y : str) :
  isAlnum c = false -> isAlnum d = false -> wordsOf x = wordsOf y ->
  sameWords (c :: x) (d :: y).
Proof.
  intros Hc Hd Hw. split; [cbn [headAlnum]; congruence|].
  now rewrite !wordsOf_skip.
Qed.

Lemma wordsOf_app_r (a b : str) :
  headAlnum b = false -> wordsOf (a ++ b) = wordsOf a ++ wordsOf b.
Proof.
  intros Hb. induction a as [|c a IH]; [reflexivity|].
  cbn [app wordsOf]. destruct (isAlnum c); [|exact IH].
  destruct a as [|c2 a2].
  - cbn [app headAlnum wordsOf]. now rewrite Hb.
  - cbn [app headAlnum] in *. destruct (isAlnum c2) eqn:E2.
    + rewrite IH.
      pose proof (headAlnum_wordsOf (c2 :: a2) E2) as Hne.
      destruct (wordsOf (c2 :: a2)); [contradiction | reflexivity].
    + now rewrite IH.
Qed.

Lemma wordsOf_app_l (a : str) (c : N) (b : str) :
  isAlnum c = false ->
  wordsOf ((a ++ [c]) ++ b) = wordsOf (a ++ [c]) ++ wordsOf b.
Proof.
  intros Hc. rewrite <- app_assoc. cbn [app].
  rewrite !wordsOf_app_r by (cbn [headAlnum]; exact Hc).
  rewrite !wordsOf_skip by exact Hc. now rewrite app_nil_r.
Qed.

Lemma boundary_lower (r : str) : boundary r -> headAlnum (toLowerCase r) = false.
Proof.
  destruct r as [|c r]; [reflexivity|]. cbn [boundary]. intros H.
  unfold toLowerCase. cbn [flat_map]. rewrite (nonword_lowerUnit _ H).
  cbn [app headAlnum]. now apply nonword_not_alnum.
Qed.

Lemma words_lower_app (a r : str) :
  boundary r ->
  wordsOf (toLowerCase (a ++ r)) = wordsOf (toLowerCase a) ++ wordsOf (toLowerCase r).
Proof.
  intros H. rewrite toLowerCase_app. apply wordsOf_app_r. now apply boundary_lower.
Qed.

Lemma words_lower_app_l (a : str) (c : N) (b : str) :
  isWordUnit c = false ->
  wordsOf (toLowerCase ((a ++ [c]) ++ b))
  = wordsOf (toLowerCase (a ++ [c])) ++ wordsOf (toLowerCase b).
Proof.
  intros H. rewrite !toLowerCase_app.
  assert (E : toLowerCase [c] = [c]).
  { unfold toLowerCase. cbn [flat_map]. now rewrite (nonword_lowerUnit _ H). }
  rewrite E. apply wordsOf_app_l. now apply nonword_not_alnum.
Qed.

Lemma words_lower_nonword (t : str) :
  forallb (fun c => negb (isWordUnit c)) t = true -> wordsOf (toLowerCase t) = [].
Proof.
  induction t as [|c t IH]; [reflexivity|]. cbn [forallb]. intros H.
  apply andb_true_iff in H as [Hc Ht]. apply negb_true_iff in Hc.
  unfold toLowerCase. cbn [flat_map]. rewrite (nonword_lowerUnit _ Hc). cbn [app].
  rewrite wordsOf_skip by (now apply nonword_not_alnum). now apply IH.
Qed.

Lemma dropEndWhile_split (f : N -> bool) (s : str) :
  exists tail, s = dropEndWhile f s ++ tail /\ forallb f tail = true.
Proof.
  induction s as [|c s [tail [E Ht]]].
  - exists []. split; reflexivity.
  - cbn [dropEndWhile]. destruct (dropEndWhile f s) as [|d r] eqn:Ed.
    + destruct (f c) eqn:Ec.
      * exists (c :: s). split; [reflexivity|]. cbn [forallb]. rewrite Ec.
        rewrite E. exact Ht.
      * exists s. split; [reflexivity|]. rewrite E. exact Ht.
    + exists tail. split; [|exact Ht]. cbn [app] in *. congruence.
Qed.

Lemma words_lower_dropWhile (f : N -> bool) (s : str) :
  (forall c, f c = true -> isWordUnit c = false) ->
  wordsOf (toLowerCase (dropWhile f s)) = wordsOf (toLowerCase s).
Proof.
  intros Hf. induction s as [|c s IH]; [reflexivity|].
  cbn [dropWhile]. destruct (f c) eqn:E; [|reflexivity].
  rewrite IH. unfold toLowerCase at 2. cbn [flat_map].
  rewrite (nonword_lowerUnit _ (Hf c E)). cbn [app].
  rewrite wordsOf_skip by (apply nonword_not_alnum; now apply Hf). reflexivity.
Qed.

Lemma forallb_nonword (f : N -> bool) (t : str) :
  (forall c, f c = true -> isWordUnit c = false) ->
  forallb f t = true -> forallb (fun c => negb (isWordUnit c)) t = true.
Proof.
  intros Hf H. rewrite forallb_forall in *. intros c Hc.
  now rewrite (Hf c (H c Hc)).
Qed.

Lemma forallb_nonword_boundary (t : str) :
  forallb (fun c => negb (isWordUnit c)) t = true -> boundary t.
Proof.
  destruct t as [|c t]; [exact (fun _ => I)|]. cbn [forallb boundary]. intros H.
  apply andb_true_iff in H as [H _]. now apply negb_true_iff in H.
Qed.

Lemma words_lower_dropEndWhile (f : N -> bool) (s : str) :
  (forall c, f c = true -> isWordUnit c = false) ->
  wordsOf (toLowerCase (dropEndWhile f s)) = wordsOf (toLowerCase s).
Proof.
  intros Hf. destruct (dropEndWhile_split f s) as [tail [E Ht]].
  pose proof (forallb_nonword f tail Hf Ht) as Hn.
  rewrite E at 2.
  rewrite words_lower_app by (now apply forallb_nonword_boundary).
  rewrite (words_lower_nonword _ Hn). now rewrite app_nil_r.
Qed.

Lemma words_lower_trim (s : str) :
  wordsOf (toLowerCase (trim s)) = wordsOf (toLowerCase s).
Proof.
  unfold trim, trimEnd, trimStart.
  rewrite words_lower_dropEndWhile by apply white_nonword.
  apply words_lower_dropWhile. apply white_nonword.
Qed.

Lemma words_lower_collapse_flags (s : str) :
  sameWords (toLowerCase (replaceRuns isWhite false s)) (toLowerCase s)
  /\ wordsOf (toLowerCase (replaceRuns isWhite true s)) = wordsOf (toLowerCase s).
Proof.
  induction s as [|c s [IH1 IH2]]; [split; [split|]; reflexivity|].
  cbn [replaceRuns]. destruct (isWhite c) eqn:E.
  - pose proof (white_nonword _ E) as Hn.
    assert (El : toLowerCase (c :: s) = c :: toLowerCase s).
    { unfold toLowerCase. cbn [flat_map]. now rewrite (nonword_lowerUnit _ Hn). }
    rewrite El. split.
    + change (toLowerCase (sp :: replaceRuns isWhite true s))
        with (sp :: toLowerCase (replaceRuns isWhite true s)).
      apply sameWords_skip; [reflexivity | now apply nonword_not_alnum | exact IH2].
    + rewrite IH2. symmetry. apply wordsOf_skip. now apply nonword_not_alnum.
  - assert (El : forall t, toLowerCase (c :: t) = lowerUnit c ++ toLowerCase t)
      by reflexivity.
    rewrite !El. pose proof (sameWords_app (lowerUnit c) _ _ IH1) as H.
    split; [exact H | apply H].
Qed.

Lemma words_lower_collapse (s : str) :
  wordsOf (toLowerCase (collapseSpaces s)) = wordsOf (toLowerCase s).
Proof. apply (proj1 (words_lower_collapse_flags s)). Qed.

(** *** Containment of joined words *)

Lemma join_app (ws1 ws2 : list str) :
  ws1 <> [] -> ws2 <> [] ->
  join [sp] (ws1 ++ ws2) = join [sp] ws1 ++ [sp] ++ join [sp] ws2.
Proof.
  intros H1 H2. induction ws1 as [|w ws1 IH]; [contradiction|].
  destruct ws1 as [|w' ws1'].
  - cbn [app]. destruct ws2; [contradiction | reflexivity].
  - change (join [sp] ((w :: w' :: ws1') ++ ws2))
      with (w ++ [sp] ++ join [sp] ((w' :: ws1') ++ ws2)).
    rewrite IH by discriminate.
    change (join [sp] (w :: w' :: ws1')) with (w ++ [sp] ++ join [sp] (w' :: ws1')).
    now rewrite <- !app_assoc.
Qed.

Lemma includes_joined (ws1 ws2 ws3 : list str) :
  includes (join [sp] (ws1 ++ ws2 ++ ws3)) (join [sp] ws2) = true.
Proof.
  apply includes_iff.
  destruct ws2 as [|w2 ws2'].
  - exists [], (join [sp] (ws1 ++ ws3)). reflexivity.
  - destruct ws1 as [|w1 ws1']; destruct ws3 as [|w3 ws3'].
    + exists [], []. cbn [app]. now rewrite !app_nil_r.
    + exists [], ([sp] ++ join [sp] (w3 :: ws3')). cbn [app].
      change (w2 :: ws2' ++ w3 :: ws3') with ((w2 :: ws2') ++ (w3 :: ws3')).
      rewrite join_app by discriminate. reflexivity.
    + exists (join [sp] (w1 :: ws1') ++ [sp]), []. rewrite !app_nil_r.
      rewrite join_app by discriminate. now rewrite <- !app_assoc.
    + exists (join [sp] (w1 :: ws1') ++ [sp]), ([sp] ++ join [sp] (w3 :: ws3')).
      rewrite join_app by discriminate.
      rewrite (join_app (w2 :: ws2') (w3 :: ws3')) by discriminate.
      now rewrite <- !app_assoc.
Qed.

(** ** Which tokens [matchRequiredTokens] counts (C2) *)

Lemma collapseNonAlnum_replaceRuns (b : bool) (x : str) :
  collapseNonAlnum b x = replaceRuns notAlnum b x.
Proof.
  revert b. induction x as [|c x IH]; intros b; [reflexivity|].
  cbn [collapseNonAlnum replaceRuns]. unfold notAlnum at 1.
  destruct (isAlnum c); cbn [negb]; [now rewrite IH|].
  destruct b; now rewrite IH.
Qed.

(** [normalizeForMatch] computes the normalized form: its second
    replacement finds single spaces only. *)
Lemma normalizedForm_code (text : str) : normalizedForm text = normalizeForMatch text.
Proof.
  unfold normalizedForm, normalizedAsStated. rewrite collapseNonAlnum_replaceRuns.
  rewrite normalizeForMatch_unfold. unfold collapseSpaces.
  now rewrite (proj1 (collapse_after_replace (toLowerCase text))).
Qed.

Lemma variantMatches_code (subject v : str) :
  variantMatches subject v = occursNormalized normalizeForMatch subject v.
Proof. unfold variantMatches, occursNormalized. now rewrite !normalizedForm_code. Qed.

Lemma withoutLeadingMarks_code (token : str) :
  withoutLeadingMarks token = dropWhile isLeadPunct token.
Proof.
  induction token as [|c t IH]; [reflexivity|].
  cbn [withoutLeadingMarks dropWhile].
  replace (existsb (N.eqb c) (js ".#/")) with (isLeadPunct c).
  - now rewrite IH.
  - unfold isLeadPunct. cbn [js map String.list_ascii_of_string existsb].
    change (Ascii.N_of_ascii ".") with 46%N. change (Ascii.N_of_ascii "#") with 35%N.
    change (Ascii.N_of_ascii "/") with 47%N.
    now destruct (N.eqb c 46), (N.eqb c 35), (N.eqb c 47).
Qed.

Lemma split_not_nil (d : N) (s : str) : split d s <> [].
Proof.
  destruct s as [|c t]; cbn [split]; [discriminate|].
  destruct (N.eqb c d); [discriminate|]. destruct (split d t); discriminate.
Qed.

Lemma split_with_sep (d : N) (s : str) :
  existsb (N.eqb d) s = true -> exists seg next rest, split d s = seg :: next :: rest.
Proof.
  induction s as [|c t IH]; [discriminate|]. cbn [existsb split]. intros H.
  destruct (N.eqb c d) eqn:E.
  - pose proof (split_not_nil d t) as Hn.
    destruct (split d t) as [|next rest]; [contradiction|]. now exists [], next, rest.
  - rewrite N.eqb_sym, E in H. cbn [orb] in H.
    destruct (IH H) as [seg [next [rest ->]]]. now exists (c :: seg), next, rest.
Qed.

Lemma split_without_sep (d : N) (s : str) :
  existsb (N.eqb d) s = false -> split d s = [s].
Proof.
  induction s as [|c t IH]; [reflexivity|]. cbn [existsb split]. intros H.
  apply orb_false_iff in H as [H1 H2]. rewrite N.eqb_sym, H1. now rewrite (IH H2).
Qed.

Lemma pathBasename_code (token : str) : pathBasename token = lastSegment token.
Proof.
  unfold lastSegment. induction token as [|c t IH]; [reflexivity|].
  cbn [pathBasename split].
  destruct (existsb (N.eqb slash) t) eqn:E.
  - rewrite IH. destruct (split_with_sep slash t E) as [seg [next [rest ->]]].
    now destruct (N.eqb c slash).
  - rewrite (split_without_sep slash t E). now destruct (N.eqb c slash).
Qed.

Lemma atLastDot_not_alnum (name before after : str) :
  atLastDot name = Some (before, after) -> forallb isAlnumI name = false.
Proof.
  revert before after. induction name as [|c t IH]; intros before after; [discriminate|].
  cbn [atLastDot forallb]. destruct (atLastDot t) as [[b a]|].
  - intros _. rewrite (IH b a eq_refl). apply andb_false_r.
  - destruct (N.eqb c 46) eqn:E; [|discriminate]. intros _.
    apply N.eqb_eq in E. subst c. reflexivity.
Qed.

Lemma withoutExtension_code (name : str) : withoutExtension name = stripExtension name.
Proof.
  unfold withoutExtension. induction name as [|c t IH]; [reflexivity|].
  cbn [atLastDot stripExtension]. destruct (atLastDot t) as [[before after]|] eqn:E.
  - rewrite (atLastDot_not_alnum t before after E), !andb_false_r, <- IH.
    now destruct (truthy after && forallb isAlnumI after).
  - rewrite <- IH. destruct (N.eqb c 46); cbn [andb]; [|reflexivity].
    now destruct (truthy t && forallb isAlnumI t).
Qed.

Lemma variantsAsStated_code (token : str) :
  variantsAsStated token = candidateVariants token.
Proof.
  unfold variantsAsStated, candidateVariants.
  now rewrite withoutLeadingMarks_code, pathBasename_code, withoutExtension_code.
Qed.

(** C2, the counterexample.  The code takes the variants from the trimmed
    token: "src/foo/bar.ts " (with a space at its end) is matched by the
    subject "touch bar only", though none of the four variants of the token
    as it stands occurs in it.  And the code trims the normalized form:
    "#ab" normalizes to " ab" as the claim words it, three units that occur
    in "x ab", yet the code sees the two units "ab" and does not match. *)
Lemma matchRequiredTokens_not_as_stated :
  (matchedTokens (matchRequiredTokens (js "touch bar only") [spacedToken] 1) = [spacedToken]
   /\ matchedAsStated (js "touch bar only") spacedToken = false)
  /\ (matchedTokens (matchRequiredTokens (js "x ab") [hashToken] 1) = []
      /\ normalizedAsStated hashToken = js " ab"
      /\ matchedAsStated (js "x ab") hashToken = true).
Proof. vm_compute. repeat split. Qed.

(** C2, amended.  A token of the list is counted as matched exactly when
    one of its four variants (the token without surrounding white space,
    that token without leading '.', '#' and '/', its path basename, the
    basename without extension) has a normalized form (lower-cased, runs of
    non-alphanumerics collapsed to single spaces, no space at either end) of
    at least 3 units that occurs in the normalized subject; each token is
    counted once, and a non-empty list passes exactly when the number of
    matched tokens reaches [max 1 requiredCount].  The token
    "src/foo/bar.ts" is matched by every subject that contains "bar" and by
    no subject that is just "foo" or "update foo module". *)
Theorem matchRequiredTokens_variants :
  forall (subject : str) (tokens : list str) (requiredCount : nat),
    (forall token,
        In token (matchedTokens (matchRequiredTokens subject tokens requiredCount))
        <-> In token tokens
            /\ exists v, In v (fourVariants token) /\ variantMatches subject v = true)
    /\ NoDup (matchedTokens (matchRequiredTokens subject tokens requiredCount))
    /\ (tokens <> [] ->
        ok (matchRequiredTokens subject tokens requiredCount)
        = (Nat.max 1 requiredCount
           <=? length (matchedTokens (matchRequiredTokens subject tokens requiredCount))))
    /\ (includes subject (js "bar") = true ->
        ok (matchRequiredTokens subject [barToken] 1) = true)
    /\ ok (matchRequiredTokens (js "foo") [barToken] 1) = false
    /\ ok (matchRequiredTokens (js "update foo module") [barToken] 1) = false.
Proof.
  intros subject tokens requiredCount.
  split; [|split; [|split; [|split; [|split; reflexivity]]]].
  - intros token. destruct tokens as [|t tokens].
    + simpl. split; [intros [] | intros [[] _]].
    + cbn [matchRequiredTokens matchedTokens].
      rewrite collectMatches_In, token_matched_iff.
      unfold fourVariants. rewrite variantsAsStated_code. cbn [In].
      split.
      * intros [[] | [Hin [v [Hv Hm]]]]. split; [exact Hin|].
        exists v. split; [exact Hv | now rewrite variantMatches_code].
      * intros [Hin [v [Hv Hm]]]. right. split; [exact Hin|].
        exists v. split; [exact Hv | now rewrite <- variantMatches_code].
  - destruct tokens as [|t tokens]; cbn [matchRequiredTokens matchedTokens].
    + constructor.
    + apply collectMatches_NoDup. constructor.
  - intros Hne. destruct tokens as [|t tokens]; [contradiction | reflexivity].
  - intros Hbar. cbn [matchRequiredTokens ok].
    assert (Hm : matchVariants (normalizeForMatch subject)
                   (expandTokenVariants barToken) = true).
    { apply token_matched_iff. exists (js "bar"). split.
      - vm_compute. tauto.
      - unfold occursNormalized.
        replace (normalizeForMatch (js "bar")) with (js "bar") by reflexivity.
        rewrite normalizeForMatch_keeps_word; [reflexivity | discriminate | reflexivity | exact Hbar]. }
    cbn [collectMatches]. rewrite Hm. reflexivity.
Qed.

Lemma matchRequiredTokens_variants_witness :
  ok (matchRequiredTokens (js "fix crash in bar parser") [barToken] 1) = true.
Proof.
  apply (proj1 (proj2 (proj2 (proj2
           (matchRequiredTokens_variants (js "fix crash in bar parser") [] 1))))).
  reflexivity.
Defined.

(** ** Anchored prefixes

    The synthesized subject starts with the verb and the basename of the
    top-ranked file; the lemmas below show that the length control keeps
    this start. *)

Lemma boundary_firstn (k : nat) (r : str) : boundary r -> boundary (firstn k r).
Proof. destruct r as [|c r]; destruct k; intros H; try exact I. exact H. Qed.

Lemma boundary_dropEndWhile (f : N -> bool) (r : str) :
  boundary r -> boundary (dropEndWhile f r).
Proof.
  destruct r as [|c r]; [intros _; exact I|]. cbn [dropEndWhile]. intros H.
  destruct (dropEndWhile f r); [destruct (f c); [exact I | exact H] | exact H].
Qed.

Lemma boundary_collapse (z : str) : boundary z -> boundary (collapseSpaces z).
Proof.
  destruct z as [|c z]; [intros _; exact I|]. unfold collapseSpaces.
  cbn [replaceRuns]. intros H. destruct (isWhite c); [reflexivity | exact H].
Qed.

Lemma boundary_app (r z : str) : boundary r -> boundary z -> boundary (r ++ z).
Proof. destruct r; intros H1 H2; [exact H2 | exact H1]. Qed.

Lemma replaceRuns_app_keep (f : N -> bool) (c : N) (p q : str) (b : bool) :
  f c = false ->
  replaceRuns f b (p ++ c :: q) = replaceRuns f b p ++ c :: replaceRuns f false q.
Proof.
  intros Hc. revert b. induction p as [|x p IH]; intros b; cbn [app replaceRuns].
  - now rewrite Hc.
  - destruct (f x); [destruct b|]; now rewrite IH.
Qed.

Lemma replaceRuns_length (f : N -> bool) (b : bool) (s : str) :
  length (replaceRuns f b s) <= length s.
Proof.
  revert b. induction s as [|c s IH]; intros b; cbn [replaceRuns]; [apply le_n|].
  destruct (f c); [destruct b|]; cbn [length];
    pose proof (IH true); pose proof (IH false); lia.
Qed.

Lemma replaceRuns_forallb (P f : N -> bool) (b : bool) (s : str) :
  P sp = true -> forallb P s = true -> forallb P (replaceRuns f b s) = true.
Proof.
  intros Hsp. revert b. induction s as [|c s IH]; intros b H; [reflexivity|].
  cbn [forallb] in H. apply andb_true_iff in H as [Hc Hs]. cbn [replaceRuns].
  destruct (f c); [destruct b|]; cbn [forallb];
    rewrite ?Hsp, ?Hc, ?IH by assumption; reflexivity.
Qed.

Lemma trim_edges (a r : str) : edges a -> trim (a ++ r) = a ++ trimEnd r.
Proof.
  intros [[c [t [E Hc]]] [t' [c' [E' Hc']]]]. unfold trim.
  assert (Hs : trimStart (a ++ r) = a ++ r).
  { rewrite E. unfold trimStart. cbn [app dropWhile]. now rewrite Hc. }
  rewrite Hs, E'. unfold trimEnd. rewrite <- app_assoc. cbn [app].
  rewrite dropEndWhile_app_keep by (now apply word_not_white).
  rewrite <- app_assoc. reflexivity.
Qed.

Lemma dropEndWhile_edges (f : N -> bool) (a r : str) :
  (forall c, f c = true -> isWordUnit c = false) ->
  edges a -> dropEndWhile f (a ++ r) = a ++ dropEndWhile f r.
Proof.
  intros Hf [_ [t' [c' [E' Hc']]]]. rewrite E', <- app_assoc. cbn [app].
  rewrite dropEndWhile_app_keep.
  - now rewrite <- app_assoc.
  - destruct (f c') eqn:E; [|reflexivity]. apply Hf in E. congruence.
Qed.

Lemma collapse_edges (a z : str) :
  edges a ->
  collapseSpaces (a ++ z) = collapseSpaces a ++ collapseSpaces z
  /\ edges (collapseSpaces a).
Proof.
  intros [[c [t [E Hc]]] [t' [c' [E' Hc']]]]. unfold collapseSpaces.
  pose proof (word_not_white _ Hc') as Hw. split.
  - rewrite E', <- app_assoc. cbn [app].
    rewrite !replaceRuns_app_keep by exact Hw. cbn [replaceRuns].
    now rewrite <- app_assoc.
  - split.
    + rewrite E. cbn [replaceRuns]. rewrite Hc. eexists; eexists; split; [reflexivity | exact Hc].
    + rewrite E'. rewrite replaceRuns_app_keep by exact Hw. cbn [replaceRuns].
      eexists; eexists; split; [reflexivity | exact Hc'].
Qed.

(** Appending text that starts at a boundary, collapsing white space and
    trimming keeps the anchor. *)
Lemma anchored_expand (A : list str) (Q : str -> Prop) (x z : str) :
  (forall a, edges a -> Q a -> Q (collapseSpaces a)) ->
  anchored A Q x -> boundary z ->
  anchored A Q (trim (collapseSpaces (x ++ z))).
Proof.
  intros HQ [a [r [E [Hb [Hw [He Hq]]]]]] Hz. subst x.
  rewrite <- app_assoc.
  destruct (collapse_edges a (r ++ z) He) as [Ec He2].
  rewrite Ec, (trim_edges _ _ He2).
  exists (collapseSpaces a), (trimEnd (collapseSpaces (r ++ z))).
  split; [reflexivity|]. split; [|split; [|split]].
  - apply boundary_dropEndWhile, boundary_collapse. now apply boundary_app.
  - now rewrite words_lower_collapse.
  - exact He2.
  - now apply HQ.
Qed.

(** What an anchor gives: the words of the anchored part, in order, at the
    start of the words of the text. *)
Lemma anchored_words (A : list str) (Q : str -> Prop) (x : str) :
  anchored A Q x -> exists ws, wordsOf (toLowerCase x) = A ++ ws.
Proof.
  intros [a [r [E [Hb [Hw _]]]]]. subst x.
  exists (wordsOf (toLowerCase r)). now rewrite words_lower_app, Hw.
Qed.

Lemma unit_in_anchor (a r p rest : str) (u : N) :
  a ++ r = p ++ u :: rest -> length p < length a -> In u a.
Proof.
  intros E Hlt.
  assert (Hn : nth (length p) (a ++ r) 0%N = u) by (rewrite E; apply nth_middle).
  rewrite app_nth1 in Hn by exact Hlt. rewrite <- Hn. now apply nth_In.
Qed.

Lemma separator_after_anchor (a r sep : str) (i : nat) :
  edges a -> forallb (fun c => negb (isSeparatorUnit c)) a = true ->
  In sep Bounded.separators -> firstOccurrence (a ++ r) sep i ->
  length a <= i.
Proof.
  intros [_ [t' [c' [Ea Hc']]]] Hns Hsep [Hi [[rest Hr] _]].
  destruct (le_lt_dec (length a) i) as [Hle | Hlt]; [exact Hle|]. exfalso.
  set (p := firstn i (a ++ r)) in *.
  assert (Hp : length p = i) by (unfold p; apply firstn_length_le; exact Hi).
  assert (Hsingle : forall u, isSeparatorUnit u = true ->
                              a ++ r = p ++ u :: rest -> False).
  { intros u Hu E.
    assert (Hin : In u a) by (apply (unit_in_anchor a r p rest u E); lia).
    rewrite forallb_forall in Hns. specialize (Hns u Hin). rewrite Hu in Hns.
    discriminate. }
  unfold Bounded.separators in Hsep.
  destruct Hsep as [<- | [<- | [<- | [<- | [<- | []]]]]].
  - cbn [app] in Hr.
    destruct (Nat.eq_dec (S i) (length a)) as [Heq | Hne].
    + assert (Hn1 : nth i (a ++ r) 0%N = sp).
      { rewrite Hr at 1. rewrite <- Hp. apply nth_middle. }
      assert (Hn2 : nth i (a ++ r) 0%N = c').
      { rewrite Ea, <- app_assoc. cbn [app].
        replace i with (length t').
        - apply nth_middle.
        - rewrite Ea, length_app in Heq. cbn [length] in Heq. lia. }
      rewrite Hn1 in Hn2. subst c'. discriminate.
    + assert (Hin : In emDash a).
      { apply (unit_in_anchor a r (p ++ [sp]) (sp :: rest) emDash).
        - rewrite Hr at 1. now rewrite <- app_assoc.
        - rewrite length_app. cbn [length]. lia. }
      rewrite forallb_forall in Hns. specialize (Hns _ Hin). discriminate.
  - apply (Hsingle fwComma); [reflexivity | exact Hr].
  - apply (Hsingle 59%N); [reflexivity | exact Hr].
  - apply (Hsingle 44%N); [reflexivity | exact Hr].
  - apply (Hsingle 58%N); [reflexivity | exact Hr].
Qed.

Lemma firstn_past_anchor (a r : str) (i : nat) :
  length a <= i -> firstn i (a ++ r) = a ++ firstn (i - length a) r.
Proof. intros H. rewrite firstn_app, firstn_all2 by exact H. reflexivity. Qed.

(** [trimToMax] keeps an anchor that fits the maximum and holds no
    separator. *)
Lemma anchored_trimToMax (A : list str) (Q : str -> Prop) (maxLength : nat) (x : str) :
  (forall a, Q a -> fits maxLength a) ->
  anchored A Q x ->
  anchored A Q (Bounded.trimToMax x maxLength).
Proof.
  intros HQ Hx. unfold Bounded.trimToMax.
  destruct ((maxLength =? 0) || (length x <=? maxLength)); [exact Hx|].
  destruct Hx as [a [r [E [Hb [Hw [He Hq]]]]]]. subst x.
  destruct (HQ a Hq) as [Hlen Hns].
  destruct (Bounded.cutAtSeparator (a ++ r) maxLength Bounded.separators) as [t|] eqn:Ec.
  - apply cutAtSeparator_Some in Ec
      as [before [sep [after [i [Es [[Hf [Hr Hl]] [_ ->]]]]]]].
    assert (Hin : In sep Bounded.separators)
      by (rewrite Es; apply in_elt).
    pose proof (separator_after_anchor a r sep i He Hns Hin Hf) as Hai.
    rewrite (firstn_past_anchor _ _ _ Hai), (trim_edges _ _ He).
    exists a, (trimEnd (firstn (i - length a) r)).
    split; [reflexivity|]. split; [|split; [exact Hw | split; [exact He | exact Hq]]].
    apply boundary_dropEndWhile. now apply boundary_firstn.
  - unfold Bounded.hardCut.
    rewrite (firstn_past_anchor _ _ _ Hlen).
    rewrite (dropEndWhile_edges Bounded.isTrailingPunct _ _ punct_nonword He).
    rewrite (trim_edges _ _ He).
    exists a, (trimEnd (dropEndWhile Bounded.isTrailingPunct
                          (firstn (maxLength - length a) r))).
    split; [reflexivity|]. split; [|split; [exact Hw | split; [exact He | exact Hq]]].
    apply boundary_dropEndWhile, boundary_dropEndWhile. now apply boundary_firstn.
Qed.

Lemma fits_collapse (maxLength : nat) (a : str) :
  edges a -> fits maxLength a -> fits maxLength (collapseSpaces a).
Proof.
  intros _ [Hlen Hns]. split.
  - pose proof (replaceRuns_length isWhite false a). unfold collapseSpaces. lia.
  - unfold collapseSpaces. now apply replaceRuns_forallb.
Qed.

Lemma asciiHead_collapse (l : Lang) (a : str) :
  edges a -> asciiHead l a -> asciiHead l (collapseSpaces a).
Proof.
  intros [[c [t [-> Hc]]] _] H El.
  destruct (H El) as [c' [t' [E Hlt]]]. injection E as <- <-.
  unfold collapseSpaces. cbn [replaceRuns]. rewrite Hc.
  eexists; eexists; split; [reflexivity | exact Hlt].
Qed.

Lemma boundary_expansionPrefix (l : Lang) (z : str) :
  boundary (Bounded.expansionPrefix l ++ z).
Proof. destruct l; reflexivity. Qed.

Lemma boundary_tokenSnippet (tokens : list str) :
  boundary (Bounded.tokenSnippet tokens).
Proof. destruct tokens; [exact I | reflexivity]. Qed.

(** The length control of the bounded copy keeps the anchor. *)
Lemma anchored_Bounded_ensureSubjectLength (A : list str) (Q : str -> Prop) (l : Lang)
    (subject : str) (diff : PreprocessResult) (tokens : list str)
    (promptConfig : PromptConfig) (minLength maxLength : nat) :
  (forall a, Q a -> fits maxLength a) ->
  (forall a, edges a -> Q a -> Q (collapseSpaces a)) ->
  anchored A Q subject ->
  anchored A Q
    (Bounded.ensureSubjectLength l subject diff tokens promptConfig minLength maxLength).
Proof.
  intros Hfit Hcol Hs. unfold Bounded.ensureSubjectLength.
  set (candidate := if (0 <? maxLength) && (maxLength <? length subject)
                    then Bounded.trimToMax subject maxLength else subject).
  assert (Hc : anchored A Q candidate).
  { unfold candidate. destruct ((0 <? maxLength) && (maxLength <? length subject));
      [now apply anchored_trimToMax | exact Hs]. }
  clearbody candidate.
  destruct ((minLength =? 0) || (minLength <=? length candidate)); [exact Hc|].
  set (appended := Bounded.appendFragments l candidate (Bounded.tokenSnippet tokens)
                     maxLength [] (buildDetailFragments diff)).
  clearbody appended.
  set (expanded := if truthy appended
                   then trim (collapseSpaces
                                (candidate ++ Bounded.expansionPrefix l ++ appended
                                 ++ Bounded.tokenSnippet tokens))
                   else candidate).
  assert (He : anchored A Q expanded).
  { unfold expanded. destruct (truthy appended); [|exact Hc].
    apply anchored_expand; [exact Hcol | exact Hc | apply boundary_expansionPrefix]. }
  clearbody expanded.
  destruct ((0 <? minLength) && (length expanded <? minLength)
            && truthy (Bounded.tokenSnippet tokens)
            && negb (includes expanded (trim (Bounded.tokenSnippet tokens))));
    [|exact He].
  assert (Hp : anchored A Q
                 (trim (collapseSpaces (expanded ++ Bounded.tokenSnippet tokens)))).
  { apply anchored_expand; [exact Hcol | exact He | apply boundary_tokenSnippet]. }
  destruct (0 <? maxLength); [now apply anchored_trimToMax | exact Hp].
Qed.

Lemma boundary_Magnitude_prefix (l : Lang) (z : str) :
  boundary (Magnitude.expansionPrefix l ++ z).
Proof. destruct l; reflexivity. Qed.

(** The length control of the magnitude copy keeps the anchor. *)
Lemma anchored_Magnitude_ensureSubjectLength (A : list str) (Q : str -> Prop) (l : Lang)
    (subject : str) (diff : PreprocessResult) (tokens : list str)
    (promptConfig : PromptConfig) (minLength : nat) :
  (forall a, edges a -> Q a -> Q (collapseSpaces a)) ->
  anchored A Q subject ->
  anchored A Q
    (Magnitude.ensureSubjectLength l subject diff tokens promptConfig minLength).
Proof.
  intros Hcol Hs. unfold Magnitude.ensureSubjectLength.
  destruct ((minLength =? 0) || (minLength <=? length subject)); [exact Hs|].
  match goal with
  | |- anchored _ _ (if ?c then _ else _) => destruct c
  end; (apply anchored_expand;
        [exact Hcol | exact Hs | apply boundary_Magnitude_prefix]).
Qed.

Lemma anchored_weaken (A : list str) (Q Q' : str -> Prop) (x : str) :
  (forall a, Q a -> Q' a) -> anchored A Q x -> anchored A Q' x.
Proof.
  intros H [a [r [E [Hb [Hw [He Hq]]]]]]. exists a, r. repeat split; try assumption.
  - apply He.
  - apply He.
  - now apply H.
Qed.

Lemma dropEndWhile_last (f : N -> bool) (s t : str) (c : N) :
  dropEndWhile f s = t ++ [c] -> f c = false.
Proof.
  revert t. induction s as [|x s IH]; intros t; cbn [dropEndWhile].
  - destruct t; discriminate.
  - destruct (dropEndWhile f s) as [|d r] eqn:E.
    + destruct (f x) eqn:Ex; [destruct t; discriminate|].
      destruct t as [|y t]; cbn [app]; intros H.
      * injection H as <-. exact Ex.
      * injection H as _ H. destruct t; discriminate.
    + destruct t as [|y t]; cbn [app]; intros H; [discriminate|].
      injection H as _ H. now apply (IH t).
Qed.

Lemma dropWhile_head (f : N -> bool) (s t : str) (c : N) :
  dropWhile f s = c :: t -> f c = false.
Proof.
  induction s as [|x s IH]; cbn [dropWhile]; [discriminate|].
  destruct (f x) eqn:E; [exact IH|]. intros H. injection H as <- _. exact E.
Qed.

Lemma dropWhile_app (f : N -> bool) (x y : str) :
  dropWhile f x <> [] -> dropWhile f (x ++ y) = dropWhile f x ++ y.
Proof.
  induction x as [|c x IH]; cbn [dropWhile app]; [contradiction|].
  destruct (f c); [exact IH | reflexivity].
Qed.

Lemma dropWhile_In (f : N -> bool) (s : str) (c : N) : In c (dropWhile f s) -> In c s.
Proof.
  induction s as [|x s IH]; cbn [dropWhile]; [tauto|].
  destruct (f x); [intros H; right; now apply IH | tauto].
Qed.

Lemma dropEndWhile_In (f : N -> bool) (s : str) (c : N) : In c (dropEndWhile f s) -> In c s.
Proof.
  destruct (dropEndWhile_split f s) as [tail [E _]]. intros H.
  rewrite E. apply in_or_app. now left.
Qed.

(** A fragment starts with the part of the basename that reaches from its
    first unit that is not white space to its last unit of a word. *)
Lemma fragment_core (file : FileSummary) :
  wordsOf (toLowerCase (baseOf file)) <> [] ->
  exists core r,
    buildSubjectFragment file = core ++ r
    /\ boundary r /\ edges core
    /\ wordsOf (toLowerCase core) = wordsOf (toLowerCase (baseOf file))
    /\ length core <= length (baseOf file)
    /\ (forall c, In c core -> In c (baseOf file)).
Proof.
  intros Hwb. unfold buildSubjectFragment, baseOf in *.
  set (base := lastSegment (path file)) in *.
  set (D := join [sp] (fragmentDetails file)).
  set (nonWord := fun c => negb (isWordUnit c)).
  assert (HnonWord : forall c, nonWord c = true -> isWordUnit c = false)
    by (intros c H; now apply negb_true_iff in H).
  set (tb := trimStart base).
  set (core := dropEndWhile nonWord tb).
  assert (W1 : wordsOf (toLowerCase tb) = wordsOf (toLowerCase base))
    by (apply words_lower_dropWhile, white_nonword).
  assert (W2 : wordsOf (toLowerCase core) = wordsOf (toLowerCase base))
    by (unfold core; rewrite words_lower_dropEndWhile by exact HnonWord; exact W1).
  assert (Hcore : core <> []) by (intros E; rewrite E in W2; now apply Hwb).
  destruct (exists_last Hcore) as [t' [c' Ec]].
  assert (Hc' : isWordUnit c' = true).
  { pose proof (dropEndWhile_last nonWord tb t' c' Ec) as H.
    now apply negb_false_iff in H. }
  destruct (dropEndWhile_split nonWord tb) as [tail [Etb Htail]]. fold core in Etb.
  assert (Hhead : exists h t, core = h :: t /\ isWhite h = false).
  { destruct core as [|h t] eqn:E; [contradiction|]. exists h, t. split; [reflexivity|].
    apply (dropWhile_head isWhite base (t ++ tail)).
    fold (trimStart base). fold tb. now rewrite Etb. }
  assert (Hedges : edges core).
  { split; [exact Hhead | exists t', c'; now split]. }
  assert (Htrim : trim (base ++ [sp] ++ D) = core ++ trimEnd (tail ++ [sp] ++ D)).
  { unfold trim at 1. unfold trimStart.
    rewrite dropWhile_app.
    - fold (trimStart base). fold tb. rewrite Etb, <- app_assoc.
      unfold trimEnd. apply dropEndWhile_edges; [apply white_nonword | exact Hedges].
    - fold (trimStart base). fold tb. rewrite Etb.
      destruct Hhead as [h [t [-> _]]]. discriminate. }
  exists core, (trimEnd (tail ++ [sp] ++ D)).
  split; [exact Htrim|]. split; [|split; [exact Hedges | split; [exact W2 | split]]].
  - apply boundary_dropEndWhile.
    apply boundary_app; [|reflexivity].
    apply forallb_nonword_boundary. exact Htail.
  - pose proof (dropEndWhile_length nonWord tb) as H. fold core in H.
    pose proof (dropWhile_length isWhite base) as H0. fold (trimStart base) in H0.
    fold tb in H0. lia.
  - intros c Hc. apply (dropWhile_In isWhite). fold (trimStart base). fold tb.
    now apply (dropEndWhile_In nonWord).
Qed.

Lemma updateWord_space (l : Lang) : exists verb, updateWord l = verb ++ [sp].
Proof. destruct l; [exists (js "update") | exists [26356%N; 26032%N]]; reflexivity. Qed.

Lemma andWord_space (l : Lang) : exists word, andWord l = (sp :: word) ++ [sp].
Proof. destruct l; [exists (js "and") | exists [19982%N]]; reflexivity. Qed.

Lemma updateWord_head (l : Lang) (z : str) :
  (exists c t, updateWord l ++ z = c :: t /\ isWhite c = false)
  /\ asciiHead l (updateWord l ++ z).
Proof.
  split.
  - destruct l; eexists; eexists; (split; [reflexivity|]); reflexivity.
  - intros El. destruct l; [|discriminate]. eexists; eexists; split; reflexivity.
Qed.

Lemma no_separator_sub (a b : str) :
  (forall c, In c a -> In c b) ->
  forallb (fun c => negb (isSeparatorUnit c)) b = true ->
  forallb (fun c => negb (isSeparatorUnit c)) a = true.
Proof.
  intros Hsub Hb. rewrite forallb_forall in *. intros c Hc. now apply Hb, Hsub.
Qed.

(** The synthesized "update <fragment>" starts with the verb and the
    basename of the file. *)
Lemma fragment_anchored (l : Lang) (file : FileSummary) :
  wordsOf (toLowerCase (baseOf file)) <> [] ->
  anchored
    (wordsOf (toLowerCase (updateWord l)) ++ wordsOf (toLowerCase (baseOf file)) ++ [])
    (fun a =>
       asciiHead l a
       /\ length a <= length (updateWord l ++ baseOf file)
       /\ (forallb (fun c => negb (isSeparatorUnit c)) (updateWord l ++ baseOf file) = true ->
           forallb (fun c => negb (isSeparatorUnit c)) a = true))
    (updateWord l ++ buildSubjectFragment file).
Proof.
  intros Hwb.
  destruct (fragment_core file Hwb) as [core [r [E [Hb [[_ [t' [c' [Ec Hc']]]] [W [Hlen Hsub]]]]]]].
  rewrite E, app_nil_r.
  exists (updateWord l ++ core), r.
  split; [now rewrite app_assoc|]. split; [exact Hb|]. split; [|split; [|split; [|split]]].
  - destruct (updateWord_space l) as [verb ->].
    rewrite words_lower_app_l by reflexivity. now rewrite W.
  - split; [apply updateWord_head|].
    exists (updateWord l ++ t'), c'. split; [|exact Hc']. now rewrite Ec, app_assoc.
  - apply updateWord_head.
  - rewrite !length_app. lia.
  - apply no_separator_sub. intros c Hc. apply in_app_iff in Hc. apply in_app_iff.
    destruct Hc as [Hc | Hc]; [now left | right; now apply Hsub].
Qed.

(** The synthesized "update <fragment> and <fragment>" starts with the
    verb, the first fragment and the basename of the second file. *)
Lemma pair_anchored (l : Lang) (primary secondary : FileSummary) :
  wordsOf (toLowerCase (baseOf primary)) <> [] ->
  wordsOf (toLowerCase (baseOf secondary)) <> [] ->
  exists middle,
    anchored
      (wordsOf (toLowerCase (updateWord l))
       ++ wordsOf (toLowerCase (baseOf primary))
       ++ middle ++ wordsOf (toLowerCase (baseOf secondary)))
      (fun a =>
         asciiHead l a
         /\ length a <= length (updateWord l ++ buildSubjectFragment primary
                                ++ andWord l ++ baseOf secondary)
         /\ (forallb (fun c => negb (isSeparatorUnit c))
               (updateWord l ++ buildSubjectFragment primary
                ++ andWord l ++ baseOf secondary) = true ->
             forallb (fun c => negb (isSeparatorUnit c)) a = true))
      (updateWord l ++ buildSubjectFragment primary
       ++ andWord l ++ buildSubjectFragment secondary).
Proof.
  intros Hw1 Hw2.
  destruct (fragment_core primary Hw1) as [core1 [r1 [E1 [Hb1 [_ [W1 _]]]]]].
  destruct (fragment_core secondary Hw2)
    as [core2 [r2 [E2 [Hb2 [[_ [t' [c' [Ec Hc']]]] [W2 [Hlen2 Hsub2]]]]]]].
  exists (wordsOf (toLowerCase (r1 ++ andWord l))).
  set (P := buildSubjectFragment primary).
  exists (updateWord l ++ P ++ andWord l ++ core2), r2.
  split; [rewrite E2; now rewrite <- !app_assoc|]. split; [exact Hb2|].
  split; [|split; [|split; [|split]]].
  - destruct (andWord_space l) as [word Eand].
    assert (Wmid : wordsOf (toLowerCase (P ++ andWord l))
                   = wordsOf (toLowerCase (baseOf primary))
                     ++ wordsOf (toLowerCase (r1 ++ andWord l))).
    { unfold P. rewrite E1, <- app_assoc.
      rewrite (words_lower_app core1 (r1 ++ andWord l)).
      - now rewrite W1.
      - apply boundary_app; [exact Hb1 | rewrite Eand; reflexivity]. }
    assert (Wstart : wordsOf (toLowerCase (updateWord l ++ P ++ andWord l))
                     = wordsOf (toLowerCase (updateWord l))
                       ++ wordsOf (toLowerCase (P ++ andWord l))).
    { destruct (updateWord_space l) as [verb ->].
      now rewrite words_lower_app_l by reflexivity. }
    replace (updateWord l ++ P ++ andWord l ++ core2)
      with (((updateWord l ++ P ++ sp :: word) ++ [sp]) ++ core2)
      by (rewrite Eand, <- !app_assoc; reflexivity).
    rewrite words_lower_app_l by reflexivity. rewrite W2.
    replace ((updateWord l ++ P ++ sp :: word) ++ [sp])
      with (updateWord l ++ P ++ andWord l)
      by (rewrite Eand, <- !app_assoc; reflexivity).
    rewrite Wstart, Wmid, <- !app_assoc. reflexivity.
  - split; [apply updateWord_head|].
    exists (updateWord l ++ P ++ andWord l ++ t'), c'. split; [|exact Hc'].
    now rewrite Ec, <- !app_assoc.
  - apply updateWord_head.
  - rewrite !length_app. lia.
  - apply no_separator_sub. intros c Hc. rewrite !in_app_iff in *.
    destruct Hc as [Hc | [Hc | [Hc | Hc]]]; [tauto | tauto | tauto |].
    right; right; right. now apply Hsub2.
Qed.

(** ** Synthesis against its own validator (C1) *)

Lemma toLowerCase_length (s : str) : length (toLowerCase s) <= 2 * length s.
Proof.
  induction s as [|c s IH]; [apply le_n|].
  unfold toLowerCase in *. cbn [flat_map]. rewrite length_app. cbn [length].
  assert (length (lowerUnit c) <= 2).
  { unfold lowerUnit. destruct (isUpperAZ c); [cbn; lia|].
    destruct (N.eqb c 304); [cbn; lia|]. destruct (N.eqb c 8490); cbn; lia. }
  lia.
Qed.

Lemma normalizeForMatch_length (s : str) :
  length (normalizeForMatch s) <= 2 * length s.
Proof.
  rewrite normalizeForMatch_unfold.
  pose proof (trim_length (collapseSpaces (replaceRuns notAlnum false (toLowerCase s)))).
  pose proof (replaceRuns_length isWhite false (replaceRuns notAlnum false (toLowerCase s))).
  pose proof (replaceRuns_length notAlnum false (toLowerCase s)).
  pose proof (toLowerCase_length s). unfold collapseSpaces in *. lia.
Qed.

Lemma normalizeForMatch_trim (s : str) : normalizeForMatch (trim s) = normalizeForMatch s.
Proof. now rewrite !normalizeForMatch_words, words_lower_trim. Qed.

Lemma normalizeForMatch_lower (s t : str) :
  toLowerCase s = toLowerCase t -> normalizeForMatch s = normalizeForMatch t.
Proof. intros H. unfold normalizeForMatch. now rewrite H. Qed.

Lemma insertRanked_length (x : FileSummary) (fs : list FileSummary) :
  length (insertRanked x fs) = S (length fs).
Proof.
  induction fs as [|y fs IH]; [reflexivity|]. cbn [insertRanked].
  destruct (score x <? score y); cbn [length]; now rewrite ?IH.
Qed.

Lemma rankFiles_length (fs : list FileSummary) : length (rankFiles fs) = length fs.
Proof.
  induction fs as [|x fs IH]; [reflexivity|].
  unfold rankFiles in *. cbn [fold_right length]. now rewrite insertRanked_length, IH.
Qed.

(** Up to 10 files: one token is required, and the subject has to carry the
    basename of the top-ranked file. *)
Lemma namedFiles_single (diff : PreprocessResult) :
  files diff <> [] -> length (files diff) <= 10 ->
  exists primary others,
    rankFiles (files diff) = primary :: others
    /\ namedFiles diff = [primary] /\ requiredTokenCount diff = 1.
Proof.
  intros Hne Hlen. unfold namedFiles, requiredTokenCount.
  replace (10 <? length (files diff)) with false by (symmetry; now apply Nat.ltb_ge).
  pose proof (rankFiles_length (files diff)) as Hr.
  destruct (rankFiles (files diff)) as [|primary others].
  - destruct (files diff); [contradiction | discriminate].
  - exists primary, others. repeat split.
Qed.

(** More than 10 files: two tokens are required, and the subject has to
    carry the basenames of the two top-ranked files. *)
Lemma namedFiles_pair (diff : PreprocessResult) :
  10 < length (files diff) ->
  exists primary secondary others,
    rankFiles (files diff) = primary :: secondary :: others
    /\ namedFiles diff = [primary; secondary] /\ requiredTokenCount diff = 2.
Proof.
  intros Hlen. unfold namedFiles, requiredTokenCount.
  replace (10 <? length (files diff)) with true by (symmetry; now apply Nat.ltb_lt).
  pose proof (rankFiles_length (files diff)) as Hr.
  destruct (rankFiles (files diff)) as [|primary [|secondary others]];
    cbn [length] in Hr; try lia.
  exists primary, secondary, others. repeat split.
Qed.

(** The basename of the top-ranked file is the first required token. *)
Lemma requiredTokens_head (diff : PreprocessResult) (primary : FileSummary)
    (others : list FileSummary) :
  rankFiles (files diff) = primary :: others ->
  2 <= length (baseOf primary) ->
  exists rest, requiredTokens diff = baseOf primary :: rest.
Proof.
  intros Hr Hlen. unfold requiredTokens, buildRequiredTokens. rewrite Hr.
  cbn [firstn flat_map].
  unfold tokensOfFile at 1. fold (lastSegment (path primary)). fold (baseOf primary).
  set (base := baseOf primary) in *.
  assert (Ht : truthy base = true) by (destruct base; [cbn in Hlen; lia | reflexivity]).
  rewrite Ht. cbn [app dedupTokens setHas existsb].
  replace (1 <? length base) with true by (symmetry; apply Nat.ltb_lt; lia).
  eexists. reflexivity.
Qed.

(** The final filter of [buildRequiredTokens] keeps, for every pushed token,
    the first pushed token with the same lower-case form, provided the
    tokens of that form are longer than one unit. *)
Lemma dedupTokens_keeps (x : str) (pushed : list str) :
  forall seen : list str,
    In x pushed ->
    setHas seen (toLowerCase x) = false ->
    (forall t, toLowerCase t = toLowerCase x -> 2 <= length t) ->
    exists t, In t (dedupTokens seen pushed) /\ toLowerCase t = toLowerCase x.
Proof.
  induction pushed as [|token rest IH]; intros seen Hin Hseen Hlong; [destruct Hin|].
  cbn [dedupTokens].
  destruct (setHas seen (toLowerCase token)) eqn:Es.
  - destruct Hin as [-> | Hin]; [congruence|]. now apply IH.
  - destruct (str_eq_dec (toLowerCase token) (toLowerCase x)) as [E | Hne].
    + exists token. split; [|exact E].
      replace (1 <? length token) with true
        by (symmetry; apply Nat.ltb_lt; specialize (Hlong token E); lia).
      now left.
    + destruct Hin as [-> | Hin]; [congruence|].
      destruct (IH (setAdd seen (toLowerCase token)) Hin) as [t [Ht Et]].
      * destruct (setHas (setAdd seen (toLowerCase token)) (toLowerCase x)) eqn:E;
          [|reflexivity].
        apply setHas_In, setAdd_In in E. destruct E as [E | E]; [|congruence].
        apply setHas_In in E. congruence.
      * exact Hlong.
      * exists t. split; [|exact Et].
        destruct (1 <? length token); [now right | exact Ht].
Qed.

(** A token with the lower-case form of the basename of the second-ranked
    file is required. *)
Lemma requiredTokens_second (diff : PreprocessResult) (primary secondary : FileSummary)
    (others : list FileSummary) :
  rankFiles (files diff) = primary :: secondary :: others ->
  3 <= length (normalizeForMatch (baseOf secondary)) ->
  exists t, In t (requiredTokens diff)
            /\ toLowerCase t = toLowerCase (baseOf secondary).
Proof.
  intros Hr Hnorm. unfold requiredTokens, buildRequiredTokens. rewrite Hr.
  apply dedupTokens_keeps; [|reflexivity|].
  - apply in_flat_map. exists secondary. split; [cbn [firstn]; right; now left|].
    unfold tokensOfFile. fold (lastSegment (path secondary)). fold (baseOf secondary).
    assert (Ht : truthy (baseOf secondary) = true).
    { destruct (baseOf secondary); [|reflexivity].
      rewrite normalizeForMatch_nil in Hnorm. cbn in Hnorm. lia. }
    rewrite Ht. now left.
  - intros t Et. pose proof (normalizeForMatch_length t) as Hl.
    rewrite (normalizeForMatch_lower _ _ Et) in Hl. lia.
Qed.

(** A subject anchored at words that hold the words of a token names that
    token. *)
Lemma anchored_token_matched (Q : str -> Prop) (l : Lang) (before after : list str)
    (subject token : str) (promptConfig : PromptConfig) :
  (forall a, Q a -> asciiHead l a) ->
  anchored (before ++ wordsOf (toLowerCase token) ++ after) Q subject ->
  3 <= length (normalizeForMatch token) ->
  matchVariants (normalizeForMatch (applySubjectStyle l subject promptConfig))
    (expandTokenVariants token) = true.
Proof.
  intros HQ Ha Hlen.
  assert (Hhead : asciiHead l subject).
  { destruct Ha as [a [r [-> [_ [_ [_ Hq]]]]]]. intros El.
    destruct (HQ a Hq El) as [c [t [-> Hc]]]. exists c, (t ++ r). now split. }
  apply token_matched_iff. exists (trim token). split; [now left|].
  unfold occursNormalized. rewrite normalizeForMatch_trim.
  apply andb_true_iff. split; [now apply Nat.leb_le|].
  rewrite !normalizeForMatch_words, (toLowerCase_style _ _ _ Hhead).
  destruct (anchored_words _ _ _ Ha) as [ws ->].
  rewrite <- !app_assoc. apply includes_joined.
Qed.

(** The validator accepts a subject that names as many distinct required
    tokens as are required. *)
Lemma named_tokens_accepted (subject : str) (tokens named : list str) (count : nat) :
  NoDup named -> count <= length named -> 1 <= length named ->
  (forall t, In t named ->
     In t tokens
     /\ matchVariants (normalizeForMatch subject) (expandTokenVariants t) = true) ->
  ok (matchRequiredTokens subject tokens count) = true.
Proof.
  intros Hnd Hcount Hone Hall. unfold matchRequiredTokens.
  destruct tokens as [|token tokens]; [reflexivity|]. cbn [ok].
  apply Nat.leb_le.
  assert (Hincl : incl named
                    (collectMatches (normalizeForMatch subject) [] (token :: tokens))).
  { intros t Ht. apply collectMatches_In. right. now apply Hall. }
  pose proof (NoDup_incl_length Hnd Hincl). lia.
Qed.

(** C1, counterexample.  (1) The diff touches one file named "go".  Its
    only required token normalizes to two units, which the matcher ignores,
    so the subject synthesized from this diff fails the validator in both
    copies.  (2) Eleven files, the second and the third named by two
    letters: two tokens are required and one can match.  (3) Eleven files,
    the first three named "index.ts": there is one token where two are
    required.  (4) and (5) The bounded copy cuts a basename of 129 units
    after 120 units, and a basename with a comma at the comma.  (6) and (7)
    With eleven files the bounded copy cuts the subject before the second
    basename when the first fragment is long, or holds a comma and is
    followed by long tokens; the magnitude copy, which never cuts, passes
    on the inputs (4) to (7). *)
Lemma synthesized_subject_fails_validator :
  let boundedPasses := fun diff : PreprocessResult =>
    ok (matchRequiredTokens
          (Bounded.buildSpecificSubject en diff (requiredTokens diff)
             (requiredTokenCount diff) defaultConfig
             Bounded.minSubjectLength Bounded.maxSubjectLength)
          (requiredTokens diff) (requiredTokenCount diff)) in
  let magnitudePasses := fun diff : PreprocessResult =>
    ok (matchRequiredTokens
          (Magnitude.buildSpecificSubject en diff (requiredTokens diff)
             (requiredTokenCount diff) defaultConfig (Magnitude.minSubjectLength diff))
          (requiredTokens diff) (requiredTokenCount diff)) in
  (files shortNameDiff <> []
   /\ requiredTokens shortNameDiff = [js "go"]
   /\ boundedPasses shortNameDiff = false
   /\ magnitudePasses shortNameDiff = false)
  /\ (length (files shortSecondDiff) = 11
      /\ requiredTokens shortSecondDiff = [js "main.ts"; js "go"; js "io"]
      /\ boundedPasses shortSecondDiff = false
      /\ magnitudePasses shortSecondDiff = false)
  /\ (length (files sameNameDiff) = 11
      /\ requiredTokens sameNameDiff = [js "index.ts"]
      /\ boundedPasses sameNameDiff = false
      /\ magnitudePasses sameNameDiff = false)
  /\ (boundedPasses longNameDiff = false /\ magnitudePasses longNameDiff = true)
  /\ (Bounded.buildSpecificSubject en commaNameDiff (requiredTokens commaNameDiff)
        (requiredTokenCount commaNameDiff) defaultConfig
        Bounded.minSubjectLength Bounded.maxSubjectLength = js "update data data"
      /\ boundedPasses commaNameDiff = false /\ magnitudePasses commaNameDiff = true)
  /\ (length (files longPairDiff) = 11
      /\ boundedPasses longPairDiff = false /\ magnitudePasses longPairDiff = true)
  /\ (length (files commaPairDiff) = 11
      /\ boundedPasses commaPairDiff = false /\ magnitudePasses commaPairDiff = true).
Proof.
  cbv zeta.
  split; [|split; [|split; [|split; [|split; [|split]]]]].
  - split; [discriminate | split; [|split]]; vm_compute; reflexivity.
  - split; [|split; [|split]]; vm_compute; reflexivity.
  - split; [|split; [|split]]; vm_compute; reflexivity.
  - split; vm_compute; reflexivity.
  - split; [|split]; vm_compute; reflexivity.
  - split; [|split]; vm_compute; reflexivity.
  - split; [|split]; vm_compute; reflexivity.
Qed.

(** C1, amended.  Let the diff have at least one file, and let the basenames
    of the files that the subject has to carry (the top-ranked file, and
    with more than 10 files, where two tokens are required, the second-ranked
    file as well) have normalized forms of at least 3 units that differ from
    one another.  Then the subject synthesized by the magnitude copy passes
    [matchRequiredTokens] for the tokens and the count derived from the same
    diff; the subject synthesized by the bounded copy does so as well when
    the start of the subject up to the last of these basenames fits into 120
    units and holds none of the separators em dash, full-width comma,
    semicolon, comma and colon, at which [trimToMax] could cut it. *)
Theorem buildSpecificSubject_passes_validator :
  forall (l : Lang) (diff : PreprocessResult) (promptConfig : PromptConfig),
    files diff <> [] ->
    Forall (fun file => 3 <= length (normalizeForMatch (baseOf file))) (namedFiles diff) ->
    NoDup (map (fun file => normalizeForMatch (baseOf file)) (namedFiles diff)) ->
    ok (matchRequiredTokens
          (Magnitude.buildSpecificSubject l diff (requiredTokens diff)
             (requiredTokenCount diff) promptConfig (Magnitude.minSubjectLength diff))
          (requiredTokens diff) (requiredTokenCount diff)) = true
    /\ (fits Bounded.maxSubjectLength (namedPart l diff) ->
        ok (matchRequiredTokens
              (Bounded.buildSpecificSubject l diff (requiredTokens diff)
                 (requiredTokenCount diff) promptConfig
                 Bounded.minSubjectLength Bounded.maxSubjectLength)
              (requiredTokens diff) (requiredTokenCount diff)) = true).
Proof.
  intros l diff promptConfig Hne Hnamed Hdiffer.
  assert (Hwords : forall file, 3 <= length (normalizeForMatch (baseOf file)) ->
                     wordsOf (toLowerCase (baseOf file)) <> []
                     /\ 2 <= length (baseOf file)
                     /\ truthy (buildSubjectFragment file) = true).
  { intros file Hnorm.
    assert (Hw : wordsOf (toLowerCase (baseOf file)) <> []).
    { intros E. rewrite normalizeForMatch_words, E in Hnorm. cbn in Hnorm. lia. }
    split; [exact Hw | split].
    - pose proof (normalizeForMatch_length (baseOf file)). lia.
    - destruct (fragment_core file Hw) as [core [r [E [_ [[[c [t [-> _]]] _] _]]]]].
      now rewrite E. }
  set (Qm := asciiHead l).
  set (Qb := fun a => fits Bounded.maxSubjectLength a /\ asciiHead l a).
  assert (Hmagnitude : forall A x min,
             anchored A Qm x ->
             anchored A Qm
               (if 0 <? min
                then Magnitude.ensureSubjectLength l x diff (requiredTokens diff)
                       promptConfig min
                else x)).
  { intros A x min Hx. destruct (0 <? min); [|exact Hx].
    apply anchored_Magnitude_ensureSubjectLength; [apply asciiHead_collapse | exact Hx]. }
  assert (Hbounded : forall A x,
             anchored A Qb x ->
             anchored A Qb
               (if (0 <? Bounded.minSubjectLength) || (0 <? Bounded.maxSubjectLength)
                then Bounded.ensureSubjectLength l x diff (requiredTokens diff)
                       promptConfig Bounded.minSubjectLength Bounded.maxSubjectLength
                else x)).
  { intros A x Hx.
    replace ((0 <? Bounded.minSubjectLength) || (0 <? Bounded.maxSubjectLength))
      with true by reflexivity.
    apply anchored_Bounded_ensureSubjectLength; [exact (fun _ H => proj1 H) | | exact Hx].
    intros a He [Hf Ha]. split; [now apply fits_collapse | now apply asciiHead_collapse]. }
  destruct (le_lt_dec (length (files diff)) 10) as [Hfew | Hmany].
  - destruct (namedFiles_single diff Hne Hfew) as [primary [others [Hr [En Hcount]]]].
    rewrite En in Hnamed, Hdiffer. inversion Hnamed as [|? ? Hnorm _]. subst.
    destruct (Hwords primary Hnorm) as [Hw [Hlen Hfrag]].
    destruct (requiredTokens_head diff primary others Hr Hlen) as [rest Etok].
    pose proof (fragment_anchored l primary Hw) as Hanchor.
    assert (Haccept : forall Q subject,
               (forall a, Q a -> asciiHead l a) ->
               anchored (wordsOf (toLowerCase (updateWord l))
                         ++ wordsOf (toLowerCase (baseOf primary)) ++ []) Q subject ->
               ok (matchRequiredTokens (applySubjectStyle l subject promptConfig)
                     (requiredTokens diff) 1) = true).
    { intros Q subject HQ Ha.
      apply (named_tokens_accepted _ _ [baseOf primary]);
        [repeat constructor; intros [] | cbn; lia | cbn; lia|].
      intros t [<- | []]. split; [rewrite Etok; now left|].
      now apply (anchored_token_matched Q l (wordsOf (toLowerCase (updateWord l))) []). }
    split.
    + unfold Magnitude.buildSpecificSubject. rewrite Hr, Hfrag, Hcount.
      change (1 <? 1) with false. cbn [negb andb].
      apply (Haccept Qm); [exact (fun _ H => H)|]. apply Hmagnitude.
      apply (anchored_weaken _ _ _ _ (fun _ H => proj1 H) Hanchor).
    + intros Hfit. unfold namedPart in Hfit. rewrite En in Hfit.
      unfold Bounded.buildSpecificSubject. rewrite Hr, Hfrag, Hcount.
      change (1 <? 1) with false. cbn [negb andb].
      apply (Haccept Qb); [exact (fun _ H => proj2 H)|]. apply Hbounded.
      apply (anchored_weaken _ _ _ _
               (fun a H => conj (conj (Nat.le_trans _ _ _ (proj1 (proj2 H)) (proj1 Hfit))
                                      (proj2 (proj2 H) (proj2 Hfit)))
                                (proj1 H)) Hanchor).
  - destruct (namedFiles_pair diff Hmany)
      as [primary [secondary [others [Hr [En Hcount]]]]].
    rewrite En in Hnamed, Hdiffer.
    inversion Hnamed as [|? ? Hnorm1 Hnamed']. subst.
    inversion Hnamed' as [|? ? Hnorm2 _]. subst.
    cbn [map] in Hdiffer. inversion Hdiffer as [|? ? Hnotin _]. subst.
    assert (Hdistinct : normalizeForMatch (baseOf primary)
                        <> normalizeForMatch (baseOf secondary))
      by (intros E; apply Hnotin; now left).
    destruct (Hwords primary Hnorm1) as [Hw1 [Hlen1 Hfrag1]].
    destruct (Hwords secondary Hnorm2) as [Hw2 [Hlen2 Hfrag2]].
    destruct (requiredTokens_head diff primary (secondary :: others) Hr Hlen1)
      as [rest Etok].
    destruct (requiredTokens_second diff primary secondary others Hr Hnorm2)
      as [second [Hsecond Elower]].
    destruct (pair_anchored l primary secondary Hw1 Hw2) as [middle Hanchor].
    assert (Haccept : forall Q subject,
               (forall a, Q a -> asciiHead l a) ->
               anchored (wordsOf (toLowerCase (updateWord l))
                         ++ wordsOf (toLowerCase (baseOf primary))
                         ++ middle ++ wordsOf (toLowerCase (baseOf secondary)))
                 Q subject ->
               ok (matchRequiredTokens (applySubjectStyle l subject promptConfig)
                     (requiredTokens diff) 2) = true).
    { intros Q subject HQ Ha.
      apply (named_tokens_accepted _ _ [baseOf primary; second]).
      - constructor; [|repeat constructor; intros []].
        intros [E | []]. apply Hdistinct.
        apply normalizeForMatch_lower. now rewrite <- E.
      - cbn. lia.
      - cbn. lia.
      - intros t [<- | [<- | []]].
        + split; [rewrite Etok; now left|].
          now apply (anchored_token_matched Q l (wordsOf (toLowerCase (updateWord l)))
                       (middle ++ wordsOf (toLowerCase (baseOf secondary)))).
        + split; [exact Hsecond|].
          apply (anchored_token_matched Q l
                   (wordsOf (toLowerCase (updateWord l))
                    ++ wordsOf (toLowerCase (baseOf primary)) ++ middle) []).
          * exact HQ.
          * rewrite Elower, app_nil_r, <- !app_assoc. exact Ha.
          * now rewrite (normalizeForMatch_lower _ _ Elower). }
    split.
    + unfold Magnitude.buildSpecificSubject. rewrite Hr, Hfrag1, Hfrag2, Hcount.
      change (1 <? 2) with true. cbn [negb andb orb].
      unfold orElseStr. rewrite Hfrag2.
      apply (Haccept Qm); [exact (fun _ H => H)|]. apply Hmagnitude.
      apply (anchored_weaken _ _ _ _ (fun _ H => proj1 H) Hanchor).
    + intros Hfit. unfold namedPart in Hfit. rewrite En in Hfit.
      unfold Bounded.buildSpecificSubject. rewrite Hr, Hfrag1, Hfrag2, Hcount.
      change (1 <? 2) with true. cbn [negb andb orb].
      unfold orElseStr. rewrite Hfrag2.
      apply (Haccept Qb); [exact (fun _ H => proj2 H)|]. apply Hbounded.
      apply (anchored_weaken _ _ _ _
               (fun a H => conj (conj (Nat.le_trans _ _ _ (proj1 (proj2 H)) (proj1 Hfit))
                                      (proj2 (proj2 H) (proj2 Hfit)))
                                (proj1 H)) Hanchor).
Qed.

Lemma buildSpecificSubject_passes_validator_witness :
  (ok (matchRequiredTokens
         (Magnitude.buildSpecificSubject en loginDiff (requiredTokens loginDiff)
            (requiredTokenCount loginDiff) defaultConfig (Magnitude.minSubjectLength loginDiff))
         (requiredTokens loginDiff) (requiredTokenCount loginDiff)) = true
   /\ ok (matchRequiredTokens
            (Bounded.buildSpecificSubject en loginDiff (requiredTokens loginDiff)
               (requiredTokenCount loginDiff) defaultConfig
               Bounded.minSubjectLength Bounded.maxSubjectLength)
            (requiredTokens loginDiff) (requiredTokenCount loginDiff)) = true)
  /\ (requiredTokenCount elevenFilesDiff = 2
      /\ ok (matchRequiredTokens
               (Magnitude.buildSpecificSubject en elevenFilesDiff
                  (requiredTokens elevenFilesDiff) (requiredTokenCount elevenFilesDiff)
                  defaultConfig (Magnitude.minSubjectLength elevenFilesDiff))
               (requiredTokens elevenFilesDiff) (requiredTokenCount elevenFilesDiff))
         = true
      /\ ok (matchRequiredTokens
               (Bounded.buildSpecificSubject en elevenFilesDiff
                  (requiredTokens elevenFilesDiff) (requiredTokenCount elevenFilesDiff)
                  defaultConfig Bounded.minSubjectLength Bounded.maxSubjectLength)
               (requiredTokens elevenFilesDiff) (requiredTokenCount elevenFilesDiff))
         = true).
Proof.
  split.
  - destruct (buildSpecificSubject_passes_validator en loginDiff defaultConfig)
      as [H1 H2].
    + discriminate.
    + constructor; [vm_compute; lia | constructor].
    + constructor; [intros [] | constructor].
    + split; [exact H1|]. apply H2. split; [vm_compute; lia | reflexivity].
  - destruct (buildSpecificSubject_passes_validator en elevenFilesDiff defaultConfig)
      as [H1 H2].
    + discriminate.
    + constructor; [vm_compute; lia | constructor; [vm_compute; lia | constructor]].
    + constructor; [|constructor; [intros [] | constructor]].
      intros [E | []]. vm_compute in E. discriminate E.
    + split; [reflexivity | split; [exact H1|]].
      apply H2. split; [vm_compute; lia | reflexivity].
Defined.

(** ** Body lines and their action verbs *)

Lemma dropWhile_app_stop (f : N -> bool) (a : str) (c : N) (y : str) :
  f c = false -> dropWhile f (a ++ c :: y) = dropWhile f a ++ c :: y.
Proof.
  intros Hc. induction a as [|x a IH]; cbn [app dropWhile].
  - now rewrite Hc.
  - destruct (f x); [exact IH | reflexivity].
Qed.

(** [trim] around a part that starts and ends with units that are not white
    space. *)
Lemma trim_around (a m0 b : str) (c z : N) (m : str) :
  m = c :: m0 -> (exists m1, m = m1 ++ [z]) ->
  isWhite c = false -> isWhite z = false ->
  trim (a ++ m ++ b) = trimStart a ++ m ++ trimEnd b.
Proof.
  intros Em [m1 Ez] Hc Hz. unfold trim, trimStart.
  rewrite Em at 1. cbn [app]. rewrite (dropWhile_app_stop _ _ _ _ Hc).
  change (c :: m0 ++ b) with ((c :: m0) ++ b). rewrite <- Em.
  unfold trimEnd. rewrite Ez, <- !app_assoc. cbn [app].
  rewrite app_assoc, (dropEndWhile_app_keep _ _ _ _ Hz), <- app_assoc.
  reflexivity.
Qed.

Lemma startsWithI_self (v r : str) : startsWithI v (v ++ r) = true.
Proof.
  induction v as [|x v IH]; [reflexivity|]. cbn [app startsWithI].
  now rewrite N.eqb_refl, IH.
Qed.

Lemma skipn_self (v r : str) : skipn (length v) (v ++ r) = r.
Proof. induction v as [|x v IH]; [reflexivity | exact IH]. Qed.

(** A verb that stands at the head, before a unit that is no word
    character, is found. *)
Lemma verbFrom_here (verbs : list str) (v r : str) :
  In v verbs -> Body.headIsWord r = false -> Body.verbFrom verbs false (v ++ r) = true.
Proof.
  intros Hin Hr.
  assert (H : Body.verbAt verbs false (v ++ r) = true).
  { unfold Body.verbAt. cbn [negb andb]. apply existsb_exists. exists v.
    split; [exact Hin|]. now rewrite startsWithI_self, skipn_self, Hr. }
  destruct (v ++ r); cbn [Body.verbFrom]; now rewrite H.
Qed.

(** The search goes on behind any prefix. *)
Lemma verbFrom_after (verbs : list str) (d : N) (s : str) :
  Body.verbFrom verbs (isWordChar d) s = true ->
  forall (pre : str) (p : bool), Body.verbFrom verbs p (pre ++ d :: s) = true.
Proof.
  intros H pre. induction pre as [|x pre IH]; intros p; cbn [app Body.verbFrom].
  - rewrite H. apply orb_true_r.
  - rewrite IH. apply orb_true_r.
Qed.

Lemma headIsWord_trimEnd_sp (t : str) : Body.headIsWord (trimEnd (sp :: t)) = false.
Proof.
  unfold trimEnd. cbn [dropEndWhile].
  destruct (dropEndWhile isWhite t); reflexivity.
Qed.

(** The verbs that [pickActionVerb] can return: each is one of the verbs
    that [hasActionVerb] looks for, and each ends with a unit that is not
    white space. *)
Lemma pickActionVerb_verb (l : Lang) (file : option FileSummary) (hint : str) :
  let action := Body.pickActionVerb l file hint in
  In action (match l with en => Body.enVerbs | zh => Body.zhVerbs end)
  /\ exists c m0 m1 z, action = c :: m0 /\ action = m1 ++ [z]
                       /\ isWhite c = false /\ isWhite z = false.
Proof.
  assert (Hen : forall a, In a [js "fix"; js "optimize"; js "document"; js "update";
                                js "add"; js "remove"; js "rename"] ->
                          In a Body.enVerbs
                          /\ exists c m0 m1 z, a = c :: m0 /\ a = m1 ++ [z]
                                               /\ isWhite c = false /\ isWhite z = false).
  { intros a Ha. cbn [In] in Ha.
    repeat (destruct Ha as [<- | Ha];
            [match goal with
             | |- _ /\ exists c m0 m1 z, ?a = _ /\ _ =>
                 split; [unfold Body.enVerbs; cbn [In]; tauto
                        | exists (hd 0%N a), (tl a), (removelast a), (last a 0%N);
                          repeat split; reflexivity]
             end|]).
    contradiction. }
  assert (Hzh : forall a, In a [[20462; 22797]; [20248; 21270]; [34917; 20805];
                                [26356; 26032]; [26032; 22686]; [21024; 38500];
                                [37325; 21629; 21517]]%N ->
                          In a Body.zhVerbs
                          /\ exists c m0 m1 z, a = c :: m0 /\ a = m1 ++ [z]
                                               /\ isWhite c = false /\ isWhite z = false).
  { intros a Ha. cbn [In] in Ha.
    repeat (destruct Ha as [<- | Ha];
            [match goal with
             | |- _ /\ exists c m0 m1 z, ?a = _ /\ _ =>
                 split; [unfold Body.zhVerbs; cbn [In]; tauto
                        | exists (hd 0%N a), (tl a), (removelast a), (last a 0%N);
                          repeat split; reflexivity]
             end|]).
    contradiction. }
  cbv zeta. unfold Body.pickActionVerb.
  set (text := toLowerCase _). clearbody text.
  destruct l; [apply Hen | apply Hzh]; cbn [Body.localized];
    repeat match goal with
           | |- In (if ?c then _ else _) _ => destruct c
           end;
    try (destruct (option_map changeType file) as [[| | | |]|]);
    cbn [In]; tauto.
Qed.

Lemma hasActionVerb_en_built (pre v r : str) (d : N) :
  In v Body.enVerbs -> isWordChar d = false -> Body.headIsWord r = false ->
  Body.hasActionVerb en (pre ++ d :: v ++ r) = true.
Proof.
  intros Hv Hd Hr. unfold Body.hasActionVerb. apply verbFrom_after.
  rewrite Hd. now apply verbFrom_here.
Qed.

Lemma hasActionVerb_zh_built (pre v r : str) :
  In v Body.zhVerbs -> Body.hasActionVerb zh (pre ++ v ++ r) = true.
Proof.
  intros Hv. unfold Body.hasActionVerb. apply existsb_exists. exists v.
  split; [exact Hv|]. apply includes_iff. now exists pre, r.
Qed.

Lemma trimStart_colon_sp (h : str) :
  trimStart (h ++ [Body.colon; sp]) = trimStart h ++ [Body.colon; sp].
Proof. unfold trimStart. now apply dropWhile_app_stop. Qed.

(** A line built as "<head>: <verb> <rest>" (or without the second space in
    Chinese) carries its verb, also once trimmed. *)
Lemma verb_after_colon (l : Lang) (h action rest : str) :
  In action (match l with en => Body.enVerbs | zh => Body.zhVerbs end) ->
  (exists c m0 m1 z, action = c :: m0 /\ action = m1 ++ [z]
                     /\ isWhite c = false /\ isWhite z = false) ->
  Body.hasActionVerb l
    (trim ((h ++ [Body.colon; sp]) ++ action
           ++ match l with en => sp :: rest | zh => rest end)) = true.
Proof.
  intros Hin [c [m0 [m1 [z [E1 [E2 [Hc Hz]]]]]]].
  rewrite (trim_around _ m0 _ c z action E1 (ex_intro _ m1 E2) Hc Hz).
  rewrite trimStart_colon_sp.
  destruct l.
  - replace ((trimStart h ++ [Body.colon; sp]) ++ action ++ trimEnd (sp :: rest))
      with ((trimStart h ++ [Body.colon]) ++ sp :: action ++ trimEnd (sp :: rest))
      by (now rewrite <- !app_assoc).
    apply hasActionVerb_en_built; [exact Hin | reflexivity | apply headIsWord_trimEnd_sp].
  - now apply hasActionVerb_zh_built.
Qed.

Lemma firstn_succ_occurrence (line : str) (i : nat) :
  firstOccurrence line [Body.colon] i ->
  firstn (i + 1) line = firstn i line ++ [Body.colon].
Proof.
  intros [Hi [[rest E] _]].
  assert (Hlen : length (firstn i line) = i) by (now apply firstn_length_le).
  rewrite E at 1. rewrite firstn_app, Hlen.
  replace (i + 1 - i) with 1 by lia.
  rewrite firstn_all2 by (rewrite Hlen; lia). reflexivity.
Qed.

Lemma ensureActionVerb_verb (l : Lang) (line : str) (file : option FileSummary) :
  Body.hasActionVerb l (Body.ensureActionVerb l line file) = true.
Proof.
  unfold Body.ensureActionVerb.
  destruct (Body.hasActionVerb l line) eqn:Hline; [exact Hline|].
  destruct (pickActionVerb_verb l file line) as [Hin Hshape].
  set (action := Body.pickActionVerb l file line) in *. clearbody action.
  assert (Ht : truthy action = true)
    by (destruct Hshape as [c [m0 [_ [_ [-> _]]]]]; reflexivity).
  rewrite Ht. cbn [negb].
  assert (Hplain : Body.hasActionVerb l
                     match l with en => action ++ [sp] ++ line | zh => action ++ line end
                   = true).
  { destruct l.
    - apply verbFrom_here; [exact Hin | reflexivity].
    - now apply (hasActionVerb_zh_built []). }
  destruct (indexOf line [Body.colon]) as [i|] eqn:Hi; [|exact Hplain].
  destruct (i <? length line - 1); [|exact Hplain].
  apply indexOf_first in Hi. rewrite (firstn_succ_occurrence _ _ Hi).
  pose proof (verb_after_colon l (firstn i line) action
                (trim (skipn (i + 1) line)) Hin Hshape) as H.
  destruct l; rewrite <- H; f_equal; now rewrite <- !app_assoc.
Qed.

(** [trim] is idempotent. *)
Lemma trimStart_head (s : str) (c : N) (t : str) : trim s = c :: t -> isWhite c = false.
Proof.
  unfold trim, trimEnd. intros H.
  destruct (dropEndWhile_split isWhite (trimStart s)) as [tail [E _]].
  rewrite H in E. apply (dropWhile_head isWhite s (t ++ tail)).
  exact E.
Qed.

Lemma trim_idem (s : str) : trim (trim s) = trim s.
Proof.
  destruct (trim s) as [|c t] eqn:E; [reflexivity|].
  pose proof (trimStart_head _ _ _ E) as Hc.
  destruct (@exists_last _ (c :: t)) as [u [z Ez]]; [discriminate|].
  assert (Hz : isWhite z = false).
  { apply (dropEndWhile_last isWhite (trimStart s) u z).
    unfold trim, trimEnd in E. now rewrite E. }
  unfold trim at 1. unfold trimStart. cbn [dropWhile]. rewrite Hc.
  unfold trimEnd. rewrite Ez.
  rewrite (dropEndWhile_app_keep _ _ _ _ Hz). reflexivity.
Qed.

Lemma trim_truthy_nonempty (s : str) : truthy s = true -> s <> [].
Proof. destruct s; [discriminate | discriminate]. Qed.

(** *** The lines collected by [buildBodyLines] *)

Lemma pushUnique_invariant (l : Lang) (st : Body.Lines) (line : str) :
  Body.hasActionVerb l (trim line) = true ->
  linesInvariant l st -> linesInvariant l (Body.pushUnique st line).
Proof.
  intros Hv [Hnd [Hseen Hall]]. unfold Body.pushUnique.
  destruct (truthy (trim line)) eqn:Ht; cbn [negb]; [|now repeat split].
  destruct (setHas (Body.seen st) (toLowerCase (trim line))) eqn:Hs; [now repeat split|].
  repeat split; cbn [Body.lines Body.seen].
  - apply NoDup_app; [exact Hnd | constructor; [intros [] | constructor] |].
    intros x Hx [<- | []]. apply Hseen in Hx. apply setHas_In in Hx. congruence.
  - intros x Hx. apply setAdd_In. apply in_app_or in Hx as [Hx | [<- | []]].
    + left. now apply Hseen.
    + now right.
  - apply Forall_app. split; [exact Hall|]. constructor; [|constructor].
    repeat split; [exact Hv | apply trim_idem | now apply trim_truthy_nonempty].
Qed.

Lemma formatBodyLine_verb (l : Lang) (base : str) (details : list str) (file : FileSummary) :
  Body.hasActionVerb l (trim (Body.formatBodyLine l base details file)) = true.
Proof.
  unfold Body.formatBodyLine.
  destruct (pickActionVerb_verb l (Some file) (join [sp] details)) as [Hin Hshape].
  set (action := Body.pickActionVerb l (Some file) (join [sp] details)) in *.
  clearbody action.
  set (detailText := join _ _). clearbody detailText.
  pose proof (verb_after_colon l base action detailText Hin Hshape) as H.
  change (js ": ") with [Body.colon; sp].
  destruct l; rewrite trim_idem; rewrite <- H; f_equal; now rewrite <- !app_assoc.
Qed.

Lemma updateLine_verb (l : Lang) (fragment : str) :
  Body.hasActionVerb l
    (trim (Body.localized l ([26356; 26032; sp]%N ++ fragment) (js "Update " ++ fragment)))
  = true.
Proof.
  destruct l; cbn [Body.localized].
  - change (js "Update " ++ fragment) with ([] ++ js "Update" ++ sp :: fragment).
    rewrite (trim_around [] (js "pdate") (sp :: fragment) 85%N 101%N (js "Update")
               eq_refl (ex_intro _ (js "Updat") eq_refl) eq_refl eq_refl).
    cbn [trimStart dropWhile app].
    assert (H : Body.verbAt Body.enVerbs false (js "Update" ++ trimEnd (sp :: fragment))
                = true).
    { unfold Body.verbAt. cbn [negb andb]. apply existsb_exists. exists (js "update").
      split; [unfold Body.enVerbs; cbn [In]; tauto|].
      apply andb_true_iff. split; [reflexivity|].
      change (skipn (length (js "update")) (js "Update" ++ trimEnd (sp :: fragment)))
        with (trimEnd (sp :: fragment)).
      now rewrite headIsWord_trimEnd_sp. }
    unfold Body.hasActionVerb.
    change (js "Update" ++ trimEnd (sp :: fragment))
      with (85%N :: js "pdate" ++ trimEnd (sp :: fragment)) in *.
    cbn [Body.verbFrom]. now rewrite H.
  - change ([26356; 26032; sp]%N ++ fragment)
      with ([] ++ [26356; 26032]%N ++ sp :: fragment).
    rewrite (trim_around [] [26032%N] (sp :: fragment) 26356%N 26032%N [26356; 26032]%N
               eq_refl (ex_intro _ [26356%N] eq_refl) eq_refl eq_refl).
    apply hasActionVerb_zh_built. unfold Body.zhVerbs. cbn [In]. tauto.
Qed.

Lemma firstPass_invariant (l : Lang) (maxLines : nat) (bundles : list Body.Bundle) :
  forall st, linesInvariant l st -> linesInvariant l (Body.firstPass l maxLines bundles st).
Proof.
  induction bundles as [|b rest IH]; intros st H; cbn [Body.firstPass]; [exact H|].
  destruct (length (Body.details b) =? 0); [now apply IH|].
  match goal with
  | |- context [Body.pushUnique st ?x] =>
      assert (H' : linesInvariant l (Body.pushUnique st x))
        by (apply pushUnique_invariant; [apply formatBodyLine_verb | exact H])
  end.
  destruct (maxLines <=? _); [exact H' | now apply IH].
Qed.

Lemma perDetail_invariant (l : Lang) (minLines : nat) (b : Body.Bundle) (ds : list str) :
  forall st, linesInvariant l st -> linesInvariant l (Body.perDetail l minLines b ds st).
Proof.
  induction ds as [|d rest IH]; intros st H; cbn [Body.perDetail]; [exact H|].
  destruct (minLines <=? _); [exact H|].
  apply IH, pushUnique_invariant; [apply formatBodyLine_verb | exact H].
Qed.

Lemma secondPass_invariant (l : Lang) (minLines : nat) (bundles : list Body.Bundle) :
  forall st, linesInvariant l st -> linesInvariant l (Body.secondPass l minLines bundles st).
Proof.
  induction bundles as [|b rest IH]; intros st H; cbn [Body.secondPass]; [exact H|].
  pose proof (perDetail_invariant l minLines b (Body.details b) st H) as H'.
  destruct (minLines <=? _); [exact H' | now apply IH].
Qed.

Lemma thirdPass_invariant (l : Lang) (minLines : nat) (fragments : list str) :
  forall st, linesInvariant l st -> linesInvariant l (Body.thirdPass l minLines fragments st).
Proof.
  induction fragments as [|f rest IH]; intros st H; cbn [Body.thirdPass]; [exact H|].
  destruct (minLines <=? _); [exact H|].
  apply IH, pushUnique_invariant; [apply updateLine_verb | exact H].
Qed.

Lemma map_fixed {A : Type} (f : A -> A) (xs : list A) :
  Forall (fun x => f x = x) xs -> map f xs = xs.
Proof.
  induction 1 as [|x xs Hx _ IH]; [reflexivity|]. cbn [map]. now rewrite Hx, IH.
Qed.

Lemma NoDup_firstn {A : Type} (n : nat) (xs : list A) : NoDup xs -> NoDup (firstn n xs).
Proof.
  intros H. rewrite <- (firstn_skipn n xs) in H. now apply NoDup_app_remove_r in H.
Qed.

Lemma Forall_firstn {A : Type} (P : A -> Prop) (n : nat) (xs : list A) :
  Forall P xs -> Forall P (firstn n xs).
Proof.
  intros H. rewrite <- (firstn_skipn n xs) in H. now apply Forall_app in H.
Qed.

Lemma buildBodyLines_collected (l : Lang) (diff : PreprocessResult) (minLines maxLines : nat) :
  exists st, linesInvariant l st
             /\ Body.buildBodyLines l diff minLines maxLines
                = firstn maxLines (Body.lines st).
Proof.
  unfold Body.buildBodyLines.
  set (bundles := map Body.bundleOf (rankFiles (files diff))).
  set (st0 := {| Body.lines := []; Body.seen := [] |}).
  assert (H0 : linesInvariant l st0)
    by (repeat split; [constructor | intros x [] | constructor]).
  pose proof (firstPass_invariant l maxLines bundles st0 H0) as H1.
  set (st1 := Body.firstPass l maxLines bundles st0) in *. clearbody st1.
  set (st2 := if length (Body.lines st1) <? minLines
              then Body.secondPass l minLines bundles st1 else st1).
  assert (H2 : linesInvariant l st2)
    by (unfold st2; destruct (_ <? _); [now apply secondPass_invariant | exact H1]).
  clearbody st2.
  set (st3 := if length (Body.lines st2) <? minLines
              then Body.thirdPass l minLines (buildDetailFragments diff) st2 else st2).
  assert (H3 : linesInvariant l st3)
    by (unfold st3; destruct (_ <? _); [now apply thirdPass_invariant | exact H2]).
  clearbody st3. exists st3. split; [exact H3|].
  apply map_fixed. apply Forall_firstn.
  destruct H3 as [_ [_ Hall]]. eapply Forall_impl; [|exact Hall].
  intros x [Hx _]. unfold Body.ensureActionVerb. now rewrite Hx.
Qed.

(** X4. [ensureActionVerb] always returns a line in which [hasActionVerb]
    finds a verb, in both languages, with or without a file and whether or
    not the line holds a colon. *)
Theorem ensureActionVerb_has_verb :
  forall (l : Lang) (line : str) (file : option FileSummary),
    Body.hasActionVerb l (Body.ensureActionVerb l line file) = true.
Proof. intros l line file. apply ensureActionVerb_verb. Qed.

(** X5. [buildBodyLines] returns at most [maxLines] lines; no two of them
    are equal, and each is trimmed, not empty and carries an action verb (so
    that the final [ensureActionVerb] pass leaves every line as it was
    pushed). *)
Theorem buildBodyLines_lines :
  forall (l : Lang) (diff : PreprocessResult) (minLines maxLines : nat),
    let result := Body.buildBodyLines l diff minLines maxLines in
    length result <= maxLines
    /\ NoDup result
    /\ Forall (fun line => Body.hasActionVerb l line = true
                           /\ trim line = line /\ line <> []) result.
Proof.
  intros l diff minLines maxLines result.
  destruct (buildBodyLines_collected l diff minLines maxLines) as [st [[Hnd [_ Hall]] E]].
  unfold result. rewrite E. repeat split.
  - apply firstn_le_length.
  - now apply NoDup_firstn.
  - now apply Forall_firstn.
Qed.

(** X6. [normalizeBodyLines] returns at most 12 lines, and [hasActionVerb]
    finds a verb in each of them, whether the lines of the model are kept or
    replaced by the lines built from the diff. *)
Theorem normalizeBodyLines_lines :
  forall (l : Lang) (bodyLines : list str) (diff : PreprocessResult),
    let result := Body.normalizeBodyLines l bodyLines diff in
    length result <= 12
    /\ Forall (fun line => Body.hasActionVerb l line = true) result.
Proof.
  intros l bodyLines diff result. unfold result, Body.normalizeBodyLines.
  destruct (8 <=? _).
  - split; [apply firstn_le_length|]. apply Forall_firstn.
    apply Forall_map, Forall_forall. intros x _. apply ensureActionVerb_verb.
  - destruct (buildBodyLines_collected l diff 8 12) as [st [[_ [_ Hall]] E]].
    rewrite E. split; [apply firstn_le_length|]. apply Forall_firstn.
    eapply Forall_impl; [|exact Hall]. now intros x [Hx _].
Qed.

(** *** The details of a file *)

Lemma addDetail_invariant (details : list str) (value : str) :
  detailsInvariant details -> detailsInvariant (Body.addDetail details value).
Proof.
  intros [Hnd Hall]. unfold Body.addDetail.
  destruct (truthy value); cbn [negb]; [|now split].
  destruct (truthy (trim value)) eqn:Ht; cbn [negb]; [|now split].
  destruct (existsb (eqb_str (trim value)) details) eqn:Hin; [now split|].
  split.
  - apply NoDup_app; [exact Hnd | constructor; [intros [] | constructor] |].
    intros x Hx [<- | []].
    assert (H : existsb (eqb_str (trim value)) details = true)
      by (apply existsb_exists; exists (trim value); split;
          [exact Hx | apply eqb_str_refl]).
    congruence.
  - apply Forall_app. split; [exact Hall|]. constructor; [|constructor].
    split; [now apply trim_truthy_nonempty | apply trim_idem].
Qed.

Lemma addDetail_fold (values : list str) :
  forall details, detailsInvariant details ->
                  detailsInvariant (fold_left Body.addDetail values details).
Proof.
  induction values as [|v values IH]; intros details H; [exact H|].
  cbn [fold_left]. now apply IH, addDetail_invariant.
Qed.

(** X7. [collectFileDetails] returns at most three details; they are
    pairwise different, and each is trimmed and not empty. *)
Theorem collectFileDetails_details :
  forall file : FileSummary,
    let details := Body.collectFileDetails file in
    length details <= 3
    /\ NoDup details
    /\ Forall (fun d => d <> [] /\ trim d = d) details.
Proof.
  intros file details. unfold details, Body.collectFileDetails.
  set (d1 := fold_left Body.addDetail (firstn 3 (keywords file)) []).
  assert (H1 : detailsInvariant d1)
    by (apply addDetail_fold; split; constructor).
  clearbody d1.
  set (d2 := if length d1 <? 3 then _ else d1).
  assert (H2 : detailsInvariant d2).
  { unfold d2. destruct (length d1 <? 3); [|exact H1].
    destruct (context file); [exact H1 | now apply addDetail_invariant]. }
  clearbody d2.
  set (d3 := if length d2 <? 3 then _ else d2).
  assert (H3 : detailsInvariant d3)
    by (unfold d3; destruct (length d2 <? 3); [now apply addDetail_invariant | exact H2]).
  clearbody d3.
  set (d4 := if length d3 <? 3 then _ else d3).
  assert (H4 : detailsInvariant d4)
    by (unfold d4; destruct (length d3 <? 3); [now apply addDetail_invariant | exact H3]).
  clearbody d4. destruct H4 as [Hnd Hall]. repeat split.
  - apply firstn_le_length.
  - now apply NoDup_firstn.
  - now apply Forall_firstn.
Qed.

(** ** The sanitizer of the model output *)

Lemma split_pieces (d : N) (s seg : str) :
  In seg (split d s) -> ~ In d seg /\ forall c, In c seg -> In c s.
Proof.
  revert seg. induction s as [|x s IH]; intros seg; cbn [split].
  - intros [<- | []]. split; [intros [] | intros c []].
  - destruct (N.eqb x d) eqn:E.
    + intros [<- | H]; [split; [intros [] | intros c []]|].
      destruct (IH _ H) as [H1 H2]. split; [exact H1|]. intros c Hc. right. now apply H2.
    + destruct (split d s) as [|seg0 rest] eqn:Es.
      * intros [<- | []]. split.
        -- intros [-> | []]. now rewrite N.eqb_refl in E.
        -- intros c [<- | []]. now left.
      * intros [<- | H].
        -- destruct (IH seg0 (or_introl eq_refl)) as [H1 H2]. split.
           ++ intros [-> | H]; [now rewrite N.eqb_refl in E | now apply H1].
           ++ intros c [<- | Hc]; [now left | right; now apply H2].
        -- destruct (IH seg (or_intror H)) as [H1 H2]. split; [exact H1|].
           intros c Hc. right. now apply H2.
Qed.

Lemma trim_In (s : str) (c : N) : In c (trim s) -> In c s.
Proof.
  unfold trim, trimEnd, trimStart. intros H.
  now apply (dropWhile_In isWhite), (dropEndWhile_In isWhite).
Qed.

Lemma stripBullet_In (bullet : N -> bool) (s : str) (c : N) :
  In c (Output.stripBullet bullet s) -> In c s.
Proof.
  unfold Output.stripBullet. destruct s as [|x [|y t]]; try exact (fun H => H).
  destruct (bullet x && isWhite y); [|exact (fun H => H)].
  intros H. right. now apply (dropWhile_In isWhite).
Qed.

Lemma stripFences_no_return (raw : str) :
  ~ In Output.carriageReturn (Output.stripFences raw).
Proof.
  unfold Output.stripFences. intros H. apply filter_In in H as [_ H].
  now rewrite N.eqb_refl in H.
Qed.

Lemma dropBlank_incl (ls : list str) : incl (Output.dropBlank ls) ls.
Proof.
  induction ls as [|x ls IH]; cbn [Output.dropBlank]; [apply incl_refl|].
  destruct (Output.isBlank x); [now apply incl_tl | apply incl_refl].
Qed.

Lemma singleLine_part (part whole : str) :
  (forall c, In c part -> In c whole) -> singleLine whole -> singleLine part.
Proof. intros H [H1 H2]. split; intros Hc; [apply H1 | apply H2]; now apply H. Qed.

Lemma singleLine_nil : singleLine [].
Proof. split; intros []. Qed.

Lemma Forall_hd (P : str -> Prop) (ls : list str) : P [] -> Forall P ls -> P (hd [] ls).
Proof. intros H0 H. destruct H; [exact H0 | assumption]. Qed.

Lemma Forall_tl {A : Type} (P : A -> Prop) (ls : list A) : Forall P ls -> Forall P (tl ls).
Proof. intros H. destruct H; [constructor | assumption]. Qed.

Lemma Forall_incl {A : Type} (P : A -> Prop) (xs ys : list A) :
  incl xs ys -> Forall P ys -> Forall P xs.
Proof. intros Hi H. rewrite Forall_forall in *. auto. Qed.

(** X8. the sanitizer returns clean lines.  The subject line and every body
    line is free of line feeds and carriage returns and has no white space
    at either end; no body line is empty. *)
Theorem sanitizeCommitOutput_clean :
  forall raw : str,
    let r := Output.sanitizeCommitOutput raw in
    singleLine (Output.subjectLine r)
    /\ trim (Output.subjectLine r) = Output.subjectLine r
    /\ Forall (fun line => singleLine line /\ trim line = line /\ line <> [])
              (Output.bodyLines r).
Proof.
  intros raw r. unfold r, Output.sanitizeCommitOutput.
  cbn [Output.subjectLine Output.bodyLines].
  set (output := Output.stripFences raw).
  assert (Hpieces : Forall singleLine (split newline output)).
  { apply Forall_forall. intros seg Hseg.
    destruct (split_pieces _ _ _ Hseg) as [H1 H2]. split; [exact H1|].
    intros Hc. apply (stripFences_no_return raw). now apply H2. }
  assert (H0 : Forall singleLine (Output.dropBlank (map trimEnd (split newline output)))).
  { apply (Forall_incl _ _ _ (dropBlank_incl _)).
    apply Forall_map. eapply Forall_impl; [|exact Hpieces].
    intros seg. apply singleLine_part. intros c. apply (dropEndWhile_In isWhite). }
  set (lines0 := Output.dropBlank (map trimEnd (split newline output))) in *.
  clearbody lines0. split; [|split].
  - apply (singleLine_part _ (hd [] lines0)); [|exact (Forall_hd _ _ singleLine_nil H0)].
    intros c Hc.
    now apply trim_In, (dropEndWhile_In Output.isQuote), (dropWhile_In Output.isQuote),
      stripBullet_In in Hc.
  - apply trim_idem.
  - apply Forall_forall. intros line Hline.
    apply filter_In in Hline as [Hline Ht].
    apply in_map_iff in Hline as [x [<- Hx]].
    apply filter_In in Hx as [Hx _].
    apply in_map_iff in Hx as [y [<- Hy]].
    assert (Hs : singleLine y).
    { pose proof (Forall_incl _ _ _ (dropBlank_incl (tl lines0)) (Forall_tl _ _ H0)) as H1.
      rewrite Forall_forall in H1. now apply H1. }
    split; [|split].
    + apply (singleLine_part _ y); [|exact Hs]. intros c Hc.
      now apply trim_In, stripBullet_In, trim_In in Hc.
    + apply trim_idem.
    + now apply trim_truthy_nonempty.
Qed.

(** ** Parsing what the formatter writes *)

Lemma takeWhile_app_stop (f : N -> bool) (t : str) (d : N) (r : str) :
  forallb f t = true -> f d = false ->
  Preprocess.takeWhile f (t ++ d :: r) = t /\ dropWhile f (t ++ d :: r) = d :: r.
Proof.
  intros Ht Hd. induction t as [|x t IH]; cbn [app Preprocess.takeWhile dropWhile].
  - now rewrite Hd.
  - cbn [forallb] in Ht. apply andb_true_iff in Ht as [Hx Ht]. rewrite Hx.
    destruct (IH Ht) as [-> ->]. now split.
Qed.

Lemma trim_fixed (s t u : str) (c z : N) :
  s = c :: t -> s = u ++ [z] -> isWhite c = false -> isWhite z = false -> trim s = s.
Proof.
  intros E1 E2 Hc Hz.
  pose proof (trim_around [] t [] c z s E1 (ex_intro _ u E2) Hc Hz) as H.
  cbn [app] in H. rewrite app_nil_r in H. rewrite H.
  unfold trimStart, trimEnd. cbn [dropWhile dropEndWhile app]. apply app_nil_r.
Qed.

(** A trimmed text that is not empty starts and ends with units that are
    not white space. *)
Lemma trimmed_edges (s : str) :
  trim s = s -> s <> [] ->
  exists c t u z, s = c :: t /\ s = u ++ [z] /\ isWhite c = false /\ isWhite z = false.
Proof.
  intros Ht Hne. destruct s as [|c t]; [contradiction|].
  destruct (@exists_last _ (c :: t)) as [u [z Ez]]; [discriminate|].
  exists c, t, u, z. split; [reflexivity|]. split; [exact Ez|]. split.
  - now apply (trimStart_head (c :: t) c t).
  - apply (dropEndWhile_last isWhite (trimStart (c :: t)) u z).
    unfold trim, trimEnd in Ht. now rewrite Ht.
Qed.

Lemma letter_not_white (c : N) : Output.isLetter c = true -> isWhite c = false.
Proof.
  intros H. destruct (isWhite c) eqn:E; [|reflexivity]. exfalso.
  unfold Output.isLetter in H. unfoldUnits. boolN; lia.
Qed.

(** The pattern of [parseCommitMessage] reads "type(scope): subject" back
    into its three parts. *)
Lemma parse_line (typ scp subj : str) :
  wellFormedType typ -> scp <> [] -> ~ In 41%N scp ->
  subj <> [] -> trim subj = subj ->
  forallb (fun u => negb (isLineTerminator u)) subj = true ->
  Output.parseCommitMessage (typ ++ js "(" ++ scp ++ js "): " ++ subj)
  = Some {| Output.type := typ; Output.scope := Some scp; Output.subject := subj |}.
Proof.
  intros [c [t [-> [Hc Ht]]]] Hscp Hclose Hsubj Htrim Hlt.
  destruct (trimmed_edges subj Htrim Hsubj) as [c1 [t1 [u1 [z1 [E1 [E2 [Hc1 Hz1]]]]]]].
  unfold Output.parseCommitMessage.
  assert (Hfix : trim ((c :: t) ++ js "(" ++ scp ++ js "): " ++ subj)
                 = c :: t ++ js "(" ++ scp ++ js "): " ++ subj).
  { apply (trim_fixed _ (t ++ js "(" ++ scp ++ js "): " ++ subj)
             (((c :: t) ++ js "(" ++ scp ++ js "): ") ++ u1) c z1).
    - reflexivity.
    - rewrite E2 at 1. now rewrite <- !app_assoc.
    - now apply letter_not_white.
    - exact Hz1. }
  rewrite Hfix, Hc.
  change (js "(" ++ scp ++ js "): " ++ subj) with (40%N :: scp ++ js "): " ++ subj).
  destruct (takeWhile_app_stop Output.isTypeUnit t 40%N (scp ++ js "): " ++ subj) Ht eq_refl)
    as [-> ->].
  unfold Output.scopeGroup. rewrite N.eqb_refl.
  assert (Hnc : forallb Output.notClosing scp = true).
  { apply forallb_forall. intros x Hx. unfold Output.notClosing.
    apply negb_true_iff, N.eqb_neq. intros ->. now apply Hclose. }
  change (js "): " ++ subj) with (41%N :: Body.colon :: sp :: subj).
  destruct (takeWhile_app_stop Output.notClosing scp 41%N (Body.colon :: sp :: subj)
              Hnc eq_refl) as [-> ->].
  assert (Hts : truthy scp = true) by (destruct scp; [contradiction | reflexivity]).
  rewrite Hts, N.eqb_refl.
  assert (Hd : dropWhile isWhite (sp :: subj) = subj).
  { cbn [dropWhile]. rewrite isWhite_sp. rewrite E1. cbn [dropWhile]. now rewrite Hc1. }
  rewrite Hd, Hlt.
  assert (Hsj : truthy subj = true) by (destruct subj; [contradiction | reflexivity]).
  now rewrite Hsj.
Qed.

Lemma replaceRuns_units (f : N -> bool) (b : bool) (s : str) (c : N) :
  In c (replaceRuns f b s) -> c = sp \/ (f c = false /\ In c s).
Proof.
  revert b. induction s as [|x s IH]; intros b; cbn [replaceRuns]; [intros []|].
  destruct (f x) eqn:Ex.
  - destruct b; [|intros [<- | H]; [now left|]];
      (intros H || idtac); destruct (IH _ H) as [-> | [H1 H2]];
      [now left | right; split; [exact H1 | now right]
      | now left | right; split; [exact H1 | now right]].
  - intros [<- | H]; [right; split; [exact Ex | now left]|].
    destruct (IH _ H) as [-> | [H1 H2]]; [now left | right; split; [exact H1 | now right]].
Qed.

Lemma lineTerminator_white (c : N) : isLineTerminator c = true -> isWhite c = true.
Proof.
  unfold isLineTerminator, isWhite, inRange. intros H.
  repeat (apply orb_true_iff in H as [H | H]); apply N.eqb_eq in H; subst; reflexivity.
Qed.

Lemma collapsed_no_terminator (s : str) :
  forallb (fun u => negb (isLineTerminator u)) (trim (collapseSpaces s)) = true.
Proof.
  apply forallb_forall. intros c Hc. apply trim_In in Hc.
  apply replaceRuns_units in Hc as [-> | [Hw _]]; [reflexivity|].
  apply negb_true_iff. destruct (isLineTerminator c) eqn:E; [|reflexivity].
  apply lineTerminator_white in E. congruence.
Qed.

Lemma dropWhile_keeps_unit (f : N -> bool) (s : str) (c : N) :
  In c s -> f c = false -> In c (dropWhile f s).
Proof.
  induction s as [|x s IH]; [intros []|]. cbn [dropWhile]. intros [<- | H] Hc.
  - rewrite Hc. now left.
  - destruct (f x); [now apply IH | now right].
Qed.

Lemma dropEndWhile_keeps_unit (f : N -> bool) (s : str) (c : N) :
  In c s -> f c = false -> In c (dropEndWhile f s).
Proof.
  induction s as [|x s IH]; [intros []|]. cbn [dropEndWhile]. intros [<- | H] Hc.
  - destruct (dropEndWhile f s); [rewrite Hc|]; now left.
  - specialize (IH H Hc). destruct (dropEndWhile f s); [contradiction | now right].
Qed.

Lemma replaceRuns_keeps_unit (f : N -> bool) (b : bool) (s : str) (c : N) :
  In c s -> f c = false -> In c (replaceRuns f b s).
Proof.
  revert b. induction s as [|x s IH]; intros b; [intros []|]. cbn [replaceRuns].
  intros [<- | H] Hc.
  - rewrite Hc. now left.
  - destruct (f x); [destruct b|]; try right; now apply IH.
Qed.

Lemma clean_subject_nonempty (s : str) :
  existsb (fun c => negb (isWhite c)) s = true -> trim (collapseSpaces s) <> [].
Proof.
  intros H. apply existsb_exists in H as [c [Hc Hw]]. apply negb_true_iff in Hw.
  assert (Hin : In c (trim (collapseSpaces s))).
  { unfold trim, trimEnd, trimStart, collapseSpaces.
    apply dropEndWhile_keeps_unit; [|exact Hw].
    apply dropWhile_keeps_unit; [|exact Hw].
    now apply replaceRuns_keeps_unit. }
  intros E. now rewrite E in Hin.
Qed.

(** X9. the parser reads back what the formatter writes.  For a type made
    of a letter followed by word characters and hyphens, a scope that is not
    empty and holds no closing parenthesis, and a subject with a unit that
    is not white space, [parseCommitMessage] applied to the line written by
    [formatCommitLine] (which is also what [formatCommitMessage] writes when
    there are no body lines) returns the type, the scope and the subject
    with its white space collapsed and trimmed. *)
Theorem parseCommitMessage_formatCommitLine :
  forall typ scp subj : str,
    wellFormedType typ -> scp <> [] -> ~ In 41%N scp ->
    existsb (fun c => negb (isWhite c)) subj = true ->
    Output.formatCommitMessage typ scp subj [] = Output.formatCommitLine typ scp subj
    /\ Output.parseCommitMessage (Output.formatCommitLine typ scp subj)
       = Some {| Output.type := typ; Output.scope := Some scp;
                 Output.subject := trim (collapseSpaces subj) |}.
Proof.
  intros typ scp subj Ht Hs Hc Hw. split; [reflexivity|].
  unfold Output.formatCommitLine. apply parse_line; try assumption.
  - now apply clean_subject_nonempty.
  - apply trim_idem.
  - apply collapsed_no_terminator.
Qed.

Lemma parseCommitMessage_formatCommitLine_witness :
  Output.parseCommitMessage (Output.formatCommitLine (js "feat") (js "auth") (js " add   login "))
  = Some {| Output.type := js "feat"; Output.scope := Some (js "auth");
            Output.subject := js "add login" |}.
Proof.
  apply (proj2 (parseCommitMessage_formatCommitLine (js "feat") (js "auth")
                  (js " add   login ")
                  (ex_intro _ 102%N (ex_intro _ (js "eat")
                     (conj eq_refl (conj eq_refl eq_refl))))
                  ltac:(discriminate)
                  ltac:(cbn; intros H; repeat (destruct H as [H | H]; [discriminate|]); exact H)
                  eq_refl)).
Defined.

Lemma deriveType_wellFormed (diff : PreprocessResult) : wellFormedType (deriveType diff).
Proof.
  unfold deriveType. destruct (fold_left _ _ _) as [w total].
  repeat match goal with
         | |- wellFormedType (if ?c then _ else _) => destruct c
         end;
    eexists; eexists; repeat split; reflexivity.
Qed.

(** X10. in the copy of [src/preprocess.ts], the message that
    [generateFallbackMessage] writes is read back by [parseCommitMessage]
    (as [normalizeCommitMessage] does when the model returned nothing) into
    the derived type, the scope of the first file and the derived subject,
    provided the scope is not empty and holds no closing parenthesis and the
    subject is trimmed, not empty and free of line terminators. *)
Theorem parseCommitMessage_generateFallbackMessage :
  forall (l : Lang) (diff : PreprocessResult) (promptConfig : PromptConfig),
    let scp := match files diff with
               | topFile :: _ => deriveScope (path topFile)
               | [] => js "repo"
               end in
    let subj := deriveDetailedSubject l diff promptConfig in
    scp <> [] -> ~ In 41%N scp ->
    subj <> [] -> trim subj = subj ->
    forallb (fun u => negb (isLineTerminator u)) subj = true ->
    Output.parseCommitMessage (Output.generateFallbackMessage l diff promptConfig)
    = Some {| Output.type := deriveType diff; Output.scope := Some scp;
              Output.subject := subj |}.
Proof.
  intros l diff promptConfig scp subj H1 H2 H3 H4 H5.
  unfold Output.generateFallbackMessage. fold scp. fold subj.
  apply parse_line; try assumption. apply deriveType_wellFormed.
Qed.

Lemma parseCommitMessage_generateFallbackMessage_witness :
  Output.parseCommitMessage (Output.generateFallbackMessage en loginDiff defaultConfig)
  = Some {| Output.type := js "feat"; Output.scope := Some (js "src");
            Output.subject := js "typescript sources updated" |}.
Proof.
  apply (parseCommitMessage_generateFallbackMessage en loginDiff defaultConfig);
    try reflexivity; try discriminate.
  cbn. intros H; repeat (destruct H as [H | H]; [discriminate|]); exact H.
Defined.

(** ** The sample windows of the usage counters *)

Lemma sliceLast_short {A : Type} (n : nat) (xs : list A) :
  length xs <= n -> Analytics.sliceLast n xs = xs.
Proof.
  intros H. unfold Analytics.sliceLast.
  replace (length xs - n) with 0 by lia. reflexivity.
Qed.

Lemma sliceLast_length {A : Type} (n : nat) (xs : list A) :
  length (Analytics.sliceLast n xs) = Nat.min n (length xs).
Proof. unfold Analytics.sliceLast. rewrite length_skipn. lia. Qed.

(** Cutting to the last [n] before appending changes nothing once the
    result is cut again. *)
Lemma sliceLast_app {A : Type} (n : nat) (xs ys : list A) :
  Analytics.sliceLast n (Analytics.sliceLast n xs ++ ys) = Analytics.sliceLast n (xs ++ ys).
Proof.
  unfold Analytics.sliceLast.
  destruct (Nat.le_gt_cases (length xs) n) as [Hle | Hgt].
  - replace (length xs - n) with 0 by lia. reflexivity.
  - rewrite !length_app, length_skipn, !skipn_app, length_skipn, skipn_skipn.
    f_equal; f_equal; lia.
Qed.

Lemma recordLatency_fold {Number Renderers : Type}
    (samples : list Number) (state : Analytics.AnalyticsState Number Renderers) :
  let state' := fold_left Analytics.recordLatency samples state in
  Analytics.sliceLast 100 (Analytics.modelLatencyMs state')
  = Analytics.sliceLast 100 (Analytics.modelLatencyMs state ++ samples)
  /\ (samples <> [] -> length (Analytics.modelLatencyMs state') <= 100)
  /\ Analytics.downloadTimesMs state' = Analytics.downloadTimesMs state
  /\ Analytics.totalGenerated state' = Analytics.totalGenerated state
  /\ Analytics.commitAccepted state' = Analytics.commitAccepted state
  /\ Analytics.renderers state' = Analytics.renderers state.
Proof.
  revert state. induction samples as [|ms samples IH]; intros state; cbn [fold_left].
  - rewrite app_nil_r. repeat split. intros H. contradiction.
  - destruct (IH (Analytics.recordLatency state ms)) as [H1 [H2 [H3 [H4 [H5 H6]]]]].
    cbn [Analytics.recordLatency Analytics.modelLatencyMs Analytics.downloadTimesMs
         Analytics.totalGenerated Analytics.commitAccepted Analytics.renderers] in *.
    repeat split; try assumption.
    + rewrite H1, sliceLast_app, <- app_assoc. reflexivity.
    + intros _. destruct samples as [|ms' samples']; [|apply H2; discriminate].
      cbn [fold_left Analytics.modelLatencyMs Analytics.recordLatency].
      rewrite sliceLast_length. lia.
Qed.

Lemma recordDownloadTime_fold {Number Renderers : Type}
    (samples : list Number) (state : Analytics.AnalyticsState Number Renderers) :
  let state' := fold_left Analytics.recordDownloadTime samples state in
  Analytics.sliceLast 100 (Analytics.downloadTimesMs state')
  = Analytics.sliceLast 100 (Analytics.downloadTimesMs state ++ samples)
  /\ (samples <> [] -> length (Analytics.downloadTimesMs state') <= 100)
  /\ Analytics.modelLatencyMs state' = Analytics.modelLatencyMs state
  /\ Analytics.totalGenerated state' = Analytics.totalGenerated state
  /\ Analytics.commitAccepted state' = Analytics.commitAccepted state
  /\ Analytics.renderers state' = Analytics.renderers state.
Proof.
  revert state. induction samples as [|ms samples IH]; intros state; cbn [fold_left].
  - rewrite app_nil_r. repeat split. intros H. contradiction.
  - destruct (IH (Analytics.recordDownloadTime state ms)) as [H1 [H2 [H3 [H4 [H5 H6]]]]].
    cbn [Analytics.recordDownloadTime Analytics.modelLatencyMs Analytics.downloadTimesMs
         Analytics.totalGenerated Analytics.commitAccepted Analytics.renderers] in *.
    repeat split; try assumption.
    + rewrite H1, sliceLast_app, <- app_assoc. reflexivity.
    + intros _. destruct samples as [|ms' samples']; [|apply H2; discriminate].
      cbn [fold_left Analytics.downloadTimesMs Analytics.recordDownloadTime].
      rewrite sliceLast_length. lia.
Qed.

(** X11. the latency and download samples form a sliding window.  After one
    or more calls of [recordLatency] the stored list is exactly the last 100
    of the old samples followed by the new ones, in order, and no other
    field has changed; the same holds for [recordDownloadTime]. *)
Theorem record_samples_window :
  forall (Number Renderers : Type) (state : Analytics.AnalyticsState Number Renderers)
         (samples : list Number),
    samples <> [] ->
    (let state' := fold_left Analytics.recordLatency samples state in
     Analytics.modelLatencyMs state'
     = Analytics.sliceLast 100 (Analytics.modelLatencyMs state ++ samples)
     /\ Analytics.downloadTimesMs state' = Analytics.downloadTimesMs state
     /\ Analytics.totalGenerated state' = Analytics.totalGenerated state
     /\ Analytics.commitAccepted state' = Analytics.commitAccepted state
     /\ Analytics.renderers state' = Analytics.renderers state)
    /\ (let state' := fold_left Analytics.recordDownloadTime samples state in
        Analytics.downloadTimesMs state'
        = Analytics.sliceLast 100 (Analytics.downloadTimesMs state ++ samples)
        /\ Analytics.modelLatencyMs state' = Analytics.modelLatencyMs state
        /\ Analytics.totalGenerated state' = Analytics.totalGenerated state
        /\ Analytics.commitAccepted state' = Analytics.commitAccepted state
        /\ Analytics.renderers state' = Analytics.renderers state).
Proof.
  intros Number Renderers state samples Hne. split.
  - destruct (recordLatency_fold samples state) as [H1 [H2 [H3 [H4 [H5 H6]]]]].
    cbv zeta. repeat split; try assumption.
    rewrite <- H1. symmetry. apply sliceLast_short. now apply H2.
  - destruct (recordDownloadTime_fold samples state) as [H1 [H2 [H3 [H4 [H5 H6]]]]].
    cbv zeta. repeat split; try assumption.
    rewrite <- H1. symmetry. apply sliceLast_short. now apply H2.
Qed.

Lemma record_samples_window_witness :
  Analytics.modelLatencyMs
    (fold_left Analytics.recordLatency [7; 9]
       {| Analytics.totalGenerated := 2; Analytics.commitAccepted := 1;
          Analytics.modelLatencyMs := repeat 5 100; Analytics.downloadTimesMs := [];
          Analytics.renderers := tt |})
  = repeat 5 98 ++ [7; 9].
Proof.
  refine (eq_trans
            (proj1 (proj1 (record_samples_window nat unit _ [7; 9] _))) _);
    [discriminate | reflexivity].
Defined.

(** ** The model handed to the engine *)

Lemma getModelIds_In (model_list : list Models.ModelRecord) (i : str) :
  (forall r, In r model_list -> Models.model_id r <> None) ->
  In i (Models.getModelIds model_list) ->
  exists r, In r model_list /\ Models.model_id r = Some i.
Proof.
  intros Hall H. unfold Models.getModelIds in H. apply filter_In in H as [H _].
  apply in_map_iff in H as [r [E Hr]]. exists r. split; [exact Hr|].
  specialize (Hall r Hr). destruct (Models.model_id r); [now subst | contradiction].
Qed.

Lemma knownIds_truthy (i : str) : In i Models.knownIds -> truthy i = true.
Proof.
  unfold Models.knownIds. cbn [In]. intros [<- | [<- | [<- | []]]]; reflexivity.
Qed.

Lemma pickModelId_cases :
  forall (model_list : list Models.ModelRecord) (kind : Models.Kind),
    match Models.pickModelId model_list kind with
    | None => Models.getModelIds model_list = []
    | Some i =>
        In i (Models.getModelIds model_list)
        /\ (In (Models.modelIdOf kind) (Models.getModelIds model_list) ->
            i = Models.modelIdOf kind)
        /\ ((exists k, In k Models.knownIds /\ In k (Models.getModelIds model_list)) ->
            In i Models.knownIds)
    end.
Proof.
  intros model_list kind. unfold Models.pickModelId.
  destruct (Models.getModelIds model_list) as [|first rest] eqn:E; [reflexivity|].
  destruct (setHas (first :: rest) (Models.modelIdOf kind)) eqn:Hd.
  - apply setHas_In in Hd. repeat split; [exact Hd|].
    intros _. unfold Models.knownIds. destruct kind; cbn [In]; tauto.
  - assert (Hnd : ~ In (Models.modelIdOf kind) (first :: rest)).
    { intros H. apply setHas_In in H. congruence. }
    destruct (find _ (first :: rest)) as [fallback|] eqn:Hf.
    + apply find_some in Hf as [H1 H2]. apply setHas_In in H2.
      repeat split; [exact H1 | intros H; contradiction | intros _; exact H2].
    + repeat split; [now left | intros H; contradiction|].
      intros [k [Hk1 Hk2]]. exfalso.
      pose proof (find_none _ _ Hf k Hk2) as H. cbv beta in H.
      apply setHas_In in Hk1. congruence.
Qed.

(** X12. [pickModelId] fails exactly when no model id is listed; otherwise
    it returns a listed id, which is the id of the wanted kind whenever that
    one is listed and one of the three known ids whenever any of them is
    listed. *)
Theorem pickModelId_listed :
  forall (model_list : list Models.ModelRecord) (kind : Models.Kind),
    match Models.pickModelId model_list kind with
    | None => Models.getModelIds model_list = []
    | Some i =>
        In i (Models.getModelIds model_list)
        /\ (In (Models.modelIdOf kind) (Models.getModelIds model_list) ->
            i = Models.modelIdOf kind)
        /\ ((exists k, In k Models.knownIds /\ In k (Models.getModelIds model_list)) ->
            In i Models.knownIds)
    end.
Proof. exact pickModelId_cases. Qed.

(** X13. the picked model and the application configuration agree when one
    of the three known models is listed, and only then.  For records that
    carry their [model_id], the id returned by [pickModelId] is either a
    known id that [buildAppConfig] keeps in its [model_list], or an unknown
    id, and then the [model_list] of [buildAppConfig] is empty. *)
Theorem pickModelId_buildAppConfig :
  forall (model_list : list Models.ModelRecord) (kind : Models.Kind) (i : str),
    (forall r, In r model_list -> Models.model_id r <> None) ->
    Models.pickModelId model_list kind = Some i ->
    (In i Models.knownIds
     /\ exists r, In r (Models.buildAppConfig model_list) /\ Models.model_id r = Some i)
    \/ (~ In i Models.knownIds /\ Models.buildAppConfig model_list = []).
Proof.
  intros model_list kind i Hall Hpick.
  pose proof (pickModelId_cases model_list kind) as H. rewrite Hpick in H.
  destruct H as [Hin [_ Hknown]].
  destruct (setHas Models.knownIds i) eqn:Hk.
  - left. apply setHas_In in Hk. split; [exact Hk|].
    destruct (getModelIds_In _ _ Hall Hin) as [r [Hr E]]. exists r. split; [|exact E].
    unfold Models.buildAppConfig. apply filter_In. split; [exact Hr|].
    rewrite E. now apply setHas_In.
  - right. assert (Hni : ~ In i Models.knownIds).
    { intros H. apply setHas_In in H. congruence. }
    split; [exact Hni|].
    destruct (Models.buildAppConfig model_list) as [|r rest] eqn:E; [reflexivity|].
    exfalso. apply Hni, Hknown.
    assert (Hr : In r (Models.buildAppConfig model_list)) by (rewrite E; now left).
    unfold Models.buildAppConfig in Hr. apply filter_In in Hr as [Hr Hk'].
    destruct (Models.model_id r) as [k|] eqn:Ek; [|discriminate].
    apply setHas_In in Hk'. exists k. split; [exact Hk'|].
    unfold Models.getModelIds. apply filter_In. split.
    + apply in_map_iff. exists r. now rewrite Ek.
    + now apply knownIds_truthy.
Qed.

Lemma pickModelId_buildAppConfig_witness :
  (In (Models.modelIdOf Models.tiny) Models.knownIds
   /\ exists r,
        In r (Models.buildAppConfig
                [{| Models.model_id := Some (js "Llama-3-8B"); Models.modelId := None |};
                 {| Models.model_id := Some (Models.modelIdOf Models.tiny);
                    Models.modelId := None |}])
        /\ Models.model_id r = Some (Models.modelIdOf Models.tiny))
  \/ (~ In (Models.modelIdOf Models.tiny) Models.knownIds
      /\ Models.buildAppConfig
           [{| Models.model_id := Some (js "Llama-3-8B"); Models.modelId := None |};
            {| Models.model_id := Some (Models.modelIdOf Models.tiny);
               Models.modelId := None |}] = []).
Proof.
  apply (pickModelId_buildAppConfig _ Models.large).
  - intros r [<- | [<- | []]]; discriminate.
  - reflexivity.
Defined.

(** ** Repository ids *)

Lemma sextetOf_base64urlChar (s : N) : (s < 64)%N -> sextetOf (Git.base64urlChar s) = s.
Proof.
  intros H. unfold sextetOf, Git.base64urlChar, inRange.
  compareN; cbn [andb]; try lia; compareN; cbn [andb]; try lia; compareN; lia.
Qed.

Lemma base64url_step (a b c : N) (rest : list N) :
  (a < 256)%N -> (b < 256)%N -> (c < 256)%N ->
  fromBase64url (Git.base64url (a :: b :: c :: rest))
  = a :: b :: c :: fromBase64url (Git.base64url rest).
Proof.
  intros Ha Hb Hc. cbn [Git.base64url map app fromBase64url].
  rewrite !sextetOf_base64urlChar by divlia.
  f_equal; [divlia|]. f_equal; [divlia|]. f_equal. divlia.
Qed.

Lemma fromBase64url_base64url (n : nat) :
  forall bytes, length bytes <= n -> Forall (fun b => (b < 256)%N) bytes ->
                fromBase64url (Git.base64url bytes) = bytes.
Proof.
  induction n as [|n IH]; intros bytes Hlen Hall.
  - destruct bytes; [reflexivity | cbn in Hlen; lia].
  - destruct bytes as [|a [|b [|c rest]]]; [reflexivity| | |].
    + inversion Hall; subst. cbn [Git.base64url map fromBase64url].
      rewrite !sextetOf_base64urlChar by divlia. f_equal. divlia.
    + inversion Hall as [|? ? Ha Hall1]; subst. inversion Hall1; subst.
      cbn [Git.base64url map fromBase64url].
      rewrite !sextetOf_base64urlChar by divlia. f_equal; [divlia|]. f_equal. divlia.
    + inversion Hall as [|? ? Ha Hall1]; subst. inversion Hall1 as [|? ? Hb Hall2]; subst.
      inversion Hall2 as [|? ? Hc Hall3]; subst.
      rewrite base64url_step by assumption. do 3 f_equal.
      apply IH; [cbn [length] in Hlen; lia | exact Hall3].
Qed.

Lemma utf8Point_bytes (cp : N) :
  (cp < 1114112)%N -> Forall (fun b => (b < 256)%N) (Git.utf8Point cp).
Proof.
  intros H. unfold Git.utf8Point. compareN; repeat constructor; divlia.
Qed.

Lemma fromUtf8_point (cp : N) (rest : list N) :
  (cp < 1114112)%N ->
  fromUtf8 (Git.utf8Point cp ++ rest) = unitsOf cp ++ fromUtf8 rest.
Proof.
  intros H. unfold Git.utf8Point, unitsOf.
  destruct (N.ltb_spec cp 128) as [H1 | H1].
  - cbn [app fromUtf8]. destruct (N.ltb_spec cp 128); [|lia].
    destruct (N.ltb_spec cp 65536); [reflexivity | lia].
  - destruct (N.ltb_spec cp 2048) as [H2 | H2].
    + cbn [app fromUtf8].
      destruct (N.ltb_spec (192 + cp / 64) 128); [divlia|].
      destruct (N.ltb_spec (192 + cp / 64) 224); [|divlia].
      destruct (N.ltb_spec cp 65536); [|lia]. cbn [app]. f_equal. divlia.
    + destruct (N.ltb_spec cp 65536) as [H3 | H3].
      * cbn [app fromUtf8].
        destruct (N.ltb_spec (224 + cp / 4096) 128); [divlia|].
        destruct (N.ltb_spec (224 + cp / 4096) 224); [divlia|].
        destruct (N.ltb_spec (224 + cp / 4096) 240); [|divlia].
        cbn [app]. f_equal. divlia.
      * cbn [app fromUtf8].
        destruct (N.ltb_spec (240 + cp / 262144) 128); [divlia|].
        destruct (N.ltb_spec (240 + cp / 262144) 224); [divlia|].
        destruct (N.ltb_spec (240 + cp / 262144) 240); [divlia|].
        replace ((240 + cp / 262144 - 240) * 262144
                 + (128 + (cp / 4096) mod 64 - 128) * 4096
                 + (128 + (cp / 64) mod 64 - 128) * 64 + (128 + cp mod 64 - 128))%N
          with cp by divlia.
        unfold unitsOf. destruct (N.ltb_spec cp 65536); [lia | reflexivity].
Qed.

Lemma utf8_roundtrip (n : nat) :
  forall s, length s <= n -> wellFormed s = true ->
            fromUtf8 (Git.utf8 s) = s
            /\ Forall (fun b => (b < 256)%N) (Git.utf8 s).
Proof.
  induction n as [|n IH]; intros s Hlen Hwf.
  - destruct s; [split; [reflexivity | constructor] | cbn in Hlen; lia].
  - destruct s as [|c t]; [split; [reflexivity | constructor]|].
    cbn [wellFormed Git.utf8] in *. cbn [length] in Hlen.
    destruct (Git.isHighSurrogate c) eqn:Hh.
    + destruct t as [|d t']; [discriminate|].
      apply andb_true_iff in Hwf as [Hd Hwf]. rewrite Hd.
      cbn [length] in Hlen.
      destruct (IH t' ltac:(lia) Hwf) as [IH1 IH2].
      unfold Git.isHighSurrogate, Git.isLowSurrogate, inRange in Hh, Hd. boolN.
      assert (Hcp : (65536 + (c - 55296) * 1024 + (d - 56320) < 1114112)%N) by lia.
      split.
      * rewrite (fromUtf8_point _ _ Hcp), IH1. unfold unitsOf.
        destruct (N.ltb_spec (65536 + (c - 55296) * 1024 + (d - 56320)) 65536); [lia|].
        cbn [app]. f_equal; [divlia|]. f_equal. divlia.
      * apply Forall_app. split; [now apply utf8Point_bytes | exact IH2].
    + apply andb_true_iff in Hwf as [Hc Hwf]. apply andb_true_iff in Hc as [Hl Hc].
      apply negb_true_iff in Hl. rewrite Hl. apply N.ltb_lt in Hc.
      destruct (IH t ltac:(lia) Hwf) as [IH1 IH2].
      assert (Hcp : (c < 1114112)%N) by lia.
      split.
      * rewrite (fromUtf8_point _ _ Hcp), IH1. unfold unitsOf.
        destruct (N.ltb_spec c 65536); [reflexivity | lia].
      * apply Forall_app. split; [now apply utf8Point_bytes | exact IH2].
Qed.

Lemma toRepoId_inj (a b : str) :
  wellFormed a = true -> wellFormed b = true ->
  Git.toRepoId a = Git.toRepoId b -> a = b.
Proof.
  intros Ha Hb E. unfold Git.toRepoId in E.
  destruct (utf8_roundtrip (length a) a (le_n _) Ha) as [Ra Ba].
  destruct (utf8_roundtrip (length b) b (le_n _) Hb) as [Rb Bb].
  apply (f_equal fromBase64url) in E.
  rewrite (fromBase64url_base64url _ _ (le_n _) Ba) in E.
  rewrite (fromBase64url_base64url _ _ (le_n _) Bb) in E.
  rewrite <- Ra, <- Rb. now rewrite E.
Qed.

Lemma base64urlChar_alphabet (s : N) :
  (isAlnumI (Git.base64urlChar s) || N.eqb (Git.base64urlChar s) 45
   || N.eqb (Git.base64urlChar s) 95) = true.
Proof.
  unfold Git.base64urlChar.
  destruct (N.ltb_spec s 26); [|destruct (N.ltb_spec s 52);
    [|destruct (N.ltb_spec s 62); [|destruct (N.eqb_spec s 62)]]];
    try reflexivity;
    apply orb_true_iff; left; apply orb_true_iff; left;
    unfold isAlnumI, isAlnum, isLowerAZ, isUpperAZ, isDigit, inRange;
    compareN; cbn; try reflexivity; lia.
Qed.

Lemma base64url_alphabet (n : nat) :
  forall bytes, length bytes <= n ->
    forallb (fun c => isAlnumI c || N.eqb c 45 || N.eqb c 95) (Git.base64url bytes) = true.
Proof.
  induction n as [|n IH]; intros bytes Hlen.
  - destruct bytes; [reflexivity | cbn in Hlen; lia].
  - destruct bytes as [|a [|b [|c rest]]]; [reflexivity| | |];
      cbn [Git.base64url map app forallb]; rewrite ?base64urlChar_alphabet;
      cbn [andb]; [reflexivity | reflexivity|].
    apply IH. cbn [length] in Hlen. lia.
Qed.

(** X14. [toRepoId] gives different ids to different roots and writes them
    in the URL-safe alphabet.  Two well-formed JavaScript strings (no lone
    surrogates) with the same id are equal; every id consists of letters,
    digits, hyphens and underscores only.  Lone surrogates are all encoded
    as U+FFFD, so that strings that hold them can share an id. *)
Theorem toRepoId_injective :
  forall a b : str,
    (wellFormed a = true -> wellFormed b = true ->
     Git.toRepoId a = Git.toRepoId b -> a = b)
    /\ forallb (fun c => isAlnumI c || N.eqb c 45 || N.eqb c 95) (Git.toRepoId a) = true
    /\ Git.toRepoId [55296%N] = Git.toRepoId [65533%N].
Proof.
  intros a b. split; [apply toRepoId_inj|]. split; [|reflexivity].
  unfold Git.toRepoId. now apply (base64url_alphabet (length (Git.utf8 a))).
Qed.

(** ** The repository selected at start *)

Lemma utf8Point_nonempty (cp : N) : Git.utf8Point cp <> [].
Proof. unfold Git.utf8Point. compareN; discriminate. Qed.

Lemma toRepoId_truthy (r : str) : r <> [] -> truthy (Git.toRepoId r) = true.
Proof.
  intros Hr. unfold Git.toRepoId.
  assert (Hu : Git.utf8 r <> []).
  { destruct r as [|c t]; [contradiction|]. cbn [Git.utf8].
    destruct (Git.isHighSurrogate c);
      [destruct t as [|d t']; [apply utf8Point_nonempty|]; destruct (Git.isLowSurrogate d)
      | destruct (Git.isLowSurrogate c)];
      intros E; apply app_eq_nil in E as [E _]; now apply utf8Point_nonempty in E. }
  destruct (Git.utf8 r) as [|a [|b [|c rest]]]; [contradiction | | |]; reflexivity.
Qed.

Lemma discoverRepos_find_id (roots : list str) (staged : str -> bool) (r : Git.RepoInfo) :
  Forall (fun root => wellFormed root = true /\ root <> []) roots ->
  In r (Git.discoverRepos roots staged) ->
  find (fun item => eqb_str (Git.id item) (Git.id r)) (Git.discoverRepos roots staged)
  = Some r.
Proof.
  intros Hall Hr.
  destruct (find _ (Git.discoverRepos roots staged)) as [x|] eqn:Hf.
  - apply find_some in Hf as [Hx E]. apply eqb_str_eq in E.
    unfold Git.discoverRepos in Hx, Hr.
    apply in_map_iff in Hx as [rx [<- Hrx]]. apply in_map_iff in Hr as [rr [<- Hrr]].
    cbn [Git.id] in E. rewrite Forall_forall in Hall.
    assert (rx = rr)
      by (apply toRepoId_inj; [apply (Hall rx Hrx) | apply (Hall rr Hrr) | exact E]).
    now subst.
  - exfalso. pose proof (find_none _ _ Hf r Hr) as H. cbv beta in H.
    now rewrite eqb_str_refl in H.
Qed.

(** X15. at start the extension selects its default repository: for the
    repositories that [discoverRepos] lists for well-formed roots that are
    not empty, [sendInitialState] makes current the first repository with
    staged changes, or else the first repository, or none when there is
    none; looking the default up by its id finds it again. *)
Theorem sendInitialState_default :
  forall (roots : list str) (staged : str -> bool),
    Forall (fun root => wellFormed root = true /\ root <> []) roots ->
    let repos := Git.discoverRepos roots staged in
    Extension.sendInitialState repos
    = match find Git.hasStaged repos with
      | Some r => Some r
      | None => hd_error repos
      end.
Proof.
  intros roots staged Hall repos. unfold Extension.sendInitialState.
  set (defaultRepo := match find Git.hasStaged repos with
                      | Some r => Some r
                      | None => hd_error repos
                      end).
  assert (Hin : forall r, defaultRepo = Some r -> In r repos).
  { intros r. unfold defaultRepo. destruct (find Git.hasStaged repos) as [x|] eqn:Hf.
    - intros E. injection E as <-. now apply find_some in Hf.
    - destruct repos as [|x rest]; [discriminate|]. intros E. injection E as <-. now left. }
  destruct defaultRepo as [r|] eqn:Hd; cbn [option_map Extension.selectRepo].
  - specialize (Hin r eq_refl).
    assert (Ht : truthy (Git.id r) = true).
    { unfold repos, Git.discoverRepos in Hin. apply in_map_iff in Hin as [root [<- Hroot]].
      cbn [Git.id]. apply toRepoId_truthy. rewrite Forall_forall in Hall.
      apply (Hall root Hroot). }
    rewrite Ht. now apply discoverRepos_find_id.
  - unfold defaultRepo in Hd. destruct (find Git.hasStaged repos); [discriminate | reflexivity].
Qed.

Lemma sendInitialState_default_witness :
  option_map Git.root
    (Extension.sendInitialState
       (Git.discoverRepos [js "/work/app"; js "/work/lib"]
          (fun root => eqb_str root (js "/work/lib"))))
  = Some (js "/work/lib").
Proof.
  rewrite (sendInitialState_default [js "/work/app"; js "/work/lib"]
             (fun root => eqb_str root (js "/work/lib"))).
  - reflexivity.
  - repeat constructor; discriminate.
Defined.

(** ** Counts and provenance of the reconciled lines *)

Lemma scan_counts (lines : list str) (st : Preprocess.Scan) :
  Preprocess.nAdditions st = length (Preprocess.added st) ->
  Preprocess.nDeletions st = length (Preprocess.removed st) ->
  let st' := fold_left Preprocess.scanLine lines st in
  Preprocess.nAdditions st' = length (Preprocess.added st')
  /\ Preprocess.nDeletions st' = length (Preprocess.removed st').
Proof.
  revert st. induction lines as [|line lines IH]; intros st Ha Hd; [now split|].
  cbn [fold_left]. apply IH; unfold Preprocess.scanLine;
    repeat match goal with
           | |- context [if ?c then _ else _] => destruct c
           | |- context [match ?c with Some _ => _ | None => _ end] => destruct c
           end;
    cbn [Preprocess.nAdditions Preprocess.nDeletions Preprocess.added Preprocess.removed];
    rewrite ?length_app; cbn [length]; lia.
Qed.

Lemma mapSet_entries (m : Preprocess.LineMap) (k : str) (v : nat) :
  length (Preprocess.mapSet m k v) <= S (length m)
  /\ (forall x, In x (map fst (Preprocess.mapSet m k v)) -> x = k \/ In x (map fst m))
  /\ (In k (map fst m) -> length (Preprocess.mapSet m k v) = length m
                          /\ forall x, In x (map fst (Preprocess.mapSet m k v)) ->
                                       In x (map fst m)).
Proof.
  induction m as [|[k0 v0] m [IH1 [IH2 IH3]]]; cbn [Preprocess.mapSet].
  - split; [cbn; lia|]. split; [intros x [<- | []]; now left | intros []].
  - destruct (eqb_str k0 k) eqn:E.
    + apply eqb_str_eq in E. subst k0. cbn [length map fst In].
      split; [lia|]. split; [intros x [<- | H]; [now left | right; now right]|].
      intros _. split; [reflexivity | exact (fun x H => H)].
    + cbn [length map fst In]. split; [lia|]. split.
      * intros x [<- | H]; [right; now left|]. destruct (IH2 x H); [now left | right; now right].
      * intros [-> | H]; [now rewrite eqb_str_refl in E|].
        destruct (IH3 H) as [H1 H2]. split; [lia|].
        intros x [<- | Hx]; [now left | right; now apply H2].
Qed.

Lemma mapGet_key (m : Preprocess.LineMap) (k : str) (v : nat) :
  Preprocess.mapGet m k = Some v -> In k (map fst m).
Proof.
  induction m as [|[k0 v0] m IH]; cbn [Preprocess.mapGet]; [discriminate|].
  destruct (eqb_str k0 k) eqn:E.
  - apply eqb_str_eq in E. intros _. now left.
  - intros H. right. now apply IH.
Qed.

Lemma countRemoved_entries (removedLines : list str) (m : Preprocess.LineMap) :
  let m' := fold_left
              (fun m line =>
                 let key := Preprocess.normalizeLine line in
                 Preprocess.mapSet m key
                   (match Preprocess.mapGet m key with Some c => c | None => 0 end + 1))
              removedLines m in
  length m' <= length m + length removedLines
  /\ forall x, In x (map fst m') ->
               In x (map fst m) \/ In x (map Preprocess.normalizeLine removedLines).
Proof.
  revert m. induction removedLines as [|line rest IH]; intros m; cbn [fold_left].
  - split; [lia | tauto].
  - set (m1 := Preprocess.mapSet m _ _).
    destruct (IH m1) as [H1 H2]. cbv zeta in H1, H2.
    destruct (mapSet_entries m (Preprocess.normalizeLine line)
                (match Preprocess.mapGet m (Preprocess.normalizeLine line) with
                 | Some c => c | None => 0 end + 1)) as [L1 [L2 _]].
    fold m1 in L1, L2. split; [cbn [length]; lia|].
    intros x Hx. destruct (H2 x Hx) as [H | H].
    + destruct (L2 x H) as [-> | H']; [right; now left | now left].
    + right. now right.
Qed.

Lemma cancelAdded_entries (addedLines : list str) :
  forall m : Preprocess.LineMap,
    let (kept, m') := Preprocess.cancelAdded m addedLines in
    length kept <= length addedLines
    /\ incl kept addedLines
    /\ length m' = length m
    /\ (forall x, In x (map fst m') -> In x (map fst m))
    /\ (m = [] -> kept = addedLines /\ m' = []).
Proof.
  induction addedLines as [|line rest IH]; intros m; cbn [Preprocess.cancelAdded].
  - split; [lia|]. split; [apply incl_refl|]. split; [reflexivity|].
    split; [exact (fun x H => H) | now intros ->].
  - assert (Hkeep : forall (kept : list str) (m' : Preprocess.LineMap),
               length kept <= length rest /\ incl kept rest /\ length m' = length m
               /\ (forall x, In x (map fst m') -> In x (map fst m))
               /\ (m = [] -> kept = rest /\ m' = []) ->
               length (line :: kept) <= length (line :: rest)
               /\ incl (line :: kept) (line :: rest) /\ length m' = length m
               /\ (forall x, In x (map fst m') -> In x (map fst m))
               /\ (m = [] -> line :: kept = line :: rest /\ m' = [])).
    { intros kept m' [H1 [H2 [H3 [H4 H5]]]].
      split; [cbn [length]; lia|].
      split; [intros x [<- | Hx]; [now left | right; now apply H2]|].
      split; [exact H3|]. split; [exact H4|].
      intros Em. destruct (H5 Em) as [-> ->]. now split. }
    destruct (Preprocess.mapGet m (Preprocess.normalizeLine line)) as [[|c]|] eqn:E.
    + specialize (IH m). destruct (Preprocess.cancelAdded m rest) as [kept m'].
      now apply Hkeep.
    + specialize (IH (Preprocess.mapSet m (Preprocess.normalizeLine line) c)).
      destruct (Preprocess.cancelAdded _ rest) as [kept m'].
      destruct IH as [H1 [H2 [H3 [H4 H5]]]].
      destruct (mapSet_entries m (Preprocess.normalizeLine line) c) as [_ [_ L3]].
      destruct (L3 (mapGet_key _ _ _ E)) as [L4 L5].
      split; [cbn [length]; lia|]. split; [now apply incl_tl|].
      split; [lia|]. split; [intros x Hx; now apply L5, H4|].
      intros ->. discriminate.
    + specialize (IH m). destruct (Preprocess.cancelAdded m rest) as [kept m'].
      now apply Hkeep.
Qed.

(** X16. the counters and the lines of [parseDiffLines] agree.  [additions]
    and [deletions] are the numbers of added and removed lines collected;
    [cleanedLines] never holds more entries than their sum, and each entry is
    an added line as it stands or "-" followed by the normalized text of a
    removed line; when nothing was removed, [cleanedLines] is [addedLines]. *)
Theorem parseDiffLines_counts :
  forall block : str,
    let r := Preprocess.parseDiffLines block in
    Preprocess.additions r = length (Preprocess.addedLines r)
    /\ Preprocess.deletions r = length (Preprocess.removedLines r)
    /\ length (Preprocess.cleanedLines r) <= Preprocess.additions r + Preprocess.deletions r
    /\ Forall (fun line =>
                 In line (Preprocess.addedLines r)
                 \/ exists x, In x (Preprocess.removedLines r)
                              /\ line = js "-" ++ Preprocess.normalizeLine x)
              (Preprocess.cleanedLines r)
    /\ (Preprocess.removedLines r = [] ->
        Preprocess.cleanedLines r = Preprocess.addedLines r).
Proof.
  intros block r. unfold r, Preprocess.parseDiffLines.
  set (st := fold_left Preprocess.scanLine (split newline block) _).
  destruct (scan_counts (split newline block)
              {| Preprocess.nAdditions := 0; Preprocess.nDeletions := 0;
                 Preprocess.removed := []; Preprocess.added := [];
                 Preprocess.hunks := [] |} eq_refl eq_refl) as [Ha Hd].
  fold st in Ha, Hd.
  assert (C : length (Preprocess.countRemoved (Preprocess.removed st))
              <= length (Preprocess.removed st)
              /\ forall x, In x (map fst (Preprocess.countRemoved (Preprocess.removed st))) ->
                           In x (map Preprocess.normalizeLine (Preprocess.removed st))).
  { destruct (countRemoved_entries (Preprocess.removed st) []) as [C1 C2].
    split; [exact C1|]. intros x Hx. destruct (C2 x Hx) as [[] | H]. exact H. }
  destruct C as [C1 C2].
  pose proof (cancelAdded_entries (Preprocess.added st)
                (Preprocess.countRemoved (Preprocess.removed st))) as K.
  destruct (Preprocess.cancelAdded _ (Preprocess.added st)) as [kept left].
  destruct K as [K1 [K2 [K3 [K4 K5]]]].
  cbn [Preprocess.additions Preprocess.deletions Preprocess.cleanedLines
       Preprocess.addedLines Preprocess.removedLines].
  split; [exact Ha|]. split; [exact Hd|]. split; [|split].
  - rewrite length_app, length_map.
    apply Nat.add_le_mono; [rewrite Ha; exact K1|]. rewrite Hd.
    eapply Nat.le_trans; [apply filter_length_le|].
    eapply Nat.le_trans; [apply Nat.eq_le_incl; exact K3 | exact C1].
  - apply Forall_app. split.
    + apply Forall_forall. intros x Hx. left. now apply K2.
    + apply Forall_forall. intros x Hx. right.
      apply in_map_iff in Hx as [e [<- He]]. apply filter_In in He as [He _].
      assert (Hk : In (fst e) (map fst left)) by (now apply in_map).
      apply K4, C2 in Hk.
      apply in_map_iff in Hk as [y [Ey Hy]]. exists y. split; [exact Hy|].
      now rewrite Ey.
  - intros E. rewrite E in K5. destruct (K5 eq_refl) as [-> ->]. apply app_nil_r.
Qed.

(** ** The required tokens *)

Lemma dedupTokens_tokens (tokens : list str) :
  forall seen,
    (forall t, In t (dedupTokens seen tokens) ->
               In t tokens /\ 2 <= length t /\ ~ In (toLowerCase t) seen)
    /\ NoDup (dedupTokens seen tokens).
Proof.
  induction tokens as [|token rest IH]; intros seen; cbn [dedupTokens].
  - split; [intros t [] | constructor].
  - destruct (setHas seen (toLowerCase token)) eqn:Hs.
    + destruct (IH seen) as [H1 H2]. split; [|exact H2].
      intros t Ht. destruct (H1 t Ht) as [A [B C]]. repeat split; [now right | exact B | exact C].
    + assert (Hns : ~ In (toLowerCase token) seen)
        by (intros H; apply setHas_In in H; congruence).
      destruct (IH (setAdd seen (toLowerCase token))) as [H1 H2].
      assert (Hrest : forall t, In t (dedupTokens (setAdd seen (toLowerCase token)) rest) ->
                                In t (token :: rest) /\ 2 <= length t
                                /\ ~ In (toLowerCase t) seen).
      { intros t Ht. destruct (H1 t Ht) as [A [B C]].
        repeat split; [now right | exact B|]. intros H. apply C, setAdd_In. now left. }
      destruct (1 <? length token) eqn:Hl.
      * apply Nat.ltb_lt in Hl. split.
        -- intros t [<- | Ht]; [repeat split; [now left | lia | exact Hns] | now apply Hrest].
        -- constructor; [|exact H2]. intros Hin. destruct (H1 _ Hin) as [_ [_ C]].
           apply C, setAdd_In. now right.
      * split; [exact Hrest | exact H2].
Qed.

Lemma tokensOfFile_length (file : FileSummary) : length (tokensOfFile file) <= 6.
Proof.
  unfold tokensOfFile. rewrite !length_app.
  pose proof (filter_length_le truthy (firstn 2 (keywords file))).
  pose proof (filter_length_le truthy (firstn 2 (context file))).
  pose proof (firstn_le_length 2 (keywords file)).
  pose proof (firstn_le_length 2 (context file)).
  pose proof (length_firstn 2 (keywords file)).
  pose proof (length_firstn 2 (context file)).
  repeat match goal with
         | |- context [if ?c then _ else _] => destruct c
         end; cbn [length]; lia.
Qed.

Lemma dedupTokens_length (tokens seen : list str) :
  length (dedupTokens seen tokens) <= length tokens.
Proof.
  revert seen. induction tokens as [|t rest IH]; intros seen; cbn [dedupTokens]; [lia|].
  destruct (setHas seen (toLowerCase t)); [specialize (IH seen); cbn [length]; lia|].
  specialize (IH (setAdd seen (toLowerCase t))).
  destruct (1 <? length t); cbn [length]; lia.
Qed.

Lemma flat_map_bound {A B : Type} (f : A -> list B) (n : nat) (xs : list A) :
  (forall x, length (f x) <= n) -> length (flat_map f xs) <= n * length xs.
Proof.
  intros H. induction xs as [|x xs IH]; cbn [flat_map length]; [lia|].
  rewrite length_app. specialize (H x). lia.
Qed.

(** X17. the tokens that the subject must name.  [buildRequiredTokens]
    returns tokens that are pairwise different and longer than one unit; each
    is the basename, one of the first two keywords, one of the first two
    context labels or the top directory of one of the files, and there are
    at most six per file, hence at most 18 for the three files that
    [generateCommitMessage] passes. *)
Theorem buildRequiredTokens_tokens :
  forall fs : list FileSummary,
    let tokens := buildRequiredTokens fs in
    NoDup tokens
    /\ Forall (fun t => 2 <= length t /\ exists f, In f fs /\ In t (tokensOfFile f)) tokens
    /\ length tokens <= 6 * length fs
    /\ forall diff : PreprocessResult, length (requiredTokens diff) <= 18.
Proof.
  intros fs tokens. unfold tokens, buildRequiredTokens.
  destruct (dedupTokens_tokens (flat_map tokensOfFile fs) []) as [H1 H2].
  split; [exact H2|]. split; [|split].
  - apply Forall_forall. intros t Ht. destruct (H1 t Ht) as [A [B _]].
    split; [exact B|]. apply in_flat_map in A as [f [Hf Hin]]. now exists f.
  - pose proof (dedupTokens_length (flat_map tokensOfFile fs) []).
    pose proof (flat_map_bound tokensOfFile 6 fs tokensOfFile_length). lia.
  - intros diff. unfold requiredTokens, buildRequiredTokens.
    pose proof (dedupTokens_length
                  (flat_map tokensOfFile (firstn 3 (rankFiles (files diff)))) []).
    pose proof (flat_map_bound tokensOfFile 6 (firstn 3 (rankFiles (files diff)))
                  tokensOfFile_length).
    pose proof (firstn_le_length 3 (rankFiles (files diff))). lia.
Qed.

(** ** The keywords of a file *)

Lemma addKeyword_invariant (st : Summary.Keywords) (value : option str) :
  keywordsInvariant st ->
  keywordsInvariant (Summary.addKeyword st value)
  /\ length (Summary.found (Summary.addKeyword st value)) <= S (length (Summary.found st)).
Proof.
  intros [Hnd [Hseen Hall]]. unfold Summary.addKeyword.
  destruct value as [v|]; [|split; [now repeat split | lia]].
  destruct (truthy v); cbn [negb]; [|split; [now repeat split | lia]].
  destruct (truthy (trim v)) eqn:Ht; cbn [negb]; [|split; [now repeat split | lia]].
  destruct (setHas (Summary.seenKeys st) (toLowerCase (trim v))) eqn:Hs;
    [split; [now repeat split | lia]|].
  cbn [Summary.found Summary.seenKeys]. split.
  - split; [|split].
    + apply NoDup_app; [exact Hnd | constructor; [intros [] | constructor] |].
      intros x Hx [<- | []]. apply Hseen in Hx. apply setHas_In in Hx. congruence.
    + intros x Hx. apply setAdd_In. apply in_app_or in Hx as [Hx | [<- | []]];
        [left; now apply Hseen | now right].
    + apply Forall_app. split; [exact Hall|]. constructor; [|constructor].
      split; [now apply trim_truthy_nonempty | apply trim_idem].
  - rewrite length_app. cbn [length]. lia.
Qed.

Lemma addUntilThree_staged (values : list (option str)) :
  forall st, staged (st, false) -> staged (Summary.addUntilThree values st).
Proof.
  induction values as [|v more IH]; intros st [Hinv Hlen]; cbn [Summary.addUntilThree].
  - now split.
  - cbn [fst snd] in Hinv, Hlen.
    destruct (addKeyword_invariant st v Hinv) as [Hinv' Hlen'].
    destruct (3 <=? length (Summary.found (Summary.addKeyword st v))) eqn:E.
    + split; [exact Hinv'|]. cbn [fst snd]. lia.
    + apply IH. apply Nat.leb_gt in E. now split.
Qed.

Lemma overPatterns_staged (patterns : list (Regex.Flags * Regex.re)) (joined : str) :
  forall st, staged (st, false) -> staged (Summary.overPatterns patterns joined st).
Proof.
  induction patterns as [|[fl r] more IH]; intros st H; cbn [Summary.overPatterns].
  - exact H.
  - pose proof (addUntilThree_staged
                  (map (fun m => Regex.capture (Regex.groups m) 1)
                       (Regex.matchAll fl r joined)) st H) as H'.
    destruct (Summary.addUntilThree _ st) as [st' returned].
    destruct returned; [exact H' | now apply IH].
Qed.

Lemma staged_found (st : Summary.Keywords) (returned : bool) :
  staged (st, returned) ->
  length (Summary.found st) <= 3 /\ NoDup (Summary.found st)
  /\ Forall (fun k => k <> [] /\ trim k = k) (Summary.found st).
Proof.
  intros [[Hnd [_ Hall]] Hlen]. cbn [fst snd] in *.
  split; [destruct returned; lia | now split].
Qed.

Lemma extractKeywords_staged (filePath : str) (addedLines removedLines : list str) :
  let keywords := Summary.extractKeywords filePath addedLines removedLines in
  length keywords <= 3 /\ NoDup keywords
  /\ Forall (fun k => k <> [] /\ trim k = k) keywords.
Proof.
  cbv zeta. unfold Summary.extractKeywords.
  destruct (filter truthy (map trim (addedLines ++ removedLines))) as [|line0 lines0];
    [split; [cbn; lia | split; constructor]|].
  set (joined := join [newline] _).
  set (st0 := {| Summary.found := []; Summary.seenKeys := [] |}).
  assert (H0 : staged (st0, false)).
  { split; [|cbn; lia]. split; [constructor | split; [intros x [] | constructor]]. }
  set (stage1 := if Summary.isStylesheet _ then _ else (st0, false)).
  assert (H1 : staged stage1).
  { unfold stage1. destruct (Summary.isStylesheet _); [|exact H0].
    pose proof (addUntilThree_staged
                  (map (fun m => Some (Regex.text m))
                       (Regex.matchAll Regex.noFlags Summary.selector joined)) st0 H0) as H.
    destruct (Summary.addUntilThree _ st0) as [st returned].
    destruct returned; [exact H | now apply addUntilThree_staged]. }
  clearbody stage1. destruct stage1 as [st1 [|]]; [now apply (staged_found st1 true)|].
  set (stage2 := match Summary.detectLang filePath with
                 | Some Summary.langTs | Some Summary.langJs => _
                 | _ => (st1, false)
                 end).
  assert (H2 : staged stage2).
  { unfold stage2. destruct (Summary.detectLang filePath) as [[| | | | | |]|];
      try exact H1; now apply overPatterns_staged. }
  clearbody stage2. destruct stage2 as [st2 [|]]; [now apply (staged_found st2 true)|].
  set (stage3 := match Summary.detectLang filePath with
                 | Some Summary.langCpp | Some Summary.langC => _
                 | _ => (st2, false)
                 end).
  assert (H3 : staged stage3).
  { unfold stage3. destruct (Summary.detectLang filePath) as [[| | | | | |]|];
      try exact H2; now apply overPatterns_staged. }
  clearbody stage3. destruct stage3 as [st3 [|]]; [now apply (staged_found st3 true)|].
  set (stage4 := match Summary.detectLang filePath with
                 | Some Summary.langCmake => _
                 | _ => (st3, false)
                 end).
  assert (H4 : staged stage4).
  { unfold stage4. destruct (Summary.detectLang filePath) as [[| | | | | |]|];
      try exact H3; now apply overPatterns_staged. }
  clearbody stage4. destruct stage4 as [st4 [|]]; [now apply (staged_found st4 true)|].
  destruct (staged_found st4 false H4) as [_ [Hnd Hall]].
  split; [apply firstn_le_length|]. split; [now apply NoDup_firstn | now apply Forall_firstn].
Qed.

(** X18. the keywords of a file.  [extractKeywords] returns at most three
    keywords, whatever the language and however many declarations the
    changed lines hold; no two are equal, each is trimmed and not empty,
    and there is none when no changed line holds text. *)
Theorem extractKeywords_keywords :
  forall (filePath : str) (addedLines removedLines : list str),
    let keywords := Summary.extractKeywords filePath addedLines removedLines in
    length keywords <= 3
    /\ NoDup keywords
    /\ Forall (fun k => k <> [] /\ trim k = k) keywords
    /\ (filter truthy (map trim (addedLines ++ removedLines)) = [] -> keywords = []).
Proof.
  intros filePath addedLines removedLines keywords.
  destruct (extractKeywords_staged filePath addedLines removedLines) as [H1 [H2 H3]].
  repeat split; try assumption.
  intros E. unfold keywords, Summary.extractKeywords. now rewrite E.
Qed.

(** ** The highlights of a file *)

Lemma addHighlight_invariant (hs : list str) (value : option str) :
  NoDup hs /\ Forall (fun h => h <> []) hs ->
  NoDup (Summary.addHighlight hs value)
  /\ Forall (fun h => h <> []) (Summary.addHighlight hs value).
Proof.
  intros [Hnd Hall]. unfold Summary.addHighlight. destruct value as [v|]; [|now split].
  destruct (truthy v) eqn:Ht; cbn [negb orb]; [|now split].
  destruct (setHas hs v) eqn:Hs; [now split|]. split.
  - apply NoDup_app; [exact Hnd | constructor; [intros [] | constructor] |].
    intros x Hx [<- | []]. apply setHas_In in Hx. congruence.
  - apply Forall_app. split; [exact Hall|]. constructor; [|constructor].
    now apply trim_truthy_nonempty.
Qed.

Lemma addHighlight_fold (values : list (option str)) :
  forall hs, NoDup hs /\ Forall (fun h => h <> []) hs ->
             NoDup (fold_left Summary.addHighlight values hs)
             /\ Forall (fun h => h <> []) (fold_left Summary.addHighlight values hs).
Proof.
  induction values as [|v more IH]; intros hs H; [exact H|].
  cbn [fold_left]. now apply IH, addHighlight_invariant.
Qed.

Lemma computeHighlights_invariant (filePath : str) (cleanedLines : list str)
    (changeType : ChangeType) :
  let hs := Summary.computeHighlights filePath cleanedLines changeType in
  length hs <= 3 /\ NoDup hs /\ Forall (fun h => h <> []) hs
  /\ (cleanedLines <> [] -> hs <> []).
Proof.
  cbv zeta. unfold Summary.computeHighlights.
  set (hs3 := Summary.addHighlight _ (Summary.changeHint changeType)).
  assert (H3 : NoDup hs3 /\ Forall (fun h => h <> []) hs3).
  { apply addHighlight_invariant, addHighlight_fold, addHighlight_fold.
    split; constructor. }
  clearbody hs3.
  set (update := if truthy (Preprocess.basename filePath)
                 then js "update " ++ Preprocess.basename filePath else js "update file").
  assert (Hu : truthy update = true) by (unfold update; destruct (truthy _); reflexivity).
  set (hs4 := if (length hs3 =? 0) && (0 <? length cleanedLines)
              then Summary.addHighlight hs3 (Some update) else hs3).
  assert (H4 : NoDup hs4 /\ Forall (fun h => h <> []) hs4)
    by (unfold hs4; destruct (_ && _); [now apply addHighlight_invariant | exact H3]).
  assert (Hne : cleanedLines <> [] -> hs4 <> []).
  { intros Hc. unfold hs4. destruct hs3 as [|h hs3'].
    - destruct cleanedLines as [|c cs]; [contradiction|].
      cbn [length Nat.eqb Nat.ltb Nat.leb andb]. unfold Summary.addHighlight.
      rewrite Hu. cbn. discriminate.
    - cbn [length Nat.eqb andb]. discriminate. }
  clearbody hs4. destruct H4 as [Hnd Hall].
  split; [apply firstn_le_length|]. split; [now apply NoDup_firstn|].
  split; [now apply Forall_firstn|].
  intros Hc. specialize (Hne Hc). destruct hs4; [contradiction | discriminate].
Qed.

(** X19. the highlights of a file.  [computeHighlights] returns at most three
    highlights; no two are equal and none is empty; and there is at least
    one whenever the file has a reconciled line, since "update <basename>"
    is added when no rule applies. *)
Theorem computeHighlights_highlights :
  forall (filePath : str) (cleanedLines : list str) (changeType : ChangeType),
    let hs := Summary.computeHighlights filePath cleanedLines changeType in
    length hs <= 3 /\ NoDup hs /\ Forall (fun h => h <> []) hs
    /\ (cleanedLines <> [] -> hs <> []).
Proof. intros. apply computeHighlights_invariant. Qed.

Lemma computeHighlights_highlights_witness :
  Summary.computeHighlights (js "LICENSE") [js "+MIT"] modified <> [].
Proof.
  apply (computeHighlights_highlights (js "LICENSE") [js "+MIT"] modified). discriminate.
Defined.

(** ** The context labels of a file *)

Lemma firstLabel_truthy (patterns : list (Regex.Flags * Regex.re)) (line label : str) :
  Summary.firstLabel patterns line = Some label -> label <> [].
Proof.
  induction patterns as [|[fl r] more IH]; cbn [Summary.firstLabel]; [discriminate|].
  destruct (Regex.group (Regex.exec fl r line) 1) as [l|]; [|exact IH].
  destruct (truthy l) eqn:Ht; [|exact IH]. intros E. injection E as <-.
  now apply trim_truthy_nonempty.
Qed.

Lemma findNearestLabel_truthy (lines : list str) (count : nat)
    (patterns : list (Regex.Flags * Regex.re)) (label : str) :
  Summary.findNearestLabel lines count patterns = Some label -> label <> [].
Proof.
  induction count as [|i IH]; cbn [Summary.findNearestLabel]; [discriminate|].
  destruct (Summary.firstLabel patterns _) as [l|] eqn:E; [|exact IH].
  intros H. injection H as <-. now apply (firstLabel_truthy _ _ _ E).
Qed.

Lemma findContextLabels_invariant (readFile : str -> str -> option str)
    (root filePath : str) (hunkStarts : list nat) :
  let labels := Summary.findContextLabels readFile root filePath hunkStarts in
  length labels <= 4 /\ NoDup labels /\ Forall (fun l => l <> []) labels
  /\ (Summary.detectLang filePath = None \/ readFile root filePath = None -> labels = []).
Proof.
  cbv zeta. unfold Summary.findContextLabels.
  destruct (Summary.detectLang filePath) as [l|];
    [|split; [cbn; lia | split; [constructor | split; [constructor | reflexivity]]]].
  destruct (readFile root filePath) as [content|];
    [|split; [cbn; lia | split; [constructor | split; [constructor | reflexivity]]]].
  set (lines := Summary.splitLines content).
  assert (H : forall starts labels,
             NoDup labels /\ Forall (fun l => l <> []) labels ->
             NoDup (fold_left
                      (fun labels start =>
                         match Summary.findNearestLabel lines start
                                 (Summary.contextPatterns l) with
                         | Some label => setAdd labels label
                         | None => labels
                         end) starts labels)
             /\ Forall (fun l => l <> [])
                  (fold_left
                     (fun labels start =>
                        match Summary.findNearestLabel lines start
                                (Summary.contextPatterns l) with
                        | Some label => setAdd labels label
                        | None => labels
                        end) starts labels)).
  { induction starts as [|start more IH]; intros labels Hl; [exact Hl|].
    cbn [fold_left]. apply IH. destruct Hl as [Hnd Hall].
    destruct (Summary.findNearestLabel lines start _) as [label|] eqn:E; [|now split].
    split; [now apply setAdd_NoDup|].
    apply Forall_forall. intros x Hx. apply setAdd_In in Hx as [Hx | ->].
    - rewrite Forall_forall in Hall. now apply Hall.
    - now apply (findNearestLabel_truthy _ _ _ _ E). }
  destruct (H hunkStarts [] (conj (NoDup_nil _) (Forall_nil _))) as [Hnd Hall].
  split; [apply firstn_le_length|]. split; [now apply NoDup_firstn|].
  split; [now apply Forall_firstn|]. intros [E | E]; discriminate.
Qed.

(** X20. the context labels of a file.  [findContextLabels] returns at most
    four labels, pairwise different and none empty; it returns none when the
    language of the file is not known or the file cannot be read. *)
Theorem findContextLabels_labels :
  forall (readFile : str -> str -> option str) (root filePath : str)
         (hunkStarts : list nat),
    let labels := Summary.findContextLabels readFile root filePath hunkStarts in
    length labels <= 4 /\ NoDup labels /\ Forall (fun l => l <> []) labels
    /\ (Summary.detectLang filePath = None \/ readFile root filePath = None -> labels = []).
Proof. intros. apply findContextLabels_invariant. Qed.

Lemma findContextLabels_labels_witness :
  Summary.findContextLabels (fun _ _ => None) (js "/repo") (js "src/a.ts") [3] = [].
Proof.
  apply (findContextLabels_labels (fun _ _ => None) (js "/repo") (js "src/a.ts") [3]).
  now right.
Defined.

(** ** The whole diff *)

Lemma blockPath_trimmed (block : str) : trim (Summary.blockPath block) = Summary.blockPath block.
Proof.
  unfold Summary.blockPath.
  assert (H : forall o : option str,
             trim match o with
                  | Some q => if truthy q then trim q else []
                  | None => []
                  end
             = match o with
               | Some q => if truthy q then trim q else []
               | None => []
               end).
  { intros [q|]; [destruct (truthy q); [apply trim_idem | reflexivity] | reflexivity]. }
  destruct (Regex.group _ 1) as [p|]; [destruct (truthy p); [apply trim_idem|]|]; apply H.
Qed.

Lemma computeWeight_positive (filePath : str) (cleanedLines : list str) :
  1 <= Summary.computeWeight filePath cleanedLines.
Proof.
  unfold Summary.computeWeight. destruct (Summary.detectLang filePath); [|lia].
  apply Nat.le_max_r.
Qed.

Lemma summarizeFileBlock_summary (readFile : str -> str -> option str)
    (root block : str) (f : FileSummary) :
  Summary.summarizeFileBlock readFile root block = Some f ->
  path f = Summary.blockPath block
  /\ path f <> [] /\ trim (path f) = path f
  /\ 1 <= weight f
  /\ length (highlights f) <= 3 /\ NoDup (highlights f)
  /\ length (keywords f) <= 3 /\ NoDup (keywords f)
  /\ length (context f) <= 4 /\ NoDup (context f).
Proof.
  unfold Summary.summarizeFileBlock.
  destruct (truthy (Summary.blockPath block)) eqn:Hp; cbn [negb]; [|discriminate].
  pose proof (trim_truthy_nonempty _ Hp) as Hne.
  pose proof (blockPath_trimmed block) as Htrim.
  destruct (extractKeywords_staged (Summary.blockPath block)
              (Preprocess.addedLines (Preprocess.parseDiffLines block))
              (Preprocess.removedLines (Preprocess.parseDiffLines block)))
    as [K1 [K2 _]].
  destruct (findContextLabels_invariant readFile root (Summary.blockPath block)
              (Preprocess.hunkStarts (Preprocess.parseDiffLines block)))
    as [L1 [L2 _]].
  pose proof (computeWeight_positive (Summary.blockPath block)
                (Preprocess.cleanedLines (Preprocess.parseDiffLines block))) as W.
  assert (Hh : forall t,
             length (Summary.computeHighlights (Summary.blockPath block)
                       (Preprocess.cleanedLines (Preprocess.parseDiffLines block)) t) <= 3
             /\ NoDup (Summary.computeHighlights (Summary.blockPath block)
                         (Preprocess.cleanedLines (Preprocess.parseDiffLines block)) t)).
  { intros t.
    destruct (computeHighlights_invariant (Summary.blockPath block)
                (Preprocess.cleanedLines (Preprocess.parseDiffLines block)) t)
      as [H1 [H2 _]]. now split. }
  destruct (Summary.detectChangeType block) eqn:Ht; intros E; injection E as <-;
    cbn [path weight highlights keywords context];
    try (destruct (Hh (Summary.detectChangeType block)) as [H1 H2]; rewrite Ht in H1, H2;
         repeat split; assumption).
  repeat split; try assumption; try (cbn; lia); try constructor.
  - intros [].
  - constructor.
Qed.

Lemma list_sum_one (n : nat) : list_sum [n] = n.
Proof. cbn. lia. Qed.

Lemma sameLang_name (a b : Summary.SourceLang) :
  sameLang a b = if str_eq_dec (Summary.langName b) (Summary.langName a) then true else false.
Proof.
  unfold sameLang. destruct (str_eq_dec _ _) as [E | E].
  - rewrite E. apply eqb_str_refl.
  - apply eqb_str_neq. congruence.
Qed.

Lemma addBlock_invariant (readFile : str -> str -> option str) (root block : str)
    (acc : Summary.Totals) :
  totalsInvariant acc -> totalsInvariant (Summary.addBlock readFile root acc block).
Proof.
  intros (Ha & Hr & Hall & Hnd & Hsig & Hkey). unfold Summary.addBlock.
  destruct (Summary.summarizeFileBlock readFile root block) as [f|] eqn:E;
    [|now repeat split].
  destruct (Summary.isLockfile (Preprocess.basename (path f))) eqn:Hlock;
    [now repeat split|].
  destruct (summarizeFileBlock_summary _ _ _ _ E) as (_ & P1 & P2 & P3 & P4 & P5 & P6 & P7 & P8 & P9).
  unfold totalsInvariant.
  cbn [Summary.added Summary.removed Summary.summaries Summary.signals].
  rewrite !map_app, !list_sum_app. cbn [map]. rewrite !list_sum_one.
  split; [now rewrite Ha|]. split; [now rewrite Hr|].
  split; [apply Forall_app; split; [exact Hall | constructor; [|constructor]];
          unfold wellSummarized; repeat split; assumption|].
  assert (Hold : forall key,
             (exists g, In g (Summary.summaries acc)
                        /\ option_map Summary.langName (Summary.detectLang (path g)) = Some key) ->
             exists g, In g (Summary.summaries acc ++ [f])
                       /\ option_map Summary.langName (Summary.detectLang (path g)) = Some key).
  { intros key [g [Hg Hk]]. exists g. split; [apply in_or_app; now left | exact Hk]. }
  destruct (Summary.detectLang (path f)) as [lf|] eqn:Hl.
  - split; [now apply mapSet_keys|]. split.
    + intros l. rewrite getCount_mapSet. unfold filesOf. rewrite filter_app.
      cbn [filter]. rewrite Hl, sameLang_name.
      fold (getCount (Summary.signals acc) (Summary.langName lf)).
      destruct (str_eq_dec (Summary.langName lf) (Summary.langName l)) as [El | El].
      * rewrite map_app, list_sum_app. cbn [map]. rewrite list_sum_one.
        rewrite El. now rewrite Hsig.
      * rewrite app_nil_r. apply Hsig.
    + intros key Hin.
      destruct (str_eq_dec key (Summary.langName lf)) as [-> | Hne].
      * exists f. split; [apply in_or_app; right; now left | now rewrite Hl].
      * apply Hold, Hkey.
        destruct (mapSet_entries (Summary.signals acc) (Summary.langName lf)
                    (match Preprocess.mapGet (Summary.signals acc)
                             (Summary.langName lf) with
                     | Some w => w
                     | None => 0
                     end + weight f)) as [_ [Hin' _]].
        destruct (Hin' key Hin) as [Hk | Hk]; [contradiction | exact Hk].
  - split; [exact Hnd|]. split.
    + intros l. unfold filesOf. rewrite filter_app. cbn [filter]. rewrite Hl, app_nil_r.
      apply Hsig.
    + intros key Hin. now apply Hold, Hkey.
Qed.

Lemma fold_addBlock_invariant (readFile : str -> str -> option str) (root : str)
    (blocks : list str) :
  forall acc, totalsInvariant acc ->
              totalsInvariant (fold_left (Summary.addBlock readFile root) blocks acc).
Proof.
  induction blocks as [|b more IH]; intros acc H; [exact H|].
  cbn [fold_left]. now apply IH, addBlock_invariant.
Qed.

Lemma preprocessDiff_invariant (readFile : str -> str -> option str)
    (root diff : str) (maxChars : nat) :
  totalsInvariant
    (fold_left (Summary.addBlock readFile root) (Summary.fileBlocks diff)
       {| Summary.summaries := []; Summary.locks := []; Summary.signals := [];
          Summary.added := 0; Summary.removed := 0 |}).
Proof.
  apply fold_addBlock_invariant. unfold totalsInvariant. cbn.
  repeat split; try constructor. intros key [].
Qed.

(** X21. the totals of a diff.  In the result of [preprocessDiff] the total
    additions and deletions are the sums over the listed files, so the
    lines of lockfiles and of blocks without a path are not counted; and
    the signal of each language is the sum of the weights of the listed
    files of that language, every key of the signals being the language of
    a listed file. *)
Theorem preprocessDiff_totals :
  forall (readFile : str -> str -> option str) (root diff : str) (maxChars : nat),
    let r := Summary.preprocessDiff readFile root diff maxChars in
    totalAdditions r = list_sum (map additions (files r))
    /\ totalDeletions r = list_sum (map deletions (files r))
    /\ NoDup (map fst (languageSignals r))
    /\ (forall l, getCount (languageSignals r) (Summary.langName l)
                  = list_sum (map weight (filesOf l (files r))))
    /\ (forall key, In key (map fst (languageSignals r)) ->
                    exists f, In f (files r)
                              /\ option_map Summary.langName (Summary.detectLang (path f))
                                 = Some key).
Proof.
  intros readFile root diff maxChars r.
  destruct (preprocessDiff_invariant readFile root diff maxChars)
    as (Ha & Hr & _ & Hnd & Hsig & Hkey).
  unfold r, Summary.preprocessDiff.
  cbn [totalAdditions totalDeletions files languageSignals].
  repeat split; assumption.
Qed.

(** X22. the files of a diff.  Every file that [preprocessDiff] lists has a
    path that is trimmed and not empty and is not a lockfile; its weight is
    at least one; it carries at most three highlights, three keywords and
    four context labels, each list without repetition. *)
Theorem preprocessDiff_files :
  forall (readFile : str -> str -> option str) (root diff : str) (maxChars : nat),
    Forall wellSummarized (files (Summary.preprocessDiff readFile root diff maxChars)).
Proof.
  intros readFile root diff maxChars.
  destruct (preprocessDiff_invariant readFile root diff maxChars)
    as (_ & _ & Hall & _).
  exact Hall.
Qed.

(** ** Blocks without a path *)

Lemma run_lit (fl : Regex.Flags) (text : str) :
  Regex.ignoreCase fl = false ->
  forall p cs k res,
    Regex.run fl (Regex.lit text) p cs k = Some res ->
    startsWith text (Regex.rest p) = true /\ exists p', k p' cs = Some res.
Proof.
  intros Hi. unfold Regex.lit.
  assert (Hunit : forall c p cs k res,
             Regex.run fl (Regex.Unit c) p cs k = Some res ->
             exists t, Regex.rest p = c :: t
                       /\ k {| Regex.before := Some c; Regex.rest := t |} cs = Some res).
  { intros c p cs k res. unfold Regex.Unit. cbn [Regex.run].
    destruct (Regex.rest p) as [|c' t]; [discriminate|].
    unfold Regex.inClass. rewrite Hi. cbn [andb]. rewrite orb_false_r.
    destruct (N.eqb c c') eqn:E; [|discriminate]. apply N.eqb_eq in E. subst c'.
    intros H. now exists t. }
  induction text as [|c more IH]; intros p cs k res.
  - cbn. intros H. split; [now destruct (Regex.rest p) | now exists p].
  - destruct more as [|c2 more'].
    + cbn [map Regex.seq]. intros H. apply Hunit in H as [t [E H]]. rewrite E.
      cbn [startsWith]. rewrite N.eqb_refl. split; [now destruct t | eauto].
    + change (Regex.seq (map Regex.Unit (c :: c2 :: more')))
        with (Regex.Seq (Regex.Unit c) (Regex.seq (map Regex.Unit (c2 :: more')))).
      cbn [Regex.run]. intros H. apply Hunit in H as [t [E H]]. rewrite E.
      apply IH in H as [H1 H2]. cbn [Regex.rest] in H1.
      split; [|exact H2]. cbn [startsWith]. rewrite N.eqb_refl. exact H1.
Qed.

Lemma lineStarting_anchored (text : str) :
  anchoredLine Regex.flagM (Summary.lineStarting text) text.
Proof.
  intros p cs k res. unfold Summary.lineStarting. cbn [Regex.run].
  destruct (Regex.atLineStart Regex.flagM p); [|discriminate].
  intros H. apply run_lit in H as [H _]; [now split | reflexivity].
Qed.

Lemma lineWithRest_anchored (text : str) :
  anchoredLine Regex.flagM (Summary.lineWithRest text) text.
Proof.
  intros p cs k res. unfold Summary.lineWithRest.
  change (Regex.seq [Regex.Bol; Regex.lit text; Regex.Group 1 (Regex.Plus Regex.Any);
                     Regex.Eol])
    with (Regex.Seq Regex.Bol
            (Regex.Seq (Regex.lit text)
               (Regex.Seq (Regex.Group 1 (Regex.Plus Regex.Any)) Regex.Eol))).
  cbn [Regex.run]. destruct (Regex.atLineStart Regex.flagM p); [|discriminate].
  intros H. apply run_lit in H as [H _]; [now split | reflexivity].
Qed.

Lemma search_anchored (r : Regex.re) (text : str) :
  anchoredLine Regex.flagM r text ->
  forall s prev i,
    (Regex.atLineStart Regex.flagM {| Regex.before := prev; Regex.rest := s |} = true ->
     startsWith text s = false) ->
    existsb (startsWith text) (afterTerminators s) = false ->
    Regex.search Regex.flagM r prev s i = None.
Proof.
  intros Hr. induction s as [|c t IH]; intros prev i Hhere Hafter.
  - cbn [Regex.search]. unfold Regex.matchAt.
    destruct (Regex.run _ _ _ _ _) as [[p' cs]|] eqn:E; [|reflexivity].
    apply Hr in E as [E1 E2]. cbn [Regex.rest] in E2. rewrite (Hhere E1) in E2.
    discriminate.
  - cbn [Regex.search]. unfold Regex.matchAt.
    destruct (Regex.run _ _ _ _ _) as [[p' cs]|] eqn:E.
    + apply Hr in E as [E1 E2]. cbn [Regex.rest] in E2. rewrite (Hhere E1) in E2.
      discriminate.
    + cbn [afterTerminators] in Hafter. rewrite existsb_app in Hafter.
      apply orb_false_iff in Hafter as [H1 H2]. apply IH; [|exact H2].
      unfold Regex.atLineStart. cbn [Regex.before Regex.multiline Regex.flagM andb].
      intros Hc. rewrite Hc in H1. cbn [existsb] in H1. now rewrite orb_false_r in H1.
Qed.

Lemma exec_anchored (r : Regex.re) (text block : str) :
  anchoredLine Regex.flagM r text ->
  hasLine text block = false ->
  Regex.exec Regex.flagM r block = None.
Proof.
  intros Hr H. unfold hasLine, lineStarts in H. cbn [existsb] in H.
  apply orb_false_iff in H as [H1 H2]. unfold Regex.exec.
  now apply (search_anchored r text Hr).
Qed.

Lemma search_lineStarting_groups (text : str) :
  forall s prev i m,
    Regex.search Regex.flagM (Summary.lineStarting text) prev s i = Some m ->
    Regex.groups m = [].
Proof.
  assert (Hat : forall s prev i m,
             Regex.matchAt Regex.flagM (Summary.lineStarting text) prev s i = Some m ->
             Regex.groups m = []).
  { intros s prev i m. unfold Regex.matchAt, Summary.lineStarting. cbn [Regex.run].
    destruct (Regex.atLineStart _ _); [|discriminate].
    destruct (Regex.run _ _ _ _ _) as [[p' cs]|] eqn:E; [|discriminate].
    apply run_lit in E as [_ [p'' E]]; [|reflexivity].
    injection E as _ <-. intros H. now injection H as <-. }
  induction s as [|c t IH]; intros prev i m; cbn [Regex.search].
  - destruct (Regex.matchAt _ _ _ _ _) as [m'|] eqn:E; [|discriminate].
    intros H. injection H as <-. now apply Hat in E.
  - destruct (Regex.matchAt _ _ _ _ _) as [m'|] eqn:E.
    + intros H. injection H as <-. now apply Hat in E.
    + apply IH.
Qed.

Lemma blockPath_without_paths (block : str) :
  hasLine (js "+++ b/") block = false ->
  hasLine (js "--- a/") block = false ->
  Summary.blockPath block = [].
Proof.
  intros Hp Hr. unfold Summary.blockPath.
  rewrite (exec_anchored _ _ _ (lineWithRest_anchored (js "+++ b/")) Hp).
  rewrite (exec_anchored _ _ _ (lineWithRest_anchored (js "--- a/")) Hr).
  cbn [Summary.orMatch].
  assert (H : forall text, Regex.group (Regex.exec Regex.flagM (Summary.lineStarting text) block) 1
                           = None).
  { intros text. unfold Regex.exec.
    destruct (Regex.search _ _ _ _ _) as [m|] eqn:E; [|reflexivity].
    apply search_lineStarting_groups in E. cbn [Regex.group]. now rewrite E. }
  now rewrite !H.
Qed.

(** X23. blocks without a path.  A block of the diff in which no line starts
    with "+++ b/" and none with "--- a/" has no summary, whatever else it
    holds, a line "Binary files ..." included; [preprocessDiff] passes it
    over, so it adds nothing to the files, the lockfiles, the language
    signals or the totals. *)
Theorem summarizeFileBlock_without_paths :
  forall (readFile : str -> str -> option str) (root block : str),
    hasLine (js "+++ b/") block = false ->
    hasLine (js "--- a/") block = false ->
    Summary.summarizeFileBlock readFile root block = None
    /\ forall acc, Summary.addBlock readFile root acc block = acc.
Proof.
  intros readFile root block Hp Hr.
  assert (E : Summary.summarizeFileBlock readFile root block = None).
  { unfold Summary.summarizeFileBlock. now rewrite (blockPath_without_paths block Hp Hr). }
  split; [exact E|]. intros acc. unfold Summary.addBlock. now rewrite E.
Qed.

Lemma summarizeFileBlock_without_paths_witness :
  Regex.test Regex.flagM (Summary.lineStarting (js "Binary files")) binaryBlock = true
  /\ Summary.summarizeFileBlock (fun _ _ => None) (js "/repo") binaryBlock = None
  /\ files (Summary.preprocessDiff (fun _ _ => None) (js "/repo") binaryBlock
              Summary.defaultMaxChars) = [].
Proof.
  split; [vm_compute; reflexivity|].
  destruct (summarizeFileBlock_without_paths (fun _ _ => None) (js "/repo") binaryBlock)
    as [H _]; [vm_compute; reflexivity | vm_compute; reflexivity |].
  split; [exact H | vm_compute; reflexivity].
Defined.

(** ** The path of a block *)

Lemma run_seq_cons (fl : Regex.Flags) (a : Regex.re) (more : list Regex.re)
    (p : Regex.Pos) (cs : Regex.Captures) (k : Regex.Pos -> Regex.Captures -> Regex.Outcome) :
  Regex.run fl (Regex.seq (a :: more)) p cs k
  = Regex.run fl a p cs (fun p' cs' => Regex.run fl (Regex.seq more) p' cs' k).
Proof. destruct more; reflexivity. Qed.

Lemma run_lit_eq (fl : Regex.Flags) (text : str) :
  Regex.ignoreCase fl = false ->
  forall p cs k,
    Regex.run fl (Regex.lit text) p cs k
    = if startsWith text (Regex.rest p)
      then k {| Regex.before := lastOr (Regex.before p) text;
                Regex.rest := skipn (length text) (Regex.rest p) |} cs
      else None.
Proof.
  intros Hi. unfold Regex.lit. induction text as [|c more IH]; intros p cs k.
  - destruct p as [b r]. reflexivity.
  - cbn [map]. rewrite run_seq_cons. unfold Regex.Unit at 1. cbn [Regex.run].
    destruct p as [b r]. cbn [Regex.rest Regex.before].
    destruct r as [|c' t]; [reflexivity|].
    unfold Regex.inClass. rewrite Hi. cbn [andb]. rewrite orb_false_r.
    cbn [startsWith length skipn lastOr].
    destruct (N.eqb c c') eqn:E; [|reflexivity]. apply N.eqb_eq in E. subst c'.
    cbn [andb]. now rewrite IH.
Qed.

Lemma lineOf_split (s : str) :
  s = lineOf s ++ skipn (length (lineOf s)) s
  /\ match skipn (length (lineOf s)) s with
     | [] => True
     | c :: _ => isLineTerminator c = true
     end.
Proof.
  unfold lineOf. induction s as [|c t [IH1 IH2]]; [now split|].
  cbn [Preprocess.takeWhile]. unfold notTerminator at 1 3 5.
  destruct (isLineTerminator c) eqn:E; cbn [negb length skipn app]; [now split|].
  split; [now rewrite <- IH1 | exact IH2].
Qed.

Lemma star_any (t : str) :
  forall (b : option N) (cs : Regex.Captures)
         (k : Regex.Pos -> Regex.Captures -> Regex.Outcome) (res : Regex.Pos * Regex.Captures),
    k {| Regex.before := lastOr b (lineOf t);
         Regex.rest := skipn (length (lineOf t)) t |} cs = Some res ->
    Regex.run Regex.flagM (Regex.Star Regex.Any) {| Regex.before := b; Regex.rest := t |} cs k
    = Some res.
Proof.
  induction t as [|c t IH]; intros b cs k res Hk.
  - cbn in *. now rewrite Hk.
  - unfold lineOf in Hk. cbn [Preprocess.takeWhile] in Hk. unfold notTerminator at 1 3 in Hk.
    cbn [Regex.run Regex.rest]. unfold Regex.Any at 1. cbn [Regex.run Regex.rest].
    unfold Regex.inClass. cbn [Regex.ignoreCase Regex.flagM andb]. rewrite orb_false_r.
    destruct (isLineTerminator c) eqn:E; cbn [negb length skipn lastOr] in Hk.
    + exact Hk.
    + assert (Hlt : (length t <? length (c :: t)) = true)
        by (apply Nat.ltb_lt; cbn [length]; lia).
      rewrite Hlt.
      change ((fix loop (fuel : nat) (p : Regex.Pos) (cs0 : Regex.Captures) {struct fuel} :
                 Regex.Outcome :=
                 match fuel with
                 | 0 => k p cs0
                 | S fuel' =>
                     match Regex.run Regex.flagM Regex.Any p cs0
                             (fun p' cs' =>
                                if length (Regex.rest p') <? length (Regex.rest p)
                                then loop fuel' p' cs' else None) with
                     | Some result => Some result
                     | None => k p cs0
                     end
                 end) (length (c :: t)) {| Regex.before := Some c; Regex.rest := t |} cs)
        with (Regex.run Regex.flagM (Regex.Star Regex.Any)
                {| Regex.before := Some c; Regex.rest := t |} cs k).
      now rewrite (IH (Some c) cs k res Hk).
Qed.

Lemma run_rest_of_line (p : Regex.Pos) (cs : Regex.Captures) :
  Regex.run Regex.flagM
    (Regex.Seq (Regex.Group 1 (Regex.Plus Regex.Any)) Regex.Eol) p cs
    (fun p' cs' => Some (p', cs'))
  = if truthy (lineOf (Regex.rest p))
    then Some ({| Regex.before := lastOr (Regex.before p) (lineOf (Regex.rest p));
                  Regex.rest := skipn (length (lineOf (Regex.rest p))) (Regex.rest p) |},
               (1, lineOf (Regex.rest p)) :: cs)
    else None.
Proof.
  destruct p as [b u]. cbn [Regex.rest Regex.before]. unfold Regex.Plus.
  cbn [Regex.run Regex.rest]. unfold Regex.Any at 1. cbn [Regex.run Regex.rest].
  destruct u as [|c t]; [reflexivity|].
  unfold Regex.inClass. cbn [Regex.ignoreCase Regex.flagM andb]. rewrite orb_false_r.
  unfold lineOf at 1. cbn [Preprocess.takeWhile]. unfold notTerminator at 1.
  destruct (isLineTerminator c) eqn:E; cbn [negb truthy]; [reflexivity|].
  destruct (lineOf_split (c :: t)) as [H1 H2].
  assert (Hline : lineOf (c :: t) = c :: lineOf t).
  { unfold lineOf. cbn [Preprocess.takeWhile]. unfold notTerminator at 1. now rewrite E. }
  rewrite Hline in *. cbn [length skipn lastOr] in *.
  apply star_any. cbn [Regex.run Regex.rest].
  unfold Regex.atLineEnd. cbn [Regex.rest Regex.multiline Regex.flagM andb].
  assert (Hcap : firstn (length (c :: t) - length (skipn (length (lineOf t)) t)) (c :: t)
                 = c :: lineOf t).
  { rewrite H1 at 2. rewrite H1 at 1. cbn [app length].
    rewrite length_app.
    replace (S (length (lineOf t) + length (skipn (length (lineOf t)) t))
             - length (skipn (length (lineOf t)) t))
      with (length (c :: lineOf t)) by (cbn [length]; lia).
    change (c :: lineOf t ++ skipn (length (lineOf t)) t)
      with ((c :: lineOf t) ++ skipn (length (lineOf t)) t).
    now rewrite firstn_app, Nat.sub_diag, firstn_all, firstn_O, app_nil_r. }
  cbn [length] in Hcap. rewrite Hcap.
  destruct (skipn (length (lineOf t)) t) as [|d r]; [reflexivity|]. now rewrite H2.
Qed.

Lemma matchAt_lineWithRest (text : str) (prev : option N) (s : str) (i : nat) :
  Regex.group (Regex.matchAt Regex.flagM (Summary.lineWithRest text) prev s i) 1
  = (if Regex.atLineStart Regex.flagM {| Regex.before := prev; Regex.rest := s |}
        && goesOn text s
     then Some (lineOf (skipn (length text) s)) else None)
  /\ (Regex.atLineStart Regex.flagM {| Regex.before := prev; Regex.rest := s |}
      && goesOn text s = false ->
      Regex.matchAt Regex.flagM (Summary.lineWithRest text) prev s i = None).
Proof.
  unfold Regex.matchAt, Summary.lineWithRest, goesOn.
  change (Regex.seq [Regex.Bol; Regex.lit text; Regex.Group 1 (Regex.Plus Regex.Any);
                     Regex.Eol])
    with (Regex.Seq Regex.Bol
            (Regex.Seq (Regex.lit text)
               (Regex.Seq (Regex.Group 1 (Regex.Plus Regex.Any)) Regex.Eol))).
  cbn [Regex.run].
  destruct (Regex.atLineStart _ _); cbn [andb]; [|now split].
  rewrite (run_lit_eq Regex.flagM text eq_refl). cbn [Regex.rest Regex.before].
  destruct (startsWith text s); cbn [andb]; [|now split].
  pose proof (run_rest_of_line
                {| Regex.before := lastOr prev text; Regex.rest := skipn (length text) s |} [])
    as H.
  cbn [Regex.run Regex.rest Regex.before] in H |- *. rewrite H.
  destruct (truthy (lineOf (skipn (length text) s))); [|now split].
  split; [reflexivity | discriminate].
Qed.

Lemma search_lineWithRest (text : str) :
  forall (s : str) (prev : option N) (i : nat),
    Regex.group (Regex.search Regex.flagM (Summary.lineWithRest text) prev s i) 1
    = if Regex.atLineStart Regex.flagM {| Regex.before := prev; Regex.rest := s |}
         && goesOn text s
      then Some (lineOf (skipn (length text) s))
      else match find (goesOn text) (afterTerminators s) with
           | Some start => Some (lineOf (skipn (length text) start))
           | None => None
           end.
Proof.
  induction s as [|c t IH]; intros prev i.
  - destruct (matchAt_lineWithRest text prev [] i) as [G0 N0].
    cbn [Regex.search afterTerminators find].
    destruct (Regex.atLineStart _ _ && goesOn text []) eqn:E.
    + destruct (Regex.matchAt _ _ _ _ _) as [m|]; [exact G0 | discriminate G0].
    + now rewrite (N0 eq_refl).
  - destruct (matchAt_lineWithRest text prev (c :: t) i) as [G1 N1].
    cbn [Regex.search].
    destruct (Regex.atLineStart _ {| Regex.before := prev; Regex.rest := c :: t |}
              && goesOn text (c :: t)) eqn:E.
    + destruct (Regex.matchAt _ _ _ _ _) as [m|]; [exact G1 | discriminate G1].
    + rewrite (N1 eq_refl), IH. unfold Regex.atLineStart.
      cbn [Regex.before Regex.multiline Regex.flagM andb afterTerminators].
      destruct (isLineTerminator c); cbn [app find andb]; [|reflexivity].
      now destruct (goesOn text t).
Qed.

Lemma exec_lineWithRest (text block : str) :
  Regex.group (Regex.exec Regex.flagM (Summary.lineWithRest text) block) 1
  = firstLineAfter text block.
Proof.
  unfold Regex.exec, firstLineAfter, lineStarts. rewrite search_lineWithRest.
  cbn [Regex.atLineStart Regex.before andb find]. now destruct (goesOn text block).
Qed.

Lemma firstLineAfter_truthy (text s p : str) :
  firstLineAfter text s = Some p -> truthy p = true.
Proof.
  unfold firstLineAfter. destruct (find _ _) as [start|] eqn:E; [|discriminate].
  apply find_some in E as [_ E]. unfold goesOn in E. apply andb_true_iff in E as [_ E].
  intros H. now injection H as <-.
Qed.

Lemma group_orMatch_lineStarting (text other block : str) :
  Regex.group (Summary.orMatch (Regex.exec Regex.flagM (Summary.lineWithRest text) block)
                 (Regex.exec Regex.flagM (Summary.lineStarting other) block)) 1
  = firstLineAfter text block.
Proof.
  rewrite <- exec_lineWithRest.
  destruct (Regex.exec Regex.flagM (Summary.lineWithRest text) block) as [m|];
    [reflexivity|].
  cbn [Summary.orMatch]. unfold Regex.exec.
  destruct (Regex.search _ _ _ _ _) as [m|] eqn:E; [|reflexivity].
  apply search_lineStarting_groups in E. cbn [Regex.group]. now rewrite E.
Qed.

(** X24. the path of a file.  The path that [summarizeFileBlock] gives a
    block is what follows "+++ b/" on the first line of the block that
    starts with it and goes on, trimmed; without such a line, what follows
    "--- a/" in the same way (so a deleted file, whose block holds
    "+++ /dev/null", keeps its old path); and a block has a summary exactly
    when the path found is not empty. *)
Theorem summarizeFileBlock_path :
  forall (readFile : str -> str -> option str) (root block : str),
    let found :=
      match firstLineAfter (js "+++ b/") block with
      | Some p => trim p
      | None => match firstLineAfter (js "--- a/") block with
                | Some q => trim q
                | None => []
                end
      end in
    match Summary.summarizeFileBlock readFile root block with
    | Some f => path f = found /\ found <> []
    | None => found = []
    end.
Proof.
  intros readFile root block found.
  assert (Hpath : Summary.blockPath block = found).
  { unfold Summary.blockPath, found. rewrite !group_orMatch_lineStarting.
    destruct (firstLineAfter (js "+++ b/") block) as [p|] eqn:Ep.
    - now rewrite (firstLineAfter_truthy _ _ _ Ep).
    - destruct (firstLineAfter (js "--- a/") block) as [q|] eqn:Eq; [|reflexivity].
      now rewrite (firstLineAfter_truthy _ _ _ Eq). }
  destruct (Summary.summarizeFileBlock readFile root block) as [f|] eqn:E.
  - apply summarizeFileBlock_summary in E as (E1 & E2 & _). rewrite <- Hpath, <- E1.
    now split.
  - unfold Summary.summarizeFileBlock in E. rewrite Hpath in E.
    destruct found; [reflexivity|]. cbn [truthy negb] in E.
    destruct (Summary.detectChangeType block); discriminate E.
Qed.

(** ** The poller *)

(** X25. the poller after an update.  Once the panel has stored the hash for
    a staged diff (by [refreshDiff] or by a run of the poller), a run of the
    poller on the same diff posts nothing when the diff is within the
    limit of 28000 units.  The stored hash is that of [rawDiff], though, and
    the run compares it with the hash of the diff itself: for a longer
    diff, cut in [rawDiff], the run posts [diffUpdated] again and leaves the
    panel as it was, so every later run does the same, unless the two
    texts have the same hash. *)
Theorem tick_after_update :
  forall (hashContent : str -> str) (readFile : str -> str -> option str)
         (root diff : str) (stored : option str),
    truthy root = true ->
    truthy (trim diff) = true ->
    let r := Summary.preprocessDiff readFile root diff Summary.defaultMaxChars in
    let panel := {| Poller.repoRoot := Some root;
                    Poller.diffHash := Some (hashContent (rawDiff r)) |} in
    fst (Poller.refreshDiff hashContent readFile
           {| Poller.repoRoot := Some root; Poller.diffHash := stored |} diff) = panel
    /\ (Poller.differs (hashContent diff) stored = true ->
        fst (Poller.tick hashContent readFile
               {| Poller.repoRoot := Some root; Poller.diffHash := stored |} true diff)
        = panel)
    /\ (length diff <= Summary.defaultMaxChars ->
        Poller.tick hashContent readFile panel true diff = (panel, None))
    /\ (hashContent diff <> hashContent (rawDiff r) ->
        Poller.tick hashContent readFile panel true diff
        = (panel, Some (Poller.diffUpdated r))).
Proof.
  intros hashContent readFile root diff stored Hroot Hdiff r panel.
  split; [|split; [|split]].
  - unfold Poller.refreshDiff. cbn [Poller.repoRoot]. rewrite Hroot.
    destruct (trim diff) as [|c t] eqn:E; [discriminate|]. reflexivity.
  - intros Hd. unfold Poller.tick. cbn [Poller.repoRoot Poller.diffHash].
    rewrite Hroot, Hd. reflexivity.
  - intros Hlen. unfold Poller.tick. cbn [Poller.repoRoot Poller.diffHash panel].
    rewrite Hroot. cbn [negb]. unfold r, Summary.preprocessDiff. cbn [rawDiff].
    apply Nat.ltb_ge in Hlen. rewrite Hlen. unfold Poller.differs.
    now rewrite eqb_str_refl.
  - intros Hne. unfold Poller.tick. cbn [Poller.repoRoot Poller.diffHash panel].
    rewrite Hroot. cbn [negb]. unfold Poller.differs.
    apply eqb_str_neq in Hne. rewrite Hne. reflexivity.
Qed.

Lemma tick_after_update_witness :
  let hashContent := fun text : str => decimal (length text) in
  let r := Summary.preprocessDiff (fun _ _ => None) (js "/repo") longDiff
             Summary.defaultMaxChars in
  let panel := {| Poller.repoRoot := Some (js "/repo");
                  Poller.diffHash := Some (hashContent (rawDiff r)) |} in
  Poller.tick hashContent (fun _ _ => None) panel true longDiff
  = (panel, Some (Poller.diffUpdated r)).
Proof.
  intros hashContent r panel.
  destruct (tick_after_update hashContent (fun _ _ => None) (js "/repo") longDiff None)
    as (_ & _ & _ & H); [reflexivity | vm_compute; reflexivity |].
  apply H. intros E. vm_compute in E. discriminate E.
Defined.

(** ** The blocks of a diff *)

Lemma startsWith_firstn (word s : str) :
  startsWith word s = true ->
  firstn (length word) s = word /\ length word <= length s
  /\ s = word ++ skipn (length word) s.
Proof.
  intros H. apply startsWith_iff in H as [r ->].
  rewrite firstn_app, Nat.sub_diag, firstn_all, firstn_O, app_nil_r, skipn_self, length_app.
  repeat split; lia.
Qed.

Lemma matchAt_lineStarting (word : str) (prev : option N) (s : str) (i : nat) :
  Regex.matchAt Regex.flagM (Summary.lineStarting word) prev s i
  = if Regex.atLineStart Regex.flagM {| Regex.before := prev; Regex.rest := s |}
       && startsWith word s
    then Some {| Regex.index := i; Regex.text := word; Regex.groups := [] |}
    else None.
Proof.
  unfold Regex.matchAt, Summary.lineStarting. cbn [Regex.run].
  destruct (Regex.atLineStart _ _); cbn [andb]; [|reflexivity].
  rewrite (run_lit_eq Regex.flagM word eq_refl). cbn [Regex.rest Regex.before].
  destruct (startsWith word s) eqn:E; [|reflexivity].
  destruct (startsWith_firstn word s E) as (H1 & H2 & _).
  cbn [Regex.rest]. rewrite length_skipn.
  replace (length s - (length s - length word)) with (length word) by lia.
  now rewrite H1.
Qed.

Lemma endsWith_app (pre word : str) : endsWith word (pre ++ word) = true.
Proof.
  unfold endsWith. rewrite rev_app_distr. apply startsWith_iff. now exists (rev pre).
Qed.

(** The state of the scan between two matches: [from] is where the piece
    being read starts, [skip] the units of the last match still to pass. *)
Lemma concat_pieces (word s : str) :
  word <> [] ->
  forallb notTerminator word = true ->
  endsWith word s = false ->
  forall (cur pre : str) (prev : option N) (skip from : nat),
    s = pre ++ cur ->
    from < length s ->
    match skip with
    | 0 => from < length pre
           \/ (from = length pre
               /\ Regex.atLineStart Regex.flagM
                    {| Regex.before := prev; Regex.rest := cur |} = false)
    | S _ => from = length pre + skip /\ skip <= length cur
             /\ forallb notTerminator (firstn skip cur) = true
    end ->
    concat (map (fun block => word ++ block)
              (filter truthy
                 (Regex.pieces s from
                    (Regex.scan Regex.flagM (Summary.lineStarting word) prev cur
                       (length pre) skip))))
    = word ++ skipn from s.
Proof.
  intros Hword Hunits Hend.
  induction cur as [|c t IH]; intros pre prev skip from Hs Hfrom Hinv.
  - assert (Hscan : Regex.scan Regex.flagM (Summary.lineStarting word) prev []
                      (length pre) skip = []).
    { destruct skip; cbn [Regex.scan]; [|reflexivity].
      rewrite matchAt_lineStarting. destruct word; [contradiction|].
      cbn [startsWith]. now rewrite andb_false_r. }
    rewrite Hscan. cbn [Regex.pieces filter].
    destruct (skipn from s) as [|x r] eqn:E.
    + apply (f_equal (@length N)) in E. rewrite length_skipn in E. cbn [length] in E. lia.
    + cbn [truthy map concat]. now rewrite app_nil_r.
  - assert (Hnext : forall prev',
               match skip with
               | 0 => True
               | S _ => prev' = Some c
               end ->
               (skip = 0 -> prev' = Some c) ->
               match skip - 1 with
               | 0 => from < length (pre ++ [c])
                      \/ (from = length (pre ++ [c])
                          /\ Regex.atLineStart Regex.flagM
                               {| Regex.before := prev'; Regex.rest := t |} = false)
               | S _ => from = length (pre ++ [c]) + (skip - 1) /\ skip - 1 <= length t
                        /\ forallb notTerminator (firstn (skip - 1) t) = true
               end).
    { intros prev' H1 H2. rewrite length_app. cbn [length].
      destruct skip as [|[|k]]; cbn [Nat.sub].
      - left. destruct Hinv as [H | [H _]]; lia.
      - destruct Hinv as (H & _ & Hc). right. split; [lia|]. subst prev'.
        cbn [firstn forallb] in Hc. apply andb_true_iff in Hc as [Hc _].
        unfold notTerminator in Hc. apply negb_true_iff in Hc.
        unfold Regex.atLineStart. cbn [Regex.before Regex.multiline Regex.flagM andb].
        exact Hc.
      - destruct Hinv as (H & Hlen & Hc). cbn [length] in Hlen.
        cbn [firstn forallb] in Hc. apply andb_true_iff in Hc as [_ Hc].
        rewrite ?Nat.sub_0_r. repeat split; [lia | lia | exact Hc]. }
    assert (Hs' : s = (pre ++ [c]) ++ t) by (now rewrite <- app_assoc).
    assert (Hlen' : S (length pre) = length (pre ++ [c]))
      by (rewrite length_app; cbn [length]; lia).
    cbn [Regex.scan].
    destruct skip as [|k].
    + rewrite matchAt_lineStarting.
      destruct (Regex.atLineStart Regex.flagM
                  {| Regex.before := prev; Regex.rest := c :: t |}
                && startsWith word (c :: t)) eqn:E.
      * apply andb_true_iff in E as [E1 E2].
        destruct Hinv as [Hlt | [_ Hno]]; [|congruence].
        destruct (startsWith_firstn word (c :: t) E2) as (_ & Hle & Hcur).
        cbn [Regex.text Regex.index Regex.pieces].
        assert (Hafter : skipn (length pre + length word) s = skipn (length word) (c :: t)).
        { rewrite Hs at 1. rewrite Nat.add_comm, <- skipn_skipn.
          now rewrite skipn_app, Nat.sub_diag, skipn_all, skipn_O. }
        assert (Hmore : length pre + length word < length s).
        { destruct (skipn (length word) (c :: t)) as [|x r] eqn:Er.
          - rewrite app_nil_r in Hcur. rewrite Hs, Hcur, endsWith_app in Hend.
            discriminate.
          - apply (f_equal (@length N)) in Hafter. rewrite length_skipn in Hafter.
            cbn [length] in Hafter. lia. }
        assert (Hpiece : skipn from s
                         = firstn (length pre - from) (skipn from s) ++ c :: t).
        { rewrite <- (firstn_skipn (length pre - from) (skipn from s)) at 1.
          f_equal. rewrite skipn_skipn.
          replace (length pre - from + from) with (length pre) by lia.
          rewrite Hs. now rewrite skipn_app, Nat.sub_diag, skipn_all, skipn_O. }
        destruct (firstn (length pre - from) (skipn from s)) as [|x r] eqn:Ep.
        { apply (f_equal (@length N)) in Ep. rewrite length_firstn, length_skipn in Ep.
          cbn [length] in Ep. lia. }
        cbn [filter truthy map concat]. rewrite Hlen'.
        rewrite (IH (pre ++ [c]) (Some c) (length word - 1) (length pre + length word)
                   Hs' Hmore).
        -- rewrite Hpiece, Hafter. rewrite Hcur at 2. now rewrite <- !app_assoc.
        -- rewrite length_app. cbn [length].
           destruct word as [|w [|w2 word']]; [contradiction| |].
           ++ cbn [length Nat.sub]. right. split; [lia|].
              cbn [startsWith] in E2. apply andb_true_iff in E2 as [E2 _].
              apply N.eqb_eq in E2. subst w.
              cbn [forallb] in Hunits. apply andb_true_iff in Hunits as [Hu _].
              unfold notTerminator in Hu. apply negb_true_iff in Hu.
              unfold Regex.atLineStart.
              cbn [Regex.before Regex.multiline Regex.flagM andb]. exact Hu.
           ++ cbn [length Nat.sub]. cbn [length] in Hle.
              cbn [startsWith] in E2. apply andb_true_iff in E2 as [_ E2].
              destruct (startsWith_firstn (w2 :: word') t E2) as (Hf & _ & _).
              cbn [length] in Hf. rewrite Hf.
              cbn [forallb] in Hunits. apply andb_true_iff in Hunits as [_ Hu].
              repeat split; [lia | lia | exact Hu].
      * rewrite Hlen'. apply (IH (pre ++ [c]) (Some c) (0 - 1) from Hs' Hfrom).
        apply (Hnext (Some c)); [exact I | reflexivity].
    + rewrite Hlen'. apply (IH (pre ++ [c]) (Some c) (S k - 1) from Hs' Hfrom).
      apply (Hnext (Some c)); [reflexivity | discriminate].
Qed.

Lemma fileBlocks_concat (diff : str) :
  startsWith (js "diff --git ") diff = true ->
  endsWith (js "diff --git ") diff = false ->
  concat (Summary.fileBlocks diff) = diff.
Proof.
  intros Hstart Hend. unfold Summary.fileBlocks, Regex.splitBy, Regex.matchAll.
  destruct (startsWith_firstn _ _ Hstart) as (_ & Hle & Hcur).
  destruct diff as [|c t]; [discriminate Hstart|].
  cbn [Regex.scan]. rewrite matchAt_lineStarting.
  cbn [Regex.atLineStart Regex.before andb]. rewrite Hstart.
  cbn [Regex.text Regex.index Regex.pieces Nat.sub firstn filter truthy].
  assert (Hmore : length (js "diff --git ") < length (c :: t)).
  { destruct (skipn (length (js "diff --git ")) (c :: t)) as [|x r] eqn:Er.
    - rewrite app_nil_r in Hcur. rewrite Hcur in Hend.
      pose proof (endsWith_app [] (js "diff --git ")) as Hx. rewrite app_nil_l in Hx.
      congruence.
    - apply (f_equal (@length N)) in Er. rewrite length_skipn in Er.
      cbn [length] in Er. cbn [length]. lia. }
  transitivity (js "diff --git " ++ skipn (length (js "diff --git ")) (c :: t));
    [|now rewrite <- Hcur].
  apply (concat_pieces (js "diff --git ") (c :: t) ltac:(discriminate) eq_refl Hend
           t [c] (Some c) (length (js "diff --git ") - 1) (length (js "diff --git "))
           eq_refl Hmore).
  change (length (js "diff --git ") - 1) with 10.
  change (length (js "diff --git ")) with 11 in *.
  cbn [length]. split; [reflexivity|].
  apply startsWith_iff in Hstart as [r Hr]. injection Hr as -> ->.
  split; [cbn [length]; lia | reflexivity].
Qed.

(** X26. the blocks of a diff.  For a staged diff that starts with
    "diff --git " and does not end with it, the blocks that [preprocessDiff]
    summarizes are the diff cut in pieces: each block starts with
    "diff --git ", and the blocks in order, put end to end, are the diff, so
    no line of it is lost or read twice. *)
Theorem fileBlocks_diff :
  forall diff : str,
    startsWith (js "diff --git ") diff = true ->
    endsWith (js "diff --git ") diff = false ->
    concat (Summary.fileBlocks diff) = diff
    /\ Forall (fun block => startsWith (js "diff --git ") block = true)
              (Summary.fileBlocks diff).
Proof.
  intros diff Hstart Hend. split; [now apply fileBlocks_concat|].
  unfold Summary.fileBlocks. apply Forall_forall. intros block Hin.
  apply in_map_iff in Hin as [piece [<- _]]. apply startsWith_iff. now exists piece.
Qed.

Lemma fileBlocks_diff_witness :
  concat (Summary.fileBlocks twoFileDiff) = twoFileDiff
  /\ length (Summary.fileBlocks twoFileDiff) = 2.
Proof.
  split; [|vm_compute; reflexivity].
  apply (fileBlocks_diff twoFileDiff); vm_compute; reflexivity.
Defined.
